(** * feelpp/apt: the aptly publisher and its retention cleaner

    A shallow embedding of
      - [src/feelpp_aptly_publisher/publisher.py] (class [AptlyPublisher]),
      - [scripts/aptly_publish.py] (the standalone script),
      - [src/feelpp_aptly_publisher/cleaner.py] (class [AptlyCleaner]),
    and the properties of the specification that concern them.

    Python strings are Stdlib strings: a character is one [ascii], a
    character outside ASCII stands as the bytes of its encoding and is
    never a letter or a digit.  Python integers are [Z]. *)

From Stdlib Require Import List String Ascii Bool Arith ZArith Lia.
From Stdlib Require Import Permutation Sorted.
Import ListNotations.

Local Open Scope string_scope.
Local Open Scope list_scope.

(** ** Characters and a few facts on strings *)

Module Chars.

Definition hyphen : ascii := "-"%char.

Definition in_range (lo hi : nat) (c : ascii) : bool :=
  ((lo <=? nat_of_ascii c) && (nat_of_ascii c <=? hi))%nat.

Definition is_upper (c : ascii) : bool := in_range 65 90 c.
Definition is_lower (c : ascii) : bool := in_range 97 122 c.
Definition is_digit (c : ascii) : bool := in_range 48 57 c.

(** The class [[a-z0-9]]. *)
Definition is_lower_alnum (c : ascii) : bool := is_lower c || is_digit c.

(** [str.lower] on one character: [A-Z] go to [a-z]. *)
Definition lower_char (c : ascii) : ascii :=
  if is_upper c then ascii_of_nat (nat_of_ascii c + 32) else c.

Definition is_empty (s : string) : bool :=
  match s with EmptyString => true | String _ _ => false end.

Fixpoint string_forall (p : ascii -> bool) (s : string) : bool :=
  match s with
  | EmptyString => true
  | String c r => p c && string_forall p r
  end.

Fixpoint string_filter (p : ascii -> bool) (s : string) : string :=
  match s with
  | EmptyString => EmptyString
  | String c r => if p c then String c (string_filter p r) else string_filter p r
  end.

Fixpoint last_char (s : string) : option ascii :=
  match s with
  | EmptyString => None
  | String c EmptyString => Some c
  | String _ r => last_char r
  end.

Definition first_char (s : string) : option ascii :=
  match s with EmptyString => None | String c _ => Some c end.

End Chars.

(** ** Component names: [AptlyPublisher._normalize_component] and
       [norm_component] of the script (the two bodies are the same) *)

Module Component.
Import Chars.

(** [s.lower()] *)
Fixpoint lower (s : string) : string :=
  match s with
  | EmptyString => EmptyString
  | String c r => String (lower_char c) (lower r)
  end.

(** [re.sub(r"[^a-z0-9]+", "-", s)]: the scan goes left to right, a
    maximal run of characters outside [[a-z0-9]] is one match and is
    replaced by one hyphen.  [in_run] says that the previous character
    belongs to the run being replaced. *)
Fixpoint sub_runs (in_run : bool) (s : string) : string :=
  match s with
  | EmptyString => EmptyString
  | String c r =>
      if is_lower_alnum c then String c (sub_runs false r)
      else if in_run then sub_runs true r
      else String hyphen (sub_runs true r)
  end.

(** [s.lstrip("-")] and [s.rstrip("-")]; [s.strip("-")] does both. *)
Fixpoint lstrip (s : string) : string :=
  match s with
  | EmptyString => EmptyString
  | String c r => if Ascii.eqb c hyphen then lstrip r else s
  end.

Fixpoint rstrip (s : string) : string :=
  match s with
  | EmptyString => EmptyString
  | String c r =>
      let r' := rstrip r in
      if Ascii.eqb c hyphen && is_empty r' then EmptyString else String c r'
  end.

Definition strip (s : string) : string := rstrip (lstrip s).

Definition _normalize_component (s : string) : string :=
  let s := lower s in
  let s := sub_runs false s in
  strip s.

Definition norm_component (s : string) : string :=
  let s := lower s in
  let s := sub_runs false s in
  strip s.

(** The words of the data model, to compare with: the maximal runs of
    [[a-z0-9]] of a string, and their concatenation with one hyphen
    between two of them. *)
Fixpoint alnum_words (cur : string) (s : string) : list string :=
  match s with
  | EmptyString => if is_empty cur then [] else [cur]
  | String c r =>
      if is_lower_alnum c then alnum_words (cur ++ String c EmptyString) r
      else if is_empty cur then alnum_words EmptyString r
      else cur :: alnum_words EmptyString r
  end.

Definition hyphenated (s : string) : string :=
  String.concat "-" (alnum_words EmptyString s).

(** A normalized identifier. *)
Definition is_component_char (c : ascii) : bool :=
  is_lower_alnum c || Ascii.eqb c hyphen.

Fixpoint no_double_hyphen (s : string) : bool :=
  match s with
  | EmptyString => true
  | String c r =>
      negb (Ascii.eqb c hyphen && match r with
                                  | String d _ => Ascii.eqb d hyphen
                                  | EmptyString => false
                                  end)
      && no_double_hyphen r
  end.

Definition well_formed (s : string) : bool :=
  string_forall is_component_char s
  && no_double_hyphen s
  && negb (match first_char s with Some c => Ascii.eqb c hyphen | None => false end)
  && negb (match last_char s with Some c => Ascii.eqb c hyphen | None => false end).

End Component.

(** ** A few methods of Python's [str] *)

Module Py.
Import Chars.

(** Whitespace of [str.split()] and [str.strip()] in ASCII. *)
Definition is_space (c : ascii) : bool :=
  in_range 9 13 c || in_range 28 32 c.

(** [s.split(sep)] for a separator of one character: never empty. *)
Fixpoint split_char (sep : ascii) (cur : string) (s : string) : list string :=
  match s with
  | EmptyString => [cur]
  | String c r =>
      if Ascii.eqb c sep then cur :: split_char sep EmptyString r
      else split_char sep (cur ++ String c EmptyString) r
  end.

Definition split_lines (s : string) : list string :=
  split_char "010"%char EmptyString s.

(** [s.startswith(p)] *)
Fixpoint startswith (p s : string) : bool :=
  match p, s with
  | EmptyString, _ => true
  | String _ _, EmptyString => false
  | String a p', String b s' => Ascii.eqb a b && startswith p' s'
  end.

(** [s.split(sep, 1)[1]]: what follows the first [sep]; Python raises
    [IndexError] when there is none. *)
Fixpoint after_first (sep : ascii) (s : string) : option string :=
  match s with
  | EmptyString => None
  | String c r => if Ascii.eqb c sep then Some r else after_first sep r
  end.

(** [s.split()]: the maximal runs of characters that are not whitespace. *)
Fixpoint split_ws (cur : string) (s : string) : list string :=
  match s with
  | EmptyString => if is_empty cur then [] else [cur]
  | String c r =>
      if is_space c then
        (if is_empty cur then split_ws EmptyString r
         else cur :: split_ws EmptyString r)
      else split_ws (cur ++ String c EmptyString) r
  end.

Fixpoint lstrip_ws (s : string) : string :=
  match s with
  | EmptyString => EmptyString
  | String c r => if is_space c then lstrip_ws r else s
  end.

Fixpoint rstrip_ws (s : string) : string :=
  match s with
  | EmptyString => EmptyString
  | String c r =>
      let r' := rstrip_ws r in
      if is_space c && is_empty r' then EmptyString else String c r'
  end.

(** [s.strip()] *)
Definition strip_ws (s : string) : string := rstrip_ws (lstrip_ws s).

(** [x in l] for a list of strings. *)
Definition mem (x : string) (l : list string) : bool :=
  existsb (String.eqb x) l.

(** Truth value of an optional string: [None] and [""] are false. *)
Definition truthy (o : option string) : bool :=
  match o with
  | Some s => negb (is_empty s)
  | None => false
  end.

(** The string of an optional argument where the code has checked it. *)
Definition str (o : option string) : string :=
  match o with Some s => s | None => "None" end.

(** [a / b] on paths. *)
Definition joinpath (a b : string) : string := (a ++ "/" ++ b)%string.

End Py.

(** ** The host: processes, files, and what a run leaves behind *)

Module Host.

(** The environment given to a process: the caller's, or the one made
    for aptly ([APTLY_CONFIG], [APTLY_ROOT_DIR], [APTLY_ROOT] set, the
    four aptly variables of the caller dropped first). *)
Inductive Env :=
| Inherited
| AptlyEnv (aptly_cfg aptly_home : string).

Record Command := {
  argv : list string;
  cwd : option string;
  env : Env
}.

Inductive Level := DEBUG | INFO | WARNING | ERROR.

Inductive LogArg :=
| LStr (s : string)
| LInt (z : Z)
| LArgv (l : list string).

(** What a run does, in order. *)
Inductive Event :=
| Ran (c : Command) (returncode : Z)
| Log (lvl : Level) (fmt : string) (args : list LogArg)
| Wrote (path content : string).

(** The result of the Workspace Provisioner (lines 136-176 of
    [publisher.py], 107-147 of the script): the path of the
    configuration written and aptly's root directory, or the reason it
    gave up. *)
Inductive Provision :=
| Provisioned (aptly_cfg aptly_home : string)
| NotProvisioned (fmt : string) (args : list LogArg).

(** The operating system, as the code uses it.  [W] is its state. *)
Class OS (W : Type) := {
  (** [subprocess.run(argv, cwd=, env=)]: the return code *)
  subprocess_run : Command -> W -> Z * W;
  (** [Path.exists()], [Path.is_dir()], [Path.read_text()] *)
  path_exists : string -> W -> bool;
  is_dir : string -> W -> bool;
  read_text : string -> W -> string;
  (** [Path.write_text()], [Path.mkdir(parents=True, exist_ok=True)] *)
  write_text : string -> string -> W -> W;
  mkdir_p : string -> W -> W;
  (** [sorted(glob(dir / "*.deb"))] *)
  sorted_glob_debs : string -> W -> list string;
  (** reading, adapting and writing aptly's configuration *)
  provision : option string -> option string -> string -> W -> Provision * W
}.

Inductive Exception :=
| CalledProcessError (returncode : Z) (cmd : list string).

Inductive Outcome (A : Type) :=
| Return (a : A)
| Exit (status : Z)
| Raise (e : Exception).
Arguments Return {A} a.
Arguments Exit {A} status.
Arguments Raise {A} e.

(** The state of a run: the host and the events so far. *)
Record Run (W : Type) := {
  world : W;
  trace : list Event
}.
Arguments world {W} r.
Arguments trace {W} r.
Arguments Build_Run {W} world trace.

Definition M (W A : Type) : Type := Run W -> Outcome A * Run W.

Definition ret {W A} (a : A) : M W A := fun r => (Return a, r).

Definition bind {W A B} (m : M W A) (k : A -> M W B) : M W B :=
  fun r =>
    match m r with
    | (Return a, r') => k a r'
    | (Exit n, r') => (Exit n, r')
    | (Raise e, r') => (Raise e, r')
    end.

(** [sys.exit(n)] *)
Definition sys_exit {W A} (n : Z) : M W A := fun r => (Exit n, r).

Definition raise {W A} (e : Exception) : M W A := fun r => (Raise e, r).

(** [try: m except subprocess.CalledProcessError: h] *)
Definition try_except {W A} (m : M W A) (h : M W A) : M W A :=
  fun r =>
    match m r with
    | (Raise (CalledProcessError _ _), r') => h r'
    | res => res
    end.

Definition emit {W} (e : Event) : M W unit :=
  fun r => (Return tt, {| world := world r; trace := trace r ++ [e] |}).

Definition log {W} (lvl : Level) (fmt : string) (args : list LogArg) : M W unit :=
  emit (Log lvl fmt args).

(** A look at the host that does not change it. *)
Definition ask {W A} (f : W -> A) : M W A := fun r => (Return (f (world r)), r).

(** A change of the host. *)
Definition change {W} (f : W -> W) : M W unit :=
  fun r => (Return tt, {| world := f (world r); trace := trace r |}).

Definition when {W} (b : bool) (m : M W unit) : M W unit :=
  if b then m else ret tt.

Fixpoint for_each {W A} (l : list A) (body : A -> M W unit) : M W unit :=
  match l with
  | [] => ret tt
  | x :: l' => bind (body x) (fun _ => for_each l' body)
  end.

Declare Scope run_scope.
Delimit Scope run_scope with run.
Notation "x <- m ;; k" := (bind m (fun x => k))
  (at level 100, m at next level, right associativity) : run_scope.
Notation "m ;; k" := (bind m (fun _ => k))
  (at level 100, right associativity) : run_scope.

(** The commands of a trace with their return codes, and the commands
    alone. *)
Fixpoint ran (t : list Event) : list (Command * Z) :=
  match t with
  | [] => []
  | Ran c rc :: t' => (c, rc) :: ran t'
  | _ :: t' => ran t'
  end.

Definition commands (t : list Event) : list (list string) :=
  map (fun p => argv (fst p)) (ran t).

Fixpoint logs (t : list Event) : list (Level * string) :=
  match t with
  | [] => []
  | Log lvl fmt _ :: t' => (lvl, fmt) :: logs t'
  | _ :: t' => logs t'
  end.

End Host.

(** ** [publisher.py]: class [AptlyPublisher] *)

Module Publisher.
Import Chars Py Host.
Local Open Scope run_scope.

Record AptlyPublisher := {
  component : string;
  distro : string;
  channel : string;
  pages_repo : string;
  branch : string;
  sign : bool;
  keyid : option string;
  passphrase : option string;
  aptly_config : option string;
  aptly_root : option string;
  verbose : bool
}.

(** [__init__]: the component is normalized, the rest is stored. *)
Definition __init__ (component distro channel pages_repo branch : string)
    (sign : bool) (keyid passphrase aptly_config aptly_root : option string)
    (verbose : bool) : AptlyPublisher :=
  {| component := Component._normalize_component component;
     distro := distro;
     channel := channel;
     pages_repo := pages_repo;
     branch := branch;
     sign := sign;
     keyid := keyid;
     passphrase := passphrase;
     aptly_config := aptly_config;
     aptly_root := aptly_root;
     verbose := verbose |}.

(** What one invocation gets from outside: the two temporary
    directories and the two readings of the clock. *)
Record Ambient := {
  pages_dir : string;
  aptly_dir : string;
  ts : string;
  commit_ts : string
}.

Section Methods.
Context {W : Type} {os : OS W}.
Variable self : AptlyPublisher.

(** [_run]: lines 76-93. *)
Definition _run (cmd : list string) (cwd : option string) (check : bool)
    (env : Env) : M W Z :=
  log DEBUG "RUN%s: %s"
      [LStr (match cwd with Some d => d | None => "" end); LArgv cmd] ;;
  fun r =>
    let c := {| argv := cmd; cwd := cwd; env := env |} in
    let (rc, w') := subprocess_run c (world r) in
    let r' := {| world := w'; trace := trace r ++ [Ran c rc] |} in
    if check && negb (rc =? 0)%Z
    then (Raise (CalledProcessError rc cmd), r')
    else (Return rc, r').

(** [_ensure_cmd]: lines 95-101. *)
Definition _ensure_cmd (name : string) : M W unit :=
  try_except
    (_run ["bash"; "-lc"; ("command -v " ++ name)%string] None true Inherited ;;
     ret tt)
    (log ERROR "Missing required command on PATH: %s" [LStr name] ;;
     sys_exit 1%Z).

(** Lines 110-123: the tools and the key. *)
Definition validate : M W unit :=
  for_each ["git"; "rsync"; "aptly"] _ensure_cmd ;;
  when (sign self)
    (when (negb (truthy (keyid self)))
       (log ERROR "--keyid is required with --sign" [] ;; sys_exit 1%Z) ;;
     _ensure_cmd "gpg") ;;
  log INFO "Component : %s" [LStr (component self)] ;;
  log INFO "Distro    : %s" [LStr (distro self)] ;;
  log INFO "Channel   : %s" [LStr (channel self)] ;;
  log INFO "Repo      : %s (#%s)" [LStr (pages_repo self); LStr (branch self)] ;;
  log INFO "Signing   : %s" [LStr (if sign self then "yes" else "no")].

(** Lines 135-176: aptly's configuration and root. *)
Definition configure (aptly_tmp_root : string) : M W (string * string) :=
  fun r =>
    match provision (aptly_config self) (aptly_root self) aptly_tmp_root (world r) with
    | (Provisioned aptly_cfg aptly_home, w') =>
        (Return (aptly_cfg, aptly_home), {| world := w'; trace := trace r |})
    | (NotProvisioned fmt args, w') =>
        (Exit 1%Z, {| world := w'; trace := trace r ++ [Log ERROR fmt args] |})
    end.

(** Lines 178-185: the clone of the pages branch. *)
Definition clone (pages : string) : M W unit :=
  log INFO "Cloning %s (%s) ..." [LStr (pages_repo self); LStr (branch self)] ;;
  res <- _run ["git"; "clone"; "-b"; branch self; pages_repo self; pages]
              None false Inherited ;;
  when (negb (res =? 0)%Z)
    (_run ["git"; "clone"; pages_repo self; pages] None true Inherited ;;
     _run ["git"; "checkout"; "--orphan"; branch self] (Some pages) true Inherited ;;
     _run ["git"; "rm"; "-rf"; "."] (Some pages) false Inherited ;;
     ret tt).

Section Workspace.
Variables pages aptly_cfg aptly_home : string.

Definition aptly_public : string := joinpath aptly_home "public".

Definition base_cmd : list string := ["aptly"; ("-config=" ++ aptly_cfg)%string].

(** [aptly_run]: lines 197-198. *)
Definition aptly_run (args : list string) (check : bool) : M W Z :=
  _run (base_cmd ++ args) None check (AptlyEnv aptly_cfg aptly_home).

Definition inrelease_path : string :=
  joinpath (joinpath (joinpath (joinpath aptly_public (channel self)) "dists")
                     (distro self)) "InRelease".

(** Lines 203-216: the seed and the recovery of aptly's database. *)
Definition seed : M W unit :=
  change (mkdir_p aptly_public) ;;
  _run ["rsync"; "-a"; (pages ++ "/")%string; (aptly_public ++ "/")%string]
       None true Inherited ;;
  present <- ask (path_exists inrelease_path) ;;
  when present
    (log INFO "Recovering aptly database from existing publication..." [] ;;
     recover_result <- aptly_run ["db"; "recover"] false ;;
     if (recover_result =? 0)%Z
     then log INFO "Successfully recovered aptly database" []
     else log WARNING "Could not recover aptly database (may be first publish)" []).

Definition repo_name : string :=
  (component self ++ "-" ++ distro self ++ "-" ++ channel self)%string.

(** Lines 218-240: the staging repository and its snapshot; the name of
    the snapshot is returned. *)
Definition stage (debs_dir : option string) (ts : string) : M W string :=
  log INFO "Staging repo: %s" [LStr repo_name] ;;
  aptly_run ["repo"; "create"; ("-component=" ++ component self)%string;
             ("-distribution=" ++ distro self)%string; repo_name] false ;;
  (if truthy debs_dir then
     let debs_path := Py.str debs_dir in
     d <- ask (is_dir debs_path) ;;
     when (negb d)
       (log ERROR "--debs path does not exist or is not a directory: %s"
            [LStr debs_path] ;;
        sys_exit 1%Z) ;;
     debs <- ask (sorted_glob_debs debs_path) ;;
     when (match debs with [] => true | _ => false end)
       (log ERROR "No .deb files found in %s" [LStr debs_path] ;; sys_exit 1%Z) ;;
     log INFO "Adding %d package(s) ..." [LInt (Z.of_nat (List.length debs))] ;;
     aptly_run (["repo"; "add"; repo_name] ++ debs) true ;;
     ret tt
   else
     log INFO "No --debs provided: creating an EMPTY snapshot (bootstrap)." []) ;;
  let snap := (repo_name ++ "-" ++ ts)%string in
  aptly_run ["snapshot"; "create"; snap; "from"; "repo"; repo_name] true ;;
  ret snap.

Definition publish_prefix : string := channel self.

(** Lines 244-250. *)
Definition sign_opts : list string :=
  if sign self then
    ["-gpg-key"; Py.str (keyid self)]
    ++ (if truthy (passphrase self) then ["-passphrase"; Py.str (passphrase self)] else [])
  else ["-skip-signing"].

(** The [Components:] field: lines 280-285 without the logging.  The
    first line that starts with [Components:] decides. *)
Fixpoint parse_components (lines : list string) : option (list string) :=
  match lines with
  | [] => None
  | line :: rest =>
      if startswith "Components:" line then
        let components_str :=
          strip_ws (match after_first ":"%char line with Some s => s | None => "" end) in
        Some (map strip_ws (split_ws EmptyString components_str))
      else parse_components rest
  end.

(** Lines 252-285: does the publication exist, and with which
    components.  Yields [(our_publication_exists, existing_components)]. *)
Definition inspect : M W (bool * list string) :=
  list_result <- aptly_run ["publish"; "list"; "-raw"] false ;;
  let publication_exists := (list_result =? 0)%Z in
  when publication_exists
    (aptly_run ["publish"; "list"] false ;; ret tt) ;;
  show_result <- aptly_run ["publish"; "show"; distro self; publish_prefix] false ;;
  if (show_result =? 0)%Z then
    log INFO "Publication %s/%s exists" [LStr (channel self); LStr (distro self)] ;;
    present <- ask (path_exists inrelease_path) ;;
    if present then
      inrelease_content <- ask (read_text inrelease_path) ;;
      match parse_components (split_lines inrelease_content) with
      | Some existing_components =>
          log INFO "Existing components: %s"
              [LStr (String.concat ", " existing_components)] ;;
          ret (true, existing_components)
      | None => ret (true, [])
      end
    else ret (true, [])
  else ret (false, []).

(** Lines 287-326: switch, add, or first publication. *)
Definition reconcile (our_publication_exists : bool)
    (existing_components : list string) (snap : string) : M W unit :=
  if our_publication_exists then
    if mem (component self) existing_components then
      log INFO "Updating existing component '%s' in %s/%s ..."
          [LStr (component self); LStr (channel self); LStr (distro self)] ;;
      let switch_opts := ["-component"; component self; "-force-overwrite"] ++ sign_opts in
      switch_result <-
        aptly_run (["publish"; "switch"] ++ switch_opts
                   ++ [distro self; publish_prefix; snap]) false ;;
      when (negb (switch_result =? 0)%Z)
        (log ERROR "Failed to switch/update component %s" [LStr (component self)] ;;
         sys_exit 1%Z) ;;
      log INFO "Successfully updated component '%s'" [LStr (component self)]
    else
      log INFO "Adding new component '%s' to %s/%s ..."
          [LStr (component self); LStr (channel self); LStr (distro self)] ;;
      add_result <-
        aptly_run ["publish"; "add"; distro self; publish_prefix; snap;
                   component self] false ;;
      when (negb (add_result =? 0)%Z)
        (log ERROR "Failed to add component %s" [LStr (component self)] ;;
         sys_exit 1%Z) ;;
      log INFO "Successfully added component '%s'" [LStr (component self)] ;;
      log INFO "Updating publication metadata to include new component..." [] ;;
      update_result <-
        aptly_run (["publish"; "update"] ++ sign_opts
                   ++ [distro self; publish_prefix]) false ;;
      if negb (update_result =? 0)%Z then
        log WARNING "Failed to update publication metadata (exit=%s)"
            [LInt update_result]
      else
        log INFO "Successfully updated publication metadata" []
  else
    log INFO "Creating first-time publication %s/%s ..."
        [LStr (channel self); LStr (distro self)] ;;
    let snapshot_opts :=
      ["-distribution"; distro self; "-component"; component self;
       "-force-overwrite"] ++ sign_opts in
    aptly_run (["publish"; "snapshot"] ++ snapshot_opts ++ [snap; publish_prefix]) true ;;
    log INFO "Successfully created publication %s/%s"
        [LStr (channel self); LStr (distro self)].

(** Lines 328-343: the mirror back, the marker, commit and push. *)
Definition sync_and_push (commit_ts : string) : M W unit :=
  _run ["rsync"; "-a"; "--delete"; (aptly_public ++ "/")%string; (pages ++ "/")%string]
       None true Inherited ;;
  (fun r => (Return tt,
             {| world := write_text (joinpath pages ".nojekyll") "" (world r);
                trace := trace r ++ [Wrote (joinpath pages ".nojekyll") ""] |})) ;;
  _run ["git"; "add"; "-A"] (Some pages) true Inherited ;;
  _run ["git"; "commit"; "-m";
        ("Publish " ++ component self ++ " (" ++ distro self ++ "/" ++ channel self
         ++ ") " ++ commit_ts)%string] (Some pages) false Inherited ;;
  _run ["git"; "push"; "origin"; branch self] (Some pages) true Inherited ;;
  log INFO "Done. Browse: https://feelpp.github.io/apt/%s/dists/%s/"
      [LStr (channel self); LStr (distro self)].

End Workspace.

(** Lines 103-240: everything before the decision.  Yields the paths and
    the name of the snapshot. *)
Definition prepare (amb : Ambient) (debs_dir : option string)
    : M W (string * string * string * string) :=
  validate ;;
  let pages := pages_dir amb in
  let aptly_tmp_root := aptly_dir amb in
  cfg <- configure aptly_tmp_root ;;
  let '(aptly_cfg, aptly_home) := cfg in
  clone pages ;;
  log INFO "Aptly cfg : %s" [LStr aptly_cfg] ;;
  log INFO "Aptly root: %s" [LStr aptly_home] ;;
  seed pages aptly_cfg aptly_home ;;
  snap <- stage aptly_cfg aptly_home debs_dir (ts amb) ;;
  ret (pages, aptly_cfg, aptly_home, snap).

(** [publish]: lines 103-343. *)
Definition publish (amb : Ambient) (debs_dir : option string) : M W unit :=
  ws <- prepare amb debs_dir ;;
  let '(pages, aptly_cfg, aptly_home, snap) := ws in
  state <- inspect aptly_cfg aptly_home ;;
  let '(our_publication_exists, existing_components) := state in
  reconcile aptly_cfg aptly_home our_publication_exists existing_components snap ;;
  sync_and_push pages aptly_home (commit_ts amb).

(** [bootstrap]: lines 345-347. *)
Definition bootstrap (amb : Ambient) : M W unit := publish amb None.

End Methods.

(** A fresh run on a host. *)
Definition start {W} (w : W) : Run W := {| world := w; trace := [] |}.

End Publisher.

(** ** [scripts/aptly_publish.py]: the standalone script *)

Module Script.
Import Chars Py Host.
Local Open Scope run_scope.

(** The parsed command line. *)
Record Args := {
  component : string;
  distro : string;
  channel : string;
  debs : option string;
  pages_repo : string;
  branch : string;
  sign : bool;
  keyid : option string;
  passphrase : option string;
  aptly_config : option string;
  aptly_root : option string;
  verbose : bool
}.

Section Main.
Context {W : Type} {os : OS W}.
Variable args : Args.

(** [run]: lines 29-40. *)
Definition run (cmd : list string) (cwd : option string) (check : bool)
    (env : Env) : M W Z :=
  log DEBUG "RUN%s: %s"
      [LStr (match cwd with Some d => d | None => "" end); LArgv cmd] ;;
  fun r =>
    let c := {| argv := cmd; cwd := cwd; env := env |} in
    let (rc, w') := subprocess_run c (world r) in
    let r' := {| world := w'; trace := trace r ++ [Ran c rc] |} in
    if check && negb (rc =? 0)%Z
    then (Raise (CalledProcessError rc cmd), r')
    else (Return rc, r').

(** [ensure_cmd]: lines 43-48. *)
Definition ensure_cmd (name : string) : M W unit :=
  try_except
    (run ["bash"; "-lc"; ("command -v " ++ name)%string] None true Inherited ;;
     ret tt)
    (log ERROR "Missing required command on PATH: %s" [LStr name] ;;
     sys_exit 1%Z).

(** Line 78. *)
Definition the_component : string := Component.norm_component (component args).

(** Lines 85-98. *)
Definition validate : M W unit :=
  for_each ["git"; "rsync"; "aptly"] ensure_cmd ;;
  when (sign args)
    (when (negb (truthy (keyid args)))
       (log ERROR "--keyid is required with --sign" [] ;; sys_exit 1%Z) ;;
     ensure_cmd "gpg") ;;
  log INFO "Component : %s" [LStr the_component] ;;
  log INFO "Distro    : %s" [LStr (distro args)] ;;
  log INFO "Channel   : %s" [LStr (channel args)] ;;
  log INFO "Repo      : %s (#%s)" [LStr (pages_repo args); LStr (branch args)] ;;
  log INFO "Signing   : %s" [LStr (if sign args then "yes" else "no")].

(** Lines 107-147. *)
Definition configure (aptly_tmp_root : string) : M W (string * string) :=
  fun r =>
    match provision (aptly_config args) (aptly_root args) aptly_tmp_root (world r) with
    | (Provisioned aptly_cfg aptly_home, w') =>
        (Return (aptly_cfg, aptly_home), {| world := w'; trace := trace r |})
    | (NotProvisioned fmt a, w') =>
        (Exit 1%Z, {| world := w'; trace := trace r ++ [Log ERROR fmt a] |})
    end.

(** Lines 149-156. *)
Definition clone (pages : string) : M W unit :=
  log INFO "Cloning %s (%s) ..." [LStr (pages_repo args); LStr (branch args)] ;;
  res <- run ["git"; "clone"; "-b"; branch args; pages_repo args; pages]
             None false Inherited ;;
  when (negb (res =? 0)%Z)
    (run ["git"; "clone"; pages_repo args; pages] None true Inherited ;;
     run ["git"; "checkout"; "--orphan"; branch args] (Some pages) true Inherited ;;
     run ["git"; "rm"; "-rf"; "."] (Some pages) false Inherited ;;
     ret tt).

Section Workspace.
Variables pages aptly_cfg aptly_home : string.

Definition aptly_public : string := joinpath aptly_home "public".

Definition base_cmd : list string := ["aptly"; ("-config=" ++ aptly_cfg)%string].

(** [aptly_run]: lines 171-172. *)
Definition aptly_run (a : list string) (check : bool) : M W Z :=
  run (base_cmd ++ a) None check (AptlyEnv aptly_cfg aptly_home).

(** Lines 177-178. *)
Definition seed : M W unit :=
  change (mkdir_p aptly_public) ;;
  run ["rsync"; "-a"; (pages ++ "/")%string; (aptly_public ++ "/")%string]
      None true Inherited ;;
  ret tt.

Definition repo_name : string :=
  (the_component ++ "-" ++ distro args ++ "-" ++ channel args)%string.

(** Lines 180-200. *)
Definition stage (ts : string) : M W string :=
  log INFO "Staging repo: %s" [LStr repo_name] ;;
  aptly_run ["repo"; "create"; ("-component=" ++ the_component)%string;
             ("-distribution=" ++ distro args)%string; repo_name] false ;;
  (if truthy (debs args) then
     let debs_dir := Py.str (debs args) in
     d <- ask (is_dir debs_dir) ;;
     when (negb d)
       (log ERROR "--debs path does not exist or is not a directory: %s"
            [LStr debs_dir] ;;
        sys_exit 1%Z) ;;
     debs <- ask (sorted_glob_debs debs_dir) ;;
     when (match debs with [] => true | _ => false end)
       (log ERROR "No .deb files found in %s" [LStr debs_dir] ;; sys_exit 1%Z) ;;
     log INFO "Adding %d package(s) ..." [LInt (Z.of_nat (List.length debs))] ;;
     aptly_run (["repo"; "add"; repo_name] ++ debs) true ;;
     ret tt
   else
     log INFO "No --debs provided: creating an EMPTY snapshot (bootstrap)." []) ;;
  let snap := (repo_name ++ "-" ++ ts)%string in
  aptly_run ["snapshot"; "create"; snap; "from"; "repo"; repo_name] true ;;
  ret snap.

Definition publish_prefix : string := channel args.

(** Lines 204-216: the options of the three subcommands. *)
Definition sign_opts : list string :=
  ["-gpg-key"; Py.str (keyid args)]
  ++ (if truthy (passphrase args) then ["-passphrase"; Py.str (passphrase args)] else []).

Definition snapshot_opts : list string :=
  ["-distribution"; distro args; "-component"; the_component]
  ++ (if sign args then sign_opts else ["-skip-signing"]).

Definition add_opts : list string :=
  [("-prefix=" ++ publish_prefix)%string; "-component"; the_component].

Definition switch_opts : list string :=
  ["-component"; the_component]
  ++ (if sign args then sign_opts else ["-skip-signing"]).

(** Lines 240-246. *)
Definition update_opts : list string :=
  if negb (sign args) then ["-skip-signing"]
  else if truthy (keyid args) then
    ["-gpg-key"; Py.str (keyid args)]
    ++ (if truthy (passphrase args) then ["-passphrase"; Py.str (passphrase args)] else [])
  else [].

Definition target_dists : string :=
  joinpath (joinpath (joinpath aptly_public (channel args)) "dists") (distro args).

Definition component_root : string := joinpath target_dists the_component.

(** Lines 218-247: first publication, switch, or add with its
    replacement. *)
Definition reconcile (snap : string) : M W unit :=
  dists_present <- ask (path_exists target_dists) ;;
  let first_publish := negb dists_present in
  component_exists <- ask (path_exists component_root) ;;
  if first_publish then
    log INFO "First-time publish %s/%s ..." [LStr (channel args); LStr (distro args)] ;;
    aptly_run (["publish"; "snapshot"] ++ snapshot_opts ++ [snap; publish_prefix]) true ;;
    ret tt
  else if component_exists then
    log INFO "Updating existing component via publish switch ..." [] ;;
    aptly_run (["publish"; "switch"] ++ switch_opts
               ++ [distro args; publish_prefix; snap]) true ;;
    ret tt
  else
    log INFO "Adding/updating component %s to existing publication ..."
        [LStr the_component] ;;
    add_result <-
      aptly_run (["publish"; "source"; "add"] ++ add_opts ++ [distro args; snap]) false ;;
    when (negb (add_result =? 0)%Z)
      (log INFO "Component already staged, replacing instead ..." [] ;;
       let replace_opts :=
         [("-prefix=" ++ publish_prefix)%string; "-component"; the_component] in
       aptly_run (["publish"; "source"; "replace"] ++ replace_opts
                  ++ [distro args; snap]) true ;;
       ret tt) ;;
    aptly_run (["publish"; "update"] ++ update_opts
               ++ [distro args; publish_prefix]) true ;;
    ret tt.

(** Lines 249-261. *)
Definition sync_and_push (commit_ts : string) : M W unit :=
  run ["rsync"; "-a"; "--delete"; (aptly_public ++ "/")%string; (pages ++ "/")%string]
      None true Inherited ;;
  (fun r => (Return tt,
             {| world := write_text (joinpath pages ".nojekyll") "" (world r);
                trace := trace r ++ [Wrote (joinpath pages ".nojekyll") ""] |})) ;;
  run ["git"; "add"; "-A"] (Some pages) true Inherited ;;
  run ["git"; "commit"; "-m";
       ("Publish " ++ the_component ++ " (" ++ distro args ++ "/" ++ channel args
        ++ ") " ++ commit_ts)%string] (Some pages) false Inherited ;;
  run ["git"; "push"; "origin"; branch args] (Some pages) true Inherited ;;
  log INFO "Done. Browse: https://feelpp.github.io/apt/%s/dists/%s/"
      [LStr (channel args); LStr (distro args)].

End Workspace.

(** Lines 85-200. *)
Definition prepare (amb : Publisher.Ambient)
    : M W (string * string * string * string) :=
  validate ;;
  let pages := Publisher.pages_dir amb in
  let aptly_tmp_root := Publisher.aptly_dir amb in
  cfg <- configure aptly_tmp_root ;;
  let '(aptly_cfg, aptly_home) := cfg in
  clone pages ;;
  log INFO "Aptly cfg : %s" [LStr aptly_cfg] ;;
  log INFO "Aptly root: %s" [LStr aptly_home] ;;
  seed pages aptly_home ;;
  snap <- stage aptly_cfg aptly_home (Publisher.ts amb) ;;
  ret (pages, aptly_cfg, aptly_home, snap).

(** [main], once the command line is parsed: lines 78-261. *)
Definition main (amb : Publisher.Ambient) : M W unit :=
  ws <- prepare amb ;;
  let '(pages, aptly_cfg, aptly_home, snap) := ws in
  reconcile aptly_cfg aptly_home snap ;;
  sync_and_push pages aptly_home (Publisher.commit_ts amb).

End Main.

End Script.

(** ** The words of the specification on the Reconciliation Engine *)

Module Reconcile.
Import Chars Py Host.

(** The four transitions of section 4.2. *)
Inductive Transition := Bootstrap | Add | Switch | Replace.

(** The decision table of section 4.2, on [(exists, component present)]. *)
Definition decision_table (exists_ present : bool) : Transition :=
  if exists_ then (if present then Switch else Add) else Bootstrap.

(** The subcommand of an aptly command line [aptly -config=... a b ...]. *)
Definition aptly_sub (cmd : list string) : option (string * string * list string) :=
  match cmd with
  | prog :: _ :: a :: b :: rest =>
      if String.eqb prog "aptly" then Some (a, b, rest) else None
  | _ => None
  end.

(** The transition that a command starts, if it starts one:
    [publish snapshot] is Bootstrap, [publish switch] is Switch,
    [publish add] and [publish source add] are Add,
    [publish source replace] is Replace. *)
Definition transition_of (cmd : list string) : option Transition :=
  match aptly_sub cmd with
  | Some (a, b, rest) =>
      if negb (String.eqb a "publish") then None
      else if String.eqb b "snapshot" then Some Bootstrap
      else if String.eqb b "switch" then Some Switch
      else if String.eqb b "add" then Some Add
      else if String.eqb b "source" then
        match rest with
        | c :: _ =>
            if String.eqb c "add" then Some Add
            else if String.eqb c "replace" then Some Replace
            else None
        | [] => None
        end
      else None
  | None => None
  end.

Fixpoint transitions_of (cmds : list (list string)) : list Transition :=
  match cmds with
  | [] => []
  | c :: rest =>
      match transition_of c with
      | Some t => t :: transitions_of rest
      | None => transitions_of rest
      end
  end.

(** The transitions of a trace, in order. *)
Definition transitions (t : list Event) : list Transition :=
  transitions_of (commands t).

(** [publish update]: the metadata update. *)
Definition is_update (cmd : list string) : bool :=
  match aptly_sub cmd with
  | Some (a, b, _) => String.eqb a "publish" && String.eqb b "update"
  | None => false
  end.

(** The subcommands that take signing flags: publish from snapshot,
    switch and metadata update. *)
Definition accepts_signing (cmd : list string) : bool :=
  match aptly_sub cmd with
  | Some (a, b, _) =>
      String.eqb a "publish"
      && (String.eqb b "snapshot" || String.eqb b "switch" || String.eqb b "update")
  | None => false
  end.

Definition is_signing_flag (s : string) : bool :=
  String.eqb s "-gpg-key" || String.eqb s "-passphrase" || String.eqb s "-skip-signing".

(** The signing flags of section 4.2 for a configuration. *)
Definition signing_flags (sign : bool) (keyid passphrase : option string)
    : list string :=
  if sign then
    ["-gpg-key"; Py.str keyid]
    ++ (if truthy passphrase then ["-passphrase"; Py.str passphrase] else [])
  else ["-skip-signing"].

(** [flags] stand in [cmd] between its options and its positional
    arguments, of which there are [n]. *)
Definition carries (flags : list string) (n : nat) (cmd : list string) : Prop :=
  exists opts positional,
    cmd = opts ++ flags ++ positional /\ List.length positional = n.

(** A command that changes a publication: any [aptly publish]
    subcommand but [list] and [show]. *)
Definition mutates_publication (cmd : list string) : bool :=
  match aptly_sub cmd with
  | Some (a, b, _) =>
      String.eqb a "publish" && negb (String.eqb b "list" || String.eqb b "show")
  | None => false
  end.

(** The component that [publish switch -component c ...] names. *)
Definition switched_component (cmd : list string) : option string :=
  match aptly_sub cmd with
  | Some (a, b, flag :: c :: _) =>
      if String.eqb a "publish" && String.eqb b "switch"
         && String.eqb flag "-component"
      then Some c else None
  | _ => None
  end.

(** What the code relies on from its tools, for an observation [pkgs]
    of the package set of each component of the publication:
    - a switch for a component leaves the package sets of the others;
    - a command that is no publication subcommand of aptly (git, rsync,
      bash, aptly's [db], [repo], [snapshot], [publish list|show]) leaves
      all of them;
    - so do writing a file, making a directory and the configuration. *)
Record Tools {W : Type} {os : OS W} {P : Type} (pkgs : W -> string -> P) : Prop := {
  switch_frame :
    forall cmd w c c',
      switched_component (argv cmd) = Some c -> c' <> c ->
      pkgs (snd (subprocess_run cmd w)) c' = pkgs w c';
  other_frame :
    forall cmd w c',
      mutates_publication (argv cmd) = false ->
      pkgs (snd (subprocess_run cmd w)) c' = pkgs w c';
  write_frame :
    forall path content w c', pkgs (write_text path content w) c' = pkgs w c';
  mkdir_frame :
    forall path w c', pkgs (mkdir_p path w) c' = pkgs w c';
  provision_frame :
    forall cfg root tmp w c', pkgs (snd (provision cfg root tmp w)) c' = pkgs w c'
}.

(** A relation [R] between the state of a run before and after that is
    kept by every command that changes no publication, by logging, and by
    the file operations of the code. *)
Record Kept {W : Type} {os : OS W} (R : Run W -> Run W -> Prop) : Prop := {
  kept_refl : forall r, R r r;
  kept_trans : forall a b c, R a b -> R b c -> R a c;
  kept_event :
    forall r e, (forall c rc, e <> Ran c rc) ->
      R r {| world := world r; trace := trace r ++ [e] |};
  kept_ran :
    forall r c,
      mutates_publication (argv c) = false ->
      R r {| world := snd (subprocess_run c (world r));
             trace := trace r ++ [Ran c (fst (subprocess_run c (world r)))] |};
  kept_mkdir :
    forall r p, R r {| world := mkdir_p p (world r); trace := trace r |};
  kept_write :
    forall r p s, R r {| world := write_text p s (world r); trace := trace r |};
  kept_provision :
    forall r cfg root tmp,
      R r {| world := snd (provision cfg root tmp (world r)); trace := trace r |}
}.

(** A block of a run relates every state to the one it leaves. *)
Definition steps {W A : Type} (R : Run W -> Run W -> Prop) (m : M W A) : Prop :=
  forall r, R r (snd (m r)).

(** The run went on: only commands that change no publication. *)
Definition quietly {W : Type} (r r' : Run W) : Prop :=
  exists new,
    trace r' = trace r ++ new
    /\ Forall (fun c => mutates_publication c = false) (commands new).

(** The run left the package sets as they were. *)
Definition untouched {W P : Type} (pkgs : W -> string -> P) (r r' : Run W) : Prop :=
  forall c, pkgs (world r') c = pkgs (world r) c.

(** The component that [publish add distro prefix snap c] names. *)
Definition added_component (cmd : list string) : option string :=
  match aptly_sub cmd with
  | Some (a, b, [_; _; _; c]) =>
      if String.eqb a "publish" && String.eqb b "add" then Some c else None
  | _ => None
  end.

(** What the code relies on from its tools, for an observation [listed]
    of the component list of the publication:
    - an add that returns 0 lists its component;
    - the metadata update, the commands that are no publication
      subcommand of aptly, and the file operations keep a listed
      component listed. *)
Record Lists {W : Type} {os : OS W} (listed : W -> string -> bool) : Prop := {
  add_lists :
    forall cmd w c,
      added_component (argv cmd) = Some c ->
      fst (subprocess_run cmd w) = 0%Z ->
      listed (snd (subprocess_run cmd w)) c = true;
  update_keeps :
    forall cmd w c,
      is_update (argv cmd) = true -> listed w c = true ->
      listed (snd (subprocess_run cmd w)) c = true;
  other_keeps :
    forall cmd w c,
      mutates_publication (argv cmd) = false -> listed w c = true ->
      listed (snd (subprocess_run cmd w)) c = true;
  write_keeps :
    forall path content w c,
      listed w c = true -> listed (write_text path content w) c = true;
  mkdir_keeps :
    forall path w c, listed w c = true -> listed (mkdir_p path w) c = true;
  provision_keeps :
    forall cfg root tmp w c,
      listed w c = true -> listed (snd (provision cfg root tmp w)) c = true
}.

(** The run kept the component [c] listed. *)
Definition still_listed {W : Type} (listed : W -> string -> bool) (c : string)
    (r r' : Run W) : Prop :=
  listed (world r) c = true -> listed (world r') c = true.

(** The commands of a trace that change a publication. *)
Definition mutations (t : list Event) : list (list string) :=
  filter mutates_publication (commands t).

(** The same with the processes and their return codes. *)
Definition calls (t : list Event) : list (Command * Z) :=
  filter (fun p => mutates_publication (argv (fst p))) (ran t).

End Reconcile.

(** ** A small host to run the code on *)

Module Sim.
Import Chars Py Host.

(** Files with their contents, the aptly subcommands that fail (by the
    words that follow [aptly -config=...]), and the package set of each
    component of the one publication. *)
Record World := {
  files : list (string * string);
  failing : list (list string);
  published : list (string * list string)
}.

Fixpoint is_prefix (p l : list string) : bool :=
  match p, l with
  | [], _ => true
  | _ :: _, [] => false
  | x :: p', y :: l' => String.eqb x y && is_prefix p' l'
  end.

Fixpoint lookup {A} (k : string) (m : list (string * A)) : option A :=
  match m with
  | [] => None
  | (k', v) :: m' => if String.eqb k k' then Some v else lookup k m'
  end.

Fixpoint update {A} (k : string) (v : A) (m : list (string * A)) : list (string * A) :=
  match m with
  | [] => [(k, v)]
  | (k', v') :: m' =>
      if String.eqb k k' then (k, v) :: m' else (k', v') :: update k v m'
  end.

Definition fails (w : World) (cmd : list string) : bool :=
  existsb (fun p => is_prefix p (skipn 2 cmd)) (failing w).

(** aptly, as far as the package sets go: a switch gives the component
    the snapshot, an add gives the new component the snapshot, a first
    publication holds the one component. *)
Definition effect (cmd : list string) (w : World) : World :=
  match Reconcile.aptly_sub cmd with
  | Some (a, b, rest) =>
      if negb (String.eqb a "publish") then w
      else if String.eqb b "switch" then
        match rest with
        | _ :: c :: _ =>
            {| files := files w; failing := failing w;
               published := update c [last rest ""] (published w) |}
        | _ => w
        end
      else if String.eqb b "add" then
        match rest with
        | [_; _; snap; c] =>
            {| files := files w; failing := failing w;
               published := update c [snap] (published w) |}
        | _ => w
        end
      else w
  | None => w
  end.

Definition run (c : Command) (w : World) : Z * World :=
  if fails w (argv c) then (1%Z, w) else (0%Z, effect (argv c) w).

#[global] Instance os : OS World := {
  subprocess_run := run;
  path_exists p w := match lookup p (files w) with Some _ => true | None => false end;
  is_dir p w := false;
  read_text p w := match lookup p (files w) with Some s => s | None => "" end;
  write_text p s w :=
    {| files := update p s (files w); failing := failing w; published := published w |};
  mkdir_p p w := w;
  sorted_glob_debs p w := [];
  provision cfg root tmp w :=
    (Provisioned (joinpath tmp "config.json")
                 (match root with Some r => r | None => joinpath tmp ".aptly" end), w)
}.

Definition pkgs (w : World) (c : string) : option (list string) :=
  lookup c (published w).

Definition listed (w : World) (c : string) : bool :=
  match lookup c (published w) with Some _ => true | None => false end.

Definition amb : Publisher.Ambient :=
  {| Publisher.pages_dir := "/tmp/apt-pages";
     Publisher.aptly_dir := "/tmp/aptly";
     Publisher.ts := "20250101-000000";
     Publisher.commit_ts := "2025-01-01T00:00:00Z" |}.

Definition inrelease : string := "/tmp/aptly/.aptly/public/stable/dists/noble/InRelease".

Definition nl : string := String "010"%char EmptyString.

(** A publisher of component [c] on stable/noble, unsigned. *)
Definition publisher (c : string) : Publisher.AptlyPublisher :=
  Publisher.__init__ c "noble" "stable" "https://github.com/feelpp/apt.git"
                     "gh-pages" false None None None None false.

(** A host where stable/noble is published with components [main] and
    [extra], and where the given aptly subcommands fail. *)
Definition published_host (failing : list (list string)) : World :=
  {| files := [(inrelease,
                ("Origin: feelpp" ++ nl ++ "Components: main extra" ++ nl
                 ++ "Architectures: amd64" ++ nl)%string)];
     failing := failing;
     published := [("main", ["main_1.0"]); ("extra", ["extra_2.0"])] |}.

(** A host where nothing is published: aptly knows no publication. *)
Definition empty_host : World :=
  {| files := []; failing := [["publish"; "show"]]; published := [] |}.

End Sim.

(** ** The command lines of the Reconciliation Engine, by name *)

Module Commands.
Import Chars Py Host.

Section Library.
Variable self : Publisher.AptlyPublisher.
Variables aptly_cfg aptly_home snap : string.

Definition engine (args : list string) : Command :=
  {| argv := Publisher.base_cmd aptly_cfg ++ args;
     cwd := None;
     env := AptlyEnv aptly_cfg aptly_home |}.

(** [aptly publish switch -component c -force-overwrite <signing> distro prefix snap] *)
Definition switch : Command :=
  engine (["publish"; "switch"]
          ++ (["-component"; Publisher.component self; "-force-overwrite"]
              ++ Publisher.sign_opts self)
          ++ [Publisher.distro self; Publisher.publish_prefix self; snap]).

(** [aptly publish add distro prefix snap c] *)
Definition add : Command :=
  engine ["publish"; "add"; Publisher.distro self; Publisher.publish_prefix self;
          snap; Publisher.component self].

(** [aptly publish update <signing> distro prefix] *)
Definition update : Command :=
  engine (["publish"; "update"] ++ Publisher.sign_opts self
          ++ [Publisher.distro self; Publisher.publish_prefix self]).

(** [aptly publish snapshot -distribution d -component c -force-overwrite
    <signing> snap prefix] *)
Definition snapshot : Command :=
  engine (["publish"; "snapshot"]
          ++ (["-distribution"; Publisher.distro self; "-component";
               Publisher.component self; "-force-overwrite"]
              ++ Publisher.sign_opts self)
          ++ [snap; Publisher.publish_prefix self]).

End Library.

Section Sync.
Variable self : Publisher.AptlyPublisher.
Variables pages aptly_home commit_ts : string.

Definition rsync_back : Command :=
  {| argv := ["rsync"; "-a"; "--delete";
              (Publisher.aptly_public aptly_home ++ "/")%string;
              (pages ++ "/")%string];
     cwd := None; env := Inherited |}.

Definition git_add : Command :=
  {| argv := ["git"; "add"; "-A"]; cwd := Some pages; env := Inherited |}.

Definition git_commit : Command :=
  {| argv := ["git"; "commit"; "-m";
              ("Publish " ++ Publisher.component self ++ " ("
               ++ Publisher.distro self ++ "/" ++ Publisher.channel self
               ++ ") " ++ commit_ts)%string];
     cwd := Some pages; env := Inherited |}.

Definition git_push : Command :=
  {| argv := ["git"; "push"; "origin"; Publisher.branch self];
     cwd := Some pages; env := Inherited |}.

End Sync.

Section OfScript.
Variable args : Script.Args.
Variables aptly_cfg aptly_home snap : string.

Definition s_engine (a : list string) : Command :=
  {| argv := Script.base_cmd aptly_cfg ++ a;
     cwd := None;
     env := AptlyEnv aptly_cfg aptly_home |}.

Definition s_snapshot : Command :=
  s_engine (["publish"; "snapshot"] ++ Script.snapshot_opts args
            ++ [snap; Script.publish_prefix args]).

Definition s_switch : Command :=
  s_engine (["publish"; "switch"] ++ Script.switch_opts args
            ++ [Script.distro args; Script.publish_prefix args; snap]).

Definition s_add : Command :=
  s_engine (["publish"; "source"; "add"] ++ Script.add_opts args
            ++ [Script.distro args; snap]).

Definition s_replace : Command :=
  s_engine (["publish"; "source"; "replace"]
            ++ [("-prefix=" ++ Script.publish_prefix args)%string; "-component";
                Script.the_component args]
            ++ [Script.distro args; snap]).

Definition s_update : Command :=
  s_engine (["publish"; "update"] ++ Script.update_opts args
            ++ [Script.distro args; Script.publish_prefix args]).

End OfScript.

(** A command as the code runs it: the debug line, then the process. *)
Definition ran_events (c : Command) (rc : Z) : list Event :=
  [Log DEBUG "RUN%s: %s"
       [LStr (match cwd c with Some d => d | None => "" end); LArgv (argv c)];
   Ran c rc].

End Commands.

(** ** The calls that the specification expects of the engine block *)

Module Calls.
Import Chars Py Host.

(** The library, by the state the inspector found: one publication from
    the snapshot; one switch; or an add, followed by the metadata update
    when the add returned 0 and by nothing when it did not. *)
Definition of_library (self : Publisher.AptlyPublisher) (cfg home snap : string)
    (ex : bool) (comps : list string) (l : list (Command * Z)) : Prop :=
  match ex, mem (Publisher.component self) comps with
  | false, _ => exists rc, l = [(Commands.snapshot self cfg home snap, rc)]
  | true, true => exists rc, l = [(Commands.switch self cfg home snap, rc)]
  | true, false =>
      (exists rc, rc <> 0%Z /\ l = [(Commands.add self cfg home snap, rc)])
      \/ (exists rcu, l = [(Commands.add self cfg home snap, 0%Z);
                           (Commands.update self cfg home, rcu)])
  end.

(** The script, by the two directories it looks for: one publication
    from the snapshot; one switch; or an add, replaced when it fails,
    and then the metadata update. *)
Definition of_script (args : Script.Args) (cfg home snap : string)
    (dists_present component_present : bool) (l : list (Command * Z)) : Prop :=
  match dists_present, component_present with
  | false, _ => exists rc, l = [(Commands.s_snapshot args cfg home snap, rc)]
  | true, true => exists rc, l = [(Commands.s_switch args cfg home snap, rc)]
  | true, false =>
      (exists rcu, l = [(Commands.s_add args cfg home snap, 0%Z);
                        (Commands.s_update args cfg home, rcu)])
      \/ (exists rc rcp, rc <> 0%Z /\ rcp <> 0%Z
                         /\ l = [(Commands.s_add args cfg home snap, rc);
                                 (Commands.s_replace args cfg home snap, rcp)])
      \/ (exists rc rcu, rc <> 0%Z
                         /\ l = [(Commands.s_add args cfg home snap, rc);
                                 (Commands.s_replace args cfg home snap, 0%Z);
                                 (Commands.s_update args cfg home, rcu)])
  end.

End Calls.

(** ** Regular expressions, as far as [cleaner.py] uses them *)

Module Re.
Import Chars.

Inductive regex :=
| Void                       (* matches nothing *)
| Eps                        (* the empty string *)
| Lit (c : ascii)            (* one character *)
| Digit                      (* [\d] *)
| Any                        (* any character *)
| Cat (r s : regex)
| Alt (r s : regex)
| Star (r : regex).

(** A literal string. *)
Fixpoint lit (s : string) : regex :=
  match s with
  | EmptyString => Eps
  | String c r => Cat (Lit c) (lit r)
  end.

(** [r+] and [r{n}]. *)
Definition plus (r : regex) : regex := Cat r (Star r).

Fixpoint times (n : nat) (r : regex) : regex :=
  match n with
  | O => Eps
  | S n' => Cat r (times n' r)
  end.

(** ["|".join(patterns)] *)
Fixpoint alternation (l : list regex) : regex :=
  match l with
  | [] => Void
  | [r] => r
  | r :: l' => Alt r (alternation l')
  end.

(** One character against a literal; [ignorecase] is [re.IGNORECASE]. *)
Definition char_matches (ignorecase : bool) (c a : ascii) : bool :=
  if ignorecase then Ascii.eqb (lower_char a) (lower_char c) else Ascii.eqb a c.

Fixpoint nullable (r : regex) : bool :=
  match r with
  | Void | Lit _ | Digit | Any => false
  | Eps | Star _ => true
  | Cat r s => nullable r && nullable s
  | Alt r s => nullable r || nullable s
  end.

(** What is left of [r] after the character [a]. *)
Fixpoint deriv (ignorecase : bool) (a : ascii) (r : regex) : regex :=
  match r with
  | Void | Eps => Void
  | Lit c => if char_matches ignorecase c a then Eps else Void
  | Digit => if is_digit a then Eps else Void
  | Any => Eps
  | Cat r s =>
      if nullable r
      then Alt (Cat (deriv ignorecase a r) s) (deriv ignorecase a s)
      else Cat (deriv ignorecase a r) s
  | Alt r s => Alt (deriv ignorecase a r) (deriv ignorecase a s)
  | Star r => Cat (deriv ignorecase a r) (Star r)
  end.

(** The whole string matches. *)
Fixpoint fullmatch (ignorecase : bool) (r : regex) (s : string) : bool :=
  match s with
  | EmptyString => nullable r
  | String a s' => fullmatch ignorecase (deriv ignorecase a r) s'
  end.

(** [re.search]: some part of the string matches. *)
Definition search (ignorecase : bool) (r : regex) (s : string) : bool :=
  fullmatch ignorecase (Cat (Star Any) (Cat r (Star Any))) s.

(** The strings of a regular expression. *)
Inductive Matches (ignorecase : bool) : regex -> string -> Prop :=
| MEps : Matches ignorecase Eps EmptyString
| MLit c a :
    char_matches ignorecase c a = true ->
    Matches ignorecase (Lit c) (String a EmptyString)
| MDigit a : is_digit a = true -> Matches ignorecase Digit (String a EmptyString)
| MAny a : Matches ignorecase Any (String a EmptyString)
| MCat r s u v :
    Matches ignorecase r u -> Matches ignorecase s v ->
    Matches ignorecase (Cat r s) (u ++ v)%string
| MAltL r s u : Matches ignorecase r u -> Matches ignorecase (Alt r s) u
| MAltR r s u : Matches ignorecase s u -> Matches ignorecase (Alt r s) u
| MStar0 r : Matches ignorecase (Star r) EmptyString
| MStarS r u v :
    Matches ignorecase r u -> Matches ignorecase (Star r) v ->
    Matches ignorecase (Star r) (u ++ v)%string.

End Re.

(** ** [cleaner.py]: retention policy, packages, candidates, cleanup *)

Module Cleaner.
Import Chars Py.

(** A path, by its parts; the empty list is the anchor of the paths at
    hand ([Path(".")] for relative ones). *)
Definition Path := list string.

(** A channel's policy: a dictionary whose three keys may be missing. *)
Record ChannelPolicy := {
  keep_prereleases : option bool;
  max_versions : option Z;
  max_age_days : option Z
}.

Record RetentionPolicy := {
  prerelease_max_age_days : Z;
  max_versions_per_package : Z;
  channel_policies : list (string * ChannelPolicy);
  protected_components : list string;
  protected_packages : list string
}.

(** The defaults of the dataclass: lines 25-53. *)
Definition default_channel_policies : list (string * ChannelPolicy) :=
  [("stable", {| keep_prereleases := Some true; max_versions := Some 0%Z;
                 max_age_days := None |});
   ("testing", {| keep_prereleases := Some false; max_versions := Some 5%Z;
                  max_age_days := None |});
   ("pr", {| keep_prereleases := Some false; max_versions := Some 3%Z;
             max_age_days := Some 30%Z |})].

Definition default_policy : RetentionPolicy :=
  {| prerelease_max_age_days := 90;
     max_versions_per_package := 0;
     channel_policies := default_channel_policies;
     protected_components := [];
     protected_packages := [] |}.

Record PackageInfo := {
  name : string;
  version : string;
  arch : string;
  filename : string;
  path : Path;
  channel : string;
  component : string;
  size : Z;
  age_days : Z;
  is_prerelease : bool
}.

Definition path_eqb (p q : Path) : bool :=
  if list_eq_dec String.string_dec p q then true else false.

(** [PackageInfo.__eq__]: two packages are equal when their paths are. *)
Definition pkg_eqb (p q : PackageInfo) : bool := path_eqb (path p) (path q).

(** [pkg in l] *)
Definition pkg_in (p : PackageInfo) (l : list PackageInfo) : bool :=
  existsb (pkg_eqb p) l.

(** *** [DebianVersionCompare] *)

(** [dpkg --compare-versions v1 op v2] on the host: present, with the
    answers it gives (true for return code 0); missing
    ([FileNotFoundError]); or failing to start with another error. *)
Inductive Dpkg :=
| DpkgPresent (compare_versions : string -> string -> string -> bool)
| DpkgMissing
| DpkgFails.

(** [compare]: lines 116-142; [None] is an exception that the method
    does not catch. *)
Definition compare (dpkg : Dpkg) (v1 v2 : string) : option Z :=
  match dpkg with
  | DpkgPresent run =>
      if run v1 "lt" v2 then Some (-1)%Z
      else if run v1 "gt" v2 then Some 1%Z
      else Some 0%Z
  | DpkgMissing =>
      if String.ltb v1 v2 then Some (-1)%Z
      else if String.ltb v2 v1 then Some 1%Z
      else Some 0%Z
  | DpkgFails => None
  end.

(** [sorted]: a stable sort by the comparison [lt]; with [reverse] the
    order is reversed and equal elements keep their order.  This is what
    Python returns when [lt] is a total preorder. *)
Fixpoint insert {A} (lt : A -> A -> bool) (x : A) (l : list A) : list A :=
  match l with
  | [] => [x]
  | y :: l' => if lt y x then y :: insert lt x l' else x :: l
  end.

Fixpoint stable_sort {A} (lt : A -> A -> bool) (l : list A) : list A :=
  match l with
  | [] => []
  | x :: l' => insert lt x (stable_sort lt l')
  end.

Definition sorted {A} (lt : A -> A -> bool) (reverse : bool) (l : list A) : list A :=
  if reverse then rev (stable_sort lt (rev l)) else stable_sort lt l.

(** The order of [cmp_to_key(compare)]. *)
Definition version_lt (dpkg : Dpkg) (v1 v2 : string) : bool :=
  match compare dpkg v1 v2 with
  | Some c => (c <? 0)%Z
  | None => false
  end.

(** [sort_versions]: lines 145-149; [None] when [compare] raises, which
    it does at the first comparison. *)
Definition sort_versions (dpkg : Dpkg) (versions : list string) (reverse : bool)
    : option (list string) :=
  match dpkg with
  | DpkgFails =>
      if (List.length versions <? 2)%nat then Some versions else None
  | _ => Some (sorted (version_lt dpkg) reverse versions)
  end.

(** *** [AptlyCleaner] *)

(** [PRERELEASE_PATTERNS]: lines 156-171. *)
Definition PRERELEASE_PATTERNS : list Re.regex :=
  [Re.Cat (Re.lit "~alpha") (Re.Star Re.Digit);
   Re.Cat (Re.lit "~beta") (Re.Star Re.Digit);
   Re.Cat (Re.lit "~rc") (Re.Star Re.Digit);
   Re.Cat (Re.lit "~pre") (Re.Star Re.Digit);
   Re.lit "~dev";
   Re.Cat (Re.lit "~git") (Re.Star Re.Digit);
   Re.Cat (Re.lit "~svn") (Re.Star Re.Digit);
   Re.Cat (Re.lit "~bzr") (Re.Star Re.Digit);
   Re.Cat (Re.lit "+git") (Re.times 8 Re.Digit);
   Re.Cat (Re.lit "+svn") (Re.plus Re.Digit);
   Re.Cat (Re.lit "alpha") (Re.plus Re.Digit);
   Re.Cat (Re.lit "beta") (Re.plus Re.Digit);
   Re.Cat (Re.lit "rc") (Re.plus Re.Digit);
   Re.lit ".0~"].

(** Line 197: the patterns joined by [|], compiled with [re.IGNORECASE]. *)
Definition _prerelease_re : Re.regex := Re.alternation PRERELEASE_PATTERNS.

(** [is_prerelease]: lines 199-201. *)
Definition is_prerelease_version (version : string) : bool :=
  Re.search true _prerelease_re version.

Definition Key : Type := string * string * string * string.

Definition key_of (pkg : PackageInfo) : Key :=
  (channel pkg, component pkg, name pkg, arch pkg).

Definition key_eqb (a b : Key) : bool :=
  let '(c1, m1, n1, a1) := a in
  let '(c2, m2, n2, a2) := b in
  String.eqb c1 c2 && String.eqb m1 m2 && String.eqb n1 n2 && String.eqb a1 a2.

(** [package_groups[key].append(pkg)] on a dictionary that keeps the
    order in which its keys came. *)
Fixpoint group_append (key : Key) (pkg : PackageInfo)
    (groups : list (Key * list PackageInfo)) : list (Key * list PackageInfo) :=
  match groups with
  | [] => [(key, [pkg])]
  | (k, g) :: rest =>
      if key_eqb k key then (k, g ++ [pkg]) :: rest
      else (k, g) :: group_append key pkg rest
  end.

(** Lines 290-293. *)
Definition package_groups (packages : list PackageInfo)
    : list (Key * list PackageInfo) :=
  fold_left (fun groups pkg => group_append (key_of pkg) pkg groups) packages [].

Fixpoint lookup_policy (ch : string) (l : list (string * ChannelPolicy))
    : option ChannelPolicy :=
  match l with
  | [] => None
  | (k, v) :: l' => if String.eqb ch k then Some v else lookup_policy ch l'
  end.

Definition get {A} (o : option A) (default : A) : A :=
  match o with Some a => a | None => default end.

Section Candidates.
(** The policy of the cleaner, the host's dpkg, and [re.match] for the
    patterns of [protected_packages] (true when the pattern matches at
    the start of the name). *)
Variable policy : RetentionPolicy.
Variable dpkg : Dpkg.
Variable re_match : string -> string -> bool.

(** [version_to_pkg[v]] for [{p.version: p for p in group}]: the last
    package of the group with this version. *)
Definition version_to_pkg (group : list PackageInfo) (v : string)
    : option PackageInfo :=
  find (fun p => String.eqb (version p) v) (rev group).

(** Lines 323-332: the group, newest first. *)
Definition sorted_newest_first (group : list PackageInfo) : list PackageInfo :=
  let sorted_group :=
    sorted (fun p q => String.ltb (version p) (version q)) true group in
  match sort_versions dpkg (map version group) true with
  | Some sorted_versions =>
      flat_map (fun v => match version_to_pkg group v with
                         | Some p => [p]
                         | None => []
                         end) sorted_versions
  | None => sorted_group
  end.

(** Lines 295-341: one turn of the loop over the groups. *)
Definition process_group (acc : list PackageInfo * list PackageInfo)
    (entry : Key * list PackageInfo) : list PackageInfo * list PackageInfo :=
  let '(prerelease_candidates, version_limit_candidates) := acc in
  let '((channel, component, name, _arch), group) := entry in
  let channel_policy := lookup_policy channel (channel_policies policy) in
  let keep_prereleases :=
    get (match channel_policy with Some p => keep_prereleases p | None => None end) true in
  let max_versions :=
    get (match channel_policy with Some p => max_versions p | None => None end)
        (max_versions_per_package policy) in
  let max_age :=
    get (match channel_policy with Some p => max_age_days p | None => None end)
        (prerelease_max_age_days policy) in
  if mem component (protected_components policy) then acc
  else if existsb (fun pattern => re_match pattern name) (protected_packages policy)
  then acc
  else
    let prerelease_candidates :=
      if negb keep_prereleases then
        prerelease_candidates
        ++ filter (fun pkg => is_prerelease pkg && (age_days pkg >? max_age)%Z) group
      else prerelease_candidates in
    let version_limit_candidates :=
      if (max_versions >? 0)%Z && (Z.of_nat (List.length group) >? max_versions)%Z then
        let excess := skipn (Z.to_nat max_versions) (sorted_newest_first group) in
        version_limit_candidates
        ++ filter (fun pkg => negb (pkg_in pkg prerelease_candidates)) excess
      else version_limit_candidates in
    (prerelease_candidates, version_limit_candidates).

(** [find_cleanup_candidates] on scanned packages: lines 268-349 without
    the logging.  Yields [(prerelease_candidates, version_limit_candidates)]. *)
Definition find_cleanup_candidates (packages : list PackageInfo)
    : list PackageInfo * list PackageInfo :=
  fold_left process_group (package_groups packages) ([], []).

End Candidates.

(** *** Words to state the properties of the candidates *)

(** [lt] is a strict total order on the elements of [l]: irreflexive,
    transitive, and any two different elements are comparable. *)
Definition strict_total_on (lt : string -> string -> bool) (l : list string) : bool :=
  forallb (fun a => negb (lt a a)) l
  && forallb (fun a => forallb (fun b => forallb (fun c =>
       implb (lt a b && lt b c) (lt a c)) l) l) l
  && forallb (fun a => forallb (fun b =>
       String.eqb a b || lt a b || lt b a) l) l.

(** The strings of [l] are all different. *)
Fixpoint distinct (l : list string) : bool :=
  match l with
  | [] => true
  | x :: l' => negb (mem x l') && distinct l'
  end.

(** All the packages have the key [k]. *)
Definition all_of_key (k : Key) (l : list PackageInfo) : bool :=
  forallb (fun p => key_eqb (key_of p) k) l.

(** The pre-release candidates of a group under a policy: the
    pre-releases older than the age limit, unless the channel keeps
    them. *)
Definition aged_prereleases (keep : bool) (max_age : Z) (group : list PackageInfo)
    : list PackageInfo :=
  if keep then []
  else filter (fun pkg => is_prerelease pkg && (age_days pkg >? max_age)%Z) group.

(** No file is recorded under two keys: the packages of one path have
    one (channel, component, name, arch). *)
Definition one_key_per_path (packages : list PackageInfo) : bool :=
  forallb (fun p => forallb (fun q =>
    implb (path_eqb (path p) (path q)) (key_eqb (key_of p) (key_of q))) packages)
    packages.

(** The two lists have no package in common: no path is in both. *)
Definition disjoint (pre lim : list PackageInfo) : Prop :=
  forall p q, In p pre -> In q lim -> path p <> path q.

(** The groups of a list: the members of a group have its key and come
    from the list; no key comes twice. *)
Definition well_grouped (packages : list PackageInfo)
    (groups : list (Key * list PackageInfo)) : Prop :=
  (forall k g p, In (k, g) groups -> In p g -> key_of p = k /\ In p packages)
  /\ NoDup (map fst groups).

(** What the loop over the groups keeps: the version-limit candidates so
    far are not among the pre-release candidates so far, and belong to
    groups already seen. *)
Definition loop_invariant (packages : list PackageInfo)
    (rest : list (Key * list PackageInfo))
    (acc : list PackageInfo * list PackageInfo) : Prop :=
  (forall q, In q (snd acc) -> pkg_in q (fst acc) = false)
  /\ (forall q, In q (snd acc) ->
        In q packages /\ forall k g, In (k, g) rest -> key_of q <> k).

End Cleaner.


(** ** [cleaner.py] on the file tree: the scan and the cleanup *)

Module Files.
Import Chars Py Cleaner.

(** *** Paths *)

(** The parts of a path written as a string: split at [/], the empty
    parts and the [.] parts dropped, as [pathlib] does. *)
Definition parts_of (s : string) : Path :=
  filter (fun part => negb (is_empty part) && negb (String.eqb part "."))
         (split_char "/"%char EmptyString s).

(** [p / s]: a string that starts with [/] is absolute and replaces [p]. *)
Definition join (p : Path) (s : string) : Path :=
  if startswith "/" s then "/" :: parts_of s else p ++ parts_of s.

(** [p.parent] *)
Definition parent (p : Path) : Path := removelast p.

Fixpoint is_prefix (p q : Path) : bool :=
  match p, q with
  | [], _ => true
  | _ :: _, [] => false
  | x :: p', y :: q' => String.eqb x y && is_prefix p' q'
  end.

(** [p in q.parents]: [p] is a proper prefix of [q]. *)
Definition in_parents (p q : Path) : bool :=
  is_prefix p q && (List.length p <? List.length q)%nat.

Definition path_mem (p : Path) (l : list Path) : bool := existsb (path_eqb p) l.

(** *** The scan *)

(** [parse_deb_filename]: lines 203-213, the pattern
    [^(.+)_([^_]+)_([^_]+)\.deb$].  The name is what stands before the
    last two underscores; [$] also matches before a last newline, and
    [.] matches no newline. *)
Fixpoint rsplit_underscore (cur : string) (s : string) : option (string * string) :=
  match s with
  | EmptyString => None
  | String c r =>
      match rsplit_underscore (cur ++ String c EmptyString) r with
      | Some res => Some res
      | None => if Ascii.eqb c "_"%char then Some (cur, r) else None
      end
  end.

Fixpoint strip_suffix (suffix s : string) : option string :=
  if String.eqb s suffix then Some EmptyString
  else match s with
       | EmptyString => None
       | String c r =>
           match strip_suffix suffix r with
           | Some t => Some (String c t)
           | None => None
           end
       end.

Definition newline : ascii := "010"%char.

Definition parse_deb_filename (filename : string) : option (string * string * string) :=
  let stem :=
    match strip_suffix ".deb" filename with
    | Some t => Some t
    | None => strip_suffix (String "." (String "d" (String "e" (String "b"
                              (String newline EmptyString))))) filename
    end in
  match stem with
  | None => None
  | Some t =>
      match rsplit_underscore EmptyString t with
      | None => None
      | Some (rest, arch) =>
          match rsplit_underscore EmptyString rest with
          | None => None
          | Some (name, version) =>
              if is_empty name || is_empty version || is_empty arch
                 || negb (string_forall (fun c => negb (Ascii.eqb c newline)) name)
              then None
              else Some (name, version, arch)
          end
      end
  end.

(** The tree, as the scan reads it: is the directory there, which
    [*.deb] entries lie under it (relative to it, at any depth), and the
    size and the age in days of a file. *)
Record Tree := {
  dir_exists : Path -> bool;
  rglob_debs : Path -> list Path;
  stat : Path -> Z * Z
}.

Section Scan.
Variable repo_path : Path.
Variable tree : Tree.

(** The body of the inner loop of [scan_packages]: lines 238-263. *)
Definition scan_file (channel : string) (pool_dir relative : Path) : list PackageInfo :=
  let deb_file := pool_dir ++ relative in
  match parse_deb_filename (last deb_file EmptyString) with
  | None => []
  | Some (n, v, a) =>
      let component := match relative with c :: _ => c | [] => "unknown" end in
      let '(st_size, age) := stat tree deb_file in
      [{| name := n; version := v; arch := a;
          filename := last deb_file EmptyString;
          path := deb_file;
          channel := channel; component := component;
          size := st_size; age_days := age;
          is_prerelease := is_prerelease_version v |}]
  end.

(** [scan_packages]: lines 215-266. *)
Definition scan_packages (channels : option (list string)) : list PackageInfo :=
  let channels :=
    match channels with Some l => l | None => ["stable"; "testing"; "pr"] end in
  flat_map (fun channel =>
              let pool_dir := join (join repo_path channel) "pool" in
              if dir_exists tree pool_dir
              then flat_map (scan_file channel pool_dir) (rglob_debs tree pool_dir)
              else [])
           channels.

End Scan.

(** A channel that is the name of one directory: not empty, not [.], no
    [/] in it. *)
Definition plain (channel : string) : bool :=
  negb (is_empty channel) && negb (String.eqb channel ".")
  && string_forall (fun c => negb (Ascii.eqb c "/"%char)) channel.

(** The policy that [cmd_cleanup] builds from the command line when no
    policy file is given: lines 66-86 of [cli.py]. *)
Definition cmd_cleanup_policy (max_age_days max_versions : Z)
    (include_stable_prereleases : bool) : RetentionPolicy :=
  {| prerelease_max_age_days := max_age_days;
     max_versions_per_package := max_versions;
     channel_policies :=
       [("stable", {| keep_prereleases := Some (negb include_stable_prereleases);
                      Cleaner.max_versions := Some 0%Z;
                      Cleaner.max_age_days := None |});
        ("testing", {| keep_prereleases := Some false;
                       Cleaner.max_versions :=
                         Some (if (max_versions >? 0)%Z then max_versions else 5%Z);
                       Cleaner.max_age_days := None |});
        ("pr", {| keep_prereleases := Some false;
                  Cleaner.max_versions :=
                    Some (if (max_versions >? 0)%Z then max_versions else 3%Z);
                  Cleaner.max_age_days := Some 30%Z |})];
     protected_components := [];
     protected_packages := [] |}.

(** Line 95 of [cli.py]: [args.channels.split(',')]. *)
Definition channels_of_arg (arg : option string) : option (list string) :=
  match arg with
  | Some s => if is_empty s then None else Some (split_char ","%char EmptyString s)
  | None => None
  end.

(** *** The cleanup *)

(** The file tree: the files and the directories that exist. *)
Record FS := {
  files : list Path;
  dirs : list Path
}.

Definition entries (fs : FS) : list Path := files fs ++ dirs fs.

Definition remove_path (p : Path) (l : list Path) : list Path :=
  filter (fun q => negb (path_eqb q p)) l.

(** [p.unlink()]: [None] when [p] is not a file of the tree (the call
    raises). *)
Definition unlink (p : Path) (fs : FS) : option FS :=
  if path_mem p (files fs)
  then Some {| files := remove_path p (files fs); dirs := dirs fs |}
  else None.

(** [q] is an entry of the directory [d]. *)
Definition is_child (q d : Path) : bool :=
  match q with
  | [] => false
  | _ :: _ => path_eqb (parent q) d
  end.

(** [any(d.iterdir())] *)
Definition has_entries (d : Path) (fs : FS) : bool :=
  existsb (fun q => is_child q d) (entries fs).

(** [d.rmdir()], of a directory without entries. *)
Definition rmdir (d : Path) (fs : FS) : FS :=
  {| files := files fs; dirs := remove_path d (dirs fs) |}.

(** Lines 424-434: the loop that removes the empty parents, from
    [parent = firstn n p] upwards.  It stops at the repository root, at
    a path that is not under it, at a directory with entries, and where
    listing the directory raises ([parent] is no directory). *)
Fixpoint prune (repo_path p : Path) (n : nat) (fs : FS) : FS :=
  match n with
  | O => fs
  | S n' =>
      let parent := firstn n p in
      if negb (path_eqb parent repo_path) && in_parents repo_path parent then
        if path_mem parent (dirs fs) then
          if negb (has_entries parent fs)
          then prune repo_path p n' (rmdir parent fs)
          else fs
        else fs
      else fs
  end.

(** The report of [cleanup]: lines 440-446. *)
Record Report := {
  dry_run : bool;
  deleted : list Path;
  failed : list Path
}.

Definition deleted_count (r : Report) : Z := Z.of_nat (List.length (deleted r)).
Definition failed_count (r : Report) : Z := Z.of_nat (List.length (failed r)).

(** Lines 412-438: one turn of the loop over the candidates. *)
Definition cleanup_one (repo_path : Path) (dry : bool)
    (state : FS * list Path * list Path) (pkg : PackageInfo)
    : FS * list Path * list Path :=
  let '(fs, deleted, failed) := state in
  if dry then (fs, deleted ++ [path pkg], failed)
  else
    match unlink (path pkg) fs with
    | Some fs' =>
        (prune repo_path (path pkg) (List.length (path pkg) - 1) fs',
         deleted ++ [path pkg], failed)
    | None => (fs, deleted, failed ++ [path pkg])
    end.

(** [cleanup]: lines 390-446.  [listing] is [list(set(...))]: the
    candidates without repetition, in the order in which Python
    enumerates the set. *)
Definition cleanup (listing : list PackageInfo -> list PackageInfo)
    (repo_path : Path)
    (prerelease_candidates version_limit_candidates : list PackageInfo)
    (dry : bool) (fs : FS) : Report * FS :=
  let all_candidates := listing (prerelease_candidates ++ version_limit_candidates) in
  let '(fs', deleted, failed) :=
    fold_left (cleanup_one repo_path dry) all_candidates (fs, [], []) in
  ({| dry_run := dry; deleted := deleted; failed := failed |}, fs').

(** [--dry-run] and [--execute] of the [cleanup] command: lines 493-504
    of [cli.py]; the first stores true in a flag whose default is true,
    the second stores false in it. *)
Fixpoint parse_dry_run (flag : bool) (argv : list string) : bool :=
  match argv with
  | [] => flag
  | a :: rest =>
      if String.eqb a "--dry-run" then parse_dry_run true rest
      else if String.eqb a "--execute" then parse_dry_run false rest
      else parse_dry_run flag rest
  end.

Definition args_dry_run (argv : list string) : bool := parse_dry_run true argv.

(** Lines 125-134 of [cli.py]: [cmd_cleanup] calls [cleanup] only when
    it is not a dry run. *)
Definition cmd_cleanup_files (listing : list PackageInfo -> list PackageInfo)
    (repo_path : Path) (argv : list string)
    (prerelease version_limit : list PackageInfo) (fs : FS) : FS :=
  if negb (args_dry_run argv)
  then snd (cleanup listing repo_path prerelease version_limit false fs)
  else fs.

(** *** Words to state the properties of the cleanup *)

(** [listing] enumerates the set of the packages [l]: what it lists has
    its path in [l], and every package of [l] has its path listed. *)
Definition lists_the_set (listing : list PackageInfo -> list PackageInfo)
    (l : list PackageInfo) : bool :=
  forallb (fun p => path_mem (path p) (map path l)) (listing l)
  && forallb (fun p => path_mem (path p) (map path (listing l))) l.

(** The first package of each path, in order: one enumeration. *)
Fixpoint first_of_each_path (seen : list Path) (l : list PackageInfo)
    : list PackageInfo :=
  match l with
  | [] => []
  | p :: l' =>
      if path_mem (path p) seen then first_of_each_path seen l'
      else p :: first_of_each_path (path p :: seen) l'
  end.

(** In a tree, the parent of an entry below the top level is a
    directory of the tree. *)
Definition well_formed (fs : FS) : Prop :=
  forall q, In q (entries fs) -> (2 <= List.length q)%nat -> In (parent q) (dirs fs).

(** The same, to compute. *)
Definition is_tree (fs : FS) : bool :=
  forallb (fun q => (List.length q <? 2)%nat || path_mem (parent q) (dirs fs))
          (entries fs).

(** What the loop over the candidates keeps, from the tree [fs0] to the
    tree [cur], once the paths [done] are through and [gone] are the
    paths deleted. *)
Record Cleaned (repo_path : Path) (fs0 cur : FS) (done gone : list Path) : Prop := {
  cleaned_tree : well_formed cur;
  cleaned_files :
    forall f, In f (files cur) <-> In f (files fs0) /\ ~ In f gone;
  cleaned_dirs : forall d, In d (dirs cur) -> In d (dirs fs0);
  cleaned_removed :
    forall d, In d (dirs fs0) -> ~ In d (dirs cur) ->
      in_parents repo_path d = true
      /\ (exists f, In f gone /\ in_parents d f = true)
      /\ has_entries d cur = false;
  cleaned_pruned :
    forall f d, In f gone -> in_parents d f = true ->
      in_parents repo_path d = true -> In d (dirs cur) ->
      has_entries d cur = true;
  cleaned_gone : forall f, In f gone <-> In f (files fs0) /\ In f done
}.

End Files.

(** ** Packages to run the cleaner on *)

Module Pool.
Import Chars Py Cleaner.

(** The record that the scan makes of
    [repo/<channel>/pool/<component>/<letter>/<name>/<name>_<version>_<arch>.deb]. *)
Definition deb (ch comp nm v ar : string) (age : Z) : PackageInfo :=
  let file := (nm ++ "_" ++ v ++ "_" ++ ar ++ ".deb")%string in
  {| name := nm; version := v; arch := ar; filename := file;
     path := ["repo"; ch; "pool"; comp; String.substring 0 1 nm; nm; file];
     channel := ch; component := comp; size := 1024; age_days := age;
     is_prerelease := is_prerelease_version v |}.

(** Five versions of [foo] for amd64 in pr/main; the release candidate
    is 40 days old. *)
Definition five : list PackageInfo :=
  [deb "pr" "main" "foo" "1.0~rc1" "amd64" 40;
   deb "pr" "main" "foo" "1.0" "amd64" 20;
   deb "pr" "main" "foo" "1.1" "amd64" 10;
   deb "pr" "main" "foo" "1.2" "amd64" 5;
   deb "pr" "main" "foo" "1.3" "amd64" 1].

(** The same five in testing/main, all recent. *)
Definition five_recent : list PackageInfo :=
  [deb "testing" "main" "foo" "1.2" "amd64" 5;
   deb "testing" "main" "foo" "1.0~rc1" "amd64" 9;
   deb "testing" "main" "foo" "1.3" "amd64" 1;
   deb "testing" "main" "foo" "1.0" "amd64" 8;
   deb "testing" "main" "foo" "1.1" "amd64" 7].

(** dpkg's answers on these versions, which Debian orders
    1.0~rc1 < 1.0 < 1.1 < 1.2 < 1.3. *)
Definition rank (v : string) : Z :=
  if String.eqb v "1.0~rc1" then 0
  else if String.eqb v "1.0" then 1
  else if String.eqb v "1.1" then 2
  else if String.eqb v "1.2" then 3
  else if String.eqb v "1.3" then 4
  else 5.

Definition dpkg : Dpkg :=
  DpkgPresent (fun v1 op v2 =>
    if String.eqb op "lt" then (rank v1 <? rank v2)%Z
    else if String.eqb op "gt" then (rank v2 <? rank v1)%Z
    else false).

(** No pattern of [protected_packages] to match. *)
Definition no_match (pattern name : string) : bool := false.

(** A policy that keeps three versions in testing, and the pre-releases. *)
Definition keep_three : RetentionPolicy :=
  {| prerelease_max_age_days := 90;
     max_versions_per_package := 0;
     channel_policies :=
       [("testing", {| keep_prereleases := Some true; max_versions := Some 3%Z;
                       max_age_days := None |})];
     protected_components := [];
     protected_packages := [] |}.

(** A tree with one pool, [repo/pr/pool], of two versions of [foo]; the
    release candidate is 40 days old. *)
Definition pr_pool : Path := ["repo"; "pr"; "pool"].

Definition tree : Files.Tree :=
  {| Files.dir_exists := fun p => path_eqb p pr_pool;
     Files.rglob_debs := fun p =>
       if path_eqb p pr_pool
       then [["main"; "f"; "foo"; "foo_1.0~rc1_amd64.deb"];
             ["main"; "f"; "foo"; "foo_1.0_amd64.deb"]]
       else [];
     Files.stat := fun p =>
       if String.eqb (last p "") "foo_1.0~rc1_amd64.deb" then (1024%Z, 40%Z)
       else (1024%Z, 5%Z) |}.

(** The tree of [five] on disk, with one more package in stable. *)
Definition disk : Files.FS :=
  {| Files.files :=
       map path five
       ++ [["repo"; "stable"; "pool"; "main"; "f"; "foo"; "foo_1.0_amd64.deb"];
           ["repo"; ".nojekyll"]];
     Files.dirs :=
       [["repo"]; ["repo"; "pr"]; ["repo"; "pr"; "pool"];
        ["repo"; "pr"; "pool"; "main"]; ["repo"; "pr"; "pool"; "main"; "f"];
        ["repo"; "pr"; "pool"; "main"; "f"; "foo"];
        ["repo"; "stable"]; ["repo"; "stable"; "pool"];
        ["repo"; "stable"; "pool"; "main"]; ["repo"; "stable"; "pool"; "main"; "f"];
        ["repo"; "stable"; "pool"; "main"; "f"; "foo"]] |}.

End Pool.

(** ** Words to state what [find_cleanup_candidates] selects *)

Module Retention.
Import Chars Py Cleaner.

Section Policy.
Variable policy : RetentionPolicy.
Variable re_match : string -> string -> bool.

(** Lines 297-300 of [cleaner.py]: what holds for a channel, from its
    own policy or from the defaults. *)
Definition keeps_prereleases (ch : string) : bool :=
  get (match lookup_policy ch (channel_policies policy) with
       | Some p => keep_prereleases p
       | None => None
       end) true.

Definition version_limit (ch : string) : Z :=
  get (match lookup_policy ch (channel_policies policy) with
       | Some p => max_versions p
       | None => None
       end) (max_versions_per_package policy).

Definition age_limit (ch : string) : Z :=
  get (match lookup_policy ch (channel_policies policy) with
       | Some p => max_age_days p
       | None => None
       end) (prerelease_max_age_days policy).

(** Lines 302-310: the component or the name is protected. *)
Definition protected_key (k : Key) : bool :=
  let '(_, component, name, _) := k in
  mem component (protected_components policy)
  || existsb (fun pattern => re_match pattern name) (protected_packages policy).

Definition protected (p : PackageInfo) : bool := protected_key (key_of p).

(** A pre-release past the age limit of its channel. *)
Definition aged (p : PackageInfo) : bool :=
  is_prerelease p && (age_days p >? age_limit (channel p))%Z.

(** What one group adds to the pre-release candidates. *)
Definition prereleases_of (entry : Key * list PackageInfo) : list PackageInfo :=
  let '((ch, _, _, _), group) := entry in
  if protected_key (fst entry) then []
  else if keeps_prereleases ch then []
  else filter (fun pkg => is_prerelease pkg && (age_days pkg >? age_limit ch)%Z) group.

End Policy.

(** The packages of the list that share the key of [q]: its group. *)
Definition group_of (q : PackageInfo) (packages : list PackageInfo)
    : list PackageInfo :=
  filter (fun p => key_eqb (key_of p) (key_of q)) packages.

(** In every group the versions are all different, and the comparison
    in use orders them strictly and totally. *)
Definition orderly (dpkg : Dpkg) (packages : list PackageInfo) : bool :=
  forallb (fun q =>
    distinct (map version (group_of q packages))
    && strict_total_on (version_lt dpkg) (map version (group_of q packages)))
    packages.

End Retention.

(** ** Words to state what [parse_deb_filename] accepts *)

Module DebName.
Import Chars Py Cleaner.

Definition no_underscore (s : string) : bool :=
  string_forall (fun c => negb (Ascii.eqb c "_"%char)) s.

Definition no_newline (s : string) : bool :=
  string_forall (fun c => negb (Ascii.eqb c Files.newline)) s.

(** [name_version_arch.deb] *)
Definition deb_name (name version arch : string) : string :=
  (name ++ "_" ++ version ++ "_" ++ arch ++ ".deb")%string.

(** The three parts of a file name that the pattern accepts: none is
    empty, the name holds no newline, the version and the architecture
    hold no underscore. *)
Definition deb_parts (name version arch : string) : bool :=
  negb (is_empty name) && no_newline name
  && negb (is_empty version) && no_underscore version
  && negb (is_empty arch) && no_underscore arch.

End DebName.

(** ** [cli.py]: the [cleanup] command on a file tree *)

Module CliCleanup.
Import Chars Py Cleaner Files.

(** [fnmatch(name, "*.deb")] *)
Definition is_deb_name (name : string) : bool :=
  match strip_suffix ".deb" name with Some _ => true | None => false end.

(** [q.relative_to(p)]; [None] when [q] is not under [p]. *)
Fixpoint relative_to (p q : Path) : option Path :=
  match p, q with
  | [], _ => Some q
  | _ :: _, [] => None
  | x :: p', y :: q' => if String.eqb x y then relative_to p' q' else None
  end.

(** What the scan reads in a file tree [fs]: [p.exists()], and
    [p.rglob("*.deb")], the entries strictly under [p] whose last part
    ends in [.deb], relative to [p]; [stat] gives the size and the age
    in days. *)
Definition tree_of (fs : FS) (stat : Path -> Z * Z) : Tree :=
  {| dir_exists := fun p => path_mem p (entries fs);
     rglob_debs := fun p =>
       flat_map (fun q =>
                   match relative_to p q with
                   | Some (x :: rel) =>
                       if is_deb_name (last q EmptyString) then [x :: rel] else []
                   | _ => []
                   end) (entries fs);
     Files.stat := stat |}.

(** The arguments of [cleanup] that decide what is deleted. *)
Record Args := {
  repo_path : string;
  dry_run : bool;
  max_age_days : Z;
  max_versions : Z;
  channels : option string;
  include_stable_prereleases : bool;
  policy : option string
}.

(** How the command ends: normally, with a tree, or by [sys.exit(1)]. *)
Inductive Ended :=
| Done (fs : FS)
| Exit1.

Section Command.
(** The enumeration of a set of packages, the host's dpkg, [re.match],
    the file attributes, and what [RetentionPolicy.from_file] loads
    ([None] when it raises). *)
Variable listing : list PackageInfo -> list PackageInfo.
Variable dpkg : Dpkg.
Variable re_match : string -> string -> bool.
Variable stat : Path -> Z * Z.
Variable from_file : string -> option RetentionPolicy.

(** Lines 61-86. *)
Definition policy_of (args : Args) : option RetentionPolicy :=
  if truthy (policy args) then from_file (Py.str (policy args))
  else Some (cmd_cleanup_policy (max_age_days args) (max_versions args)
               (include_stable_prereleases args)).

(** Lines 94-98: the candidates. *)
Definition candidates_of (pol : RetentionPolicy) (args : Args) (fs : FS)
    : list PackageInfo * list PackageInfo :=
  let repo := join [] (repo_path args) in
  let packages := scan_packages repo (tree_of fs stat) (channels_of_arg (channels args)) in
  find_cleanup_candidates pol dpkg re_match packages.

(** [cmd_cleanup]: lines 53-143, without what it prints. *)
Definition cmd_cleanup (args : Args) (fs : FS) : Ended :=
  let repo := join [] (repo_path args) in
  if negb (path_mem repo (entries fs)) then Exit1
  else
    match policy_of args with
    | None => Exit1
    | Some pol =>
        let '(prerelease, version_limit) := candidates_of pol args fs in
        if negb (dry_run args)
        then Done (snd (cleanup listing repo prerelease version_limit false fs))
        else Done fs
    end.

End Command.

(** The channels that the command scans. *)
Definition scanned_channels (args : Args) : list string :=
  match channels_of_arg (channels args) with
  | Some l => l
  | None => ["stable"; "testing"; "pr"]
  end.

End CliCleanup.

(** ** [cleaner.py]: [find_pr_cleanup_candidates] *)

Module PrCleanup.
Import Chars Py Cleaner Files.

(** The pattern [pr(\d+)]. *)
Definition pr_pattern : Re.regex := Re.Cat (Re.lit "pr") (Re.plus Re.Digit).

(** The digits at the start of a string: what [(\d+)] takes. *)
Fixpoint take_digits (s : string) : string :=
  match s with
  | EmptyString => EmptyString
  | String c r => if is_digit c then String c (take_digits r) else EmptyString
  end.

(** The match of [pr(\d+)] at the start of [s], ignoring case: its
    group. *)
Definition match_pr_here (s : string) : option string :=
  match s with
  | String a (String b r) =>
      if Re.char_matches true "p" a && Re.char_matches true "r" b
         && negb (is_empty (take_digits r))
      then Some (take_digits r)
      else None
  | _ => None
  end.

(** [re.search(r"pr(\d+)", s, re.IGNORECASE)]: group 1 of the leftmost
    match, [None] when there is no match. *)
Fixpoint search_pr (s : string) : option string :=
  match match_pr_here s with
  | Some digits => Some digits
  | None =>
      match s with
      | EmptyString => None
      | String _ r => search_pr r
      end
  end.

(** [int(digits)] *)
Fixpoint int_from (acc : Z) (digits : string) : Z :=
  match digits with
  | EmptyString => acc
  | String c r => int_from (10 * acc + Z.of_nat (nat_of_ascii c - 48)) r
  end.

Definition int (digits : string) : Z := int_from 0 digits.

(** The body of the loop: lines 492-506. *)
Definition candidate (closed_prs : option (list Z)) (max_age_days : Z)
    (pkg : PackageInfo) : list PackageInfo :=
  if (age_days pkg >? max_age_days)%Z then [pkg]
  else
    match closed_prs with
    | Some (pr :: prs) =>
        match search_pr (version pkg) with
        | Some digits =>
            if existsb (Z.eqb (int digits)) (pr :: prs) then [pkg] else []
        | None => []
        end
    | _ => []
    end.

(** [find_pr_cleanup_candidates]: lines 470-508. *)
Definition find_pr_cleanup_candidates (tree : Tree) (repo_path : Path)
    (closed_prs : option (list Z)) (max_age_days : Z) : list PackageInfo :=
  flat_map (candidate closed_prs max_age_days)
           (scan_packages repo_path tree (Some ["pr"])).

(** The closed pull requests, none when the list is missing. *)
Definition closed (closed_prs : option (list Z)) : list Z :=
  match closed_prs with Some l => l | None => [] end.

End PrCleanup.

(** ** Words to state what a run of the publisher does, step by step *)

Module Traces.
Import Chars Py Host.

(** Every command that the block runs satisfies [Q]. *)
Definition emits {W A : Type} (Q : Command -> bool) (m : M W A) : Prop :=
  forall r, exists new,
    trace (snd (m r)) = trace r ++ new
    /\ Forall (fun p => Q (fst p) = true) (ran new).

(** The block ends by returning or by [sys.exit(1)], never otherwise. *)
Definition returns_or_exits_1 {A : Type} (o : Outcome A) : Prop :=
  match o with
  | Return _ => True
  | Exit n => n = 1%Z
  | Raise _ => False
  end.

(** The program of a command. *)
Definition program (c : Command) : string :=
  match argv c with prog :: _ => prog | [] => "" end.

Definition is_aptly (c : Command) : bool := String.eqb (program c) "aptly".

(** An aptly process runs on the configuration [cfg] and the root
    [home] made for the run; any other process inherits the
    environment of the caller. *)
Definition addressed (cfg home : string) (c : Command) : bool :=
  match env c with
  | AptlyEnv cfg' home' =>
      is_aptly c && String.eqb cfg' cfg && String.eqb home' home
      && match argv c with
         | _ :: conf :: _ => String.eqb conf ("-config=" ++ cfg)
         | _ => false
         end
  | Inherited => negb (is_aptly c)
  end.

(** [aptly ... snapshot create ...] *)
Definition creates_snapshot (c : Command) : bool :=
  match Reconcile.aptly_sub (argv c) with
  | Some (a, b, _) => String.eqb a "snapshot" && String.eqb b "create"
  | None => false
  end.

(** A command that neither creates a snapshot nor changes a
    publication. *)
Definition harmless (c : Command) : bool :=
  negb (creates_snapshot c) && negb (Reconcile.mutates_publication (argv c)).

End Traces.

(** ** More command lines, by name *)

Module Cmds.
Import Chars Py Host.

(** [bash -lc "command -v <name>"] *)
Definition probe (name : string) : Command :=
  {| argv := ["bash"; "-lc"; ("command -v " ++ name)%string];
     cwd := None; env := Inherited |}.

Definition is_probe (c : Command) : bool :=
  existsb (fun name =>
             if list_eq_dec string_dec (argv c) (argv (probe name)) then true else false)
          ["git"; "rsync"; "aptly"; "gpg"].

Section Library.
Variable self : Publisher.AptlyPublisher.
Variables pages aptly_cfg aptly_home : string.

Definition clone_branch : Command :=
  {| argv := ["git"; "clone"; "-b"; Publisher.branch self; Publisher.pages_repo self;
              pages];
     cwd := None; env := Inherited |}.

Definition clone_plain : Command :=
  {| argv := ["git"; "clone"; Publisher.pages_repo self; pages];
     cwd := None; env := Inherited |}.

Definition checkout_orphan : Command :=
  {| argv := ["git"; "checkout"; "--orphan"; Publisher.branch self];
     cwd := Some pages; env := Inherited |}.

Definition git_rm : Command :=
  {| argv := ["git"; "rm"; "-rf"; "."]; cwd := Some pages; env := Inherited |}.

Definition rsync_seed : Command :=
  {| argv := ["rsync"; "-a"; (pages ++ "/")%string;
              (Publisher.aptly_public aptly_home ++ "/")%string];
     cwd := None; env := Inherited |}.

Definition db_recover : Command :=
  Commands.engine aptly_cfg aptly_home ["db"; "recover"].

Definition repo_create : Command :=
  Commands.engine aptly_cfg aptly_home
    ["repo"; "create"; ("-component=" ++ Publisher.component self)%string;
     ("-distribution=" ++ Publisher.distro self)%string; Publisher.repo_name self].

Definition repo_add (debs : list string) : Command :=
  Commands.engine aptly_cfg aptly_home
    (["repo"; "add"; Publisher.repo_name self] ++ debs).

Definition snapshot_create (snap : string) : Command :=
  Commands.engine aptly_cfg aptly_home
    ["snapshot"; "create"; snap; "from"; "repo"; Publisher.repo_name self].

Definition publish_list_raw : Command :=
  Commands.engine aptly_cfg aptly_home ["publish"; "list"; "-raw"].

Definition publish_list : Command :=
  Commands.engine aptly_cfg aptly_home ["publish"; "list"].

Definition publish_show : Command :=
  Commands.engine aptly_cfg aptly_home
    ["publish"; "show"; Publisher.distro self; Publisher.publish_prefix self].

End Library.

End Cmds.

(** ** The tools that a run needs *)

Module Tools.
Import Chars Py Host.

(** Lines 110-116 of [publisher.py]: git, rsync and aptly, and gpg when
    the run signs with a key. *)
Definition required (self : Publisher.AptlyPublisher) : list string :=
  ["git"; "rsync"; "aptly"]
  ++ (if Publisher.sign self && truthy (Publisher.keyid self) then ["gpg"] else []).

(** A probe that found its tool. *)
Definition found (name : string) : Command * Z := (Cmds.probe name, 0%Z).

End Tools.

(** ** Commands that create no snapshot *)

Module Quiet.
Import Chars Py Host.

Definition no_snapshot (c : Command) : bool := negb (Traces.creates_snapshot c).

End Quiet.

(** ** Words to state what the inspector reads in an [InRelease] file *)

Module InRelease.
Import Chars Py.

Definition newline : string := String "010"%char EmptyString.

(** A component name as the file lists it: not empty, no whitespace. *)
Definition is_word (w : string) : bool :=
  negb (is_empty w) && string_forall (fun c => negb (is_space c)) w.

Definition one_line (l : string) : bool :=
  string_forall (fun c => negb (Ascii.eqb c "010"%char)) l.

(** A line of the file that is not the [Components:] field. *)
Definition other_field (l : string) : bool :=
  one_line l && negb (startswith "Components:" l).

(** The field as the file has it: the names with one space between. *)
Definition components_field (cs : list string) : string :=
  "Components: " ++ String.concat " " cs.

(** The text of a file of these lines. *)
Definition text (lines : list string) : string :=
  String.concat newline lines.

End InRelease.

(** ** The [publish] command of the command line: [cli.cmd_publish] *)

Module CliPublish.
Import Chars Py Host.

(** The options of [add_publish_arguments] that the command reads. *)
Record Args := {
  component : string;
  distro : string;
  channel : string;
  debs : option string;
  pages_repo : string;
  branch : string;
  sign : bool;
  keyid : option string;
  passphrase : option string;
  aptly_config : option string;
  aptly_root : option string;
  verbose : bool;
  auto_bump : bool
}.

Inductive Value :=
| VStr (s : string)
| VOpt (o : option string)
| VBool (b : bool).

(** The parameters of [AptlyPublisher.__init__] after [self]
    ([publisher.py], lines 20-35); it takes no [**kwargs]. *)
Definition parameters : list string :=
  ["component"; "distro"; "channel"; "pages_repo"; "branch"; "sign";
   "keyid"; "passphrase"; "aptly_config"; "aptly_root"; "verbose"].

(** The keywords of the call of the constructor, lines 26-39. *)
Definition keywords (args : Args) : list (string * Value) :=
  [("component", VStr (component args));
   ("distro", VStr (distro args));
   ("channel", VStr (channel args));
   ("pages_repo", VStr (pages_repo args));
   ("branch", VStr (branch args));
   ("sign", VBool (sign args));
   ("keyid", VOpt (keyid args));
   ("passphrase", VOpt (passphrase args));
   ("aptly_config", VOpt (aptly_config args));
   ("aptly_root", VOpt (aptly_root args));
   ("verbose", VBool (verbose args));
   ("auto_bump", VBool (auto_bump args))].

(** What the handler of the command catches: the [TypeError] of a call,
    with the keyword that it names, or an exception of the publisher. *)
Inductive Error :=
| TypeError (unexpected_keyword : string)
| Failed (e : Exception).

(** A call by keywords: a keyword that names no parameter is a
    [TypeError], raised before the body of the function runs. *)
Definition unexpected (kws : list (string * Value)) : option string :=
  option_map fst (find (fun kw => negb (mem (fst kw) parameters)) kws).

Definition construct (args : Args) : Error + Publisher.AptlyPublisher :=
  match unexpected (keywords args) with
  | Some k => inl (TypeError k)
  | None =>
      inr (Publisher.__init__ (component args) (distro args) (channel args)
             (pages_repo args) (branch args) (sign args) (keyid args)
             (passphrase args) (aptly_config args) (aptly_root args)
             (verbose args))
  end.

Inductive Ended :=
| Returned
| Exited (status : Z)
| Raised (e : Error).

(** [cmd_publish]: lines 19-50, without what it prints.  [sys.exit] is
    not an [Exception]: an exit of [publish] passes the handler. *)
Definition cmd_publish {W : Type} {os : OS W} (args : Args)
    (amb : Publisher.Ambient) (r : Run W) : Ended * Run W :=
  if sign args && negb (truthy (keyid args)) then (Exited 1, r)
  else
    match construct args with
    | inl exc => if verbose args then (Raised exc, r) else (Exited 1, r)
    | inr publisher =>
        match Publisher.publish publisher amb (debs args) r with
        | (Return _, r') => (Returned, r')
        | (Exit status, r') => (Exited status, r')
        | (Raise e, r') =>
            if verbose args then (Raised (Failed e), r') else (Exited 1, r')
        end
    end.

End CliPublish.

(** ** The report of the cleaner: [AptlyCleaner.generate_report] *)

Module Reporting.
Import Chars Py Cleaner.

(** One package of the report: the dictionary of lines 367-376.  The
    path stands by its parts. *)
Record Entry := {
  name : string;
  version : string;
  arch : string;
  component : string;
  size : Z;
  age_days : Z;
  is_prerelease : bool;
  path : Path
}.

Definition entry (pkg : PackageInfo) : Entry :=
  {| name := Cleaner.name pkg;
     version := Cleaner.version pkg;
     arch := Cleaner.arch pkg;
     component := Cleaner.component pkg;
     size := Cleaner.size pkg;
     age_days := Cleaner.age_days pkg;
     is_prerelease := Cleaner.is_prerelease pkg;
     path := Cleaner.path pkg |}.

(** [by_channel[channel].append(e)] on a dictionary that keeps the
    order in which its keys came. *)
Fixpoint bucket_append (channel : string) (e : Entry)
    (buckets : list (string * list Entry)) : list (string * list Entry) :=
  match buckets with
  | [] => [(channel, [e])]
  | (ch, es) :: rest =>
      if String.eqb ch channel then (ch, es ++ [e]) :: rest
      else (ch, es) :: bucket_append channel e rest
  end.

(** [sum(...)]: from 0, left to right. *)
Definition sum (l : list Z) : Z := fold_left Z.add l 0%Z.

(** The summary without [total_size_mb], a rounded float. *)
Record Summary := {
  total_candidates : Z;
  prerelease_candidates : Z;
  version_limit_candidates : Z;
  total_size_bytes : Z
}.

(** The report without [generated_at], a reading of the clock. *)
Record Report := {
  summary : Summary;
  by_channel : list (string * list Entry);
  policy : RetentionPolicy
}.

(** Lines 351-388.  [listing] is the order in which [list(set(...))]
    enumerates the set of the candidates. *)
Definition generate_report (self_policy : RetentionPolicy)
    (listing : list PackageInfo -> list PackageInfo)
    (prerelease_candidates version_limit_candidates : list PackageInfo) : Report :=
  let all_candidates := listing (prerelease_candidates ++ version_limit_candidates) in
  let total_size := sum (map Cleaner.size all_candidates) in
  let by_channel :=
    fold_left (fun d pkg => bucket_append (Cleaner.channel pkg) (entry pkg) d)
              all_candidates [] in
  {| summary :=
       {| total_candidates := Z.of_nat (List.length all_candidates);
          prerelease_candidates := Z.of_nat (List.length prerelease_candidates);
          version_limit_candidates := Z.of_nat (List.length version_limit_candidates);
          total_size_bytes := total_size |};
     by_channel := by_channel;
     policy := self_policy |}.

(** *** Words to state the properties of the report *)

Fixpoint no_repeat (l : list Path) : bool :=
  match l with
  | [] => true
  | p :: r => negb (Files.path_mem p r) && no_repeat r
  end.

(** [listing] enumerates the set of the packages [l], each path once. *)
Definition enumerates (listing : list PackageInfo -> list PackageInfo)
    (l : list PackageInfo) : bool :=
  Files.lists_the_set listing l && no_repeat (map Cleaner.path (listing l)).

(** The buckets of a list of packages: the loop of lines 364-377. *)
Definition buckets_of (l : list PackageInfo) : list (string * list Entry) :=
  fold_left (fun d pkg => bucket_append (Cleaner.channel pkg) (entry pkg) d) l [].

(** The packages of the report, bucket after bucket. *)
Definition listed (r : Report) : list Entry := List.concat (map snd (by_channel r)).

End Reporting.

(** ** [cli.py]: what the [analyze] command computes *)

Module CliAnalyze.
Import Chars Py Cleaner Files.

(** The arguments of [analyze] that decide what is computed. *)
Record Args := {
  repo_path : string;
  max_age_days : Z;
  max_versions : Z;
  channels : option string;
  include_stable_prereleases : bool;
  policy : option string
}.

(** The policy built from the command line: lines 158-177. *)
Definition cmd_analyze_policy (args : Args) : RetentionPolicy :=
  {| prerelease_max_age_days := max_age_days args;
     max_versions_per_package := max_versions args;
     channel_policies :=
       [("stable", {| keep_prereleases := Some (negb (include_stable_prereleases args));
                      Cleaner.max_versions := Some 0%Z;
                      Cleaner.max_age_days := None |});
        ("testing", {| keep_prereleases := Some false;
                       Cleaner.max_versions :=
                         Some (if (max_versions args >? 0)%Z
                               then max_versions args else 5%Z);
                       Cleaner.max_age_days := None |});
        ("pr", {| keep_prereleases := Some false;
                  Cleaner.max_versions :=
                    Some (if (max_versions args >? 0)%Z
                          then max_versions args else 3%Z);
                  Cleaner.max_age_days := Some 30%Z |})];
     protected_components := [];
     protected_packages := [] |}.

(** Lines 186-189. *)
Definition channels_of (args : Args) : list string :=
  if truthy (channels args)
  then split_char ","%char EmptyString (Py.str (channels args))
  else ["stable"; "testing"; "pr"].

(** The counts and the two lists that the command prints and writes. *)
Record Analysis := {
  total_packages : Z;
  total_size : Z;
  cleanup_size : Z;
  cleanup_candidates : list PackageInfo;
  version_limit_candidates : list PackageInfo
}.

(** How the computation ends: with the analysis, or in the handler of
    the command, by [sys.exit(1)]. *)
Inductive Ended :=
| Analysed (a : Analysis)
| Exit1.

Section Command.
Variable dpkg : Dpkg.
Variable re_match : string -> string -> bool.
Variable stat : Path -> Z * Z.
Variable from_file : string -> option RetentionPolicy.

(** [cmd_analyze] up to its statistics: lines 148-197. *)
Definition cmd_analyze (args : Args) (fs : FS) : Ended :=
  let repo := join [] (repo_path args) in
  if negb (path_mem repo (entries fs)) then Exit1
  else
    match (if truthy (policy args) then from_file (Py.str (policy args))
           else Some (cmd_analyze_policy args)) with
    | None => Exit1
    | Some pol =>
        let channels := channels_of args in
        let packages :=
          scan_packages repo (CliCleanup.tree_of fs stat) (Some channels) in
        let '(prerelease, version_limit) :=
          find_cleanup_candidates pol dpkg re_match packages in
        Analysed
          {| total_packages := Z.of_nat (List.length packages);
             total_size := Reporting.sum (map size packages);
             cleanup_size := Reporting.sum (map size prerelease);
             cleanup_candidates := prerelease;
             version_limit_candidates := version_limit |}
    end.

End Command.

(** The [cleanup] command line with the same options. *)
Definition as_cleanup (args : Args) (dry_run : bool) : CliCleanup.Args :=
  {| CliCleanup.repo_path := repo_path args;
     CliCleanup.dry_run := dry_run;
     CliCleanup.max_age_days := max_age_days args;
     CliCleanup.max_versions := max_versions args;
     CliCleanup.channels := channels args;
     CliCleanup.include_stable_prereleases := include_stable_prereleases args;
     CliCleanup.policy := policy args |}.

End CliAnalyze.

(** ** The [cleanup] command on the small pool *)

Module PoolRun.
Import Chars Py Cleaner Files.

(** [cleanup --repo-path repo --execute] *)
Definition execute : CliCleanup.Args :=
  {| CliCleanup.repo_path := "repo";
     CliCleanup.dry_run := false;
     CliCleanup.max_age_days := 90;
     CliCleanup.max_versions := 0;
     CliCleanup.channels := None;
     CliCleanup.include_stable_prereleases := false;
     CliCleanup.policy := None |}.

(** The release candidate is 40 days old, the other files 5. *)
Definition stat (p : Path) : Z * Z := Files.stat Pool.tree p.

(** No policy file to load. *)
Definition no_file (path : string) : option RetentionPolicy := None.

Definition run (args : CliCleanup.Args) : CliCleanup.Ended :=
  CliCleanup.cmd_cleanup (first_of_each_path []) Pool.dpkg Pool.no_match stat no_file
    args Pool.disk.

(** [analyze --repo-path repo] *)
Definition analyze : CliAnalyze.Args :=
  {| CliAnalyze.repo_path := "repo";
     CliAnalyze.max_age_days := 90;
     CliAnalyze.max_versions := 0;
     CliAnalyze.channels := None;
     CliAnalyze.include_stable_prereleases := false;
     CliAnalyze.policy := None |}.

End PoolRun.

(** * Properties *)

(** ** Component normalization *)

Section ComponentFacts.
Import Chars Component.

Example normalize_my_project :
  _normalize_component "My Project!!" = "my-project".
Proof. reflexivity. Qed.

Example normalize_edges :
  _normalize_component "--Feel++  Toolbox__v2--" = "feel-toolbox-v2"
  /\ _normalize_component "!!!" = ""
  /\ hyphenated (lower "--Feel++  Toolbox__v2--") = "feel-toolbox-v2".
Proof. repeat split. Qed.

Lemma norm_component_eq s : norm_component s = _normalize_component s.
Proof. reflexivity. Qed.

(** Characters: the few facts used below, by enumeration of the 256
    characters. *)
Ltac all_chars c :=
  destruct c as [[|] [|] [|] [|] [|] [|] [|] [|]]; vm_compute;
  try reflexivity; try discriminate; auto.

Lemma lower_char_component c :
  is_component_char c = true -> lower_char c = c.
Proof. all_chars c. Qed.

Lemma alnum_not_hyphen c :
  is_lower_alnum c = true -> Ascii.eqb c hyphen = false.
Proof. all_chars c. Qed.

Lemma component_char_cases c :
  is_component_char c = true ->
  is_lower_alnum c = true \/ (is_lower_alnum c = false /\ c = hyphen).
Proof.
  unfold is_component_char. intros H.
  destruct (is_lower_alnum c) eqn:E; [now left | right].
  split; [reflexivity |]. now apply Ascii.eqb_eq.
Qed.

Lemma hyphen_is_component_char : is_component_char hyphen = true.
Proof. reflexivity. Qed.

Lemma alnum_is_component_char c :
  is_lower_alnum c = true -> is_component_char c = true.
Proof. unfold is_component_char. now intros ->. Qed.

(** *** The substitution *)

Lemma sub_runs_chars b s :
  string_forall is_component_char (sub_runs b s) = true.
Proof.
  revert b. induction s as [|c r IH]; intros b; simpl; [reflexivity |].
  destruct (is_lower_alnum c) eqn:E; simpl.
  - now rewrite (alnum_is_component_char _ E), IH.
  - destruct b; simpl; now rewrite ?IH.
Qed.

Lemma sub_runs_true_first s :
  match first_char (sub_runs true s) with
  | Some c => Ascii.eqb c hyphen
  | None => false
  end = false.
Proof.
  induction s as [|c r IH]; simpl; [reflexivity |].
  destruct (is_lower_alnum c) eqn:E; simpl; [now apply alnum_not_hyphen | exact IH].
Qed.

Lemma sub_runs_no_double b s : no_double_hyphen (sub_runs b s) = true.
Proof.
  revert b. induction s as [|c r IH]; intros b; simpl; [reflexivity |].
  destruct (is_lower_alnum c) eqn:E.
  - simpl. rewrite (alnum_not_hyphen _ E), IH. reflexivity.
  - destruct b; [apply IH |].
    simpl. rewrite IH.
    pose proof (sub_runs_true_first r) as F.
    destruct (sub_runs true r); simpl in *; [reflexivity | now rewrite F].
Qed.

(** *** Stripping *)

Lemma lstrip_forall p s :
  string_forall p s = true -> string_forall p (lstrip s) = true.
Proof.
  induction s as [|c r IH]; simpl; [easy |].
  intros H. apply andb_true_iff in H as [Hc Hr].
  destruct (Ascii.eqb c hyphen); [auto | simpl; now rewrite Hc, Hr].
Qed.

Lemma rstrip_forall p s :
  string_forall p s = true -> string_forall p (rstrip s) = true.
Proof.
  induction s as [|c r IH]; simpl; [easy |].
  intros H. apply andb_true_iff in H as [Hc Hr].
  destruct (Ascii.eqb c hyphen && is_empty (rstrip r)); simpl; [reflexivity |].
  now rewrite Hc, IH.
Qed.

Lemma lstrip_no_double s :
  no_double_hyphen s = true -> no_double_hyphen (lstrip s) = true.
Proof.
  induction s as [|c r IH]; simpl; [easy |].
  intros H. destruct (Ascii.eqb c hyphen) eqn:E.
  - apply andb_true_iff in H as [_ Hr]. auto.
  - simpl. now rewrite E.
Qed.

Lemma rstrip_first s :
  first_char (rstrip s) = first_char s \/ rstrip s = EmptyString.
Proof.
  destruct s as [|c r]; simpl; [now left |].
  destruct (Ascii.eqb c hyphen && is_empty (rstrip r)); [now right | now left].
Qed.

Lemma rstrip_no_double s :
  no_double_hyphen s = true -> no_double_hyphen (rstrip s) = true.
Proof.
  induction s as [|c r IH]; simpl; [easy |].
  intros H. apply andb_true_iff in H as [Hc Hr].
  destruct (Ascii.eqb c hyphen && is_empty (rstrip r)) eqn:E; simpl; [reflexivity |].
  rewrite (IH Hr), andb_true_r.
  destruct (Ascii.eqb c hyphen) eqn:Ec; [| reflexivity].
  rewrite andb_true_l in E, Hc |- *.
  destruct (rstrip_first r) as [F | F]; [| now rewrite F in E].
  destruct (rstrip r) as [|a t]; [discriminate E |].
  destruct r as [|d r']; simpl in F; [discriminate F |].
  injection F as ->. exact Hc.
Qed.

Lemma lstrip_first s :
  match first_char (lstrip s) with
  | Some c => Ascii.eqb c hyphen
  | None => false
  end = false.
Proof.
  induction s as [|c r IH]; simpl; [reflexivity |].
  destruct (Ascii.eqb c hyphen) eqn:E; [exact IH | simpl; exact E].
Qed.

Lemma rstrip_last s :
  match last_char (rstrip s) with
  | Some c => Ascii.eqb c hyphen
  | None => false
  end = false.
Proof.
  induction s as [|c r IH]; simpl; [reflexivity |].
  destruct (Ascii.eqb c hyphen && is_empty (rstrip r)) eqn:E; [reflexivity |].
  destruct (rstrip r) as [|d r'] eqn:R.
  - simpl in *. now rewrite andb_true_r in E.
  - exact IH.
Qed.

Lemma strip_well_formed s :
  string_forall is_component_char s = true ->
  no_double_hyphen s = true ->
  well_formed (strip s) = true.
Proof.
  intros Hc Hd. unfold well_formed, strip.
  rewrite (rstrip_forall _ _ (lstrip_forall _ _ Hc)).
  rewrite (rstrip_no_double _ (lstrip_no_double _ Hd)).
  rewrite rstrip_last. simpl.
  destruct (rstrip_first (lstrip s)) as [F | F]; rewrite F.
  - now rewrite lstrip_first.
  - reflexivity.
Qed.

(** *** A normalized identifier is left as it is *)

Lemma lower_fixed s :
  string_forall is_component_char s = true -> lower s = s.
Proof.
  induction s as [|c r IH]; simpl; [easy |].
  intros H. apply andb_true_iff in H as [Hc Hr].
  now rewrite (lower_char_component _ Hc), IH.
Qed.

Lemma sub_runs_fixed s :
  forall b,
    string_forall is_component_char s = true ->
    no_double_hyphen s = true ->
    (b = true ->
     match first_char s with Some c => Ascii.eqb c hyphen | None => false end = false) ->
    sub_runs b s = s.
Proof.
  induction s as [|c r IH]; intros b Hc Hd Hb; simpl; [reflexivity |].
  simpl in Hc, Hd.
  apply andb_true_iff in Hc as [Hc Hr].
  apply andb_true_iff in Hd as [Hd Hdr].
  destruct (component_char_cases _ Hc) as [A | [A ->]]; rewrite A.
  - f_equal. apply IH; auto. discriminate.
  - destruct b.
    + specialize (Hb eq_refl). simpl in Hb. discriminate Hb.
    + f_equal. apply IH; auto. intros _.
      destruct r as [|d r']; [reflexivity |]. simpl in *.
      now destruct (Ascii.eqb d hyphen).
Qed.

Lemma lstrip_fixed s :
  match first_char s with Some c => Ascii.eqb c hyphen | None => false end = false ->
  lstrip s = s.
Proof. destruct s as [|c r]; simpl; [easy | now intros ->]. Qed.

Lemma rstrip_fixed s :
  match last_char s with Some c => Ascii.eqb c hyphen | None => false end = false ->
  rstrip s = s.
Proof.
  induction s as [|c r IH]; [easy |].
  intros H. cbn [rstrip].
  destruct r as [|d r'].
  - simpl in *. now rewrite H.
  - rewrite IH by exact H. cbn [is_empty]. now rewrite andb_false_r.
Qed.

Lemma well_formed_fixed s :
  well_formed s = true -> _normalize_component s = s.
Proof.
  unfold well_formed, _normalize_component, strip. intros H.
  repeat (apply andb_true_iff in H as [H ?]).
  rewrite lower_fixed by assumption.
  rewrite sub_runs_fixed by (assumption || discriminate).
  rewrite lstrip_fixed by now apply negb_true_iff.
  apply rstrip_fixed. now apply negb_true_iff.
Qed.

Lemma normalize_well_formed s : well_formed (_normalize_component s) = true.
Proof.
  unfold _normalize_component.
  apply strip_well_formed; [apply sub_runs_chars | apply sub_runs_no_double].
Qed.

(** *** Runs collapsed, ends trimmed: the hyphenated words *)

Lemma lstrip_sub_runs b s : lstrip (sub_runs b s) = sub_runs true s.
Proof.
  revert b. induction s as [|c r IH]; intros b; simpl; [reflexivity |].
  destruct (is_lower_alnum c) eqn:E.
  - simpl. now rewrite (alnum_not_hyphen _ E).
  - destruct b; simpl; apply IH.
Qed.

Lemma rstrip_app a b :
  rstrip (a ++ b) = if is_empty (rstrip b) then rstrip a else (a ++ rstrip b)%string.
Proof.
  induction a as [|c a IH]; simpl.
  - now destruct (rstrip b).
  - rewrite IH. destruct (rstrip b) as [|d t] eqn:R; simpl; [reflexivity |].
    assert (is_empty (a ++ String d t) = false) as -> by now destruct a.
    now rewrite andb_false_r.
Qed.

Lemma rstrip_alnum s :
  string_forall is_lower_alnum s = true -> rstrip s = s.
Proof.
  induction s as [|c r IH]; simpl; [easy |].
  intros H. apply andb_true_iff in H as [Hc Hr].
  now rewrite (alnum_not_hyphen _ Hc), IH.
Qed.

Lemma alnum_words_nonempty s :
  forall cur w, In w (alnum_words cur s) -> is_empty w = false.
Proof.
  induction s as [|c r IH]; intros cur w; simpl.
  - destruct (is_empty cur) eqn:E; simpl; [easy | now intros [<- | []]].
  - destruct (is_lower_alnum c); [apply IH |].
    destruct (is_empty cur) eqn:E; [apply IH |].
    intros [<- | H]; [exact E | now apply IH in H].
Qed.

Lemma concat_nonempty sep w ws :
  is_empty w = false -> is_empty (String.concat sep (w :: ws)) = false.
Proof. destruct w; [easy |]. now destruct ws. Qed.

Lemma string_forall_app p a b :
  string_forall p (a ++ b) = string_forall p a && string_forall p b.
Proof.
  induction a as [|c a IH]; simpl; [reflexivity |].
  now rewrite IH, andb_assoc.
Qed.

Lemma app_assoc_char a c t :
  ((a ++ String c EmptyString) ++ t = a ++ String c t)%string.
Proof. induction a as [|d a IH]; simpl; [reflexivity | now rewrite IH]. Qed.

Lemma app_empty_r a : (a ++ "")%string = a.
Proof. induction a as [|c a IH]; simpl; [reflexivity | now rewrite IH]. Qed.

Lemma rstrip_words s :
  forall cur,
    string_forall is_lower_alnum cur = true ->
    rstrip (cur ++ sub_runs (is_empty cur) s)
    = String.concat "-" (alnum_words cur s).
Proof.
  induction s as [|c r IH]; intros cur Hcur.
  - simpl. rewrite app_empty_r, rstrip_alnum by exact Hcur.
    now destruct cur.
  - cbn [sub_runs alnum_words]. destruct (is_lower_alnum c) eqn:E.
    + rewrite <- app_assoc_char.
      specialize (IH (cur ++ String c EmptyString)%string).
      assert (is_empty (cur ++ String c "")%string = false) as N by now destruct cur.
      rewrite N in IH. apply IH.
      rewrite string_forall_app, Hcur. simpl. now rewrite E.
    + destruct (is_empty cur) eqn:Ec.
      * destruct cur; [| discriminate Ec]. apply (IH EmptyString eq_refl).
      * rewrite rstrip_app. cbn [rstrip].
        pose proof (IH EmptyString eq_refl) as R. simpl in R. rewrite R.
        change (Ascii.eqb hyphen hyphen) with true. rewrite andb_true_l.
        pose proof (alnum_words_nonempty r EmptyString) as NE.
        destruct (alnum_words EmptyString r) as [|w ws].
        -- simpl. now apply rstrip_alnum.
        -- rewrite (concat_nonempty "-" w ws) by (apply NE; now left).
           cbn [is_empty].
           change (String.concat "-" (cur :: w :: ws))
             with (cur ++ "-" ++ String.concat "-" (w :: ws))%string.
           reflexivity.
Qed.

Lemma normalize_hyphenated s : _normalize_component s = hyphenated (lower s).
Proof.
  unfold _normalize_component, strip, hyphenated.
  rewrite lstrip_sub_runs. apply (rstrip_words (lower s) EmptyString eq_refl).
Qed.


End ComponentFacts.

(** ** Runs: what every block of a run preserves *)

Section Steps.
Import Chars Py Host Reconcile.
Context {W : Type} {os : OS W}.

Variable R : Run W -> Run W -> Prop.
Hypothesis K : Kept R.

Lemma steps_ret {A} (a : A) : steps R (ret a).
Proof. intros r. apply (kept_refl R K). Qed.

Lemma steps_exit {A} n : steps R (@sys_exit W A n).
Proof. intros r. apply (kept_refl R K). Qed.

Lemma steps_bind {A B} (m : M W A) (k : A -> M W B) :
  steps R m -> (forall a, steps R (k a)) -> steps R (bind m k).
Proof.
  intros Hm Hk r. unfold bind. specialize (Hm r).
  destruct (m r) as [[a | n | e] r']; simpl in *; auto.
  eapply (kept_trans R K); [exact Hm | apply Hk].
Qed.

Lemma steps_when b (m : M W unit) : steps R m -> steps R (when b m).
Proof. intros H. destruct b; simpl; [exact H | apply steps_ret]. Qed.

Lemma steps_for_each {A} (l : list A) (body : A -> M W unit) :
  (forall x, steps R (body x)) -> steps R (for_each l body).
Proof.
  intros H. induction l as [|x l IH]; simpl; [apply steps_ret |].
  apply steps_bind; auto.
Qed.

Lemma steps_try_except {A} (m h : M W A) :
  steps R m -> steps R h -> steps R (try_except m h).
Proof.
  intros Hm Hh r. unfold try_except. specialize (Hm r).
  destruct (m r) as [[a | n | [rc cmd]] r']; simpl in *; auto.
  eapply (kept_trans R K); [exact Hm | apply Hh].
Qed.

Lemma steps_ask {A} (f : W -> A) : steps R (ask f).
Proof. intros r. apply (kept_refl R K). Qed.

Lemma steps_log lvl fmt args : steps R (@log W lvl fmt args).
Proof. intros r. apply (kept_event R K). discriminate. Qed.

Lemma steps_mkdir p : steps R (change (mkdir_p p)).
Proof. intros r. apply (kept_mkdir R K). Qed.

Lemma steps_run cmd cwd check env :
  mutates_publication cmd = false ->
  steps R (Publisher._run cmd cwd check env).
Proof.
  intros H. unfold Publisher._run. apply steps_bind; [apply steps_log |].
  intros _ r. simpl.
  pose proof (kept_ran R K r {| argv := cmd; cwd := cwd; env := env |} H) as S.
  destruct (subprocess_run _ (world r)) as [rc w'] eqn:E. simpl in S.
  now destruct (check && negb (rc =? 0)%Z).
Qed.

Lemma steps_configure cfg root tmp :
  steps R (fun r =>
    match provision cfg root tmp (world r) with
    | (Provisioned aptly_cfg aptly_home, w') =>
        (Return (aptly_cfg, aptly_home), {| world := w'; trace := trace r |})
    | (NotProvisioned fmt args, w') =>
        (@Exit (string * string) 1%Z,
         {| world := w'; trace := trace r ++ [Log ERROR fmt args] |})
    end).
Proof.
  intros r. pose proof (kept_provision R K r cfg root tmp) as S.
  destruct (provision cfg root tmp (world r)) as [[c h | fmt args] w']; simpl in *.
  - exact S.
  - eapply (kept_trans R K); [exact S |].
    apply (kept_event R K {| world := w'; trace := trace r |}). discriminate.
Qed.

Lemma steps_nojekyll pages :
  steps R (fun r : Run W =>
    (Return tt,
     {| world := write_text (joinpath pages ".nojekyll") "" (world r);
        trace := trace r ++ [Wrote (joinpath pages ".nojekyll") ""] |})).
Proof.
  intros r. simpl. eapply (kept_trans R K); [apply (kept_write R K) |].
  apply (kept_event R K {| world := write_text _ _ (world r); trace := trace r |}).
  discriminate.
Qed.

End Steps.

(** One step of a proof that a block keeps the relation. *)
Ltac step K :=
  match goal with
  | |- Reconcile.steps _ (Host.bind _ _) => apply (steps_bind _ K); [| intros ?]
  | |- Reconcile.steps _ (Host.ret _) => apply (steps_ret _ K)
  | |- Reconcile.steps _ (Host.sys_exit _) => apply (steps_exit _ K)
  | |- Reconcile.steps _ (Host.log _ _ _) => apply (steps_log _ K)
  | |- Reconcile.steps _ (Host.when _ _) => apply (steps_when _ K)
  | |- Reconcile.steps _ (Host.for_each _ _) => apply (steps_for_each _ K); intros ?
  | |- Reconcile.steps _ (Host.try_except _ _) => apply (steps_try_except _ K)
  | |- Reconcile.steps _ (Host.ask _) => apply (steps_ask _ K)
  | |- Reconcile.steps _ (Host.change (Host.mkdir_p _)) => apply (steps_mkdir _ K)
  | |- Reconcile.steps _ (Publisher._run _ _ _ _) => apply (steps_run _ K); reflexivity
  | |- Reconcile.steps _ (if ?b then _ else _) => destruct b
  | |- Reconcile.steps _ (match ?x with _ => _ end) => destruct x
  end.

(** ** The blocks of [publish] that change no publication *)

Section QuietBlocks.
Import Chars Py Host Reconcile Publisher.
Context {W : Type} {os : OS W}.
Variable R : Run W -> Run W -> Prop.
Hypothesis K : Kept R.
Variable self : AptlyPublisher.

Lemma steps_ensure_cmd name : steps R (_ensure_cmd name).
Proof. unfold _ensure_cmd. repeat step K. Qed.

Lemma steps_validate : steps R (validate self).
Proof.
  unfold validate. repeat (apply steps_ensure_cmd || step K).
Qed.

Lemma steps_clone pages : steps R (clone self pages).
Proof. unfold clone. repeat step K. Qed.

Lemma steps_seed pages cfg home : steps R (seed self pages cfg home).
Proof. unfold seed, aptly_run. repeat step K. Qed.

Lemma steps_stage cfg home debs ts : steps R (stage self cfg home debs ts).
Proof. unfold stage, aptly_run. repeat step K. Qed.

Lemma steps_prepare amb debs : steps R (prepare self amb debs).
Proof.
  unfold prepare.
  apply (steps_bind _ K); [apply steps_validate | intros _].
  apply (steps_bind _ K); [apply (steps_configure _ K) | intros [cfg home]].
  apply (steps_bind _ K); [apply steps_clone | intros _].
  apply (steps_bind _ K); [apply (steps_log _ K) | intros _].
  apply (steps_bind _ K); [apply (steps_log _ K) | intros _].
  apply (steps_bind _ K); [apply steps_seed | intros _].
  apply (steps_bind _ K); [apply steps_stage | intros snap].
  apply (steps_ret _ K).
Qed.

Lemma steps_inspect cfg home : steps R (inspect self cfg home).
Proof. unfold inspect, aptly_run. repeat step K. Qed.

Lemma steps_sync_and_push pages home commit_ts :
  steps R (sync_and_push self pages home commit_ts).
Proof.
  unfold sync_and_push.
  apply (steps_bind _ K); [step K | intros _].
  apply (steps_bind _ K); [apply (steps_nojekyll _ K) | intros _].
  repeat step K.
Qed.

(** The inspector always yields a state: every command of it runs with
    [check=False]. *)
Lemma inspect_returns cfg home r :
  exists ex comps, fst (inspect self cfg home r) = Return (ex, comps).
Proof.
  unfold inspect, aptly_run, _run, bind, log, emit, when, ask, ret. simpl.
  repeat match goal with
         | |- context [subprocess_run ?c ?w] =>
             destruct (subprocess_run c w) as [? ?]; simpl
         | |- context [if ?b then _ else _] => destruct b; simpl
         | |- context [match parse_components ?l with _ => _ end] =>
             destruct (parse_components l); simpl
         end; eauto.
Qed.

End QuietBlocks.

(** ** The Reconciliation Engine of the library, case by case *)

Section ReconcileCases.
Import Chars Py Host Reconcile Publisher.
Context {W : Type} {os : OS W}.
Variable self : AptlyPublisher.
Variables cfg home snap : string.

Ltac run_block :=
  unfold reconcile, aptly_run, _run, bind, log, emit, when, ret, sys_exit;
  cbn [world trace].

Ltac tidy := repeat rewrite <- app_assoc; cbn [app]; try reflexivity.

(** Switch: the component is in the list. *)
Lemma reconcile_switch comps r :
  mem (component self) comps = true ->
  reconcile self cfg home true comps snap r =
    let c := Commands.switch self cfg home snap in
    let (rc, w') := subprocess_run c (world r) in
    let t := trace r
             ++ [Log INFO "Updating existing component '%s' in %s/%s ..." [LStr (component self); LStr (channel self); LStr (distro self)]]
             ++ Commands.ran_events c rc in
    if (rc =? 0)%Z then
      (Return tt,
       {| world := w';
          trace := t ++ [Log INFO "Successfully updated component '%s'" [LStr (component self)]] |})
    else
      (Exit 1%Z,
       {| world := w';
          trace := t ++ [Log ERROR "Failed to switch/update component %s" [LStr (component self)]] |}).
Proof.
  intros H. run_block. rewrite H.
  unfold Commands.switch, Commands.engine, Commands.ran_events. cbn [argv cwd].
  destruct (subprocess_run _ (world r)) as [rc w'].
  cbn [andb]. destruct (rc =? 0)%Z; cbn [negb world trace]; tidy.
Qed.

(** Add: the publication exists, the component is not in the list. *)
Lemma reconcile_add comps r :
  mem (component self) comps = false ->
  reconcile self cfg home true comps snap r =
    let a := Commands.add self cfg home snap in
    let (rc, w1) := subprocess_run a (world r) in
    let t := trace r
             ++ [Log INFO "Adding new component '%s' to %s/%s ..." [LStr (component self); LStr (channel self); LStr (distro self)]]
             ++ Commands.ran_events a rc in
    if (rc =? 0)%Z then
      let u := Commands.update self cfg home in
      let (rcu, w2) := subprocess_run u w1 in
      let t' := t ++ [Log INFO "Successfully added component '%s'" [LStr (component self)];
                      Log INFO "Updating publication metadata to include new component..." []]
                  ++ Commands.ran_events u rcu in
      (Return tt,
       {| world := w2;
          trace := t' ++ [if (rcu =? 0)%Z
                          then Log INFO "Successfully updated publication metadata" []
                          else Log WARNING "Failed to update publication metadata (exit=%s)"
                                   [LInt rcu]] |})
    else
      (Exit 1%Z,
       {| world := w1;
          trace := t ++ [Log ERROR "Failed to add component %s" [LStr (component self)]] |}).
Proof.
  intros H. run_block. rewrite H.
  unfold Commands.add, Commands.update, Commands.engine, Commands.ran_events.
  cbn [argv cwd].
  destruct (subprocess_run _ (world r)) as [rc w1].
  cbn [andb]. destruct (rc =? 0)%Z; cbn [negb world trace]; [| tidy].
  destruct (subprocess_run _ w1) as [rcu w2].
  destruct (rcu =? 0)%Z; cbn [negb world trace]; tidy.
Qed.

(** Bootstrap: no publication. *)
Lemma reconcile_bootstrap comps r :
  reconcile self cfg home false comps snap r =
    let c := Commands.snapshot self cfg home snap in
    let (rc, w') := subprocess_run c (world r) in
    let t := trace r
             ++ [Log INFO "Creating first-time publication %s/%s ..."
                     [LStr (channel self); LStr (distro self)]]
             ++ Commands.ran_events c rc in
    if (rc =? 0)%Z then
      (Return tt,
       {| world := w';
          trace := t ++ [Log INFO "Successfully created publication %s/%s"
                             [LStr (channel self); LStr (distro self)]] |})
    else
      (Raise (CalledProcessError rc (argv c)), {| world := w'; trace := t |}).
Proof.
  run_block.
  unfold Commands.snapshot, Commands.engine, Commands.ran_events. cbn [argv cwd].
  destruct (subprocess_run _ (world r)) as [rc w'].
  cbn [andb]. destruct (rc =? 0)%Z; cbn [negb world trace]; tidy.
Qed.

End ReconcileCases.

(** ** Three relations that the quiet blocks keep *)

Section KeptRelations.
Import Chars Py Host Reconcile.
Context {W : Type} {os : OS W}.

Lemma ran_app (a b : list Event) : ran (a ++ b) = ran a ++ ran b.
Proof.
  induction a as [|e a IH]; simpl; [reflexivity |].
  destruct e; simpl; now rewrite IH.
Qed.

Lemma commands_app (a b : list Event) : commands (a ++ b) = commands a ++ commands b.
Proof. unfold commands. now rewrite ran_app, map_app. Qed.

Lemma transitions_of_app a b :
  transitions_of (a ++ b) = transitions_of a ++ transitions_of b.
Proof.
  induction a as [|c a IH]; simpl; [reflexivity |].
  destruct (transition_of c); simpl; now rewrite IH.
Qed.

Lemma transitions_app (a b : list Event) :
  transitions (a ++ b) = transitions a ++ transitions b.
Proof. unfold transitions. now rewrite commands_app, transitions_of_app. Qed.

Lemma mutations_app (a b : list Event) : mutations (a ++ b) = mutations a ++ mutations b.
Proof. unfold mutations. now rewrite commands_app, filter_app. Qed.

Lemma calls_app (a b : list Event) : calls (a ++ b) = calls a ++ calls b.
Proof. unfold calls. now rewrite ran_app, filter_app. Qed.

Lemma commands_not_ran e : (forall c rc, e <> Ran c rc) -> commands [e] = [].
Proof. destruct e; [intros H; now destruct (H c returncode) | easy | easy]. Qed.

(** A command that starts a transition changes a publication; so do the
    metadata update and every command that takes signing flags. *)
Lemma transition_mutates cmd t :
  transition_of cmd = Some t -> mutates_publication cmd = true.
Proof.
  unfold transition_of, mutates_publication.
  destruct (aptly_sub cmd) as [[[a b] rest] |]; [| discriminate].
  destruct (String.eqb a "publish"); simpl; [| discriminate].
  destruct (String.eqb b "snapshot") eqn:E1.
  { apply String.eqb_eq in E1. now subst. }
  destruct (String.eqb b "switch") eqn:E2.
  { apply String.eqb_eq in E2. now subst. }
  destruct (String.eqb b "add") eqn:E3.
  { apply String.eqb_eq in E3. now subst. }
  destruct (String.eqb b "source") eqn:E4.
  { apply String.eqb_eq in E4. now subst. }
  discriminate.
Qed.

Lemma signing_mutates cmd :
  accepts_signing cmd = true -> mutates_publication cmd = true.
Proof.
  unfold accepts_signing, mutates_publication.
  destruct (aptly_sub cmd) as [[[a b] rest] |]; [| discriminate].
  destruct (String.eqb a "publish"); simpl; [| discriminate].
  intros H. apply orb_true_iff in H as [H | H].
  - apply orb_true_iff in H as [H | H]; apply String.eqb_eq in H; now subst.
  - apply String.eqb_eq in H. now subst.
Qed.

Lemma quiet_no_transition (l : list (list string)) :
  Forall (fun c => mutates_publication c = false) l -> transitions_of l = [].
Proof.
  induction 1 as [|c l Hc _ IH]; simpl; [reflexivity |].
  destruct (transition_of c) eqn:E; [| exact IH].
  apply transition_mutates in E. congruence.
Qed.

Lemma quiet_no_mutation (l : list (list string)) :
  Forall (fun c => mutates_publication c = false) l -> filter mutates_publication l = [].
Proof.
  induction 1 as [|c l Hc _ IH]; simpl; [reflexivity |]. now rewrite Hc.
Qed.

Lemma quiet_no_call (t : list Event) :
  Forall (fun c => mutates_publication c = false) (commands t) -> calls t = [].
Proof.
  unfold calls, commands. induction (ran t) as [|[c rc] l IH]; simpl; [reflexivity |].
  intros H. inversion H as [|? ? Hc Hl]; subst. simpl in Hc. rewrite Hc. auto.
Qed.

Lemma quietly_kept : Kept (@quietly W).
Proof.
  split.
  - intros r. exists []. now rewrite app_nil_r.
  - intros a b c [n1 [E1 F1]] [n2 [E2 F2]]. exists (n1 ++ n2). split.
    + now rewrite E2, E1, app_assoc.
    + rewrite commands_app. now apply Forall_app.
  - intros r e H. exists [e]. split; [reflexivity |].
    now rewrite (commands_not_ran e H).
  - intros r c H. eexists. split; [reflexivity |]. now repeat constructor.
  - intros r p. exists []. simpl. now rewrite app_nil_r.
  - intros r p s. exists []. simpl. now rewrite app_nil_r.
  - intros r cfg root tmp. exists []. simpl. now rewrite app_nil_r.
Qed.

Lemma untouched_kept {P} (pkgs : W -> string -> P) :
  Tools pkgs -> Kept (untouched pkgs).
Proof.
  intros T. split; unfold untouched; simpl.
  - reflexivity.
  - intros a b c H1 H2 x. now rewrite H2, H1.
  - reflexivity.
  - intros r c H x. now apply (other_frame pkgs T).
  - intros r p x. apply (mkdir_frame pkgs T).
  - intros r p s x. apply (write_frame pkgs T).
  - intros r cfg root tmp x. apply (provision_frame pkgs T).
Qed.

Lemma still_listed_kept (listed : W -> string -> bool) c :
  Lists listed -> Kept (still_listed listed c).
Proof.
  intros L. split; unfold still_listed; simpl.
  - auto.
  - auto.
  - auto.
  - intros r cmd H. now apply (other_keeps listed L).
  - intros r p. apply (mkdir_keeps listed L).
  - intros r p s. apply (write_keeps listed L).
  - intros r cfg root tmp. apply (provision_keeps listed L).
Qed.

End KeptRelations.

(** ** [publish], block by block *)

Section WholeRun.
Import Chars Py Host Reconcile Publisher.
Context {W : Type} {os : OS W}.
Variable self : AptlyPublisher.
Variable amb : Ambient.
Variable debs : option string.

Lemma publish_run r :
  publish self amb debs r =
    match prepare self amb debs r with
    | (Return (pages, cfg, home, snap), r1) =>
        match inspect self cfg home r1 with
        | (Return (ex, comps), r2) =>
            match reconcile self cfg home ex comps snap r2 with
            | (Return _, r3) => sync_and_push self pages home (commit_ts amb) r3
            | (Exit n, r3) => (Exit n, r3)
            | (Raise e, r3) => (Raise e, r3)
            end
        | (Exit n, r2) => (Exit n, r2)
        | (Raise e, r2) => (Raise e, r2)
        end
    | (Exit n, r1) => (Exit n, r1)
    | (Raise e, r1) => (Raise e, r1)
    end.
Proof.
  unfold publish, bind.
  destruct (prepare self amb debs r) as [[[[[pages cfg] home] snap] | n | e] r1];
    try reflexivity.
  destruct (inspect self cfg home r1) as [[[ex comps] | n | e] r2]; reflexivity.
Qed.

(** When the preparation gives up, so does the run, there. *)
Lemma publish_not_prepared r :
  (forall ws, fst (prepare self amb debs r) <> Return ws) ->
  publish self amb debs r = (match fst (prepare self amb debs r) with
                             | Return _ => Return tt
                             | Exit n => Exit n
                             | Raise e => Raise e
                             end, snd (prepare self amb debs r)).
Proof.
  intros H. rewrite publish_run.
  destruct (prepare self amb debs r) as [[ws | n | e] r1]; simpl in *;
    [now destruct (H ws) | reflexivity | reflexivity].
Qed.

Lemma publish_prepared r pages cfg home snap ex comps :
  fst (prepare self amb debs r) = Return (pages, cfg, home, snap) ->
  fst (inspect self cfg home (snd (prepare self amb debs r))) = Return (ex, comps) ->
  publish self amb debs r =
    bind (reconcile self cfg home ex comps snap)
         (fun _ => sync_and_push self pages home (commit_ts amb))
         (snd (inspect self cfg home (snd (prepare self amb debs r)))).
Proof.
  intros Hp Hi. rewrite publish_run. unfold bind.
  destruct (prepare self amb debs r) as [o r1]. simpl in *. subst o.
  destruct (inspect self cfg home r1) as [o r2]. simpl in *. subst o.
  reflexivity.
Qed.

End WholeRun.

(** ** The decision table *)

Section DecisionTable.
Import Chars Py Host Reconcile Publisher.
Context {W : Type} {os : OS W}.
Variable self : AptlyPublisher.

Lemma quiet_block {A} (m : M W A) :
  steps quietly m ->
  forall r, exists new,
    trace (snd (m r)) = trace r ++ new
    /\ transitions new = [] /\ mutations new = [].
Proof.
  intros H r. destruct (H r) as [new [E F]]. exists new.
  split; [exact E |]. split.
  - now apply quiet_no_transition.
  - now apply quiet_no_mutation.
Qed.

Lemma quiet_block_calls {A} (m : M W A) :
  steps quietly m ->
  forall r, exists new, trace (snd (m r)) = trace r ++ new /\ calls new = [].
Proof.
  intros H r. destruct (H r) as [new [E F]]. exists new.
  split; [exact E | now apply quiet_no_call].
Qed.

(** The transition of the block: one, the one of the table. *)
Lemma reconcile_transitions cfg home ex comps snap (r : Run W) :
  exists new,
    trace (snd (reconcile self cfg home ex comps snap r)) = trace r ++ new
    /\ transitions new = [decision_table ex (mem (component self) comps)].
Proof.
  destruct ex.
  - destruct (mem (component self) comps) eqn:E.
    + rewrite (reconcile_switch self cfg home snap comps r E). cbv zeta.
      destruct (subprocess_run _ (world r)) as [rc w'].
      destruct (rc =? 0)%Z; cbn [snd trace]; rewrite <- !app_assoc;
        eexists; (split; [reflexivity | reflexivity]).
    + rewrite (reconcile_add self cfg home snap comps r E). cbv zeta.
      destruct (subprocess_run _ (world r)) as [rc w1].
      destruct (rc =? 0)%Z.
      * destruct (subprocess_run _ w1) as [rcu w2].
        cbn [snd trace]; rewrite <- !app_assoc.
        eexists; (split; [reflexivity |]).
        destruct (rcu =? 0)%Z; reflexivity.
      * cbn [snd trace]; rewrite <- !app_assoc.
        eexists; (split; [reflexivity | reflexivity]).
  - rewrite (reconcile_bootstrap self cfg home snap comps r). cbv zeta.
    destruct (subprocess_run _ (world r)) as [rc w'].
    destruct (rc =? 0)%Z; cbn [snd trace]; rewrite <- ?app_assoc;
      eexists; (split; [reflexivity | reflexivity]).
Qed.

Lemma reconcile_sync_transitions pages cfg home ex comps snap cts (r : Run W) :
  exists new,
    trace (snd (bind (reconcile self cfg home ex comps snap)
                     (fun _ => sync_and_push self pages home cts) r))
    = trace r ++ new
    /\ transitions new = [decision_table ex (mem (component self) comps)].
Proof.
  destruct (reconcile_transitions cfg home ex comps snap r) as [n1 [E1 T1]].
  unfold bind.
  destruct (reconcile self cfg home ex comps snap r) as [[[] | n | e] r3];
    cbn [snd] in *; try (exists n1; now split).
  destruct (quiet_block _ (steps_sync_and_push _ quietly_kept self pages home cts) r3)
    as [n2 [E2 [T2 _]]].
  exists (n1 ++ n2). split.
  - now rewrite E2, E1, app_assoc.
  - now rewrite transitions_app, T1, T2.
Qed.

End DecisionTable.


(** ** Switch: the siblings of the component *)

Section SwitchFrame.
Import Chars Py Host Reconcile Publisher.
Context {W : Type} {os : OS W} {P : Type}.
Variable pkgs : W -> string -> P.
Hypothesis T : Tools pkgs.
Variable self : AptlyPublisher.

Lemma switch_names_component cfg home snap :
  switched_component (argv (Commands.switch self cfg home snap)) = Some (component self)
  /\ In "-force-overwrite" (argv (Commands.switch self cfg home snap))
  /\ mutates_publication (argv (Commands.switch self cfg home snap)) = true
  /\ transition_of (argv (Commands.switch self cfg home snap)) = Some Switch.
Proof.
  repeat split. simpl. do 6 right. now left.
Qed.

Lemma reconcile_sync_switch pages cfg home comps snap cts (r : Run W) :
  mem (component self) comps = true ->
  exists new,
    trace (snd (bind (reconcile self cfg home true comps snap)
                     (fun _ => sync_and_push self pages home cts) r))
    = trace r ++ new
    /\ mutations new = [argv (Commands.switch self cfg home snap)]
    /\ forall c', c' <> component self ->
         pkgs (world (snd (bind (reconcile self cfg home true comps snap)
                                (fun _ => sync_and_push self pages home cts) r))) c'
         = pkgs (world r) c'.
Proof.
  intros Hm. unfold bind.
  rewrite (reconcile_switch self cfg home snap comps r Hm). cbv zeta.
  pose proof (switch_frame pkgs T (Commands.switch self cfg home snap) (world r)
                (component self)) as F.
  destruct (switch_names_component cfg home snap) as [Hs [_ [Hmut _]]].
  specialize (F).
  destruct (subprocess_run _ (world r)) as [rc w'] eqn:E. cbn [snd] in F.
  destruct (rc =? 0)%Z.
  - pose proof (steps_sync_and_push _ quietly_kept self pages home cts) as Q.
    pose proof (steps_sync_and_push _ (untouched_kept pkgs T) self pages home cts) as U.
    match goal with
    | |- context [sync_and_push self pages home cts ?r3] =>
        destruct (quiet_block _ Q r3) as [n2 [E2 [_ M2]]];
        specialize (U r3)
    end.
    cbn [world trace] in *.
    eexists. split; [rewrite E2, <- !app_assoc; reflexivity |]. split.
    + rewrite !mutations_app, M2. unfold mutations at 1 2. cbn [commands ran map fst snd filter app Commands.ran_events].
      rewrite Hmut. now rewrite app_nil_r.
    + intros c' Hc. rewrite U. cbn [world]. now apply F.
  - cbn [snd world trace].
    eexists. split; [rewrite <- !app_assoc; reflexivity |]. split.
    + rewrite !mutations_app. unfold mutations. cbn [commands ran map fst snd filter app Commands.ran_events].
      now rewrite Hmut.
    + intros c' Hc. now apply F.
Qed.

End SwitchFrame.

(** The small host honours the contract of the tools. *)
Lemma sim_lookup_update {A} k k' (v : A) m :
  k' <> k -> Sim.lookup k' (Sim.update k v m) = Sim.lookup k' m.
Proof.
  intros H. induction m as [|[x y] m IH]; simpl.
  - destruct (String.eqb k' k) eqn:E; [apply String.eqb_eq in E; contradiction | reflexivity].
  - destruct (String.eqb k x) eqn:E1; simpl.
    + apply String.eqb_eq in E1. subst x.
      destruct (String.eqb k' k) eqn:E; [apply String.eqb_eq in E; contradiction | reflexivity].
    + destruct (String.eqb k' x); [reflexivity | exact IH].
Qed.

Lemma sim_tools : Reconcile.Tools (os := Sim.os) Sim.pkgs.
Proof.
  split; simpl; try reflexivity.
  - intros cmd w c c' H Hne. unfold Sim.run, Sim.pkgs.
    destruct (Sim.fails w (Host.argv cmd)); [reflexivity |]. simpl.
    unfold Reconcile.switched_component in H. unfold Sim.effect.
    destruct (Reconcile.aptly_sub (Host.argv cmd)) as [[[a b] rest] |]; [| discriminate].
    destruct rest as [| flag [| c0 rest]]; try discriminate.
    destruct (String.eqb a "publish"); simpl in *; [| discriminate].
    destruct (String.eqb b "switch"); simpl in *; [| discriminate].
    destruct (String.eqb flag "-component"); [| discriminate].
    injection H as ->. simpl. now apply sim_lookup_update.
  - intros cmd w c' H. unfold Sim.run, Sim.pkgs.
    destruct (Sim.fails w (Host.argv cmd)); [reflexivity |]. simpl.
    unfold Reconcile.mutates_publication in H. unfold Sim.effect.
    destruct (Reconcile.aptly_sub (Host.argv cmd)) as [[[a b] rest] |]; [| reflexivity].
    destruct (String.eqb a "publish"); simpl in *; [| reflexivity].
    apply negb_false_iff in H. apply orb_true_iff in H as [H | H];
      apply String.eqb_eq in H; subst b; reflexivity.
Qed.



(** ** After the engine: the mirror back, commit and push *)

Section SyncBack.
Import Chars Py Host Reconcile Publisher.
Context {W : Type} {os : OS W}.
Variable self : AptlyPublisher.
Variables pages home cts : string.

Lemma sync_and_push_eq (r : Run W) :
  sync_and_push self pages home cts r =
    let rsync := Commands.rsync_back pages home in
    let add := Commands.git_add pages in
    let commit := Commands.git_commit self pages cts in
    let push := Commands.git_push self pages in
    let (rc1, w1) := subprocess_run rsync (world r) in
    let t1 := trace r ++ Commands.ran_events rsync rc1 in
    if (rc1 =? 0)%Z then
      let (rc2, w2) := subprocess_run add (write_text (joinpath pages ".nojekyll") "" w1) in
      let t2 := t1 ++ [Wrote (joinpath pages ".nojekyll") ""]
                   ++ Commands.ran_events add rc2 in
      if (rc2 =? 0)%Z then
        let (rc3, w3) := subprocess_run commit w2 in
        let (rc4, w4) := subprocess_run push w3 in
        let t4 := t2 ++ Commands.ran_events commit rc3 ++ Commands.ran_events push rc4 in
        if (rc4 =? 0)%Z then
          (Return tt,
           {| world := w4;
              trace := t4 ++ [Log INFO "Done. Browse: https://feelpp.github.io/apt/%s/dists/%s/"
                                  [LStr (channel self); LStr (distro self)]] |})
        else (Raise (CalledProcessError rc4 (argv push)), {| world := w4; trace := t4 |})
      else (Raise (CalledProcessError rc2 (argv add)), {| world := w2; trace := t2 |})
    else (Raise (CalledProcessError rc1 (argv rsync)), {| world := w1; trace := t1 |}).
Proof.
  unfold sync_and_push, _run, bind, log, emit, ret. cbn [world trace].
  unfold Commands.rsync_back, Commands.git_add, Commands.git_commit, Commands.git_push,
    Commands.ran_events. cbn [argv cwd].
  destruct (subprocess_run _ (world r)) as [rc1 w1].
  cbn [andb]. destruct (rc1 =? 0)%Z; cbn [negb world trace];
    [| repeat rewrite <- app_assoc; reflexivity].
  destruct (subprocess_run _ (write_text _ _ w1)) as [rc2 w2].
  destruct (rc2 =? 0)%Z; cbn [negb world trace];
    [| repeat rewrite <- app_assoc; reflexivity].
  destruct (subprocess_run _ w2) as [rc3 w3]. cbn [andb world trace].
  destruct (subprocess_run _ w3) as [rc4 w4].
  destruct (rc4 =? 0)%Z; cbn [negb world trace]; repeat rewrite <- app_assoc; reflexivity.
Qed.

(** The mirror back is always attempted; commit and push follow unless
    the mirror or [git add] fails; nothing else stops the block. *)
Lemma sync_and_push_attempts (r : Run W) :
  let res := sync_and_push self pages home cts r in
  let rsync := Commands.rsync_back pages home in
  let add := Commands.git_add pages in
  let commit := Commands.git_commit self pages cts in
  let push := Commands.git_push self pages in
  exists new,
    trace (snd res) = trace r ++ new
    /\ ((exists rc1, rc1 <> 0%Z /\ ran new = [(rsync, rc1)]
                     /\ fst res = Raise (CalledProcessError rc1 (argv rsync)))
        \/ (exists rc2, rc2 <> 0%Z /\ ran new = [(rsync, 0%Z); (add, rc2)]
                        /\ fst res = Raise (CalledProcessError rc2 (argv add)))
        \/ (exists rc3 rc4,
               ran new = [(rsync, 0%Z); (add, 0%Z); (commit, rc3); (push, rc4)]
               /\ fst res = if (rc4 =? 0)%Z then Return tt
                            else Raise (CalledProcessError rc4 (argv push)))).
Proof.
  cbv zeta. rewrite sync_and_push_eq. cbv zeta.
  destruct (subprocess_run _ (world r)) as [rc1 w1].
  destruct (rc1 =? 0)%Z eqn:E1.
  - apply Z.eqb_eq in E1. subst rc1.
    destruct (subprocess_run _ (write_text _ _ w1)) as [rc2 w2].
    destruct (rc2 =? 0)%Z eqn:E2.
    + apply Z.eqb_eq in E2. subst rc2.
      destruct (subprocess_run _ w2) as [rc3 w3].
      destruct (subprocess_run _ w3) as [rc4 w4].
      destruct (rc4 =? 0)%Z eqn:E4; cbn [fst snd trace]; repeat rewrite <- app_assoc;
        (eexists; split; [reflexivity |]); right; right; exists rc3, rc4;
        rewrite E4; split; reflexivity.
    + apply Z.eqb_neq in E2. cbn [fst snd trace]. repeat rewrite <- app_assoc.
      eexists; split; [reflexivity |]. right; left. exists rc2. repeat split. exact E2.
  - apply Z.eqb_neq in E1. cbn [fst snd trace].
    eexists; split; [reflexivity |]. left. exists rc1. repeat split. exact E1.
Qed.

End SyncBack.

(** C5. When the publication exists, the component is not in its list,
    the Add invocation returns 0 and the metadata update that follows
    returns a nonzero code, the run does not abort: the engine block
    returns normally, its last event being the warning
    ["Failed to update publication metadata (exit=%s)"]; the run is from
    there the mirror back, commit and push, which are attempted in this
    order and stop only on their own failures. *)
Theorem update_failure_after_add_is_a_warning :
  forall (W : Type) (os : Host.OS W) (self : Publisher.AptlyPublisher)
         (amb : Publisher.Ambient) (debs : option string) (r : Host.Run W)
         (pages cfg home snap : string) (comps : list string)
         (w1 w2 : W) (rcu : Z),
    fst (Publisher.prepare self amb debs r) = Host.Return (pages, cfg, home, snap) ->
    let r1 := snd (Publisher.prepare self amb debs r) in
    fst (Publisher.inspect self cfg home r1) = Host.Return (true, comps) ->
    let r2 := snd (Publisher.inspect self cfg home r1) in
    Py.mem (Publisher.component self) comps = false ->
    Host.subprocess_run (Commands.add self cfg home snap) (Host.world r2) = (0%Z, w1) ->
    Host.subprocess_run (Commands.update self cfg home) w1 = (rcu, w2) ->
    rcu <> 0%Z ->
    exists r3 before,
      Publisher.reconcile self cfg home true comps snap r2 = (Host.Return tt, r3)
      /\ Host.world r3 = w2
      /\ Host.trace r3
         = before
           ++ [Host.Ran (Commands.update self cfg home) rcu;
               Host.Log Host.WARNING "Failed to update publication metadata (exit=%s)"
                        [Host.LInt rcu]]
      /\ Publisher.publish self amb debs r
         = Publisher.sync_and_push self pages home (Publisher.commit_ts amb) r3
      /\ let res := Publisher.publish self amb debs r in
         let rsync := Commands.rsync_back pages home in
         let add := Commands.git_add pages in
         let commit := Commands.git_commit self pages (Publisher.commit_ts amb) in
         let push := Commands.git_push self pages in
         exists new,
           Host.trace (snd res) = Host.trace r3 ++ new
           /\ ((exists rc1, rc1 <> 0%Z /\ Host.ran new = [(rsync, rc1)]
                  /\ fst res = Host.Raise (Host.CalledProcessError rc1 (Host.argv rsync)))
               \/ (exists rc2, rc2 <> 0%Z /\ Host.ran new = [(rsync, 0%Z); (add, rc2)]
                     /\ fst res = Host.Raise (Host.CalledProcessError rc2 (Host.argv add)))
               \/ (exists rc3 rc4,
                      Host.ran new = [(rsync, 0%Z); (add, 0%Z); (commit, rc3); (push, rc4)]
                      /\ fst res = if (rc4 =? 0)%Z then Host.Return tt
                                   else Host.Raise (Host.CalledProcessError rc4
                                                      (Host.argv push)))).
Proof.
  intros W os self amb debs r pages cfg home snap comps w1 w2 rcu Hp r1 Hi r2 Hm Ha Hu Hne.
  pose proof (publish_prepared self amb debs r pages cfg home snap true comps Hp Hi) as E.
  fold r1 in E. fold r2 in E.
  pose proof (reconcile_add self cfg home snap comps r2 Hm) as Er. cbv zeta in Er.
  rewrite Ha in Er. cbn [Z.eqb] in Er. rewrite Hu in Er.
  apply Z.eqb_neq in Hne. rewrite Hne in Er.
  unfold Commands.ran_events in Er. repeat rewrite <- app_assoc in Er. cbn [app] in Er.
  match type of Er with
  | _ = (_, {| Host.world := _;
               Host.trace := ?t ++ ?a :: ?b :: ?c :: ?d :: ?e :: ?f :: ?g :: ?h :: ?tl |}) =>
      change (t ++ a :: b :: c :: d :: e :: f :: g :: h :: tl)
        with (t ++ [a; b; c; d; e; f] ++ g :: h :: tl) in Er;
      rewrite app_assoc in Er;
      eexists; exists (t ++ [a; b; c; d; e; f])
  end.
  split; [exact Er |]. split; [reflexivity |]. split.
  - reflexivity.
  - assert (Publisher.publish self amb debs r
            = Publisher.sync_and_push self pages home (Publisher.commit_ts amb)
                {| Host.world := w2; Host.trace := Host.trace
                     (snd (Publisher.reconcile self cfg home true comps snap r2)) |}) as Ep.
    { rewrite E. unfold Host.bind. rewrite Er. reflexivity. }
    rewrite Er in Ep. cbn [snd Host.trace] in Ep.
    split; [exact Ep |]. cbv zeta. rewrite Ep.
    apply sync_and_push_attempts.
Qed.

(** The claim at work on the small host: the update fails, the run goes
    on to the mirror back. *)
Lemma update_failure_after_add_is_a_warning_witness :
  exists r3,
    Publisher.publish (Sim.publisher "New Comp") Sim.amb None
      (Publisher.start (Sim.published_host [["publish"; "update"]]))
    = Publisher.sync_and_push (Sim.publisher "New Comp") "/tmp/apt-pages"
        "/tmp/aptly/.aptly" "2025-01-01T00:00:00Z" r3.
Proof.
  pose (self := Sim.publisher "New Comp").
  pose (r := Publisher.start (Sim.published_host [["publish"; "update"]])).
  pose (cfg := "/tmp/aptly/config.json").
  pose (home := "/tmp/aptly/.aptly").
  pose (snap := "new-comp-noble-stable-20250101-000000").
  pose (r2 := snd (Publisher.inspect self cfg home
                     (snd (Publisher.prepare self Sim.amb None r)))).
  pose (w1 := snd (Host.subprocess_run (Commands.add self cfg home snap) (Host.world r2))).
  pose (w2 := snd (Host.subprocess_run (Commands.update self cfg home) w1)).
  destruct (update_failure_after_add_is_a_warning Sim.World Sim.os self Sim.amb None r
              "/tmp/apt-pages" cfg home snap ["main"; "extra"] w1 w2 1%Z)
    as [r3 [before [_ [_ [_ [H _]]]]]].
  - vm_compute. reflexivity.
  - vm_compute. reflexivity.
  - vm_compute. reflexivity.
  - vm_compute. reflexivity.
  - vm_compute. reflexivity.
  - discriminate.
  - exists r3. exact H.
Defined.

(** ** The standalone script, block by block *)

Ltac script_step K :=
  match goal with
  | |- Reconcile.steps _ (Script.run _ _ _ _) => apply (steps_run _ K); reflexivity
  | _ => step K
  end.

Section ScriptBlocks.
Import Chars Py Host Reconcile Script.
Context {W : Type} {os : OS W}.
Variable R : Run W -> Run W -> Prop.
Hypothesis K : Kept R.
Variable args : Args.

Lemma script_steps_ensure_cmd name : steps R (ensure_cmd name).
Proof. unfold ensure_cmd. repeat script_step K. Qed.

Lemma script_steps_validate : steps R (validate args).
Proof. unfold validate. repeat (apply script_steps_ensure_cmd || script_step K). Qed.

Lemma script_steps_clone pages : steps R (clone args pages).
Proof. unfold clone. repeat script_step K. Qed.

Lemma script_steps_seed pages home : steps R (seed pages home).
Proof. unfold seed. repeat script_step K. Qed.

Lemma script_steps_stage cfg home ts : steps R (stage args cfg home ts).
Proof. unfold stage, aptly_run. repeat script_step K. Qed.

Lemma script_steps_prepare amb : steps R (prepare args amb).
Proof.
  unfold prepare.
  apply (steps_bind _ K); [apply script_steps_validate | intros _].
  apply (steps_bind _ K); [apply (steps_configure _ K) | intros [cfg home]].
  apply (steps_bind _ K); [apply script_steps_clone | intros _].
  apply (steps_bind _ K); [apply (steps_log _ K) | intros _].
  apply (steps_bind _ K); [apply (steps_log _ K) | intros _].
  apply (steps_bind _ K); [apply script_steps_seed | intros _].
  apply (steps_bind _ K); [apply script_steps_stage | intros snap].
  apply (steps_ret _ K).
Qed.

Lemma script_steps_sync_and_push pages home commit_ts :
  steps R (sync_and_push args pages home commit_ts).
Proof.
  unfold sync_and_push.
  apply (steps_bind _ K); [script_step K | intros _].
  apply (steps_bind _ K); [apply (steps_nojekyll _ K) | intros _].
  repeat script_step K.
Qed.

(** Signing without a key: the script stops in [validate]. *)
Lemma script_validate_needs_key r :
  sign args = true -> truthy (keyid args) = false ->
  forall u, fst (validate args r) <> Return u.
Proof.
  intros Hs Hk u. unfold validate. rewrite Hs, Hk. unfold bind at 1.
  destruct (for_each _ ensure_cmd r) as [[[] | n | e] r']; simpl; discriminate.
Qed.

Lemma script_prepared_has_key amb r ws :
  fst (prepare args amb r) = Return ws ->
  sign args = true -> truthy (keyid args) = true.
Proof.
  intros H Hs. destruct (truthy (keyid args)) eqn:Hk; [reflexivity | exfalso].
  unfold prepare in H. unfold bind at 1 in H.
  pose proof (script_validate_needs_key r Hs Hk) as V.
  destruct (validate args r) as [[[] | n | e] r']; simpl in *;
    [now destruct (V tt) | discriminate | discriminate].
Qed.

End ScriptBlocks.

Section ScriptReconcile.
Import Chars Py Host Reconcile Script.
Context {W : Type} {os : OS W}.
Variable args : Args.
Variables cfg home snap : string.

Ltac run_block :=
  unfold reconcile, aptly_run, run, bind, log, emit, when, ret, sys_exit, ask;
  cbn [world trace].

Ltac tidy := repeat rewrite <- app_assoc; cbn [app]; try reflexivity.

(** First publication: the directory of the distribution is missing. *)
Lemma script_reconcile_first (r : Run W) :
  path_exists (target_dists args home) (world r) = false ->
  reconcile args cfg home snap r =
    let c := Commands.s_snapshot args cfg home snap in
    let (rc, w') := subprocess_run c (world r) in
    let t := trace r
             ++ [Log INFO "First-time publish %s/%s ..."
                     [LStr (channel args); LStr (distro args)]]
             ++ Commands.ran_events c rc in
    if (rc =? 0)%Z then (Return tt, {| world := w'; trace := t |})
    else (Raise (CalledProcessError rc (argv c)), {| world := w'; trace := t |}).
Proof.
  intros H. run_block. rewrite H. cbn [negb].
  unfold Commands.s_snapshot, Commands.s_engine, Commands.ran_events. cbn [argv cwd].
  destruct (subprocess_run _ (world r)) as [rc w'].
  cbn [andb]. destruct (rc =? 0)%Z; cbn [negb world trace]; tidy.
Qed.

(** Switch: the directory of the component is there. *)
Lemma script_reconcile_switch (r : Run W) :
  path_exists (target_dists args home) (world r) = true ->
  path_exists (component_root args home) (world r) = true ->
  reconcile args cfg home snap r =
    let c := Commands.s_switch args cfg home snap in
    let (rc, w') := subprocess_run c (world r) in
    let t := trace r
             ++ [Log INFO "Updating existing component via publish switch ..." []]
             ++ Commands.ran_events c rc in
    if (rc =? 0)%Z then (Return tt, {| world := w'; trace := t |})
    else (Raise (CalledProcessError rc (argv c)), {| world := w'; trace := t |}).
Proof.
  intros H1 H2. run_block. rewrite H1, H2. cbn [negb].
  unfold Commands.s_switch, Commands.s_engine, Commands.ran_events. cbn [argv cwd].
  destruct (subprocess_run _ (world r)) as [rc w'].
  cbn [andb]. destruct (rc =? 0)%Z; cbn [negb world trace]; tidy.
Qed.

(** Add, with its replacement when the add fails, then the update. *)
Lemma script_reconcile_add (r : Run W) :
  path_exists (target_dists args home) (world r) = true ->
  path_exists (component_root args home) (world r) = false ->
  reconcile args cfg home snap r =
    let a := Commands.s_add args cfg home snap in
    let p := Commands.s_replace args cfg home snap in
    let u := Commands.s_update args cfg home in
    let (rc, w1) := subprocess_run a (world r) in
    let t := trace r
             ++ [Log INFO "Adding/updating component %s to existing publication ..."
                     [LStr (the_component args)]]
             ++ Commands.ran_events a rc in
    if (rc =? 0)%Z then
      let (rcu, w2) := subprocess_run u w1 in
      (if (rcu =? 0)%Z then Return tt else Raise (CalledProcessError rcu (argv u)),
       {| world := w2; trace := t ++ Commands.ran_events u rcu |})
    else
      let (rcp, w2) := subprocess_run p w1 in
      let t' := t ++ [Log INFO "Component already staged, replacing instead ..." []]
                  ++ Commands.ran_events p rcp in
      if (rcp =? 0)%Z then
        let (rcu, w3) := subprocess_run u w2 in
        (if (rcu =? 0)%Z then Return tt else Raise (CalledProcessError rcu (argv u)),
         {| world := w3; trace := t' ++ Commands.ran_events u rcu |})
      else (Raise (CalledProcessError rcp (argv p)), {| world := w2; trace := t' |}).
Proof.
  intros H1 H2. run_block. rewrite H1, H2. cbn [negb].
  unfold Commands.s_add, Commands.s_replace, Commands.s_update, Commands.s_engine,
    Commands.ran_events. cbn [argv cwd].
  destruct (subprocess_run _ (world r)) as [rc w1].
  cbn [andb]. destruct (rc =? 0)%Z; cbn [negb world trace].
  - destruct (subprocess_run _ w1) as [rcu w2].
    destruct (rcu =? 0)%Z; cbn [negb world trace]; tidy.
  - destruct (subprocess_run _ w1) as [rcp w2].
    destruct (rcp =? 0)%Z; cbn [negb world trace]; [| tidy].
    destruct (subprocess_run _ w2) as [rcu w3].
    destruct (rcu =? 0)%Z; cbn [negb world trace]; tidy.
Qed.

End ScriptReconcile.

(** ** The commands of a run that change a publication *)

Section LibraryCalls.
Import Chars Py Host Reconcile Publisher.
Context {W : Type} {os : OS W}.
Variable self : AptlyPublisher.

(** The four command lines change a publication. *)
Lemma library_commands_mutate cfg home snap :
  mutates_publication (argv (Commands.switch self cfg home snap)) = true
  /\ mutates_publication (argv (Commands.add self cfg home snap)) = true
  /\ mutates_publication (argv (Commands.update self cfg home)) = true
  /\ mutates_publication (argv (Commands.snapshot self cfg home snap)) = true.
Proof. repeat split. Qed.

Lemma calls_ran_events c rc :
  mutates_publication (argv c) = true -> calls (Commands.ran_events c rc) = [(c, rc)].
Proof. intros H. unfold calls, Commands.ran_events. simpl. now rewrite H. Qed.

Lemma calls_log lvl fmt args : calls [Log lvl fmt args] = [].
Proof. reflexivity. Qed.

(** The calls of the engine block are the expected ones. *)
Lemma reconcile_calls cfg home ex comps snap (r : Run W) :
  exists new,
    trace (snd (reconcile self cfg home ex comps snap r)) = trace r ++ new
    /\ Calls.of_library self cfg home snap ex comps (calls new)
    /\ (forall u, fst (reconcile self cfg home ex comps snap r) = Return u ->
        ex = true -> mem (component self) comps = false ->
        exists rcu, calls new = [(Commands.add self cfg home snap, 0%Z);
                                 (Commands.update self cfg home, rcu)])
    /\ (fst (reconcile self cfg home ex comps snap r) = Exit 1%Z
        \/ (exists e, fst (reconcile self cfg home ex comps snap r) = Raise e)
        \/ fst (reconcile self cfg home ex comps snap r) = Return tt).
Proof.
  destruct (library_commands_mutate cfg home snap) as [Ms [Ma [Mu Mn]]].
  unfold Calls.of_library. destruct ex.
  - destruct (mem (component self) comps) eqn:E.
    + rewrite (reconcile_switch self cfg home snap comps r E). cbv zeta.
      destruct (subprocess_run _ (world r)) as [rc w'].
      destruct (rc =? 0)%Z; cbn [fst snd trace]; rewrite <- !app_assoc;
        (eexists; split; [reflexivity |]);
        rewrite !calls_app, (calls_ran_events _ _ Ms); cbn [calls ran filter app];
        (split; [now exists rc |]); (split; [discriminate |]); auto.
    + rewrite (reconcile_add self cfg home snap comps r E). cbv zeta.
      destruct (subprocess_run _ (world r)) as [rc w1].
      destruct (rc =? 0)%Z eqn:Erc.
      * apply Z.eqb_eq in Erc. subst rc.
        destruct (subprocess_run _ w1) as [rcu w2].
        cbn [fst snd trace]; rewrite <- !app_assoc.
        eexists; split; [reflexivity |].
        rewrite !calls_app, (calls_ran_events _ _ Ma), (calls_ran_events _ _ Mu).
        assert (calls [if (rcu =? 0)%Z
                       then Log INFO "Successfully updated publication metadata" []
                       else Log WARNING "Failed to update publication metadata (exit=%s)"
                                [LInt rcu]] = []) as -> by now destruct (rcu =? 0)%Z.
        cbn [calls ran filter app].
        split; [right; now exists rcu |]. split; [intros; now exists rcu | auto].
      * apply Z.eqb_neq in Erc. cbn [fst snd trace]; rewrite <- !app_assoc.
        eexists; split; [reflexivity |].
        rewrite !calls_app, (calls_ran_events _ _ Ma). cbn [calls ran filter app].
        split; [left; now exists rc |]. split; [discriminate | auto].
  - rewrite (reconcile_bootstrap self cfg home snap comps r). cbv zeta.
    destruct (subprocess_run _ (world r)) as [rc w'].
    destruct (rc =? 0)%Z; cbn [fst snd trace]; rewrite <- ?app_assoc;
      (eexists; split; [reflexivity |]);
      rewrite !calls_app, (calls_ran_events _ _ Mn); cbn [calls ran filter app];
      (split; [now exists rc |]); (split; [discriminate |]); eauto.
Qed.

(** The calls of a whole run: none when the preparation stops, else
    those of the engine block for the state found. *)
Lemma publish_calls amb debs (r : Run W) :
  exists new,
    trace (snd (publish self amb debs r)) = trace r ++ new
    /\ match prepare self amb debs r with
       | (Return (pages, cfg, home, snap), r1) =>
           exists ex comps,
             fst (inspect self cfg home r1) = Return (ex, comps)
             /\ Calls.of_library self cfg home snap ex comps (calls new)
       | (_, _) => calls new = []
       end.
Proof.
  destruct (quiet_block_calls _ (steps_prepare _ quietly_kept self amb debs) r)
    as [n1 [E1 C1]].
  rewrite publish_run.
  destruct (prepare self amb debs r) as [[[[[pages cfg] home] snap] | n | e] r1];
    cbn [snd] in *; try (exists n1; now split).
  destruct (inspect_returns self cfg home r1) as [ex [comps Hi]].
  destruct (quiet_block_calls _ (steps_inspect _ quietly_kept self cfg home) r1)
    as [n2 [E2 C2]].
  destruct (inspect self cfg home r1) as [o r2]. cbn [fst snd] in *. subst o.
  destruct (reconcile_calls cfg home ex comps snap r2) as [n3 [E3 [C3 _]]].
  destruct (reconcile self cfg home ex comps snap r2) as [[[] | n | e] r3];
    cbn [snd] in *.
  - destruct (quiet_block_calls _
                (steps_sync_and_push _ quietly_kept self pages home (commit_ts amb)) r3)
      as [n4 [E4 C4]].
    exists (n1 ++ n2 ++ n3 ++ n4). split.
    + rewrite E4, E3, E2, E1. now rewrite !app_assoc.
    + exists ex, comps. split; [reflexivity |].
      now rewrite !calls_app, C1, C2, C4, app_nil_r.
  - exists (n1 ++ n2 ++ n3). split.
    + rewrite E3, E2, E1. now rewrite !app_assoc.
    + exists ex, comps. split; [reflexivity |]. now rewrite !calls_app, C1, C2.
  - exists (n1 ++ n2 ++ n3). split.
    + rewrite E3, E2, E1. now rewrite !app_assoc.
    + exists ex, comps. split; [reflexivity |]. now rewrite !calls_app, C1, C2.
Qed.

End LibraryCalls.

Section ScriptCalls.
Import Chars Py Host Reconcile Script.
Context {W : Type} {os : OS W}.
Variable args : Args.

Lemma script_commands_mutate cfg home snap :
  mutates_publication (argv (Commands.s_switch args cfg home snap)) = true
  /\ mutates_publication (argv (Commands.s_add args cfg home snap)) = true
  /\ mutates_publication (argv (Commands.s_replace args cfg home snap)) = true
  /\ mutates_publication (argv (Commands.s_update args cfg home)) = true
  /\ mutates_publication (argv (Commands.s_snapshot args cfg home snap)) = true.
Proof. repeat split. Qed.

Lemma script_reconcile_calls cfg home snap (r : Run W) :
  exists new,
    trace (snd (reconcile args cfg home snap r)) = trace r ++ new
    /\ Calls.of_script args cfg home snap
         (path_exists (target_dists args home) (world r))
         (path_exists (component_root args home) (world r))
         (calls new).
Proof.
  destruct (script_commands_mutate cfg home snap) as [Ms [Ma [Mp [Mu Mn]]]].
  unfold Calls.of_script.
  destruct (path_exists (target_dists args home) (world r)) eqn:E1.
  - destruct (path_exists (component_root args home) (world r)) eqn:E2.
    + rewrite (script_reconcile_switch args cfg home snap r E1 E2). cbv zeta.
      destruct (subprocess_run _ (world r)) as [rc w'].
      destruct (rc =? 0)%Z; cbn [fst snd trace];
        (eexists; split; [reflexivity |]);
        rewrite !calls_app, (calls_ran_events _ _ Ms); cbn [calls ran filter app];
        now exists rc.
    + rewrite (script_reconcile_add args cfg home snap r E1 E2). cbv zeta.
      destruct (subprocess_run _ (world r)) as [rc w1].
      destruct (rc =? 0)%Z eqn:Erc.
      * apply Z.eqb_eq in Erc. subst rc.
        destruct (subprocess_run _ w1) as [rcu w2].
        cbn [fst snd trace]; rewrite <- !app_assoc.
        eexists; split; [reflexivity |].
        rewrite !calls_app, (calls_ran_events _ _ Ma), (calls_ran_events _ _ Mu).
        cbn [calls ran filter app]. left. now exists rcu.
      * apply Z.eqb_neq in Erc.
        destruct (subprocess_run _ w1) as [rcp w2].
        destruct (rcp =? 0)%Z eqn:Ercp.
        -- apply Z.eqb_eq in Ercp. subst rcp.
           destruct (subprocess_run _ w2) as [rcu w3].
           cbn [fst snd trace]; rewrite <- !app_assoc.
           eexists; split; [reflexivity |].
           rewrite !calls_app, (calls_ran_events _ _ Ma), (calls_ran_events _ _ Mp),
             (calls_ran_events _ _ Mu).
           cbn [calls ran filter app]. right; right. now exists rc, rcu.
        -- apply Z.eqb_neq in Ercp.
           cbn [fst snd trace]; rewrite <- !app_assoc.
           eexists; split; [reflexivity |].
           rewrite !calls_app, (calls_ran_events _ _ Ma), (calls_ran_events _ _ Mp).
           cbn [calls ran filter app]. right; left. now exists rc, rcp.
  - rewrite (script_reconcile_first args cfg home snap r E1). cbv zeta.
    destruct (subprocess_run _ (world r)) as [rc w'].
    destruct (rc =? 0)%Z; cbn [fst snd trace];
      (eexists; split; [reflexivity |]);
      rewrite !calls_app, (calls_ran_events _ _ Mn); cbn [calls ran filter app];
      now exists rc.
Qed.

Lemma main_run amb (r : Run W) :
  main args amb r =
    match prepare args amb r with
    | (Return (pages, cfg, home, snap), r1) =>
        match reconcile args cfg home snap r1 with
        | (Return _, r2) => sync_and_push args pages home (Publisher.commit_ts amb) r2
        | (Exit n, r2) => (Exit n, r2)
        | (Raise e, r2) => (Raise e, r2)
        end
    | (Exit n, r1) => (Exit n, r1)
    | (Raise e, r1) => (Raise e, r1)
    end.
Proof.
  unfold main, bind.
  destruct (prepare args amb r) as [[[[[pages cfg] home] snap] | n | e] r1]; reflexivity.
Qed.

(** The calls of a run of the script; it reaches the engine only with a
    key when it signs. *)
Lemma main_calls amb (r : Run W) :
  exists new,
    trace (snd (main args amb r)) = trace r ++ new
    /\ match prepare args amb r with
       | (Return (pages, cfg, home, snap), r1) =>
           implb (sign args) (truthy (keyid args)) = true
           /\ Calls.of_script args cfg home snap
                (path_exists (target_dists args home) (world r1))
                (path_exists (component_root args home) (world r1))
                (calls new)
       | (_, _) => calls new = []
       end.
Proof.
  destruct (quiet_block_calls _ (script_steps_prepare _ quietly_kept args amb) r)
    as [n1 [E1 C1]].
  rewrite main_run.
  pose proof (script_prepared_has_key args amb r) as Key.
  destruct (prepare args amb r) as [[[[[pages cfg] home] snap] | n | e] r1];
    cbn [fst snd] in *; try (exists n1; now split).
  assert (implb (sign args) (truthy (keyid args)) = true) as HK.
  { destruct (sign args); [| reflexivity]. simpl. now apply (Key _ eq_refl). }
  destruct (script_reconcile_calls cfg home snap r1) as [n2 [E2 C2]].
  destruct (reconcile args cfg home snap r1) as [[[] | n | e] r2]; cbn [snd] in *.
  - destruct (quiet_block_calls _
                (script_steps_sync_and_push _ quietly_kept args pages home
                   (Publisher.commit_ts amb)) r2) as [n3 [E3 C3]].
    exists (n1 ++ n2 ++ n3). split.
    + rewrite E3, E2, E1. now rewrite !app_assoc.
    + split; [exact HK |]. now rewrite !calls_app, C1, C3, app_nil_r.
  - exists (n1 ++ n2). split.
    + rewrite E2, E1. now rewrite !app_assoc.
    + split; [exact HK |]. now rewrite !calls_app, C1.
  - exists (n1 ++ n2). split.
    + rewrite E2, E1. now rewrite !app_assoc.
    + split; [exact HK |]. now rewrite !calls_app, C1.
Qed.

End ScriptCalls.

(** ** Signing flags *)

Section SigningShapes.
Import Chars Py Host Reconcile.

Lemma library_sign_opts self :
  Publisher.sign_opts self
  = signing_flags (Publisher.sign self) (Publisher.keyid self) (Publisher.passphrase self).
Proof. reflexivity. Qed.

Lemma script_signing args :
  implb (Script.sign args) (truthy (Script.keyid args)) = true ->
  let flags := signing_flags (Script.sign args) (Script.keyid args)
                 (Script.passphrase args) in
  Script.snapshot_opts args
  = ["-distribution"; Script.distro args; "-component"; Script.the_component args] ++ flags
  /\ Script.switch_opts args = ["-component"; Script.the_component args] ++ flags
  /\ Script.update_opts args = flags.
Proof.
  unfold Script.snapshot_opts, Script.switch_opts, Script.update_opts, Script.sign_opts,
    signing_flags.
  destruct (Script.sign args); simpl; [| now repeat split].
  intros ->. now repeat split.
Qed.

End SigningShapes.

(** C6. With [flags] the signing flags of the configuration ([-gpg-key k],
    then [-passphrase p] when there is one, when signing; [-skip-signing]
    otherwise), the command lines of publish-from-snapshot, switch and
    metadata update hold [flags] between their options and their
    positional arguments, and the one of Add holds none of its own.  The
    commands of a run of [publish] that change a publication are these
    and no other: one snapshot, one switch, or one add followed, when it
    returned 0, by the update that signs.  The same holds of the script,
    whose add and replace carry no flag and whose update carries
    [flags]. *)
Theorem signing_flags_on_signing_subcommands :
  forall (W : Type) (os : Host.OS W) (self : Publisher.AptlyPublisher)
         (args : Script.Args) (amb : Publisher.Ambient) (debs : option string)
         (r : Host.Run W),
    let flags := Reconcile.signing_flags (Publisher.sign self) (Publisher.keyid self)
                   (Publisher.passphrase self) in
    let sflags := Reconcile.signing_flags (Script.sign args) (Script.keyid args)
                    (Script.passphrase args) in
    (forall cfg home snap,
        Host.argv (Commands.snapshot self cfg home snap)
        = ["aptly"; ("-config=" ++ cfg)%string; "publish"; "snapshot";
           "-distribution"; Publisher.distro self;
           "-component"; Publisher.component self; "-force-overwrite"]
          ++ flags ++ [snap; Publisher.channel self]
        /\ Host.argv (Commands.switch self cfg home snap)
           = ["aptly"; ("-config=" ++ cfg)%string; "publish"; "switch";
              "-component"; Publisher.component self; "-force-overwrite"]
             ++ flags ++ [Publisher.distro self; Publisher.channel self; snap]
        /\ Host.argv (Commands.update self cfg home)
           = ["aptly"; ("-config=" ++ cfg)%string; "publish"; "update"]
             ++ flags ++ [Publisher.distro self; Publisher.channel self]
        /\ Host.argv (Commands.add self cfg home snap)
           = ["aptly"; ("-config=" ++ cfg)%string; "publish"; "add";
              Publisher.distro self; Publisher.channel self; snap;
              Publisher.component self]
        /\ Reconcile.accepts_signing (Host.argv (Commands.snapshot self cfg home snap)) = true
        /\ Reconcile.accepts_signing (Host.argv (Commands.switch self cfg home snap)) = true
        /\ Reconcile.accepts_signing (Host.argv (Commands.update self cfg home)) = true
        /\ Reconcile.accepts_signing (Host.argv (Commands.add self cfg home snap)) = false)
    /\ (exists new,
           Host.trace (snd (Publisher.publish self amb debs r)) = Host.trace r ++ new
           /\ match Publisher.prepare self amb debs r with
              | (Host.Return (pages, cfg, home, snap), r1) =>
                  exists ex comps,
                    fst (Publisher.inspect self cfg home r1) = Host.Return (ex, comps)
                    /\ Calls.of_library self cfg home snap ex comps (Reconcile.calls new)
              | (_, _) => Reconcile.calls new = []
              end)
    /\ (exists new,
           Host.trace (snd (Script.main args amb r)) = Host.trace r ++ new
           /\ match Script.prepare args amb r with
              | (Host.Return (pages, cfg, home, snap), r1) =>
                  Host.argv (Commands.s_snapshot args cfg home snap)
                  = ["aptly"; ("-config=" ++ cfg)%string; "publish"; "snapshot";
                     "-distribution"; Script.distro args;
                     "-component"; Script.the_component args]
                    ++ sflags ++ [snap; Script.channel args]
                  /\ Host.argv (Commands.s_switch args cfg home snap)
                     = ["aptly"; ("-config=" ++ cfg)%string; "publish"; "switch";
                        "-component"; Script.the_component args]
                       ++ sflags ++ [Script.distro args; Script.channel args; snap]
                  /\ Host.argv (Commands.s_update args cfg home)
                     = ["aptly"; ("-config=" ++ cfg)%string; "publish"; "update"]
                       ++ sflags ++ [Script.distro args; Script.channel args]
                  /\ Host.argv (Commands.s_add args cfg home snap)
                     = ["aptly"; ("-config=" ++ cfg)%string; "publish"; "source"; "add";
                        ("-prefix=" ++ Script.channel args)%string;
                        "-component"; Script.the_component args;
                        Script.distro args; snap]
                  /\ Host.argv (Commands.s_replace args cfg home snap)
                     = ["aptly"; ("-config=" ++ cfg)%string; "publish"; "source"; "replace";
                        ("-prefix=" ++ Script.channel args)%string;
                        "-component"; Script.the_component args;
                        Script.distro args; snap]
                  /\ Calls.of_script args cfg home snap
                       (Host.path_exists (Script.target_dists args home) (Host.world r1))
                       (Host.path_exists (Script.component_root args home) (Host.world r1))
                       (Reconcile.calls new)
              | (_, _) => Reconcile.calls new = []
              end).
Proof.
  intros W os self args amb debs r flags sflags.
  split; [intros; repeat split |].
  split; [apply publish_calls |].
  destruct (main_calls args amb r) as [new [E C]]. exists new. split; [exact E |].
  destruct (Script.prepare args amb r) as [[[[[pages cfg] home] snap] | n | e] r1];
    try exact C.
  destruct C as [HK C].
  destruct (script_signing args HK) as [S1 [S2 S3]].
  unfold Commands.s_snapshot, Commands.s_switch, Commands.s_update, Commands.s_add,
    Commands.s_replace, Commands.s_engine. cbn [Host.argv].
  rewrite S1, S2, S3. unfold Script.base_cmd, Script.add_opts, Script.publish_prefix.
  repeat split; try exact C; cbn [app]; rewrite <- ?app_assoc; reflexivity.
Qed.

(** ** Add: what follows it *)

Section AddThenUpdate.
Import Chars Py Host Reconcile Publisher.
Context {W : Type} {os : OS W}.
Variable listed : W -> string -> bool.
Hypothesis L : Lists listed.
Variable self : AptlyPublisher.

Lemma add_names_component cfg home snap :
  added_component (argv (Commands.add self cfg home snap)) = Some (component self)
  /\ is_update (argv (Commands.update self cfg home)) = true.
Proof. split; reflexivity. Qed.

Lemma reconcile_sync_add pages cfg home comps snap cts (r : Run W) :
  mem (component self) comps = false ->
  let res := bind (reconcile self cfg home true comps snap)
                  (fun _ => sync_and_push self pages home cts) r in
  exists new,
    trace (snd res) = trace r ++ new
    /\ ((exists rc, rc <> 0%Z
                    /\ calls new = [(Commands.add self cfg home snap, rc)]
                    /\ fst res = Exit 1%Z
                    /\ In (Log ERROR "Failed to add component %s" [LStr (component self)])
                          new)
        \/ (exists rcu, calls new = [(Commands.add self cfg home snap, 0%Z);
                                     (Commands.update self cfg home, rcu)]
                        /\ listed (world (snd res)) (component self) = true)).
Proof.
  intros Hm. cbv zeta. unfold bind.
  destruct (library_commands_mutate self cfg home snap) as [_ [Ma [Mu _]]].
  destruct (add_names_component cfg home snap) as [Hadd Hupd].
  rewrite (reconcile_add self cfg home snap comps r Hm). cbv zeta.
  pose proof (add_lists listed L (Commands.add self cfg home snap) (world r)
                (component self) Hadd) as A.
  destruct (subprocess_run _ (world r)) as [rc w1]. cbn [fst snd] in A.
  destruct (rc =? 0)%Z eqn:Erc.
  - apply Z.eqb_eq in Erc. subst rc. specialize (A eq_refl).
    pose proof (update_keeps listed L (Commands.update self cfg home) w1
                  (component self) Hupd A) as U.
    destruct (subprocess_run _ w1) as [rcu w2]. cbn [snd] in U.
    pose proof (steps_sync_and_push _ quietly_kept self pages home cts) as Q.
    pose proof (steps_sync_and_push _ (still_listed_kept listed (component self) L)
                  self pages home cts) as S.
    match goal with
    | |- context [sync_and_push self pages home cts ?r3] =>
        destruct (quiet_block_calls _ Q r3) as [n2 [E2 C2]];
        specialize (S r3)
    end.
    unfold still_listed in S. cbn [world trace] in *.
    eexists. split; [rewrite E2, <- !app_assoc; reflexivity |].
    right. exists rcu. split; [| now apply S].
    rewrite !calls_app, (calls_ran_events _ _ Ma), (calls_ran_events _ _ Mu), C2.
    assert (calls [if (rcu =? 0)%Z
                   then Log INFO "Successfully updated publication metadata" []
                   else Log WARNING "Failed to update publication metadata (exit=%s)"
                            [LInt rcu]] = []) as -> by now destruct (rcu =? 0)%Z.
    reflexivity.
  - apply Z.eqb_neq in Erc. cbn [fst snd trace]. rewrite <- !app_assoc.
    eexists. split; [reflexivity |].
    left. exists rc. split; [exact Erc |].
    rewrite !calls_app, (calls_ran_events _ _ Ma). cbn [calls ran filter app].
    repeat split. unfold Commands.ran_events. cbn [app In]. auto 10.
Qed.

End AddThenUpdate.

Lemma sim_update_listed {A} k (v : A) m :
  Sim.lookup k (Sim.update k v m) = Some v.
Proof.
  induction m as [|[x y] m IH]; simpl.
  - now rewrite String.eqb_refl.
  - destruct (String.eqb k x) eqn:E; simpl.
    + now rewrite String.eqb_refl.
    + now rewrite E.
Qed.

Lemma sim_update_keeps {A} k k' (v : A) m :
  Sim.lookup k' m <> None -> Sim.lookup k' (Sim.update k v m) <> None.
Proof.
  intros H. destruct (String.eqb k' k) eqn:E.
  - apply String.eqb_eq in E. subst k'. now rewrite sim_update_listed.
  - apply String.eqb_neq in E. now rewrite sim_lookup_update.
Qed.

Lemma sim_effect_keeps cmd w c :
  Sim.listed w c = true -> Sim.listed (Sim.effect cmd w) c = true.
Proof.
  unfold Sim.listed, Sim.effect. intros H.
  assert (Sim.lookup c (Sim.published w) <> None) as N
    by (destruct (Sim.lookup c (Sim.published w)); [discriminate | discriminate H]).
  assert (forall k v, match Sim.lookup c (Sim.update k v (Sim.published w)) with
                      | Some _ => true | None => false end = true) as U.
  { intros k v. pose proof (sim_update_keeps k c v _ N) as X.
    destruct (Sim.lookup c (Sim.update k v (Sim.published w))); [reflexivity | now destruct X]. }
  destruct (Reconcile.aptly_sub cmd) as [[[a b] rest] |]; [| exact H].
  destruct (negb (String.eqb a "publish")); [exact H |].
  destruct (String.eqb b "switch").
  { destruct rest as [| x [| y rest]]; try exact H. simpl. apply U. }
  destruct (String.eqb b "add"); [| exact H].
  destruct rest as [| x1 [| x2 [| x3 [| x4 [| x5 rest]]]]]; try exact H. simpl. apply U.
Qed.

Lemma sim_lists : Reconcile.Lists (os := Sim.os) Sim.listed.
Proof.
  split; simpl; auto.
  - intros cmd w c H. unfold Sim.run.
    destruct (Sim.fails w (Host.argv cmd)); simpl; [discriminate |]. intros _.
    unfold Reconcile.added_component in H. unfold Sim.effect, Sim.listed.
    destruct (Reconcile.aptly_sub (Host.argv cmd)) as [[[a b] rest] |]; [| discriminate].
    destruct rest as [| x1 [| x2 [| x3 [| x4 [| x5 rest]]]]]; try discriminate.
    destruct (String.eqb a "publish") eqn:Ea; simpl in *; [| discriminate].
    destruct (String.eqb b "add") eqn:Eb; simpl in *; [| discriminate].
    injection H as ->.
    apply String.eqb_eq in Eb. subst b. simpl. now rewrite sim_update_listed.
  - intros cmd w c _ H. unfold Sim.run.
    destruct (Sim.fails w (Host.argv cmd)); simpl; [exact H | now apply sim_effect_keeps].
  - intros cmd w c _ H. unfold Sim.run.
    destruct (Sim.fails w (Host.argv cmd)); simpl; [exact H | now apply sim_effect_keeps].
Qed.




(** ** The decision table, on whole runs *)

Section TransitionsOfCalls.
Import Chars Py Host Reconcile.

Lemma transitions_of_calls (t : list Event) :
  transitions t = transitions_of (map (fun p => argv (fst p)) (calls t)).
Proof.
  unfold transitions, calls, commands.
  induction (ran t) as [|[c rc] l IH]; simpl; [reflexivity |].
  destruct (mutates_publication (argv c)) eqn:M; simpl.
  - destruct (transition_of (argv c)); now rewrite IH.
  - destruct (transition_of (argv c)) eqn:T; [| exact IH].
    apply transition_mutates in T. congruence.
Qed.

Lemma script_transitions args cfg home snap d c (t : list Event) :
  Calls.of_script args cfg home snap d c (calls t) ->
  transitions t = [decision_table d c]
  \/ (d = true /\ c = false /\ transitions t = [Add; Replace]).
Proof.
  rewrite transitions_of_calls. unfold Calls.of_script.
  destruct d; [destruct c |].
  - intros [rc ->]. now left.
  - intros [[rcu ->] | [[rc [rcp [_ [_ ->]]]] | [rc [rcu [_ ->]]]]].
    + now left.
    + right. now repeat split.
    + right. now repeat split.
  - intros [rc ->]. now left.
Qed.

End TransitionsOfCalls.


(** ** Regular expressions: the matcher and the strings it accepts *)

Section RegexFacts.
Import Chars Re.
Variable ic : bool.

Lemma string_app_nil_r (s : string) : (s ++ "")%string = s.
Proof. induction s as [|c s IH]; simpl; [reflexivity | now rewrite IH]. Qed.

Lemma string_app_assoc (a b c : string) :
  ((a ++ b) ++ c)%string = (a ++ (b ++ c))%string.
Proof. induction a as [|x a IH]; simpl; [reflexivity | now rewrite IH]. Qed.

Lemma string_app_eq_nil (a b : string) :
  (a ++ b)%string = EmptyString -> a = EmptyString /\ b = EmptyString.
Proof. destruct a; simpl; [auto | discriminate]. Qed.

Lemma cat_inv r s w :
  Matches ic (Cat r s) w ->
  exists u v, w = (u ++ v)%string /\ Matches ic r u /\ Matches ic s v.
Proof. intros H. inversion H; subst. eauto. Qed.

Lemma alt_inv r s w :
  Matches ic (Alt r s) w -> Matches ic r w \/ Matches ic s w.
Proof. intros H. inversion H; subst; auto. Qed.

Lemma nullable_matches r : nullable r = true <-> Matches ic r EmptyString.
Proof.
  split.
  - induction r; simpl; intros H; try discriminate.
    + constructor.
    + apply andb_true_iff in H as [H1 H2].
      change EmptyString with (EmptyString ++ EmptyString)%string.
      constructor; auto.
    + apply orb_true_iff in H as [H | H]; [apply MAltL | apply MAltR]; auto.
    + constructor.
  - remember EmptyString as e eqn:E. induction 1; simpl; try discriminate; auto.
    + apply string_app_eq_nil in E as [-> ->]. now rewrite IHMatches1, IHMatches2.
    + now rewrite IHMatches.
    + rewrite IHMatches; auto. apply orb_true_r.
Qed.

(** The strings of [Star r] that start with [a]. *)
Lemma star_cons r a t :
  Matches ic (Star r) (String a t) ->
  exists u v, t = (u ++ v)%string /\ Matches ic r (String a u) /\ Matches ic (Star r) v.
Proof.
  remember (Star r) as sr eqn:Er. remember (String a t) as s eqn:Es.
  intros M. revert r a t Er Es.
  induction M; intros r0 a0 t0 Er Es; try discriminate.
  injection Er as ->.
  destruct u as [|b u'].
  - simpl in Es. now apply IHM2.
  - simpl in Es. injection Es as -> <-. now exists u', v.
Qed.

Lemma deriv_matches r : forall a s,
  Matches ic (deriv ic a r) s <-> Matches ic r (String a s).
Proof.
  induction r; intros a s; simpl.
  - split; inversion 1.
  - split; inversion 1.
  - destruct (char_matches ic c a) eqn:E; split; intros H.
    + inversion H; subst. now constructor.
    + inversion H; subst. constructor.
    + inversion H.
    + inversion H; subst. congruence.
  - destruct (is_digit a) eqn:E; split; intros H.
    + inversion H; subst. now constructor.
    + inversion H; subst. constructor.
    + inversion H.
    + inversion H; subst. congruence.
  - split; intros H; inversion H; subst; constructor.
  - assert (Matches ic (Cat (deriv ic a r1) r2) s \/ (nullable r1 = true /\ Matches ic (deriv ic a r2) s)
            <-> Matches ic (Cat r1 r2) (String a s)) as X.
    { split.
      - intros [H | [N H]].
        + apply cat_inv in H as [u [v [-> [H1 H2]]]]. apply IHr1 in H1.
          change (String a (u ++ v)) with (String a u ++ v)%string. now constructor.
        + apply IHr2 in H. apply nullable_matches in N.
          change (String a s) with (EmptyString ++ String a s)%string. now constructor.
      - intros H. apply cat_inv in H as [u [v [E [H1 H2]]]].
        destruct u as [|b u'].
        + simpl in E. subst v. right. split; [now apply nullable_matches | now apply IHr2].
        + simpl in E. injection E as -> ->. left. constructor; [now apply IHr1 | assumption]. }
    destruct (nullable r1) eqn:N.
    + rewrite <- X. split.
      * intros H. apply alt_inv in H as [H | H]; [now left | right; now split].
      * intros [H | [_ H]]; [now apply MAltL | now apply MAltR].
    + rewrite <- X. split; [now left | intros [H | [D _]]; [exact H | discriminate D]].
  - split; intros H.
    + apply alt_inv in H as [H | H]; [apply MAltL; now apply IHr1 | apply MAltR; now apply IHr2].
    + apply alt_inv in H as [H | H]; [apply MAltL; now apply IHr1 | apply MAltR; now apply IHr2].
  - split; intros H.
    + apply cat_inv in H as [u [v [-> [H1 H2]]]]. apply IHr in H1.
      change (String a (u ++ v)) with (String a u ++ v)%string. now constructor.
    + apply star_cons in H as [u [v [-> [H1 H2]]]].
      constructor; [now apply IHr | assumption].
Qed.

Lemma fullmatch_matches s : forall r, fullmatch ic r s = true <-> Matches ic r s.
Proof.
  induction s as [|a s IH]; intros r; simpl.
  - apply nullable_matches.
  - rewrite IH. apply deriv_matches.
Qed.

Lemma star_any s : Matches ic (Star Any) s.
Proof.
  induction s as [|a s IH]; [constructor |].
  change (String a s) with (String a EmptyString ++ s)%string.
  constructor; [constructor | exact IH].
Qed.

(** [search] finds a part of the string that the expression matches. *)
Lemma search_matches r s :
  search ic r s = true
  <-> exists u m v, s = (u ++ m ++ v)%string /\ Matches ic r m.
Proof.
  unfold search. rewrite fullmatch_matches. split.
  - intros H. apply cat_inv in H as [u [w [-> [_ H]]]].
    apply cat_inv in H as [m [v [-> [H _]]]]. now exists u, m, v.
  - intros [u [m [v [-> H]]]].
    constructor; [apply star_any |]. constructor; [exact H | apply star_any].
Qed.

Lemma alternation_matches l s :
  Matches ic (alternation l) s <-> exists r, In r l /\ Matches ic r s.
Proof.
  induction l as [|r l IH]; simpl.
  - split; [inversion 1 | intros [r [[] _]]].
  - destruct l as [|r' l'].
    + split; [intros H; exists r; auto | intros [x [[<- | []] H]]; exact H].
    + split.
      * intros H. apply alt_inv in H as [H | H].
        -- exists r. auto.
        -- apply IH in H as [x [I M]]. exists x. auto.
      * intros [x [[<- | I] M]]; [now apply MAltL | apply MAltR, IH; eauto].
Qed.

End RegexFacts.

(** ** Pre-release versions *)

(** A version is a pre-release when one of the patterns matches a part
    of it, letters compared without case. *)
Lemma is_prerelease_version_spec v :
  Cleaner.is_prerelease_version v = true
  <-> exists u m w p,
        v = (u ++ m ++ w)%string
        /\ In p Cleaner.PRERELEASE_PATTERNS
        /\ Re.Matches true p m.
Proof.
  unfold Cleaner.is_prerelease_version, Cleaner._prerelease_re.
  rewrite search_matches. split.
  - intros [u [m [w [E M]]]]. apply alternation_matches in M as [p [I M]].
    now exists u, m, w, p.
  - intros [u [m [w [p [E [I M]]]]]]. exists u, m, w. split; [exact E |].
    apply alternation_matches. now exists p.
Qed.


(** ** Sorting, as [sorted] does *)

Section Sorting.
Import Cleaner.
Context {A : Type}.
Variable lt : A -> A -> bool.

Lemma insert_perm x l : Permutation (x :: l) (insert lt x l).
Proof.
  induction l as [|y l IH]; simpl; [reflexivity |].
  destruct (lt y x); [| reflexivity].
  rewrite perm_swap. now constructor.
Qed.

Lemma stable_sort_perm l : Permutation l (stable_sort lt l).
Proof.
  induction l as [|x l IH]; simpl; [constructor |].
  rewrite <- insert_perm. now constructor.
Qed.

Lemma sorted_perm reverse l : Permutation l (sorted lt reverse l).
Proof.
  unfold sorted. destruct reverse.
  - rewrite <- Permutation_rev, <- stable_sort_perm. apply Permutation_rev.
  - apply stable_sort_perm.
Qed.

(** On a list whose elements [lt] orders strictly and totally, the sort
    is strictly increasing. *)
Variable dom : list A.
Hypothesis lt_irrefl : forall a, In a dom -> lt a a = false.
Hypothesis lt_trans :
  forall a b c, In a dom -> In b dom -> In c dom ->
    lt a b = true -> lt b c = true -> lt a c = true.
Hypothesis lt_total :
  forall a b, In a dom -> In b dom -> a <> b -> lt a b = true \/ lt b a = true.

Lemma insert_sorted x l :
  In x dom -> incl l dom -> ~ In x l ->
  StronglySorted (fun a b => lt a b = true) l ->
  StronglySorted (fun a b => lt a b = true) (insert lt x l).
Proof.
  intros Hx Hl Hn S. induction S as [|y l S IH F]; simpl.
  - repeat constructor.
  - assert (In y dom) as Hy by (apply Hl; now left).
    assert (incl l dom) as Hl' by (intros z Hz; apply Hl; now right).
    assert (x <> y) as Hxy by (intros ->; apply Hn; now left).
    assert (~ In x l) as Hn' by (intros H; apply Hn; now right).
    destruct (lt y x) eqn:E.
    + constructor; [now apply IH |].
      rewrite Forall_forall in *. intros z Hz.
      apply (Permutation_in _ (Permutation_sym (insert_perm x l))) in Hz.
      destruct Hz as [<- | Hz]; [exact E | now apply F].
    + destruct (lt_total x y Hx Hy Hxy) as [L | L]; [| congruence].
      constructor; [now constructor |].
      constructor; [exact L |].
      rewrite Forall_forall in *. intros z Hz.
      apply (lt_trans x y z); auto.
Qed.

Lemma stable_sort_sorted l :
  incl l dom -> NoDup l ->
  StronglySorted (fun a b => lt a b = true) (stable_sort lt l).
Proof.
  induction l as [|x l IH]; intros Hl Hn; simpl; [constructor |].
  inversion Hn as [|? ? Hx Hn']; subst.
  apply insert_sorted.
  - apply Hl. now left.
  - intros z Hz. apply Hl. right.
    now apply (Permutation_in _ (Permutation_sym (stable_sort_perm l))).
  - intros H. apply Hx.
    now apply (Permutation_in _ (Permutation_sym (stable_sort_perm l))).
  - apply IH; [intros z Hz; apply Hl; now right | exact Hn'].
Qed.

Lemma strongly_sorted_rev (R : A -> A -> Prop) l :
  StronglySorted R l -> StronglySorted (fun a b => R b a) (rev l).
Proof.
  induction 1 as [|x l S IH F]; simpl; [constructor |].
  assert (forall m, StronglySorted (fun a b => R b a) m ->
                    Forall (fun y => R x y) m ->
                    StronglySorted (fun a b => R b a) (m ++ [x])) as X.
  { induction m as [|y m IHm]; intros Sm Fm; simpl; [repeat constructor |].
    inversion Sm; subst. inversion Fm; subst.
    constructor; [now apply IHm |].
    apply Forall_app. split; [assumption | now repeat constructor]. }
  apply X; [exact IH |]. now apply Forall_rev.
Qed.

(** Newest first: strictly decreasing. *)
Lemma sorted_reverse_sorted l :
  incl l dom -> NoDup l ->
  StronglySorted (fun a b => lt b a = true) (sorted lt true l).
Proof.
  intros Hl Hn. unfold sorted.
  apply (strongly_sorted_rev (fun a b => lt a b = true)).
  apply stable_sort_sorted.
  - intros z Hz. apply Hl. now apply in_rev.
  - now apply NoDup_rev.
Qed.

End Sorting.

(** ** Groups of packages *)

Section Groups.
Import Py Cleaner.

Lemma key_eqb_eq a b : key_eqb a b = true <-> a = b.
Proof.
  destruct a as [[[c1 m1] n1] a1], b as [[[c2 m2] n2] a2]. simpl.
  rewrite !andb_true_iff, !String.eqb_eq. split.
  - intros [[[-> ->] ->] ->]. reflexivity.
  - intros E. injection E as -> -> -> ->. auto.
Qed.

Lemma key_eqb_refl a : key_eqb a a = true.
Proof. now apply key_eqb_eq. Qed.

Lemma path_eqb_eq p q : path_eqb p q = true <-> p = q.
Proof.
  unfold path_eqb. destruct (list_eq_dec string_dec p q); split; auto; discriminate.
Qed.

Lemma pkg_in_spec p l :
  pkg_in p l = true <-> exists q, In q l /\ path p = path q.
Proof.
  unfold pkg_in. rewrite existsb_exists. unfold pkg_eqb.
  split; intros [q [I E]]; exists q; (split; [exact I |]); now apply path_eqb_eq.
Qed.

Lemma all_of_key_spec k l :
  all_of_key k l = true <-> forall p, In p l -> key_of p = k.
Proof.
  unfold all_of_key. rewrite forallb_forall.
  split; intros H p I; apply key_eqb_eq; auto.
Qed.

(** One key, one group, in the order of the packages. *)
Lemma fold_group_same_key k l : forall g0,
  all_of_key k l = true ->
  fold_left (fun groups pkg => group_append (key_of pkg) pkg groups) l [(k, g0)]
  = [(k, g0 ++ l)].
Proof.
  induction l as [|p l IH]; intros g0 H; simpl.
  - now rewrite app_nil_r.
  - unfold all_of_key in H. cbn [forallb] in H. apply andb_true_iff in H as [Hp Hl].
    apply key_eqb_eq in Hp. rewrite Hp, key_eqb_refl.
    rewrite IH by exact Hl. now rewrite <- app_assoc.
Qed.

Lemma package_groups_same_key k l :
  l <> [] -> all_of_key k l = true -> package_groups l = [(k, l)].
Proof.
  destruct l as [|p l]; [congruence |]. intros _ H.
  unfold package_groups. cbn [fold_left group_append].
  unfold all_of_key in H. cbn [forallb] in H. apply andb_true_iff in H as [Hp Hl].
  apply key_eqb_eq in Hp. rewrite Hp.
  now rewrite fold_group_same_key.
Qed.

End Groups.

(** ** Excess versions *)

Section Excess.
Import Py Cleaner.

Lemma strict_total_on_spec lt l :
  strict_total_on lt l = true ->
  (forall a, In a l -> lt a a = false)
  /\ (forall a b c, In a l -> In b l -> In c l ->
        lt a b = true -> lt b c = true -> lt a c = true)
  /\ (forall a b, In a l -> In b l -> a <> b -> lt a b = true \/ lt b a = true).
Proof.
  unfold strict_total_on. intros H.
  apply andb_true_iff in H as [H H3]. apply andb_true_iff in H as [H1 H2].
  rewrite forallb_forall in H1, H2, H3.
  split; [| split].
  - intros a Ia. now apply negb_true_iff, H1.
  - intros a b c Ia Ib Ic Hab Hbc.
    specialize (H2 a Ia). rewrite forallb_forall in H2.
    specialize (H2 b Ib). rewrite forallb_forall in H2.
    specialize (H2 c Ic). now rewrite Hab, Hbc in H2.
  - intros a b Ia Ib Hne.
    specialize (H3 a Ia). rewrite forallb_forall in H3. specialize (H3 b Ib).
    apply orb_true_iff in H3 as [H3 | H3]; [| now right].
    apply orb_true_iff in H3 as [H3 | H3]; [| now left].
    apply String.eqb_eq in H3. contradiction.
Qed.

Lemma nodup_map_inj {A B} (f : A -> B) l a b :
  NoDup (map f l) -> In a l -> In b l -> f a = f b -> a = b.
Proof.
  induction l as [|x l IH]; simpl; [easy |].
  intros N Ia Ib E. inversion N as [|? ? Hx N']; subst.
  destruct Ia as [-> | Ia], Ib as [-> | Ib]; auto.
  - exfalso. apply Hx. rewrite E. now apply in_map.
  - exfalso. apply Hx. rewrite <- E. now apply in_map.
Qed.

(** With versions all different, [version_to_pkg] gives each version
    its package. *)
Lemma version_to_pkg_in group p :
  NoDup (map version group) -> In p group ->
  version_to_pkg group (version p) = Some p.
Proof.
  intros N I. unfold version_to_pkg.
  destruct (find _ (rev group)) as [q |] eqn:F.
  - apply find_some in F as [Iq E]. apply String.eqb_eq in E.
    apply in_rev in Iq. f_equal. now apply (nodup_map_inj version group).
  - exfalso. apply in_rev in I. pose proof (find_none _ _ F p I) as X.
    simpl in X. rewrite String.eqb_refl in X. discriminate X.
Qed.

Lemma version_to_pkg_sound group v p :
  version_to_pkg group v = Some p -> In p group /\ version p = v.
Proof.
  unfold version_to_pkg. intros F. apply find_some in F as [I E].
  apply String.eqb_eq in E. split; [now apply in_rev | exact E].
Qed.

Lemma flat_map_versions group l :
  NoDup (map version group) -> incl l group ->
  flat_map (fun v => match version_to_pkg group v with
                     | Some p => [p]
                     | None => []
                     end) (map version l) = l.
Proof.
  intros N. induction l as [|p l IH]; intros H; simpl; [reflexivity |].
  rewrite version_to_pkg_in; [| exact N | apply H; now left].
  simpl. f_equal. apply IH. intros z Hz. apply H. now right.
Qed.

Lemma strongly_sorted_map {A B} (R : B -> B -> Prop) (f : A -> B) l :
  StronglySorted R (map f l) -> StronglySorted (fun a b => R (f a) (f b)) l.
Proof.
  induction l as [|x l IH]; simpl; intros S; [constructor |].
  inversion S as [|? ? S' F]; subst. constructor; [now apply IH |].
  rewrite Forall_forall in *. intros y Hy. apply F. now apply in_map.
Qed.

(** What every result of [sorted_newest_first] is made of. *)
Lemma sorted_newest_first_incl dpkg group :
  incl (sorted_newest_first dpkg group) group.
Proof.
  unfold sorted_newest_first. intros p.
  destruct (sort_versions dpkg (map version group) true) as [vs |].
  - rewrite in_flat_map. intros [v [_ I]].
    destruct (version_to_pkg group v) as [q |] eqn:E; [| destruct I].
    destruct I as [<- | []]. now apply version_to_pkg_sound in E.
  - intros I. eapply Permutation_in; [| exact I].
    apply Permutation_sym, sorted_perm.
Qed.

(** With versions all different and strictly, totally ordered by the
    comparison, the group newest first is the group, sorted. *)
Lemma sorted_newest_first_sorted dpkg group :
  (2 <= List.length group)%nat ->
  NoDup (map version group) ->
  strict_total_on (version_lt dpkg) (map version group) = true ->
  Permutation group (sorted_newest_first dpkg group)
  /\ StronglySorted (fun p q => version_lt dpkg (version q) (version p) = true)
       (sorted_newest_first dpkg group).
Proof.
  intros Hlen N T. apply strict_total_on_spec in T as [Ti [Tt Tot]].
  assert (dpkg <> DpkgFails) as ND.
  { intros ->. destruct group as [|p [|q g]]; simpl in Hlen; try lia.
    inversion N as [|? ? Hp _]; subst.
    destruct (Tot (version p) (version q)) as [L | L]; simpl; auto; try discriminate.
    intros E. apply Hp. rewrite E. now left. }
  unfold sorted_newest_first.
  assert (sort_versions dpkg (map version group) true
          = Some (sorted (version_lt dpkg) true (map version group))) as ->
    by (destruct dpkg; [reflexivity | reflexivity | congruence]).
  pose proof (sorted_perm (version_lt dpkg) true (map version group)) as P.
  destruct (Permutation_map_inv _ _ (Permutation_sym P)) as [l' [E P']].
  rewrite E.
  assert (incl l' group) as Hin
    by (intros z Hz; now apply (Permutation_in _ (Permutation_sym P'))).
  rewrite (flat_map_versions group l' N Hin).
  split; [exact P' |].
  apply strongly_sorted_map with (R := fun a b => version_lt dpkg b a = true).
  rewrite <- E.
  apply (sorted_reverse_sorted (version_lt dpkg) (map version group)); auto.
  apply incl_refl.
Qed.

End Excess.

Section FiveVersions.
Import Py Cleaner.

Lemma distinct_nodup l : distinct l = true -> NoDup l.
Proof.
  induction l as [|x l IH]; simpl; intros H; [constructor |].
  apply andb_true_iff in H as [Hx Hl]. constructor; [| now apply IH].
  intros I. apply negb_true_iff in Hx.
  assert (mem x l = true) as M
    by (unfold mem; apply existsb_exists; exists x; split; [exact I | apply String.eqb_refl]).
  congruence.
Qed.

Lemma five_elements {A} (l m : list A) :
  List.length l = 5%nat -> Permutation l m ->
  exists a b c d e, m = [a; b; c; d; e].
Proof.
  intros H P. apply Permutation_length in P. rewrite H in P.
  destruct m as [|a [|b [|c [|d [|e [|f m]]]]]]; simpl in P; try discriminate.
  now exists a, b, c, d, e.
Qed.

End FiveVersions.




(** ** The two lists of candidates *)

Section Disjoint.
Import Py Cleaner.

Lemma group_append_keys k p groups x :
  In x (map fst (group_append k p groups)) -> x = k \/ In x (map fst groups).
Proof.
  induction groups as [|[k' g] rest IH]; simpl.
  - intros [<- | []]. now left.
  - destruct (key_eqb k' k); simpl; [auto |].
    intros [<- | H]; [auto |]. destruct (IH H); auto.
Qed.

Lemma group_append_well_grouped S k p groups :
  key_of p = k -> In p S ->
  well_grouped S groups -> well_grouped S (group_append k p groups).
Proof.
  intros Hk Hp [M N]. induction groups as [|[k' g] rest IH]; simpl.
  - split.
    + intros k0 g0 p0 [E | []] I. injection E as <- <-.
      destruct I as [<- | []]. auto.
    + repeat constructor. intros [].
  - assert (well_grouped S rest) as [Mr Nr].
    { split; [intros k0 g0 p0 I; apply M; now right | now inversion N]. }
    destruct (key_eqb k' k) eqn:E.
    + apply key_eqb_eq in E. subst k'. split; [| exact N].
      intros k0 g0 p0 [X | X] I.
      * injection X as <- <-. apply in_app_or in I as [I | [<- | []]]; auto.
        apply (M k g); [now left | exact I].
      * apply (M k0 g0); [now right | exact I].
    + destruct (IH Mr Nr) as [M' N']. split.
      * intros k0 g0 p0 [X | X] I; [apply (M k0 g0); [left; exact X | exact I] |].
        now apply (M' k0 g0).
      * simpl. constructor; [| exact N'].
        intros I. apply group_append_keys in I as [-> | I].
        -- rewrite key_eqb_refl in E. discriminate.
        -- inversion N; auto.
Qed.

Lemma fold_group_well_grouped S l : forall groups,
  incl l S -> well_grouped S groups ->
  well_grouped S (fold_left (fun groups pkg => group_append (key_of pkg) pkg groups)
                            l groups).
Proof.
  induction l as [|p l IH]; intros groups Hl W; simpl; [exact W |].
  apply IH; [intros z Hz; apply Hl; now right |].
  apply group_append_well_grouped; auto. apply Hl. now left.
Qed.

Lemma package_groups_well_grouped packages :
  well_grouped packages (package_groups packages).
Proof.
  apply fold_group_well_grouped; [apply incl_refl |].
  split; [intros k g p [] | constructor].
Qed.

Lemma pkg_in_app p l m : pkg_in p (l ++ m) = pkg_in p l || pkg_in p m.
Proof. apply existsb_app. Qed.

Lemma one_key_per_path_spec packages :
  one_key_per_path packages = true ->
  forall p q, In p packages -> In q packages -> path p = path q -> key_of p = key_of q.
Proof.
  unfold one_key_per_path. rewrite forallb_forall. intros H p q Ip Iq E.
  specialize (H p Ip). rewrite forallb_forall in H. specialize (H q Iq).
  apply path_eqb_eq in E. rewrite E in H. now apply key_eqb_eq.
Qed.

Variable policy : RetentionPolicy.
Variable dpkg : Dpkg.
Variable re_match : string -> string -> bool.
Variable packages : list PackageInfo.
Hypothesis one_key :
  forall p q, In p packages -> In q packages -> path p = path q -> key_of p = key_of q.

Lemma process_group_invariant k g rest acc :
  well_grouped packages ((k, g) :: rest) ->
  loop_invariant packages ((k, g) :: rest) acc ->
  loop_invariant packages rest (process_group policy dpkg re_match acc (k, g)).
Proof.
  intros [M N] [Ia Ib]. destruct acc as [pre lim]. cbn [fst snd] in Ia, Ib.
  assert (loop_invariant packages rest (pre, lim)) as Keep.
  { split; [exact Ia |]. intros q Hq. destruct (Ib q Hq) as [I1 I2].
    split; [exact I1 |]. intros k0 g0 H. apply (I2 k0 g0). now right. }
  destruct k as [[[ch comp] nm] ar]. cbn [process_group].
  destruct (mem comp (protected_components policy)); [exact Keep |].
  destruct (existsb _ (protected_packages policy)); [exact Keep |].
  set (keep := get _ true). set (maxv := get _ (max_versions_per_package policy)).
  set (maxa := get _ (prerelease_max_age_days policy)).
  set (added := filter (fun pkg => is_prerelease pkg && (age_days pkg >? maxa)%Z) g).
  set (pre' := if negb keep then pre ++ added else pre).
  assert (forall q, In q lim -> pkg_in q pre' = false) as Old.
  { intros q Hq. subst pre'. destruct (negb keep); [| now apply Ia].
    rewrite pkg_in_app, (Ia q Hq). simpl.
    destruct (pkg_in q added) eqn:E; [exfalso | reflexivity].
    apply pkg_in_spec in E as [p [Ip Ep]].
    apply filter_In in Ip as [Ip _].
    destruct (M (ch, comp, nm, ar) g p (or_introl eq_refl) Ip) as [Kp Pp].
    destruct (Ib q Hq) as [Pq Kq].
    apply (Kq (ch, comp, nm, ar) g (or_introl eq_refl)).
    rewrite <- Kp. now apply one_key. }
  destruct ((maxv >? 0)%Z && (Z.of_nat (List.length g) >? maxv)%Z).
  - split; cbn [fst snd].
    + intros q Hq. apply in_app_or in Hq as [Hq | Hq]; [now apply Old |].
      apply filter_In in Hq as [_ Hq]. now apply negb_true_iff.
    + intros q Hq. apply in_app_or in Hq as [Hq | Hq]; [now apply Keep |].
      apply filter_In in Hq as [Hq _].
      assert (In q g) as Ig.
      { apply (sorted_newest_first_incl dpkg g).
        rewrite <- (firstn_skipn (Z.to_nat maxv) (sorted_newest_first dpkg g)).
        apply in_or_app. now right. }
      destruct (M (ch, comp, nm, ar) g q (or_introl eq_refl) Ig) as [Kq Pq].
      split; [exact Pq |]. intros k0 g0 H E.
      simpl in N. apply NoDup_cons_iff in N as [Hk _]. apply Hk.
      rewrite <- Kq, E. change k0 with (fst (k0, g0)). now apply in_map.
  - split; cbn [fst snd]; [exact Old | apply Keep].
Qed.

Lemma fold_process_invariant groups : forall acc,
  well_grouped packages groups ->
  loop_invariant packages groups acc ->
  loop_invariant packages []
    (fold_left (process_group policy dpkg re_match) groups acc).
Proof.
  induction groups as [|[k g] rest IH]; intros acc W I; simpl; [exact I |].
  apply IH.
  - destruct W as [M N]. split; [intros k0 g0 p0 H; apply M; now right | now inversion N].
  - now apply process_group_invariant.
Qed.

Lemma candidates_disjoint :
  disjoint (fst (find_cleanup_candidates policy dpkg re_match packages))
           (snd (find_cleanup_candidates policy dpkg re_match packages)).
Proof.
  unfold find_cleanup_candidates.
  destruct (fold_process_invariant (package_groups packages) ([], [])) as [D _].
  - apply package_groups_well_grouped.
  - split; intros q [].
  - intros p q Ip Iq E. specialize (D q Iq).
    assert (pkg_in q (fst (fold_left (process_group policy dpkg re_match)
                             (package_groups packages) ([], []))) = true) as X
      by (apply pkg_in_spec; exists p; split; [exact Ip | now symmetry]).
    congruence.
Qed.

End Disjoint.

(** ** What the scan yields *)

Section ScanFacts.
Import Chars Py Cleaner Files.

Lemma split_char_no_sep sep s : forall cur,
  string_forall (fun c => negb (Ascii.eqb c sep)) s = true ->
  split_char sep cur s = [(cur ++ s)%string].
Proof.
  induction s as [|c s IH]; intros cur H; simpl.
  - now rewrite string_app_nil_r.
  - simpl in H. apply andb_true_iff in H as [Hc Hs].
    apply negb_true_iff in Hc. rewrite Hc. rewrite IH by exact Hs.
    now rewrite string_app_assoc.
Qed.

Lemma join_plain p channel : plain channel = true -> join p channel = p ++ [channel].
Proof.
  unfold plain, join, parts_of. intros H.
  apply andb_true_iff in H as [H Hs]. apply andb_true_iff in H as [He Hd].
  rewrite (split_char_no_sep "/"%char channel EmptyString Hs). cbn [append filter].
  rewrite He, Hd. cbn [andb].
  destruct channel as [|c r]; [discriminate He |].
  simpl in Hs. apply andb_true_iff in Hs as [Hc _].
  cbn [startswith]. rewrite Ascii.eqb_sym. apply negb_true_iff in Hc. now rewrite Hc.
Qed.

Lemma join_pool p : join p "pool" = p ++ ["pool"].
Proof. now apply join_plain. Qed.

(** A record of the scan: its channel, a path under the pool of this
    channel, and a key that the channel and the path decide. *)
Lemma scan_file_record channel pool_dir rel tree p :
  In p (scan_file tree channel pool_dir rel) ->
  path p = pool_dir ++ rel
  /\ channel = Cleaner.channel p
  /\ component p = match rel with c :: _ => c | [] => "unknown" end
  /\ parse_deb_filename (last (path p) EmptyString) = Some (name p, version p, arch p).
Proof.
  unfold scan_file.
  destruct (parse_deb_filename (last (pool_dir ++ rel) EmptyString))
    as [[[n v] a] |] eqn:E; [| intros []].
  destruct (stat tree (pool_dir ++ rel)) as [sz age].
  intros [<- | []]. simpl. now rewrite E.
Qed.

Lemma scan_record repo tree channels p :
  In p (scan_packages repo tree (Some channels)) ->
  exists channel rel,
    In channel channels
    /\ path p = join (join repo channel) "pool" ++ rel
    /\ channel = Cleaner.channel p
    /\ component p = match rel with c :: _ => c | [] => "unknown" end
    /\ parse_deb_filename (last (path p) EmptyString) = Some (name p, version p, arch p).
Proof.
  unfold scan_packages. rewrite in_flat_map. intros [channel [Ic I]].
  destruct (dir_exists tree _); [| destruct I].
  apply in_flat_map in I as [rel [_ I]].
  apply scan_file_record in I. exists channel, rel. tauto.
Qed.

(** Over plain channels, the scan records no file under two keys. *)
Lemma scan_one_key_per_path repo tree channels :
  forallb plain channels = true ->
  one_key_per_path (scan_packages repo tree (Some channels)) = true.
Proof.
  intros Hp. rewrite forallb_forall in Hp.
  unfold one_key_per_path. apply forallb_forall. intros p Ip.
  apply forallb_forall. intros q Iq.
  destruct (path_eqb (path p) (path q)) eqn:E; [| reflexivity]. cbn [implb].
  apply path_eqb_eq in E. apply key_eqb_eq.
  apply scan_record in Ip as [c1 [r1 [I1 [P1 [C1 [M1 N1]]]]]].
  apply scan_record in Iq as [c2 [r2 [I2 [P2 [C2 [M2 N2]]]]]].
  rewrite join_pool, (join_plain repo c1 (Hp c1 I1)), <- !app_assoc in P1.
  rewrite join_pool, (join_plain repo c2 (Hp c2 I2)), <- !app_assoc in P2.
  rewrite E in N1. rewrite N1 in N2. injection N2 as En Ev Ea.
  rewrite E, P2 in P1. apply app_inv_head in P1. simpl in P1.
  injection P1 as Ec Er. subst r1.
  unfold key_of. rewrite <- C1, <- C2, M1, M2, En, Ea, Ec. reflexivity.
Qed.

End ScanFacts.




(** ** Paths and trees *)

Section Paths.
Import Cleaner Files.

Lemma path_mem_spec p l : path_mem p l = true <-> In p l.
Proof.
  unfold path_mem. rewrite existsb_exists. split.
  - intros [q [I E]]. apply path_eqb_eq in E. now subst.
  - intros I. exists p. split; [exact I | now apply path_eqb_eq].
Qed.

Lemma path_mem_false p l : path_mem p l = false <-> ~ In p l.
Proof.
  rewrite <- path_mem_spec. destruct (path_mem p l); split; congruence.
Qed.

Lemma remove_path_in p q l : In q (remove_path p l) <-> In q l /\ q <> p.
Proof.
  unfold remove_path. rewrite filter_In, negb_true_iff. split.
  - intros [I E]. split; [exact I |]. intros ->.
    assert (path_eqb p p = true) by now apply path_eqb_eq. congruence.
  - intros [I N]. split; [exact I |].
    destruct (path_eqb q p) eqn:E; [apply path_eqb_eq in E; contradiction | reflexivity].
Qed.

Lemma is_child_spec q d : is_child q d = true <-> q <> [] /\ parent q = d.
Proof.
  unfold is_child. destruct q as [|x q].
  - split; [discriminate | intros [N _]; congruence].
  - rewrite path_eqb_eq. split; [intros E; split; [discriminate | exact E] | tauto].
Qed.

Lemma has_entries_spec d fs :
  has_entries d fs = true <-> exists q, In q (entries fs) /\ q <> [] /\ parent q = d.
Proof.
  unfold has_entries. rewrite existsb_exists.
  split; intros [q [I H]]; exists q; (split; [exact I |]); now apply is_child_spec.
Qed.

Lemma has_entries_false d fs :
  has_entries d fs = false <->
  forall q, In q (entries fs) -> q <> [] -> parent q <> d.
Proof.
  split.
  - intros H q I N E.
    assert (has_entries d fs = true) by (apply has_entries_spec; eauto). congruence.
  - intros H. destruct (has_entries d fs) eqn:E; [| reflexivity].
    apply has_entries_spec in E as [q [I [N P]]]. now destruct (H q I N).
Qed.

Lemma is_prefix_spec d p :
  is_prefix d p = true <-> d = firstn (List.length d) p /\ (List.length d <= List.length p)%nat.
Proof.
  revert p. induction d as [|x d IH]; intros p; simpl.
  - split; [intros _; split; [reflexivity | lia] | reflexivity].
  - destruct p as [|y p]; simpl.
    + split; [discriminate | intros [_ H]; lia].
    + rewrite andb_true_iff, String.eqb_eq, IH. split.
      * intros [-> [E L]]. split; [now rewrite <- E | lia].
      * intros [E L]. injection E as -> E. repeat split; [exact E | lia].
Qed.

(** The proper prefixes of [p] are its [firstn k] for [k] below its
    length. *)
Lemma in_parents_spec d p :
  in_parents d p = true <-> exists k, (k < List.length p)%nat /\ d = firstn k p.
Proof.
  unfold in_parents. rewrite andb_true_iff, is_prefix_spec, Nat.ltb_lt. split.
  - intros [[E _] L]. now exists (List.length d).
  - intros [k [L ->]]. rewrite length_firstn, Nat.min_l by lia.
    repeat split; (reflexivity || lia).
Qed.

Lemma in_parents_length d p : in_parents d p = true -> (List.length d < List.length p)%nat.
Proof. unfold in_parents. rewrite andb_true_iff, Nat.ltb_lt. tauto. Qed.

Lemma in_parents_irrefl p : in_parents p p = false.
Proof.
  destruct (in_parents p p) eqn:E; [| reflexivity].
  apply in_parents_length in E. lia.
Qed.

Lemma firstn_firstn_le {A} (l : list A) j k :
  (j <= k)%nat -> firstn j (firstn k l) = firstn j l.
Proof. intros H. rewrite firstn_firstn. now rewrite Nat.min_l. Qed.

(** What is above the root on the way up is above it from further
    down. *)
Lemma in_parents_firstn_mono repo p j k :
  (j <= k)%nat -> (k <= List.length p)%nat ->
  in_parents repo (firstn j p) = true -> in_parents repo (firstn k p) = true.
Proof.
  intros Hjk Hk H. apply in_parents_spec in H as [i [Hi ->]].
  rewrite length_firstn, Nat.min_l in Hi by lia.
  rewrite firstn_firstn_le by lia.
  apply in_parents_spec. exists i. rewrite length_firstn, Nat.min_l by lia.
  split; [lia |]. now rewrite firstn_firstn_le by lia.
Qed.

Lemma parent_firstn (p : Path) k :
  (k < List.length p)%nat -> parent (firstn (S k) p) = firstn k p.
Proof. intros H. unfold parent. now apply removelast_firstn. Qed.

Lemma parent_is_firstn (p : Path) : parent p = firstn (List.length p - 1) p.
Proof.
  unfold parent. destruct p as [|x p] using rev_ind; [reflexivity |].
  rewrite removelast_last, length_app. simpl.
  replace (List.length p + 1 - 1)%nat with (List.length p + 0)%nat by lia.
  now rewrite firstn_app_2, app_nil_r.
Qed.

Lemma firstn_nonempty (p : Path) k :
  (1 <= k)%nat -> (k <= List.length p)%nat -> firstn k p <> [].
Proof.
  intros H1 H2 E. apply (f_equal (@List.length string)) in E.
  rewrite length_firstn, Nat.min_l in E by lia. simpl in E. lia.
Qed.

Lemma firstn_inj_length (p : Path) j k :
  (j <= List.length p)%nat -> (k <= List.length p)%nat ->
  firstn j p = firstn k p -> j = k.
Proof.
  intros Hj Hk E. apply (f_equal (@List.length string)) in E.
  rewrite !length_firstn, !Nat.min_l in E by lia. exact E.
Qed.

End Paths.

(** ** The removal of the empty parents *)

Section Prune.
Import Cleaner Files.
Variable repo : Path.
Variable p : Path.

Lemma rmdir_entries d fs q : In q (entries (rmdir d fs)) -> In q (entries fs).
Proof.
  unfold entries, rmdir. simpl. rewrite !in_app_iff, remove_path_in. tauto.
Qed.

Lemma rmdir_well_formed d fs :
  well_formed fs -> has_entries d fs = false -> well_formed (rmdir d fs).
Proof.
  intros W E q I L. simpl. apply remove_path_in. split.
  - apply W; [now apply rmdir_entries in I | exact L].
  - rewrite has_entries_false in E. apply E; [now apply rmdir_entries in I |].
    destruct q; [simpl in L; lia | discriminate].
Qed.

(** A directory keeps its entries when one that is not its own goes. *)
Lemma rmdir_has_entries d x fs :
  parent x <> d \/ x = [] -> has_entries d (rmdir x fs) = has_entries d fs.
Proof.
  intros H. unfold has_entries, entries, rmdir. simpl.
  rewrite !existsb_app. f_equal. unfold remove_path.
  induction (dirs fs) as [|y l IH]; simpl; [reflexivity |].
  destruct (path_eqb y x) eqn:E; simpl; [| now rewrite IH].
  apply path_eqb_eq in E. subst y. rewrite IH.
  destruct (is_child x d) eqn:C; [| reflexivity].
  apply is_child_spec in C as [N P]. destruct H; contradiction.
Qed.

Lemma prune_files n : forall fs, files (prune repo p n fs) = files fs.
Proof.
  induction n as [|n IH]; intros fs; simpl; [reflexivity |].
  destruct (negb _ && _); [| reflexivity].
  destruct (path_mem _ (dirs fs)); [| reflexivity].
  destruct (negb (has_entries _ fs)); [| reflexivity].
  now rewrite IH.
Qed.

Lemma prune_dirs n : forall fs d, In d (dirs (prune repo p n fs)) -> In d (dirs fs).
Proof.
  induction n as [|n IH]; intros fs d; simpl; [auto |].
  destruct (negb _ && _); [| auto].
  destruct (path_mem _ (dirs fs)); [| auto].
  destruct (negb (has_entries _ fs)); [| auto].
  intros H. apply IH in H. simpl in H. now apply remove_path_in in H.
Qed.

Lemma prune_entries n fs q : In q (entries (prune repo p n fs)) -> In q (entries fs).
Proof.
  unfold entries. rewrite !in_app_iff, prune_files.
  intros [H | H]; [now left | right; now apply prune_dirs in H].
Qed.

Lemma prune_keeps_empty n fs d :
  has_entries d fs = false -> has_entries d (prune repo p n fs) = false.
Proof.
  rewrite !has_entries_false. intros H q I. apply H. now apply prune_entries in I.
Qed.

Lemma prune_well_formed n : forall fs, well_formed fs -> well_formed (prune repo p n fs).
Proof.
  induction n as [|n IH]; intros fs W; simpl; [exact W |].
  destruct (negb _ && _); [| exact W].
  destruct (path_mem _ (dirs fs)); [| exact W].
  destruct (has_entries _ fs) eqn:E; simpl; [exact W |].
  apply IH. now apply rmdir_well_formed.
Qed.

(** A directory that the loop removed: a proper prefix of [p] below the
    root, and without entries. *)
Lemma prune_removed n : forall fs d,
  (n <= List.length p - 1)%nat ->
  In d (dirs fs) -> ~ In d (dirs (prune repo p n fs)) ->
  (exists k, (1 <= k <= n)%nat /\ d = firstn k p)
  /\ in_parents repo d = true
  /\ has_entries d (prune repo p n fs) = false.
Proof.
  induction n as [|n IH]; intros fs d L I N; cbn [prune] in *; [contradiction |].
  destruct (negb (path_eqb (firstn (S n) p) repo) && in_parents repo (firstn (S n) p))
    eqn:C; [| contradiction].
  destruct (path_mem (firstn (S n) p) (dirs fs)) eqn:D; [| contradiction].
  destruct (has_entries (firstn (S n) p) fs) eqn:E; cbn [negb] in *; [contradiction |].
  apply andb_true_iff in C as [_ C].
  destruct (list_eq_dec string_dec d (firstn (S n) p)) as [-> | Hne].
  - split; [exists (S n); split; [lia | reflexivity] |]. split; [exact C |].
    apply prune_keeps_empty. rewrite rmdir_has_entries; [exact E |].
    left. rewrite parent_firstn by lia. intros X.
    apply firstn_inj_length in X; lia.
  - destruct (IH (rmdir (firstn (S n) p) fs) d) as [[k [Hk ->]] [S1 S2]]; try lia; auto.
    + cbn [dirs rmdir]. apply remove_path_in. now split.
    + split; [exists k; split; [lia | reflexivity] | now split].
Qed.

(** A directory not on the way up keeps its entries. *)
Lemma prune_off_chain n : forall fs d,
  (n <= List.length p - 1)%nat ->
  (forall k, (k <= n)%nat -> d <> firstn k p) ->
  has_entries d (prune repo p n fs) = has_entries d fs.
Proof.
  induction n as [|n IH]; intros fs d L H; cbn [prune]; [reflexivity |].
  destruct (negb _ && _); [| reflexivity].
  destruct (path_mem _ (dirs fs)); [| reflexivity].
  destruct (negb (has_entries _ fs)); [| reflexivity].
  rewrite IH; [| lia | intros k Hk; apply H; lia].
  apply rmdir_has_entries. left. rewrite parent_firstn by lia.
  intros X. apply (H n); [lia | now symmetry].
Qed.

(** The directories on the way to a directory of a tree are in it. *)
Lemma chain_dirs fs m :
  well_formed fs -> (m <= List.length p)%nat -> In (firstn m p) (dirs fs) ->
  forall k, (1 <= k <= m)%nat -> In (firstn k p) (dirs fs).
Proof.
  intros W. induction m as [|m IH]; intros L I k Hk; [lia |].
  destruct (Nat.eq_dec k (S m)) as [-> | Hne]; [exact I |].
  apply IH; [lia | | lia].
  destruct m as [|m]; [lia |].
  rewrite <- (parent_firstn p (S m)) by lia.
  apply W.
  - unfold entries. apply in_or_app. now right.
  - rewrite length_firstn, Nat.min_l by lia. lia.
Qed.

(** After the loop, a directory on the way up that is below the root
    and still there has entries. *)
Lemma prune_chain n : forall fs,
  well_formed fs -> (n <= List.length p - 1)%nat ->
  ((1 <= n)%nat -> In (firstn n p) (dirs fs)) ->
  forall k, (1 <= k <= n)%nat ->
    in_parents repo (firstn k p) = true ->
    In (firstn k p) (dirs (prune repo p n fs)) ->
    has_entries (firstn k p) (prune repo p n fs) = true.
Proof.
  induction n as [|n IH]; intros fs W L I k Hk Sc D; [lia |].
  cbn [prune] in *.
  destruct (negb (path_eqb (firstn (S n) p) repo) && in_parents repo (firstn (S n) p))
    eqn:C.
  - assert (In (firstn (S n) p) (dirs fs)) as I' by (apply I; lia).
    apply path_mem_spec in I'. rewrite I' in *. apply path_mem_spec in I'.
    destruct (has_entries (firstn (S n) p) fs) eqn:E; cbn [negb] in *.
    + (* the loop stops here: the directory has entries *)
      destruct (Nat.eq_dec k (S n)) as [-> | Hne]; [exact E |].
      apply has_entries_spec. exists (firstn (S k) p). split; [| split].
      * unfold entries. apply in_or_app. right.
        apply (chain_dirs fs (S n)); auto; lia.
      * apply firstn_nonempty; lia.
      * apply parent_firstn. lia.
    + (* the directory goes, the loop goes on *)
      destruct (Nat.eq_dec k (S n)) as [-> | Hne].
      * exfalso. apply prune_dirs in D. cbn [dirs rmdir] in D.
        apply remove_path_in in D. now destruct D.
      * apply IH; auto; try lia.
        -- now apply rmdir_well_formed.
        -- intros Hn. cbn [dirs rmdir]. apply remove_path_in. split.
           ++ apply (chain_dirs fs (S n)); auto; lia.
           ++ intros X. apply firstn_inj_length in X; lia.
  - (* not below the root: nothing on the way up is *)
    exfalso. apply andb_false_iff in C as [C | C].
    + apply negb_false_iff, path_eqb_eq in C.
      apply (in_parents_firstn_mono repo p k (S n)) in Sc; try lia.
      rewrite C, in_parents_irrefl in Sc. discriminate.
    + apply (in_parents_firstn_mono repo p k (S n)) in Sc; try lia. congruence.
Qed.

End Prune.

(** ** The cleanup *)

Section CleanupLoop.
Import Cleaner Files.
Variable repo : Path.
Variable fs0 : FS.

Lemma cleaned_start : well_formed fs0 -> Cleaned repo fs0 fs0 [] [].
Proof.
  intros W. split.
  - exact W.
  - intros f. split; [intros H; split; auto | tauto].
  - auto.
  - intros d I N. contradiction.
  - intros f d [].
  - intros f. split; [intros [] | intros [_ []]].
Qed.

(** Deleting a file of the tree. *)
Lemma unlink_entries q cur x :
  In x (entries {| files := remove_path q (files cur); dirs := dirs cur |}) ->
  In x (entries cur).
Proof. unfold entries. simpl. rewrite !in_app_iff, remove_path_in. tauto. Qed.

Lemma unlink_has_entries q cur d :
  parent q <> d \/ q = [] ->
  has_entries d {| files := remove_path q (files cur); dirs := dirs cur |}
  = has_entries d cur.
Proof.
  intros H. unfold has_entries, entries. simpl.
  rewrite !existsb_app. f_equal. unfold remove_path.
  induction (files cur) as [|y l IH]; simpl; [reflexivity |].
  destruct (path_eqb y q) eqn:E; simpl; [| now rewrite IH].
  apply path_eqb_eq in E. subst y. rewrite IH.
  destruct (is_child q d) eqn:C; [| reflexivity].
  apply is_child_spec in C as [N P]. destruct H; contradiction.
Qed.

(** On the way up from [q]: the proper prefixes of [q] that are not
    empty. *)
Lemma on_chain q d :
  in_parents d q = true -> d <> [] ->
  exists k, (1 <= k <= List.length q - 1)%nat /\ d = firstn k q.
Proof.
  intros H N. apply in_parents_spec in H as [k [L ->]]. exists k.
  split; [| reflexivity]. destruct k; [now destruct N |]. lia.
Qed.

Lemma below_root_nonempty d : in_parents repo d = true -> d <> [].
Proof. intros H ->. apply in_parents_length in H. simpl in H. lia. Qed.

(** One candidate more, in execute mode. *)
Lemma cleanup_one_cleaned cur done gone failed c :
  Cleaned repo fs0 cur done gone ->
  let '(cur', gone', failed') := cleanup_one repo false (cur, gone, failed) c in
  Cleaned repo fs0 cur' (done ++ [path c]) gone'.
Proof.
  intros [W F D R P G]. cbn [cleanup_one]. unfold unlink.
  set (q := path c).
  destruct (path_mem q (files cur)) eqn:M.
  - (* the file is there: it goes, and the empty parents with it *)
    apply path_mem_spec in M.
    set (fs1 := {| files := remove_path q (files cur); dirs := dirs cur |}).
    set (n := (List.length q - 1)%nat).
    assert (well_formed fs1) as W1.
    { intros x Ix Lx. apply (W x); [now apply unlink_entries in Ix | exact Lx]. }
    assert ((1 <= n)%nat -> In (firstn n q) (dirs fs1)) as Top.
    { intros Hn. subst n. rewrite <- parent_is_firstn. apply (W q).
      - unfold entries. apply in_or_app. now left.
      - lia. }
    assert (n <= List.length q - 1)%nat as Ln by (subst n; lia).
    split.
    + now apply prune_well_formed.
    + intros f. rewrite prune_files. simpl. rewrite remove_path_in, F, in_app_iff.
      simpl. intuition congruence.
    + intros d H. apply prune_dirs in H. now apply D.
    + intros d I N.
      destruct (in_dec (list_eq_dec string_dec) d (dirs cur)) as [Ic | Nc].
      * destruct (prune_removed repo q n fs1 d Ln Ic N) as [[k [Hk ->]] [S1 S2]].
        split; [exact S1 |]. split; [| exact S2].
        exists q. split; [apply in_or_app; right; now left |].
        apply in_parents_spec. exists k. split; [subst n; lia | reflexivity].
      * destruct (R d I Nc) as [R1 [[f [R2 R3]] R4]].
        split; [exact R1 |]. split.
        -- exists f. split; [apply in_or_app; now left | exact R3].
        -- apply prune_keeps_empty. rewrite has_entries_false in *.
           intros x Ix. apply R4. now apply unlink_entries in Ix.
    + intros f d If Hd Hr Id.
      assert (d <> []) as Nd by now apply (below_root_nonempty d).
      destruct (in_parents d q) eqn:Cq.
      * destruct (on_chain q d Cq Nd) as [k [Hk ->]].
        apply (prune_chain repo q n fs1 W1 Ln Top k); auto.
      * assert (forall k, (k <= n)%nat -> d <> firstn k q) as Off.
        { intros k Hk ->. destruct q as [|x q'] eqn:Eq.
          - simpl in Hk. destruct k; [now destruct Nd | subst n; simpl in Hk; lia].
          - assert (in_parents (firstn k (x :: q')) (x :: q') = true) as X
              by (apply in_parents_spec; exists k; split; [subst n; simpl in *; lia | reflexivity]).
            congruence. }
        rewrite (prune_off_chain repo q n fs1 d Ln Off).
        unfold fs1. rewrite unlink_has_entries.
        -- apply in_app_or in If as [If | [<- | []]]; [| congruence].
           apply (P f d); auto. apply prune_dirs in Id. exact Id.
        -- destruct q as [|x q'] eqn:Eq; [now right | left].
           rewrite parent_is_firstn. intros X. apply (Off n); [lia |].
           subst n. now symmetry.
    + intros f. rewrite !in_app_iff, G. simpl. split.
      * intros [H | [<- | []]]; [tauto |]. split; [now apply F | tauto].
      * tauto.
  - (* no such file: the call raises, the tree stays *)
    apply path_mem_false in M. split; auto.
    intros f. rewrite G, in_app_iff. simpl. split; [tauto |].
    intros [If [Id | [<- | []]]]; [tauto |].
    destruct (in_dec (list_eq_dec string_dec) q gone) as [Ig | Ng]; [now apply G |].
    exfalso. apply M, F. now split.
Qed.

End CleanupLoop.

Section Cleanup.
Import Cleaner Files.
Variable repo : Path.

Lemma is_tree_spec fs : is_tree fs = true <-> well_formed fs.
Proof.
  unfold is_tree, well_formed. rewrite forallb_forall. split.
  - intros H q I L. apply H in I. apply orb_true_iff in I as [I | I].
    + apply Nat.ltb_lt in I. lia.
    + now apply path_mem_spec.
  - intros H q I. destruct (List.length q <? 2)%nat eqn:E; [reflexivity |].
    apply Nat.ltb_ge in E. simpl. apply path_mem_spec. now apply H.
Qed.

(** The whole loop, in execute mode. *)
Lemma cleanup_loop_cleaned fs0 l : forall cur done gone failed,
  Cleaned repo fs0 cur done gone ->
  let '(cur', gone', _) := fold_left (cleanup_one repo false) l (cur, gone, failed) in
  Cleaned repo fs0 cur' (done ++ map path l) gone'.
Proof.
  induction l as [|c l IH]; intros cur done gone failed H; cbn [fold_left map].
  - now rewrite app_nil_r.
  - pose proof (cleanup_one_cleaned repo fs0 cur done gone failed c H) as H1.
    destruct (cleanup_one repo false (cur, gone, failed) c) as [[cur1 gone1] failed1].
    specialize (IH cur1 (done ++ [path c]) gone1 failed1 H1).
    rewrite <- app_assoc in IH. exact IH.
Qed.

(** The whole loop, in a dry run. *)
Lemma cleanup_loop_dry l : forall cur gone failed,
  fold_left (cleanup_one repo true) l (cur, gone, failed)
  = (cur, gone ++ map path l, failed).
Proof.
  induction l as [|c l IH]; intros cur gone failed; cbn [fold_left map cleanup_one].
  - now rewrite app_nil_r.
  - rewrite IH, <- app_assoc. reflexivity.
Qed.

Lemma listed_paths listing l f :
  lists_the_set listing l = true ->
  In f (map path (listing l)) <-> In f (map path l).
Proof.
  unfold lists_the_set. rewrite andb_true_iff, !forallb_forall. intros [A B].
  rewrite !in_map_iff. split; intros [p [<- I]].
  - apply A in I. apply path_mem_spec in I. now apply in_map_iff in I.
  - apply B in I. apply path_mem_spec in I. now apply in_map_iff in I.
Qed.

(** The first package of each path is an enumeration of the set. *)
Lemma first_of_each_path_in l : forall seen p,
  In p (first_of_each_path seen l) -> In p l.
Proof.
  induction l as [|c l IH]; intros seen p; cbn [first_of_each_path]; [auto |].
  destruct (path_mem (path c) seen).
  - intros H. right. now apply (IH seen).
  - intros [<- | H]; [now left | right; now apply (IH (path c :: seen))].
Qed.

Lemma first_of_each_path_all l : forall seen p,
  In p l -> In (path p) seen \/ In (path p) (map path (first_of_each_path seen l)).
Proof.
  induction l as [|c l IH]; intros seen p; cbn [first_of_each_path]; [intros [] |].
  destruct (path_mem (path c) seen) eqn:M.
  - intros [<- | H]; [left; now apply path_mem_spec | now apply IH].
  - intros [<- | H]; [right; now left |].
    destruct (IH (path c :: seen) p H) as [[E | I] | I].
    + right. left. exact E.
    + now left.
    + right. right. exact I.
Qed.

Lemma first_of_each_path_lists l : lists_the_set (first_of_each_path []) l = true.
Proof.
  unfold lists_the_set. rewrite andb_true_iff, !forallb_forall. split; intros p I.
  - apply path_mem_spec, in_map. now apply first_of_each_path_in in I.
  - apply path_mem_spec. now destruct (first_of_each_path_all l [] p I) as [[] | H].
Qed.

End Cleanup.

(** What [cleanup] leaves in execute mode, from the tree [fs]. *)
Lemma cleanup_execute_cleaned listing repo pre lim fs :
  Files.well_formed fs ->
  Files.Cleaned repo fs
    (snd (Files.cleanup listing repo pre lim false fs))
    (map Cleaner.path (listing (pre ++ lim)))
    (Files.deleted (fst (Files.cleanup listing repo pre lim false fs))).
Proof.
  intros W. unfold Files.cleanup.
  pose proof (cleanup_loop_cleaned repo fs (listing (pre ++ lim)) fs [] [] []
                (cleaned_start repo fs W)) as H.
  destruct (fold_left _ _ _) as [[cur gone] failed]. exact H.
Qed.



(** ** The groups of [find_cleanup_candidates], read as filters *)

Section GroupsAsFilters.
Import Cleaner Retention.

Lemma key_eqb_false a b : key_eqb a b = false <-> a <> b.
Proof.
  rewrite <- key_eqb_eq. destruct (key_eqb a b); split; congruence.
Qed.

Lemma filter_key_snoc k l p :
  filter (fun x => key_eqb (key_of x) k) (l ++ [p])
  = filter (fun x => key_eqb (key_of x) k) l
    ++ (if key_eqb (key_of p) k then [p] else []).
Proof. rewrite filter_app. reflexivity. Qed.

(** Where an entry of the groups comes from, one package later. *)
Lemma group_append_in kp p k g : forall groups,
  NoDup (map fst groups) ->
  In (k, g) (group_append kp p groups) ->
  (k <> kp /\ In (k, g) groups)
  \/ (k = kp /\ exists g0, g = g0 ++ [p]
                 /\ (In (kp, g0) groups
                     \/ (g0 = [] /\ ~ In kp (map fst groups)))).
Proof.
  induction groups as [|[k0 g0] rest IH]; intros ND; cbn [group_append].
  - intros [E | []]. inversion E; subst. right. split; [reflexivity |].
    exists []. split; [reflexivity | right; split; [reflexivity | intros []]].
  - inversion ND as [|? ? N0 ND']; subst.
    destruct (key_eqb k0 kp) eqn:E0.
    + apply key_eqb_eq in E0. subst k0. intros [E | I].
      * inversion E; subst. right. split; [reflexivity |]. exists g0.
        split; [reflexivity | left; now left].
      * left. split; [| now right]. intros ->. apply N0.
        apply in_map_iff. exists (kp, g). now split.
    + apply key_eqb_false in E0. intros [E | I].
      * inversion E; subst. left. split; [exact E0 | now left].
      * destruct (IH ND' I) as [[N I'] | [-> [g1 [-> [I' | [-> N]]]]]].
        -- left. split; [exact N | now right].
        -- right. split; [reflexivity |]. exists g1. split; [reflexivity |].
           left. now right.
        -- right. split; [reflexivity |]. exists []. split; [reflexivity |].
           right. split; [reflexivity |]. intros [X | X]; [now apply E0 | now apply N].
Qed.

Lemma group_append_has_key kp p : forall groups,
  In kp (map fst (group_append kp p groups)).
Proof.
  induction groups as [|[k0 g0] rest IH]; cbn [group_append].
  - now left.
  - destruct (key_eqb k0 kp) eqn:E0.
    + apply key_eqb_eq in E0. subst. now left.
    + right. exact IH.
Qed.

Lemma group_append_keeps_keys kp p k : forall groups,
  In k (map fst groups) -> In k (map fst (group_append kp p groups)).
Proof.
  induction groups as [|[k0 g0] rest IH]; cbn [group_append]; [intros [] |].
  destruct (key_eqb k0 kp) eqn:E0; cbn [map fst]; intros [E | I].
  - now left.
  - now right.
  - now left.
  - right. now apply IH.
Qed.

Lemma filter_none {A} (f : A -> bool) l :
  (forall x, In x l -> f x = false) -> filter f l = [].
Proof.
  induction l as [|a l IH]; intros H; simpl; [reflexivity |].
  rewrite (H a (or_introl eq_refl)). apply IH. intros x I. apply H. now right.
Qed.

Lemma group_append_nodup kp p : forall groups,
  NoDup (map fst groups) -> NoDup (map fst (group_append kp p groups)).
Proof.
  induction groups as [|[k0 g0] rest IH]; intros ND; cbn [group_append].
  - constructor; [intros [] | constructor].
  - inversion ND as [|? ? N0 ND']; subst.
    destruct (key_eqb k0 kp) eqn:E0; cbn [map fst]; [exact ND |].
    constructor; [| now apply IH].
    intros X. apply group_append_keys in X as [X | X]; [| contradiction].
    apply key_eqb_false in E0. congruence.
Qed.

Lemma package_groups_snoc l p :
  package_groups (l ++ [p]) = group_append (key_of p) p (package_groups l).
Proof. unfold package_groups. now rewrite fold_left_app. Qed.

(** The groups are the classes of the key, none of them empty, and
    every package has its class among them. *)
Lemma package_groups_filters l :
  NoDup (map fst (package_groups l))
  /\ (forall k g, In (k, g) (package_groups l) ->
        g = filter (fun x => key_eqb (key_of x) k) l /\ g <> [])
  /\ (forall x, In x l -> In (key_of x) (map fst (package_groups l))).
Proof.
  induction l as [|p l IH] using rev_ind.
  - split; [constructor | split; [intros k g [] | intros x []]].
  - destruct IH as [ND [Hg Hx]]. rewrite package_groups_snoc.
    split; [now apply group_append_nodup | split].
    + intros k g I. rewrite filter_key_snoc.
      apply group_append_in in I as [[N I] | [-> [g0 [-> [I | [-> N]]]]]]; auto.
      * assert (key_eqb (key_of p) k = false) as ->
          by (apply key_eqb_false; congruence).
        rewrite app_nil_r. now apply Hg.
      * rewrite key_eqb_refl. destruct (Hg _ _ I) as [<- _].
        split; [reflexivity |]. intros X. apply app_eq_nil in X as [_ X].
        discriminate.
      * rewrite key_eqb_refl.
        assert (filter (fun x => key_eqb (key_of x) (key_of p)) l = []) as ->.
        { apply filter_none. intros x I. apply key_eqb_false. intros E.
          apply N. rewrite <- E. now apply Hx. }
        split; [reflexivity | discriminate].
    + intros x I. apply in_app_or in I as [I | [<- | []]].
      * apply group_append_keeps_keys. now apply Hx.
      * apply group_append_has_key.
Qed.

End GroupsAsFilters.

(** ** What [find_cleanup_candidates] selects *)

Section Selection.
Import Py Cleaner Retention.
Variable policy : RetentionPolicy.
Variable dpkg : Dpkg.
Variable re_match : string -> string -> bool.

(** The pre-release candidates of a turn do not depend on what was
    found before. *)
Lemma process_group_prereleases acc entry :
  fst (process_group policy dpkg re_match acc entry)
  = fst acc ++ prereleases_of policy re_match entry.
Proof.
  destruct acc as [pre lim]. destruct entry as [[[[ch comp] nm] ar] g].
  unfold process_group, prereleases_of, protected_key, keeps_prereleases, age_limit.
  cbn [fst snd].
  destruct (mem comp (protected_components policy)); cbn [orb fst];
    [now rewrite app_nil_r |].
  destruct (existsb _ (protected_packages policy)); cbn [fst];
    [now rewrite app_nil_r |].
  destruct (get _ true); cbn [negb fst]; [now rewrite app_nil_r | reflexivity].
Qed.

Lemma fold_process_prereleases groups : forall acc,
  fst (fold_left (process_group policy dpkg re_match) groups acc)
  = fst acc ++ flat_map (prereleases_of policy re_match) groups.
Proof.
  induction groups as [|e groups IH]; intros acc; cbn [fold_left flat_map].
  - now rewrite app_nil_r.
  - rewrite IH, process_group_prereleases. now rewrite app_assoc.
Qed.

(** A version-limit candidate of a turn is in the excess of the group,
    the group is over a positive limit and not protected. *)
Lemma process_group_excess acc k g q :
  In q (snd (process_group policy dpkg re_match acc (k, g))) ->
  In q (snd acc)
  \/ (protected_key policy re_match k = false
      /\ (0 < version_limit policy (fst (fst (fst k))))%Z
      /\ (version_limit policy (fst (fst (fst k))) < Z.of_nat (List.length g))%Z
      /\ In q (skipn (Z.to_nat (version_limit policy (fst (fst (fst k)))))
                     (sorted_newest_first dpkg g))).
Proof.
  destruct acc as [pre lim]. destruct k as [[[ch comp] nm] ar].
  unfold process_group, protected_key, version_limit. cbn [fst snd].
  destruct (mem comp (protected_components policy)); cbn [orb snd]; [now left |].
  destruct (existsb _ (protected_packages policy)); cbn [snd]; [now left |].
  set (m := get _ (max_versions_per_package policy)).
  destruct ((m >? 0)%Z && (Z.of_nat (List.length g) >? m)%Z) eqn:E; cbn [snd];
    [| now left].
  apply andb_true_iff in E as [E1 E2].
  intros I. apply in_app_or in I as [I | I]; [now left | right].
  apply filter_In in I as [I _]. repeat split; auto; lia.
Qed.

Lemma fold_process_excess groups q : forall acc,
  In q (snd (fold_left (process_group policy dpkg re_match) groups acc)) ->
  In q (snd acc)
  \/ exists k g,
       In (k, g) groups
       /\ protected_key policy re_match k = false
       /\ (0 < version_limit policy (fst (fst (fst k))))%Z
       /\ (version_limit policy (fst (fst (fst k))) < Z.of_nat (List.length g))%Z
       /\ In q (skipn (Z.to_nat (version_limit policy (fst (fst (fst k)))))
                      (sorted_newest_first dpkg g)).
Proof.
  induction groups as [|[k g] groups IH]; intros acc; cbn [fold_left]; [now left |].
  intros I. apply IH in I as [I | [k' [g' [I H]]]].
  - apply process_group_excess in I as [I | H]; [now left | right].
    exists k, g. split; [now left | exact H].
  - right. exists k', g'. split; [now right | exact H].
Qed.

(** The members of a group of the list, by their key. *)
Lemma group_member packages k g p :
  In (k, g) (package_groups packages) -> In p g ->
  In p packages /\ key_of p = k
  /\ g = group_of p packages.
Proof.
  intros I Ip. destruct (package_groups_filters packages) as [_ [Hg _]].
  destruct (Hg k g I) as [E _]. rewrite E in Ip.
  apply filter_In in Ip as [Ip Ek]. apply key_eqb_eq in Ek.
  repeat split; auto. unfold group_of. now rewrite Ek.
Qed.

Lemma group_of_listed packages p :
  In p packages -> In (key_of p, group_of p packages) (package_groups packages).
Proof.
  intros I. destruct (package_groups_filters packages) as [_ [Hg Hx]].
  apply Hx in I. apply in_map_iff in I as [[k g] [E I]]. cbn [fst] in E. subst k.
  destruct (Hg _ _ I) as [-> _]. exact I.
Qed.

Lemma prereleases_of_spec k g p :
  In p (prereleases_of policy re_match (k, g)) <->
  In p g /\ protected_key policy re_match k = false
  /\ keeps_prereleases policy (fst (fst (fst k))) = false
  /\ is_prerelease p = true
  /\ (age_days p > age_limit policy (fst (fst (fst k))))%Z.
Proof.
  destruct k as [[[ch comp] nm] ar]. unfold prereleases_of. cbn [fst].
  destruct (protected_key policy re_match (ch, comp, nm, ar));
    [split; [intros [] | intros [_ [X _]]; discriminate] |].
  destruct (keeps_prereleases policy ch);
    [split; [intros [] | intros [_ [_ [X _]]]; discriminate] |].
  rewrite filter_In, andb_true_iff, Z.gtb_lt. intuition lia.
Qed.

End Selection.

Section SelectionFacts.
Import Py Cleaner Retention.
Variable policy : RetentionPolicy.
Variable dpkg : Dpkg.
Variable re_match : string -> string -> bool.
Variable packages : list PackageInfo.

Lemma in_skipn {A} n (l : list A) x : In x (skipn n l) -> In x l.
Proof. intros I. rewrite <- (firstn_skipn n l). apply in_or_app. now right. Qed.

Lemma in_firstn {A} n (l : list A) x : In x (firstn n l) -> In x l.
Proof. intros I. rewrite <- (firstn_skipn n l). apply in_or_app. now left. Qed.

(** The pre-release candidates, one by one. *)
Lemma prerelease_candidate_spec p :
  In p (fst (find_cleanup_candidates policy dpkg re_match packages)) <->
  In p packages
  /\ protected policy re_match p = false
  /\ keeps_prereleases policy (channel p) = false
  /\ is_prerelease p = true
  /\ (age_days p > age_limit policy (channel p))%Z.
Proof.
  unfold find_cleanup_candidates. rewrite fold_process_prereleases. cbn [fst app].
  rewrite in_flat_map. split.
  - intros [[k g] [I H]]. apply prereleases_of_spec in H as [Hg [Hp [Hk [Hr Ha]]]].
    destruct (group_member packages k g p I Hg) as [Ip [Ek _]].
    unfold protected. rewrite Ek. subst k. cbn [key_of fst] in *. auto.
  - intros [Ip [Hp [Hk [Hr Ha]]]].
    exists (key_of p, group_of p packages). split; [now apply group_of_listed |].
    apply prereleases_of_spec. cbn [key_of fst]. repeat split; auto.
    unfold group_of. apply filter_In. split; [exact Ip | apply key_eqb_refl].
Qed.

(** The version-limit candidates, one by one: in the excess of their
    group, which is over a positive limit. *)
Lemma version_limit_candidate_excess q :
  In q (snd (find_cleanup_candidates policy dpkg re_match packages)) ->
  In q packages
  /\ protected policy re_match q = false
  /\ (0 < version_limit policy (channel q))%Z
  /\ (version_limit policy (channel q) < Z.of_nat (List.length (group_of q packages)))%Z
  /\ In q (skipn (Z.to_nat (version_limit policy (channel q)))
                 (sorted_newest_first dpkg (group_of q packages))).
Proof.
  unfold find_cleanup_candidates. intros I.
  apply fold_process_excess in I as [[] | [k [g [I [Hp [H0 [Hl Hs]]]]]]].
  assert (In q g) as Ig
    by (apply (sorted_newest_first_incl dpkg g), (in_skipn _ _ _ Hs)).
  destruct (group_member packages k g q I Ig) as [Ip [Ek Eg]].
  unfold protected. rewrite Ek. subst k g. cbn [key_of fst] in *. auto.
Qed.

Lemma strongly_sorted_app {A} (R : A -> A -> Prop) (a b : list A) :
  StronglySorted R (a ++ b) -> forall x y, In x a -> In y b -> R x y.
Proof.
  induction a as [|h a IH]; intros S x y Ix Iy; [destruct Ix |].
  cbn [app] in S. inversion S as [|? ? S' F]; subst.
  destruct Ix as [<- | Ix].
  - rewrite Forall_forall in F. apply F, in_or_app. now right.
  - now apply IH.
Qed.

Lemma orderly_spec q :
  orderly dpkg packages = true -> In q packages ->
  NoDup (map version (group_of q packages))
  /\ strict_total_on (version_lt dpkg) (map version (group_of q packages)) = true.
Proof.
  unfold orderly. rewrite forallb_forall. intros H I. apply H in I.
  apply andb_true_iff in I as [D T]. split; [now apply distinct_nodup | exact T].
Qed.

(** Where the versions of a group are in order, a version-limit
    candidate has as many newer versions in its group as the limit
    says. *)
Lemma version_limit_candidate_newer q :
  orderly dpkg packages = true ->
  In q (snd (find_cleanup_candidates policy dpkg re_match packages)) ->
  exists newer,
    NoDup newer
    /\ List.length newer = Z.to_nat (version_limit policy (channel q))
    /\ forall p, In p newer ->
         In p packages /\ key_of p = key_of q
         /\ version_lt dpkg (version q) (version p) = true.
Proof.
  intros O I. destruct (version_limit_candidate_excess q I) as [Ip [_ [H0 [Hl Hs]]]].
  destruct (orderly_spec q O Ip) as [ND T].
  set (g := group_of q packages) in *.
  set (m := Z.to_nat (version_limit policy (channel q))) in *.
  assert (m < List.length g)%nat as Lm by (subst m; lia).
  destruct (sorted_newest_first_sorted dpkg g) as [P S]; auto; [lia |].
  exists (firstn m (sorted_newest_first dpkg g)). split; [| split].
  - assert (NoDup (sorted_newest_first dpkg g)) as N.
    { apply (Permutation_NoDup P). now apply NoDup_map_inv in ND. }
    rewrite <- (firstn_skipn m) in N. now apply NoDup_app_remove_r in N.
  - rewrite length_firstn, <- (Permutation_length P). lia.
  - intros p Hp. assert (In p g) as Ig
      by (apply (sorted_newest_first_incl dpkg g), (in_firstn _ _ _ Hp)).
    unfold g, group_of in Ig. apply filter_In in Ig as [Ig Ek].
    apply key_eqb_eq in Ek. repeat split; auto.
    rewrite <- (firstn_skipn m) in S.
    exact (strongly_sorted_app _ _ _ S p q Hp Hs).
Qed.

End SelectionFacts.

(** X1.  Whatever the policy, the comparison of versions and the list of
    packages, every candidate that [find_cleanup_candidates] returns, in
    either list, is one of the packages it was given, and neither its
    component nor its name is protected by the policy. *)
Theorem candidates_are_unprotected_packages :
  forall (policy : Cleaner.RetentionPolicy) (dpkg : Cleaner.Dpkg)
         (re_match : string -> string -> bool)
         (packages : list Cleaner.PackageInfo),
    Forall (fun p => In p packages /\ Retention.protected policy re_match p = false)
           (fst (Cleaner.find_cleanup_candidates policy dpkg re_match packages)
            ++ snd (Cleaner.find_cleanup_candidates policy dpkg re_match packages)).
Proof.
  intros policy dpkg re_match packages. apply Forall_forall. intros p I.
  apply in_app_or in I as [I | I].
  - apply prerelease_candidate_spec in I. tauto.
  - apply version_limit_candidate_excess in I. tauto.
Qed.

(** X2.  The pre-release candidates are exactly the packages of the list
    that are not protected, lie in a channel that does not keep its
    pre-releases (a channel without a policy of its own keeps them), are
    flagged as pre-release, and are older in days than the age limit of
    the channel ([max_age_days] of the channel, else
    [prerelease_max_age_days]). *)
Theorem prerelease_candidates_are_the_aged_prereleases :
  forall (policy : Cleaner.RetentionPolicy) (dpkg : Cleaner.Dpkg)
         (re_match : string -> string -> bool)
         (packages : list Cleaner.PackageInfo) (p : Cleaner.PackageInfo),
    In p (fst (Cleaner.find_cleanup_candidates policy dpkg re_match packages)) <->
    In p packages
    /\ Retention.protected policy re_match p = false
    /\ Retention.keeps_prereleases policy (Cleaner.channel p) = false
    /\ Cleaner.is_prerelease p = true
    /\ (Cleaner.age_days p > Retention.age_limit policy (Cleaner.channel p))%Z.
Proof. intros. apply prerelease_candidate_spec. Qed.

(** X3.  A version-limit candidate belongs to a group (the packages of
    its channel, component, name and architecture) that holds more
    packages than the version limit of its channel, and this limit is
    positive: with a limit of zero or less, or a group within the limit,
    nothing is flagged. *)
Theorem version_limit_only_over_a_positive_limit :
  forall (policy : Cleaner.RetentionPolicy) (dpkg : Cleaner.Dpkg)
         (re_match : string -> string -> bool)
         (packages : list Cleaner.PackageInfo),
    Forall (fun q =>
              (0 < Retention.version_limit policy (Cleaner.channel q))%Z
              /\ (Retention.version_limit policy (Cleaner.channel q)
                  < Z.of_nat (List.length (Retention.group_of q packages)))%Z)
           (snd (Cleaner.find_cleanup_candidates policy dpkg re_match packages)).
Proof.
  intros policy dpkg re_match packages. apply Forall_forall. intros q I.
  apply version_limit_candidate_excess in I. tauto.
Qed.

(** X4.  Where, in every group, the versions are all different and
    strictly and totally ordered by the comparison in use, every
    version-limit candidate has at least as many strictly newer packages
    in its own group as the version limit of its channel says: the
    newest [max_versions] of a group are never flagged. *)
Theorem version_limit_candidates_have_newer_versions :
  forall (policy : Cleaner.RetentionPolicy) (dpkg : Cleaner.Dpkg)
         (re_match : string -> string -> bool)
         (packages : list Cleaner.PackageInfo),
    Retention.orderly dpkg packages = true ->
    Forall (fun q =>
              exists newer,
                NoDup newer
                /\ List.length newer
                   = Z.to_nat (Retention.version_limit policy (Cleaner.channel q))
                /\ forall p, In p newer ->
                     In p packages /\ Cleaner.key_of p = Cleaner.key_of q
                     /\ Cleaner.version_lt dpkg (Cleaner.version q) (Cleaner.version p)
                        = true)
           (snd (Cleaner.find_cleanup_candidates policy dpkg re_match packages)).
Proof.
  intros policy dpkg re_match packages O. apply Forall_forall. intros q I.
  exact (version_limit_candidate_newer policy dpkg re_match packages q O I).
Qed.

(** X4 at work: the five versions of [foo] in pr/main and the five in
    testing/main together, under the default policy. *)
Lemma version_limit_candidates_have_newer_versions_witness :
  Retention.orderly Pool.dpkg (Pool.five ++ Pool.five_recent) = true
  /\ Forall (fun q =>
               exists newer,
                 NoDup newer
                 /\ List.length newer
                    = Z.to_nat (Retention.version_limit Cleaner.default_policy
                                  (Cleaner.channel q))
                 /\ forall p, In p newer ->
                      In p (Pool.five ++ Pool.five_recent)
                      /\ Cleaner.key_of p = Cleaner.key_of q
                      /\ Cleaner.version_lt Pool.dpkg (Cleaner.version q)
                           (Cleaner.version p) = true)
            (snd (Cleaner.find_cleanup_candidates Cleaner.default_policy Pool.dpkg
                    Pool.no_match (Pool.five ++ Pool.five_recent))).
Proof.
  assert (Retention.orderly Pool.dpkg (Pool.five ++ Pool.five_recent) = true) as O
    by (vm_compute; reflexivity).
  split; [exact O |].
  exact (version_limit_candidates_have_newer_versions Cleaner.default_policy
           Pool.dpkg Pool.no_match (Pool.five ++ Pool.five_recent) O).
Defined.

(** X5.  Under the policy that the [cleanup] and [analyze] commands
    build from their options, no package of the stable channel is ever a
    version-limit candidate, whatever [--max-versions] says, and without
    [--include-stable-prereleases] none is a pre-release candidate
    either.  Under the default policy of [RetentionPolicy] no package of
    the stable channel is a candidate at all. *)
Theorem stable_is_kept_unless_asked :
  forall (max_age max_versions : Z) (include_stable : bool) (dpkg : Cleaner.Dpkg)
         (re_match : string -> string -> bool)
         (packages : list Cleaner.PackageInfo),
    Forall (fun q => Cleaner.channel q <> "stable")
           (snd (Cleaner.find_cleanup_candidates
                   (Files.cmd_cleanup_policy max_age max_versions include_stable)
                   dpkg re_match packages))
    /\ Forall (fun p => Cleaner.channel p <> "stable")
              (fst (Cleaner.find_cleanup_candidates
                      (Files.cmd_cleanup_policy max_age max_versions false)
                      dpkg re_match packages))
    /\ Forall (fun p => Cleaner.channel p <> "stable")
              (fst (Cleaner.find_cleanup_candidates Cleaner.default_policy
                      dpkg re_match packages)
               ++ snd (Cleaner.find_cleanup_candidates Cleaner.default_policy
                         dpkg re_match packages)).
Proof.
  intros max_age max_versions include_stable dpkg re_match packages.
  split; [| split]; apply Forall_forall; intros p I E.
  - apply version_limit_candidate_excess in I as [_ [_ [H _]]].
    rewrite E in H. vm_compute in H. discriminate.
  - apply prerelease_candidate_spec in I as [_ [_ [H _]]].
    rewrite E in H. vm_compute in H. discriminate.
  - apply in_app_or in I as [I | I].
    + apply prerelease_candidate_spec in I as [_ [_ [H _]]].
      rewrite E in H. vm_compute in H. discriminate.
    + apply version_limit_candidate_excess in I as [_ [_ [H _]]].
      rewrite E in H. vm_compute in H. discriminate.
Qed.

(** ** [parse_deb_filename] *)

Section ParseDebFilename.
Import Chars Py Cleaner Files DebName.

Lemma strip_suffix_eq suffix s :
  strip_suffix suffix s
  = if String.eqb s suffix then Some EmptyString
    else match s with
         | EmptyString => None
         | String c r =>
             match strip_suffix suffix r with
             | Some t => Some (String c t)
             | None => None
             end
         end.
Proof. destruct s; reflexivity. Qed.

Lemma strip_suffix_sound suffix : forall s t,
  strip_suffix suffix s = Some t -> s = (t ++ suffix)%string.
Proof.
  induction s as [|c s IH]; intros t; rewrite strip_suffix_eq.
  - destruct (String.eqb "" suffix) eqn:E; [| discriminate].
    apply String.eqb_eq in E. intros X. inversion X. now subst.
  - destruct (String.eqb (String c s) suffix) eqn:E.
    + apply String.eqb_eq in E. intros X. inversion X. now subst.
    + destruct (strip_suffix suffix s) as [t'|] eqn:E'; [| discriminate].
      intros X. inversion X. subst. simpl. f_equal. now apply IH.
Qed.

Lemma length_app_string (a b : string) :
  String.length (a ++ b) = (String.length a + String.length b)%nat.
Proof. induction a as [|c a IH]; simpl; [reflexivity | now rewrite IH]. Qed.

Lemma strip_suffix_app suffix : forall t,
  strip_suffix suffix (t ++ suffix) = Some t.
Proof.
  induction t as [|c t IH]; rewrite strip_suffix_eq.
  - simpl. now rewrite String.eqb_refl.
  - destruct (String.eqb (String c t ++ suffix) suffix) eqn:E.
    + apply String.eqb_eq in E. apply (f_equal String.length) in E.
      rewrite length_app_string in E. simpl in E. lia.
    + simpl. now rewrite IH.
Qed.

(** The last character of a string decides. *)
Lemma app_last_inj (a b : string) c d :
  (a ++ String c "")%string = (b ++ String d "")%string -> a = b /\ c = d.
Proof.
  revert b. induction a as [|x a IH]; intros [|y b] E; simpl in E.
  - inversion E. now split.
  - inversion E as [[X Y]]. destruct b; discriminate Y.
  - inversion E as [[X Y]]. destruct a; discriminate Y.
  - inversion E as [[X Y]]. destruct (IH _ Y) as [-> ->]. now split.
Qed.

Lemma strip_deb_of_newline t :
  strip_suffix ".deb" (t ++ String "." (String "d" (String "e" (String "b"
                              (String newline EmptyString))))) = None.
Proof.
  destruct (strip_suffix ".deb" _) as [u|] eqn:E; [| reflexivity].
  apply strip_suffix_sound in E.
  change (t ++ String "." (String "d" (String "e" (String "b" (String newline "")))))%string
    with (t ++ (".deb" ++ String newline ""))%string in E.
  change ".deb" with (".de" ++ String "b"%char "")%string in E at 2.
  rewrite <- !string_app_assoc in E.
  apply app_last_inj in E as [_ E]. discriminate E.
Qed.

(** [rsplit_underscore] splits at the last underscore. *)
Lemma rsplit_none s : forall cur,
  no_underscore s = true -> rsplit_underscore cur s = None.
Proof.
  induction s as [|c s IH]; intros cur H; simpl; [reflexivity |].
  simpl in H. apply andb_true_iff in H as [Hc Hs]. rewrite (IH _ Hs).
  apply negb_true_iff in Hc. now rewrite Hc.
Qed.

Lemma rsplit_none_inv s : forall cur,
  rsplit_underscore cur s = None -> no_underscore s = true.
Proof.
  unfold no_underscore.
  induction s as [|c s IH]; intros cur; simpl; [reflexivity |].
  destruct (rsplit_underscore (cur ++ String c "") s) eqn:E; [discriminate |].
  destruct (Ascii.eqb c "_"); [discriminate |]. intros _. simpl.
  now apply (IH _ E).
Qed.

Lemma rsplit_complete y : forall pre cur,
  no_underscore y = true ->
  rsplit_underscore cur (pre ++ "_" ++ y) = Some ((cur ++ pre)%string, y).
Proof.
  intros pre. induction pre as [|c pre IH]; intros cur H.
  - simpl. rewrite (rsplit_none y _ H). now rewrite string_app_nil_r.
  - simpl. rewrite (IH _ H). rewrite string_app_assoc. reflexivity.
Qed.

Lemma rsplit_sound s : forall cur x y,
  rsplit_underscore cur s = Some (x, y) ->
  exists pre, x = (cur ++ pre)%string /\ s = (pre ++ "_" ++ y)%string
              /\ no_underscore y = true.
Proof.
  induction s as [|c s IH]; intros cur x y; simpl; [discriminate |].
  destruct (rsplit_underscore (cur ++ String c "") s) as [[x' y']|] eqn:E.
  - intros X. inversion X. subst. apply IH in E as [pre [-> [-> N]]].
    exists (String c pre). rewrite string_app_assoc. now repeat split.
  - destruct (Ascii.eqb c "_") eqn:Ec; [| discriminate].
    apply Ascii.eqb_eq in Ec. subst c. intros X. inversion X. subst.
    exists "". rewrite string_app_nil_r. repeat split.
    now apply rsplit_none_inv in E.
Qed.

Lemma is_empty_false s : is_empty s = false <-> s <> "".
Proof. destruct s; simpl; split; congruence. Qed.

(** The parts of a stem. *)
Lemma parse_stem n v a :
  deb_parts n v a = true ->
  rsplit_underscore "" (n ++ "_" ++ v ++ "_" ++ a) = Some ((n ++ "_" ++ v)%string, a)
  /\ rsplit_underscore "" (n ++ "_" ++ v) = Some (n, v).
Proof.
  unfold deb_parts. rewrite !andb_true_iff. intros [[[[[_ _] _] Hv] _] Ha]. split.
  - change (n ++ "_" ++ v ++ "_" ++ a)%string
      with (n ++ ("_" ++ v) ++ "_" ++ a)%string.
    rewrite <- (string_app_assoc n ("_" ++ v)).
    now rewrite (rsplit_complete a _ "" Ha).
  - now rewrite (rsplit_complete v n "" Hv).
Qed.

Lemma parse_deb_name n v a :
  deb_parts n v a = true ->
  parse_deb_filename (deb_name n v a) = Some (n, v, a)
  /\ parse_deb_filename (deb_name n v a ++ String newline "") = Some (n, v, a).
Proof.
  intros H. destruct (parse_stem n v a H) as [E1 E2].
  assert (is_empty n || is_empty v || is_empty a || negb (no_newline n) = false) as G.
  { unfold deb_parts in H. rewrite !andb_true_iff, !negb_true_iff in H.
    destruct H as [[[[[-> ->] ->] _] ->] _]. reflexivity. }
  unfold no_newline in G.
  assert (deb_name n v a = ((n ++ "_" ++ v ++ "_" ++ a) ++ ".deb")%string) as D
    by (unfold deb_name; now rewrite !string_app_assoc).
  split; unfold parse_deb_filename.
  - rewrite D, strip_suffix_app, E1, E2. now rewrite G.
  - rewrite D, string_app_assoc.
    change (".deb" ++ String newline "")%string
      with (String "." (String "d" (String "e" (String "b" (String newline ""))))).
    rewrite strip_deb_of_newline, strip_suffix_app, E1, E2. now rewrite G.
Qed.

Lemma parse_deb_filename_sound f n v a :
  parse_deb_filename f = Some (n, v, a) ->
  deb_parts n v a = true
  /\ (f = deb_name n v a \/ f = (deb_name n v a ++ String newline "")%string).
Proof.
  unfold parse_deb_filename.
  set (stem := match strip_suffix ".deb" f with Some t => Some t | None => _ end).
  destruct stem as [t|] eqn:Es; [| discriminate].
  destruct (rsplit_underscore "" t) as [[rest arch]|] eqn:E1; [| discriminate].
  destruct (rsplit_underscore "" rest) as [[name version]|] eqn:E2; [| discriminate].
  destruct (is_empty name || is_empty version || is_empty arch || _) eqn:G;
    [discriminate |].
  intros X. inversion X. subst name version arch. clear X.
  apply rsplit_sound in E1 as [pre1 [-> [-> Na]]].
  apply rsplit_sound in E2 as [pre2 [E [E2 Nv]]]. simpl in E. subst pre2.
  simpl in E2. subst pre1.
  rewrite !orb_false_iff, negb_false_iff in G. destruct G as [[[G1 G2] G3] G4].
  split.
  - unfold deb_parts, no_newline. now rewrite G1, G2, G3, G4, Na, Nv.
  - subst stem. unfold deb_name.
    destruct (strip_suffix ".deb" f) as [t'|] eqn:S1.
    + inversion Es. subst t'. apply strip_suffix_sound in S1. left.
      rewrite S1. now rewrite !string_app_assoc.
    + apply strip_suffix_sound in Es. right. rewrite Es.
      now rewrite !string_app_assoc.
Qed.

End ParseDebFilename.

(** X6.  [parse_deb_filename] accepts exactly the file names
    [name_version_arch.deb], with or without one newline at the end,
    whose three parts are not empty, whose name holds no newline and
    whose version and architecture hold no underscore, and it gives back
    these three parts: the name is all that stands before the last two
    underscores. *)
Theorem parse_deb_filename_round_trip :
  forall (f n v a : string),
    Files.parse_deb_filename f = Some (n, v, a)
    <-> DebName.deb_parts n v a = true
        /\ (f = DebName.deb_name n v a
            \/ f = (DebName.deb_name n v a ++ String Files.newline "")%string).
Proof.
  intros f n v a. split.
  - apply parse_deb_filename_sound.
  - intros [H [-> | ->]]; now apply parse_deb_name.
Qed.

(** ** The report of [cleanup] *)

Section Account.
Import Cleaner Files.
Variable repo : Path.
Variable fs0 : FS.

Lemma path_in_dec (f : Path) l : {In f l} + {~ In f l}.
Proof. apply in_dec, list_eq_dec, string_dec. Qed.

(** One candidate more, in execute mode: it is deleted if it is a file
    of the tree and fails if not. *)
Lemma cleanup_one_account cur gone failed done c :
  (forall f, In f (files cur) <-> In f (files fs0) /\ ~ In f gone) ->
  NoDup gone /\ Forall (fun f => In f (files fs0)) gone ->
  Forall (fun f => ~ In f (files fs0) \/ In f gone) failed ->
  Permutation (gone ++ failed) done ->
  let '(cur', gone', failed') := cleanup_one repo false (cur, gone, failed) c in
  (forall f, In f (files cur') <-> In f (files fs0) /\ ~ In f gone')
  /\ (NoDup gone' /\ Forall (fun f => In f (files fs0)) gone')
  /\ Forall (fun f => ~ In f (files fs0) \/ In f gone') failed'
  /\ Permutation (gone' ++ failed') (done ++ [path c]).
Proof.
  intros F [N G] Fl P. cbn [cleanup_one]. unfold unlink.
  set (q := path c).
  destruct (path_mem q (files cur)) eqn:M.
  - apply path_mem_spec in M. split; [| split; [| split]].
    + intros f. rewrite prune_files. cbn [files].
      rewrite remove_path_in, F, in_app_iff. simpl. intuition congruence.
    + split.
      * apply NoDup_app; [exact N | constructor; [intros [] | constructor] |].
        intros x Ix [<- | []]. apply F in M. tauto.
      * apply Forall_app. split; [exact G |]. constructor; [| constructor].
        apply F in M. tauto.
    + eapply Forall_impl; [| exact Fl]. intros f [H | H]; [now left | right].
      apply in_or_app. now left.
    + rewrite <- app_assoc.
      apply Permutation_trans with (l' := (gone ++ failed) ++ [q]).
      * rewrite <- app_assoc. apply Permutation_app_head, Permutation_app_comm.
      * now apply Permutation_app_tail.
  - apply path_mem_false in M. split; [exact F | split; [now split | split]].
    + apply Forall_app. split; [exact Fl |]. constructor; [| constructor].
      destruct (path_in_dec q (files fs0)) as [I0 | N0]; [| now left].
      destruct (path_in_dec q gone) as [Ig | Ng]; [now right |].
      exfalso. apply M, F. now split.
    + rewrite app_assoc. now apply Permutation_app_tail.
Qed.

Lemma cleanup_loop_account l : forall cur gone failed done,
  (forall f, In f (files cur) <-> In f (files fs0) /\ ~ In f gone) ->
  NoDup gone /\ Forall (fun f => In f (files fs0)) gone ->
  Forall (fun f => ~ In f (files fs0) \/ In f gone) failed ->
  Permutation (gone ++ failed) done ->
  let '(cur', gone', failed') :=
    fold_left (cleanup_one repo false) l (cur, gone, failed) in
  (forall f, In f (files cur') <-> In f (files fs0) /\ ~ In f gone')
  /\ (NoDup gone' /\ Forall (fun f => In f (files fs0)) gone')
  /\ Forall (fun f => ~ In f (files fs0) \/ In f gone') failed'
  /\ Permutation (gone' ++ failed') (done ++ map path l).
Proof.
  induction l as [|c l IH]; intros cur gone failed done F N Fl P;
    cbn [fold_left map].
  - rewrite app_nil_r. auto.
  - pose proof (cleanup_one_account cur gone failed done c F N Fl P) as H.
    destruct (cleanup_one repo false (cur, gone, failed) c) as [[cur1 gone1] failed1].
    destruct H as [F1 [N1 [Fl1 P1]]].
    specialize (IH cur1 gone1 failed1 (done ++ [path c]) F1 N1 Fl1 P1).
    rewrite <- app_assoc in IH. exact IH.
Qed.

(** Where no candidate is a file of the tree, every deletion fails and
    the tree stays. *)
Lemma cleanup_loop_nothing l : forall cur gone failed,
  (forall c, In c l -> ~ In (path c) (files cur)) ->
  fold_left (cleanup_one repo false) l (cur, gone, failed)
  = (cur, gone, failed ++ map path l).
Proof.
  induction l as [|c l IH]; intros cur gone failed H; cbn [fold_left map].
  - now rewrite app_nil_r.
  - cbn [cleanup_one]. unfold unlink.
    assert (path_mem (path c) (files cur) = false) as ->
      by (apply path_mem_false, H; now left).
    rewrite IH; [| intros c' I; apply H; now right].
    now rewrite <- app_assoc.
Qed.

End Account.

Section AccountOfCleanup.
Import Cleaner Files.

Lemma cleanup_account listing repo pre lim fs :
  let res := cleanup listing repo pre lim false fs in
  (forall f, In f (files (snd res)) <->
             In f (files fs) /\ ~ In f (deleted (fst res)))
  /\ (NoDup (deleted (fst res)) /\ Forall (fun f => In f (files fs)) (deleted (fst res)))
  /\ Forall (fun f => ~ In f (files fs) \/ In f (deleted (fst res))) (failed (fst res))
  /\ Permutation (deleted (fst res) ++ failed (fst res))
                 (map path (listing (pre ++ lim))).
Proof.
  unfold cleanup.
  pose proof (cleanup_loop_account repo fs (listing (pre ++ lim)) fs [] [] []) as H.
  destruct (fold_left _ _ _) as [[cur gone] failed]. cbn [fst snd deleted Files.failed].
  apply H.
  - intros f. simpl. tauto.
  - split; constructor.
  - constructor.
  - constructor.
Qed.

End AccountOfCleanup.

(** X7.  In execute mode, [cleanup] accounts for every candidate that
    it enumerates: the paths reported as deleted and as failed are,
    together, the enumerated candidates, so that [deleted_count] and
    [failed_count] add up to their number; a path is reported as deleted
    at most once and was a file of the tree; a path reported as failed
    was no file of the tree, or had been deleted earlier in the same
    call; and the files that remain are those not reported as
    deleted. *)
Theorem cleanup_accounts_for_every_candidate :
  forall (listing : list Cleaner.PackageInfo -> list Cleaner.PackageInfo)
         (repo : Cleaner.Path) (pre lim : list Cleaner.PackageInfo) (fs : Files.FS),
    let res := Files.cleanup listing repo pre lim false fs in
    Permutation (Files.deleted (fst res) ++ Files.failed (fst res))
                (map Cleaner.path (listing (pre ++ lim)))
    /\ (Files.deleted_count (fst res) + Files.failed_count (fst res)
        = Z.of_nat (List.length (listing (pre ++ lim))))%Z
    /\ NoDup (Files.deleted (fst res))
    /\ Forall (fun f => In f (Files.files fs)) (Files.deleted (fst res))
    /\ Forall (fun f => ~ In f (Files.files fs) \/ In f (Files.deleted (fst res)))
              (Files.failed (fst res))
    /\ (forall f, In f (Files.files (snd res)) <->
                  In f (Files.files fs) /\ ~ In f (Files.deleted (fst res))).
Proof.
  intros listing repo pre lim fs res.
  destruct (cleanup_account listing repo pre lim fs) as [F [[N G] [Fl P]]].
  fold res in F, N, G, Fl, P.
  split; [exact P | split; [| split; [exact N | split; [exact G | split; [exact Fl | exact F]]]]].
  unfold Files.deleted_count, Files.failed_count.
    rewrite <- Nat2Z.inj_add, <- length_app, (Permutation_length P), length_map.
    reflexivity.
Qed.

(** X8.  [cleanup] in execute mode is idempotent on the tree: a second
    call with the same candidates, on the tree that the first call
    left, changes nothing, deletes nothing, and reports every enumerated
    candidate as failed. *)
Theorem cleanup_twice_is_cleanup_once :
  forall (listing : list Cleaner.PackageInfo -> list Cleaner.PackageInfo)
         (repo : Cleaner.Path) (pre lim : list Cleaner.PackageInfo) (fs : Files.FS),
    let first := Files.cleanup listing repo pre lim false fs in
    let second := Files.cleanup listing repo pre lim false (snd first) in
    snd second = snd first
    /\ Files.deleted (fst second) = []
    /\ Files.failed (fst second) = map Cleaner.path (listing (pre ++ lim)).
Proof.
  intros listing repo pre lim fs first second.
  destruct (cleanup_account listing repo pre lim fs) as [F [[N G] [Fl P]]].
  fold first in F, N, G, Fl, P.
  assert (forall c, In c (listing (pre ++ lim)) ->
                    ~ In (Cleaner.path c) (Files.files (snd first))) as Gone.
  { intros c I X. apply F in X as [X1 X2].
    assert (In (Cleaner.path c) (Files.deleted (fst first) ++ Files.failed (fst first)))
      as Y by (apply (Permutation_in _ (Permutation_sym P)); now apply in_map).
    apply in_app_or in Y as [Y | Y]; [contradiction |].
    rewrite Forall_forall in Fl. destruct (Fl _ Y); contradiction. }
  subst second. unfold Files.cleanup at 1 2 3.
  rewrite (cleanup_loop_nothing repo (listing (pre ++ lim)) (snd first) [] [] Gone).
  cbn [fst snd Files.deleted Files.failed app]. auto.
Qed.

(** ** The scan, and the [cleanup] command from the scan to the tree *)

Section ScanOfTree.
Import Chars Py Cleaner Files CliCleanup.

Lemma relative_to_spec p : forall q r,
  relative_to p q = Some r -> q = p ++ r.
Proof.
  induction p as [|x p IH]; intros [|y q] r; simpl; try discriminate.
  - intros X. now inversion X.
  - intros X. now inversion X.
  - destruct (String.eqb x y) eqn:E; [| discriminate].
    apply String.eqb_eq in E. subst y. intros X. now rewrite (IH _ _ X).
Qed.

Lemma last_app_cons {A} (a : list A) x b d : last (a ++ x :: b) d = last (x :: b) d.
Proof.
  induction a as [|y a IH]; [reflexivity |].
  cbn [app]. destruct (a ++ x :: b) eqn:E; [now destruct a |].
  cbn [last]. exact IH.
Qed.

(** What [rglob] finds in a file tree. *)
Lemma rglob_debs_spec fs stat p rel :
  In rel (rglob_debs (tree_of fs stat) p) ->
  rel <> [] /\ In (p ++ rel) (entries fs)
  /\ is_deb_name (last (p ++ rel) EmptyString) = true.
Proof.
  cbn [tree_of rglob_debs]. rewrite in_flat_map. intros [q [Iq I]].
  destruct (relative_to p q) as [[|x r]|] eqn:E; try destruct I.
  apply relative_to_spec in E. subst q.
  destruct (is_deb_name _) eqn:D; [| destruct I].
  destruct I as [<- | []]. repeat split; auto. discriminate.
Qed.

(** A record of the scan, with the entry it was made from. *)
Lemma scan_entry repo tree channels p :
  In p (scan_packages repo tree (Some channels)) ->
  exists channel rel,
    In channel channels
    /\ dir_exists tree (join (join repo channel) "pool") = true
    /\ In rel (rglob_debs tree (join (join repo channel) "pool"))
    /\ (path p = join (join repo channel) "pool" ++ rel
        /\ Cleaner.channel p = channel
        /\ component p = match rel with c :: _ => c | [] => "unknown" end
        /\ filename p = last (path p) EmptyString
        /\ is_prerelease p = is_prerelease_version (version p)
        /\ (size p, age_days p) = stat tree (path p))
    /\ parse_deb_filename (last (path p) EmptyString) = Some (name p, version p, arch p).
Proof.
  unfold scan_packages. rewrite in_flat_map. intros [channel [Ic I]].
  destruct (dir_exists tree _) eqn:D; [| destruct I].
  apply in_flat_map in I as [rel [Ir I]].
  exists channel, rel. split; [exact Ic | split; [exact D | split; [exact Ir |]]].
  unfold scan_file in I.
  destruct (parse_deb_filename _) as [[[n v] a]|] eqn:E; [| destruct I].
  destruct (stat tree _) as [sz age] eqn:S. destruct I as [<- | []].
  cbn [name version arch path Cleaner.channel component filename is_prerelease
       size age_days].
  rewrite S. repeat split. exact E.
Qed.

End ScanOfTree.


Section CleanupCommand.
Import Chars Py Cleaner Files CliCleanup.
Variable listing : list PackageInfo -> list PackageInfo.
Variable dpkg : Dpkg.
Variable re_match : string -> string -> bool.
Variable stat : Path -> Z * Z.
Variable from_file : string -> option RetentionPolicy.
Hypothesis listing_set : forall l, lists_the_set listing l = true.

(** A file that [cleanup] takes from the tree is the path of a
    candidate. *)
Lemma deleted_is_candidate repo pre lim fs f :
  In f (files fs) ->
  ~ In f (files (snd (cleanup listing repo pre lim false fs))) ->
  exists c, In c (pre ++ lim) /\ path c = f.
Proof.
  intros I N.
  destruct (cleanup_account listing repo pre lim fs) as [F [_ [_ P]]].
  destruct (path_in_dec f (deleted (fst (cleanup listing repo pre lim false fs))))
    as [D | D]; [| exfalso; apply N, F; now split].
  assert (In f (map path (listing (pre ++ lim)))) as L
    by (apply (Permutation_in _ P), in_or_app; now left).
  apply (listed_paths listing (pre ++ lim) f (listing_set _)) in L.
  apply in_map_iff in L as [c [E Ic]]. now exists c.
Qed.

(** What the command leaves, when it ends normally. *)
Lemma cmd_cleanup_done args fs fs' :
  cmd_cleanup listing dpkg re_match stat from_file args fs = Done fs' ->
  exists pol,
    policy_of from_file args = Some pol
    /\ fs' = if negb (dry_run args)
             then snd (cleanup listing (join [] (repo_path args))
                         (fst (candidates_of dpkg re_match stat pol args fs))
                         (snd (candidates_of dpkg re_match stat pol args fs)) false fs)
             else fs.
Proof.
  unfold cmd_cleanup. destruct (negb (path_mem _ _)); [discriminate |].
  destruct (policy_of from_file args) as [pol|]; [| discriminate].
  destruct (candidates_of dpkg re_match stat pol args fs) as [pre lim] eqn:E.
  exists pol. split; [reflexivity |]. rewrite ?E. cbn [fst snd].
  destruct (negb (dry_run args)); congruence.
Qed.

(** A candidate of the command is a record of its scan. *)
Lemma candidate_scanned pol args fs c :
  In c (fst (candidates_of dpkg re_match stat pol args fs)
        ++ snd (candidates_of dpkg re_match stat pol args fs)) ->
  In c (scan_packages (join [] (repo_path args)) (tree_of fs stat)
          (Some (scanned_channels args))).
Proof.
  unfold candidates_of, scanned_channels. intros I.
  assert (forall ch, scan_packages (join [] (repo_path args)) (tree_of fs stat) ch
                     = scan_packages (join [] (repo_path args)) (tree_of fs stat)
                         (Some (match ch with
                                | Some l => l
                                | None => ["stable"; "testing"; "pr"]
                                end))) as E by (intros [l|]; reflexivity).
  rewrite <- E. apply in_app_or in I as [I | I].
  - apply prerelease_candidate_spec in I. tauto.
  - apply version_limit_candidate_excess in I. tauto.
Qed.

Lemma is_prefix_app (a b c : Path) : is_prefix (a ++ b) (a ++ c) = is_prefix b c.
Proof.
  induction a as [|x a IH]; [reflexivity |]. cbn [app is_prefix].
  now rewrite String.eqb_refl, IH.
Qed.

End CleanupCommand.

(** X10.  When the [cleanup] command ends normally, a dry run leaves the
    tree as it is, and every file that [--execute] takes from the tree
    is an entry under [repo/<channel>/pool] for one of the channels
    scanned, below the pool directory itself, whose last part is a
    package file name [name_version_arch.deb]: no other file of the
    repository is deleted.  ([listing] enumerates the set of the
    candidates.) *)
Theorem cleanup_command_deletes_only_scanned_packages :
  forall (listing : list Cleaner.PackageInfo -> list Cleaner.PackageInfo)
         (dpkg : Cleaner.Dpkg) (re_match : string -> string -> bool)
         (stat : Cleaner.Path -> Z * Z)
         (from_file : string -> option Cleaner.RetentionPolicy)
         (args : CliCleanup.Args) (fs fs' : Files.FS),
    (forall l, Files.lists_the_set listing l = true) ->
    CliCleanup.cmd_cleanup listing dpkg re_match stat from_file args fs
    = CliCleanup.Done fs' ->
    (CliCleanup.dry_run args = true -> fs' = fs)
    /\ forall f, In f (Files.files fs) -> ~ In f (Files.files fs') ->
         CliCleanup.dry_run args = false
         /\ exists channel rel n v a,
              In channel (CliCleanup.scanned_channels args)
              /\ f = Files.join (Files.join (Files.join [] (CliCleanup.repo_path args))
                                   channel) "pool" ++ rel
              /\ rel <> []
              /\ Files.parse_deb_filename (last f EmptyString) = Some (n, v, a).
Proof.
  intros listing dpkg re_match stat from_file args fs fs' L D.
  apply cmd_cleanup_done in D as [pol [Hp ->]].
  destruct (CliCleanup.dry_run args); cbn [negb].
  - split; [reflexivity |]. intros f I N. contradiction.
  - split; [discriminate |]. intros f I N. split; [reflexivity |].
    destruct (deleted_is_candidate listing L _ _ _ fs f I N) as [c [Ic <-]].
    apply candidate_scanned, scan_entry in Ic
      as [channel [rel [Ich [_ [Ir [[E _] P]]]]]].
    apply rglob_debs_spec in Ir as [Nr _].
    exists channel, rel, (Cleaner.name c), (Cleaner.version c), (Cleaner.arch c).
    now repeat split.
Qed.

(** X10 at work: [cleanup --repo-path repo --execute] on the small pool
    takes the release candidate and version 1.0 of pr. *)
Lemma cleanup_command_deletes_only_scanned_packages_witness :
  exists fs',
    PoolRun.run PoolRun.execute = CliCleanup.Done fs'
    /\ forall f, In f (Files.files Pool.disk) -> ~ In f (Files.files fs') ->
         CliCleanup.dry_run PoolRun.execute = false
         /\ exists channel rel n v a,
              In channel (CliCleanup.scanned_channels PoolRun.execute)
              /\ f = Files.join (Files.join (Files.join [] "repo") channel) "pool" ++ rel
              /\ rel <> []
              /\ Files.parse_deb_filename (last f EmptyString) = Some (n, v, a).
Proof.
  destruct (PoolRun.run PoolRun.execute) as [fs'|] eqn:E; [| vm_compute in E; discriminate].
  exists fs'. split; [reflexivity |].
  exact (proj2 (cleanup_command_deletes_only_scanned_packages
                  (Files.first_of_each_path []) Pool.dpkg Pool.no_match PoolRun.stat
                  PoolRun.no_file PoolRun.execute Pool.disk fs'
                  first_of_each_path_lists E)).
Defined.

(** X11.  Without a policy file and with channels that are plain
    directory names, a file under [repo/stable] that the [cleanup]
    command deletes is a pre-release by its version, and
    [--include-stable-prereleases] was given: without that option the
    command deletes nothing under [repo/stable], whatever
    [--max-versions] and [--max-age-days] say. *)
Theorem cleanup_command_spares_stable :
  forall (listing : list Cleaner.PackageInfo -> list Cleaner.PackageInfo)
         (dpkg : Cleaner.Dpkg) (re_match : string -> string -> bool)
         (stat : Cleaner.Path -> Z * Z)
         (from_file : string -> option Cleaner.RetentionPolicy)
         (args : CliCleanup.Args) (fs fs' : Files.FS),
    (forall l, Files.lists_the_set listing l = true) ->
    Py.truthy (CliCleanup.policy args) = false ->
    forallb Files.plain (CliCleanup.scanned_channels args) = true ->
    CliCleanup.cmd_cleanup listing dpkg re_match stat from_file args fs
    = CliCleanup.Done fs' ->
    forall f, In f (Files.files fs) -> ~ In f (Files.files fs') ->
      Files.is_prefix (Files.join [] (CliCleanup.repo_path args) ++ ["stable"]) f = true ->
      CliCleanup.include_stable_prereleases args = true
      /\ exists n v a,
           Files.parse_deb_filename (last f EmptyString) = Some (n, v, a)
           /\ Cleaner.is_prerelease_version v = true.
Proof.
  intros listing dpkg re_match stat from_file args fs fs' L T Pl D f I N S.
  apply cmd_cleanup_done in D as [pol [Hp ->]].
  unfold CliCleanup.policy_of in Hp. rewrite T in Hp. inversion Hp. subst pol. clear Hp.
  destruct (CliCleanup.dry_run args); cbn [negb] in N; [contradiction |].
  destruct (deleted_is_candidate listing L _ _ _ fs f I N) as [c [Ic <-]].
  pose proof (candidate_scanned dpkg re_match stat _ args fs c Ic) as Sc.
  apply scan_entry in Sc as [channel [rel [Ich [_ [_ [[E [Ec [_ [_ [Er _]]]]] P]]]]]].
  rewrite forallb_forall in Pl.
  rewrite E, join_pool, (join_plain _ channel (Pl _ Ich)), <- !app_assoc in S.
  rewrite is_prefix_app in S. cbn [app Files.is_prefix] in S.
  apply andb_true_iff in S as [S _]. apply String.eqb_eq in S. subst channel.
  unfold CliCleanup.candidates_of in Ic. apply in_app_or in Ic as [Ic | Ic].
  - apply prerelease_candidate_spec in Ic as [_ [_ [K [R _]]]].
    rewrite Ec in K. split.
    + destruct (CliCleanup.include_stable_prereleases args);
        [reflexivity | vm_compute in K; discriminate].
    + exists (Cleaner.name c), (Cleaner.version c), (Cleaner.arch c).
      split; [exact P | congruence].
  - apply version_limit_candidate_excess in Ic as [_ [_ [H _]]].
    rewrite Ec in H. vm_compute in H. discriminate.
Qed.

(** X11 at work: the stable pool of the small tree is as it was. *)
Lemma cleanup_command_spares_stable_witness :
  exists fs',
    PoolRun.run PoolRun.execute = CliCleanup.Done fs'
    /\ forall f, In f (Files.files Pool.disk) -> ~ In f (Files.files fs') ->
         Files.is_prefix ["repo"; "stable"] f = true ->
         CliCleanup.include_stable_prereleases PoolRun.execute = true
         /\ exists n v a,
              Files.parse_deb_filename (last f EmptyString) = Some (n, v, a)
              /\ Cleaner.is_prerelease_version v = true.
Proof.
  destruct (PoolRun.run PoolRun.execute) as [fs'|] eqn:E; [| vm_compute in E; discriminate].
  exists fs'. split; [reflexivity |].
  exact (cleanup_command_spares_stable
           (Files.first_of_each_path []) Pool.dpkg Pool.no_match PoolRun.stat
           PoolRun.no_file PoolRun.execute Pool.disk fs'
           first_of_each_path_lists eq_refl eq_refl E).
Defined.

(** ** [find_pr_cleanup_candidates] *)

Section PrNumbers.
Import Chars Py Re PrCleanup.

Lemma search_pr_eq s :
  search_pr s = match match_pr_here s with
                | Some digits => Some digits
                | None => match s with
                          | EmptyString => None
                          | String _ r => search_pr r
                          end
                end.
Proof. destruct s; reflexivity. Qed.

Lemma lit_pr_matches m :
  Matches true (lit "pr") m ->
  exists a b, m = String a (String b "")
              /\ char_matches true "p" a = true /\ char_matches true "r" b = true.
Proof.
  cbn [lit]. intros M.
  apply cat_inv in M as [u [v [-> [Mu Mv]]]].
  apply cat_inv in Mv as [u' [v' [-> [Mu' Mv']]]].
  inversion Mu; subst. inversion Mu'; subst. inversion Mv'; subst.
  eexists _, _. split; [reflexivity | now split].
Qed.

Lemma plus_digit_matches m :
  Matches true (plus Digit) m -> exists c rest, m = String c rest /\ is_digit c = true.
Proof.
  unfold plus. intros M. apply cat_inv in M as [u [v [-> [Mu _]]]].
  inversion Mu; subst. eexists _, _. split; [reflexivity | assumption].
Qed.

Lemma take_digits_prefix s : exists rest, s = (take_digits s ++ rest)%string.
Proof.
  induction s as [|c s [rest IH]]; [now exists "" |]. simpl.
  destruct (is_digit c); [| now exists (String c s)].
  exists rest. simpl. now rewrite <- IH.
Qed.

Lemma take_digits_star s : Matches true (Star Digit) (take_digits s).
Proof.
  induction s as [|c s IH]; simpl; [constructor |].
  destruct (is_digit c) eqn:D; [| constructor].
  change (String c (take_digits s)) with (String c "" ++ take_digits s)%string.
  apply MStarS; [now constructor | exact IH].
Qed.

Lemma take_digits_plus s :
  is_empty (take_digits s) = false -> Matches true (plus Digit) (take_digits s).
Proof.
  destruct s as [|c s]; simpl; [discriminate |].
  destruct (is_digit c) eqn:D; [| discriminate]. intros _.
  change (String c (take_digits s)) with (String c "" ++ take_digits s)%string.
  unfold plus. constructor; [now constructor | apply take_digits_star].
Qed.

(** The leftmost match is a match of the pattern. *)
Lemma match_pr_here_sound s digits :
  match_pr_here s = Some digits ->
  exists a b rest,
    s = String a (String b (digits ++ rest))
    /\ Matches true pr_pattern (String a (String b digits)).
Proof.
  destruct s as [|a [|b r]]; try discriminate. cbn [match_pr_here].
  destruct (char_matches true "p" a) eqn:Ca; [| discriminate].
  destruct (char_matches true "r" b) eqn:Cb; [| discriminate].
  destruct (is_empty (take_digits r)) eqn:E; [discriminate |]. cbn [andb negb].
  intros X. inversion X. subst digits. clear X.
  destruct (take_digits_prefix r) as [rest Er].
  exists a, b, rest. split; [now rewrite <- Er |].
  unfold pr_pattern.
  change (String a (String b (take_digits r)))
    with (String a (String b "") ++ take_digits r)%string.
  constructor; [| now apply take_digits_plus].
  cbn [lit].
  change (String a (String b "")) with (String a "" ++ (String b "" ++ ""))%string.
  repeat constructor; assumption.
Qed.

Lemma search_pr_sound s : forall digits,
  search_pr s = Some digits -> search true pr_pattern s = true.
Proof.
  induction s as [|c s IH]; intros digits; rewrite search_pr_eq.
  - discriminate.
  - destruct (match_pr_here (String c s)) as [d|] eqn:E.
    + intros _. apply match_pr_here_sound in E as [a [b [rest [Es M]]]].
      apply search_matches. exists "", (String a (String b d)), rest.
      split; [exact Es | exact M].
    + intros X. apply IH in X. apply search_matches in X as [u [m [v [-> M]]]].
      apply search_matches. exists (String c u), m, v. split; [reflexivity | exact M].
Qed.

Lemma match_pr_here_complete m v :
  Matches true pr_pattern m -> match_pr_here (m ++ v) <> None.
Proof.
  unfold pr_pattern. intros M. apply cat_inv in M as [x [y [-> [Mx My]]]].
  apply lit_pr_matches in Mx as [a [b [-> [Ca Cb]]]].
  apply plus_digit_matches in My as [c [rest [-> D]]].
  cbn [append match_pr_here take_digits]. rewrite Ca, Cb, D. cbn. discriminate.
Qed.

Lemma search_pr_complete s :
  search true pr_pattern s = true -> search_pr s <> None.
Proof.
  intros H. apply search_matches in H as [u [m [v [-> M]]]].
  induction u as [|c u IH]; rewrite search_pr_eq.
  - cbn [append]. pose proof (match_pr_here_complete m v M) as N.
    destruct (match_pr_here (m ++ v)); [discriminate | now destruct N].
  - destruct (match_pr_here _); [discriminate | exact IH].
Qed.

End PrNumbers.

Section PrCandidates.
Import Chars Py Cleaner Files PrCleanup.

Lemma candidate_spec closed_prs max_age pkg p :
  In p (candidate closed_prs max_age pkg) <->
  p = pkg
  /\ ((age_days pkg > max_age)%Z
      \/ exists digits,
           search_pr (version pkg) = Some digits
           /\ In (int digits) (closed closed_prs)).
Proof.
  unfold candidate. destruct (age_days pkg >? max_age)%Z eqn:A.
  - apply Z.gtb_lt in A. simpl.
    split; [intros [<- | []]; split; auto; lia | intros [-> _]; now left].
  - assert (~ (age_days pkg > max_age)%Z) as NA
      by (intros X; apply Z.gt_lt, Z.gtb_lt in X; congruence).
    destruct closed_prs as [[|pr prs]|]; cbn [closed].
    + split; [intros [] | intros [_ [X | [d [_ []]]]]; contradiction].
    + destruct (search_pr (version pkg)) as [d|] eqn:S.
      * destruct (existsb (Z.eqb (int d)) (pr :: prs)) eqn:E.
        -- apply existsb_exists in E as [n [In_ En]]. apply Z.eqb_eq in En.
           split.
           ++ intros [<- | []]. split; [reflexivity | right].
              exists d. split; [reflexivity | now rewrite En].
           ++ intros [-> _]. now left.
        -- split; [intros [] |]. intros [_ [X | [d' [Ed I]]]]; [contradiction |].
           inversion Ed. subst d'.
           assert (existsb (Z.eqb (int d)) (pr :: prs) = true) as Y
             by (apply existsb_exists; exists (int d); split; [exact I | apply Z.eqb_refl]).
           congruence.
      * split; [intros [] |]. intros [_ [X | [d [Ed _]]]]; [contradiction | discriminate].
    + split; [intros [] | intros [_ [X | [d [_ []]]]]; contradiction].
Qed.

End PrCandidates.


(** ** Runs: what every command of a block satisfies *)

Section Emits.
Import Chars Py Host Traces.
Context {W : Type} {os : OS W}.
Variable Q : Command -> bool.

Lemma emits_nothing {A} (m : M W A) :
  (forall r, trace (snd (m r)) = trace r) -> emits Q m.
Proof.
  intros H r. exists []. rewrite app_nil_r. split; [apply H | constructor].
Qed.

Lemma emits_event {A} (m : M W A) e :
  (forall c rc, e <> Ran c rc) ->
  (forall r, trace (snd (m r)) = trace r ++ [e]) -> emits Q m.
Proof.
  intros N H r. exists [e]. split; [apply H |].
  destruct e as [c rc | |]; cbn [ran]; [| constructor | constructor].
  now destruct (N c rc).
Qed.

Lemma emits_ret {A} (a : A) : emits Q (@ret W A a).
Proof. now apply emits_nothing. Qed.

Lemma emits_exit {A} n : emits Q (@sys_exit W A n).
Proof. now apply emits_nothing. Qed.

Lemma emits_ask {A} (f : W -> A) : emits Q (ask f).
Proof. now apply emits_nothing. Qed.

Lemma emits_change (f : W -> W) : emits Q (change f).
Proof. now apply emits_nothing. Qed.

Lemma emits_log lvl fmt args : emits Q (@log W lvl fmt args).
Proof. apply (emits_event _ (Log lvl fmt args)); [discriminate | reflexivity]. Qed.

Lemma emits_bind {A B} (m : M W A) (k : A -> M W B) :
  emits Q m -> (forall a, emits Q (k a)) -> emits Q (bind m k).
Proof.
  intros Hm Hk r. unfold bind. destruct (Hm r) as [n1 [E1 F1]].
  destruct (m r) as [[a | n | e] r']; cbn [snd] in *; try (now exists n1).
  destruct (Hk a r') as [n2 [E2 F2]]. exists (n1 ++ n2). split.
  - now rewrite E2, E1, app_assoc.
  - rewrite ran_app. apply Forall_app. now split.
Qed.

Lemma emits_when b (m : M W unit) : emits Q m -> emits Q (when b m).
Proof. intros H. destruct b; simpl; [exact H | apply emits_ret]. Qed.

Lemma emits_for_each {A} (l : list A) (body : A -> M W unit) :
  (forall x, emits Q (body x)) -> emits Q (for_each l body).
Proof.
  intros H. induction l as [|x l IH]; simpl; [apply emits_ret |].
  apply emits_bind; auto.
Qed.

Lemma emits_try_except {A} (m h : M W A) :
  emits Q m -> emits Q h -> emits Q (try_except m h).
Proof.
  intros Hm Hh r. unfold try_except. destruct (Hm r) as [n1 [E1 F1]].
  destruct (m r) as [[a | n | [rc cmd]] r']; cbn [snd] in *; try (now exists n1).
  destruct (Hh r') as [n2 [E2 F2]]. exists (n1 ++ n2). split.
  - now rewrite E2, E1, app_assoc.
  - rewrite ran_app. apply Forall_app. now split.
Qed.

Lemma emits_run cmd cwd check env :
  Q {| argv := cmd; cwd := cwd; env := env |} = true ->
  emits Q (Publisher._run cmd cwd check env).
Proof.
  intros H. unfold Publisher._run. apply emits_bind; [apply emits_log |].
  intros _ r. cbn beta.
  destruct (subprocess_run _ (world r)) as [rc w'].
  exists [Ran {| argv := cmd; cwd := cwd; env := env |} rc].
  split; [now destruct (check && negb (rc =? 0)%Z) |].
  cbn [ran]. constructor; [exact H | constructor].
Qed.

Lemma emits_configure cfg root tmp :
  emits Q (fun r =>
    match provision cfg root tmp (world r) with
    | (Provisioned aptly_cfg aptly_home, w') =>
        (Return (aptly_cfg, aptly_home), {| world := w'; trace := trace r |})
    | (NotProvisioned fmt args, w') =>
        (@Exit (string * string) 1%Z,
         {| world := w'; trace := trace r ++ [Log ERROR fmt args] |})
    end).
Proof.
  intros r. destruct (provision cfg root tmp (world r)) as [[c h | fmt args] w'].
  - exists []. rewrite app_nil_r. split; [reflexivity | constructor].
  - exists [Log ERROR fmt args]. split; [reflexivity | constructor].
Qed.

Lemma emits_nojekyll pages :
  emits Q (fun r : Run W =>
    (Return tt,
     {| world := write_text (joinpath pages ".nojekyll") "" (world r);
        trace := trace r ++ [Wrote (joinpath pages ".nojekyll") ""] |})).
Proof. intros r. eexists. split; [reflexivity | constructor]. Qed.

End Emits.

Ltac emit_step :=
  match goal with
  | |- Traces.emits _ (Host.bind _ _) => apply emits_bind; [| intros ?]
  | |- Traces.emits _ (Host.ret _) => apply emits_ret
  | |- Traces.emits _ (Host.sys_exit _) => apply emits_exit
  | |- Traces.emits _ (Host.log _ _ _) => apply emits_log
  | |- Traces.emits _ (Host.when _ _) => apply emits_when
  | |- Traces.emits _ (Host.for_each _ _) => apply emits_for_each; intros ?
  | |- Traces.emits _ (Host.try_except _ _) => apply emits_try_except
  | |- Traces.emits _ (Host.ask _) => apply emits_ask
  | |- Traces.emits _ (Host.change _) => apply emits_change
  | |- Traces.emits _ (if ?b then _ else _) => destruct b
  | |- Traces.emits _ (match ?x with _ => _ end) => destruct x
  end.

(** ** The checks before a run *)

Section Validate.
Import Chars Py Host Publisher.
Context {W : Type} {os : OS W}.
Variable self : AptlyPublisher.

Lemma ensure_cmd_eq name (r : Run W) :
  _ensure_cmd name r =
    let c := Cmds.probe name in
    let (rc, w') := subprocess_run c (world r) in
    let t := trace r ++ Commands.ran_events c rc in
    if (rc =? 0)%Z then (Return tt, {| world := w'; trace := t |})
    else (Exit 1%Z,
          {| world := w';
             trace := t ++ [Log ERROR "Missing required command on PATH: %s"
                                [LStr name]] |}).
Proof.
  unfold _ensure_cmd, try_except, _run, bind, log, emit, ret, sys_exit, Cmds.probe,
    Commands.ran_events.
  cbn [world trace argv cwd].
  destruct (subprocess_run _ (world r)) as [rc w'].
  cbn [andb]. destruct (rc =? 0)%Z; cbn [negb world trace];
    repeat rewrite <- app_assoc; reflexivity.
Qed.

Lemma ran_ran_events c rc : ran (Commands.ran_events c rc) = [(c, rc)].
Proof. reflexivity. Qed.

(** The probes of a list of tools, up to the first that is missing. *)
Lemma probes_spec names : forall (r : Run W),
  let res := for_each names _ensure_cmd r in
  exists new,
    trace (snd res) = trace r ++ new
    /\ ((fst res = Return tt /\ ran new = map Tools.found names)
        \/ (fst res = Exit 1%Z
            /\ exists done name rc rest,
                 names = done ++ name :: rest /\ rc <> 0%Z
                 /\ ran new = map Tools.found done ++ [(Cmds.probe name, rc)]
                 /\ In (Log ERROR "Missing required command on PATH: %s" [LStr name])
                       new)).
Proof.
  induction names as [|name names IH]; intros r; cbn [for_each].
  - exists []. rewrite app_nil_r. split; [reflexivity | left; now split].
  - unfold bind. rewrite ensure_cmd_eq. cbn zeta.
    destruct (subprocess_run (Cmds.probe name) (world r)) as [rc w'].
    destruct (rc =? 0)%Z eqn:E.
    + apply Z.eqb_eq in E. subst rc.
      set (r1 := {| world := w'; trace := _ |}).
      destruct (IH r1) as [new [Et H]]. cbn zeta in *.
      exists (Commands.ran_events (Cmds.probe name) 0 ++ new). split.
      * rewrite Et. unfold r1. cbn [trace]. now rewrite app_assoc.
      * rewrite ran_app, ran_ran_events.
        destruct H as [[R E] | [X [done [nm [rc [rest [En [Nz [Er L]]]]]]]]].
        -- left. split; [exact R |]. now rewrite E.
        -- right. split; [exact X |].
           exists (name :: done), nm, rc, rest. rewrite En, Er.
           repeat split; auto. apply in_or_app. now right.
    + apply Z.eqb_neq in E. eexists. split; [cbn [snd trace]; rewrite <- app_assoc; reflexivity |].
      right. split; [reflexivity |]. exists [], name, rc, names.
      repeat split; auto.
      apply in_or_app. right. now left.
Qed.

(** The five lines that [validate] logs at the end. *)
Lemma validate_tail yes (r : Run W) :
  exists logged,
    (log INFO "Component : %s" [LStr (component self)] ;;
     log INFO "Distro    : %s" [LStr (distro self)] ;;
     log INFO "Channel   : %s" [LStr (channel self)] ;;
     log INFO "Repo      : %s (#%s)" [LStr (pages_repo self); LStr (branch self)] ;;
     log INFO "Signing   : %s" [LStr yes])%run r
    = (Return tt, {| world := world r; trace := trace r ++ logged |})
    /\ ran logged = [].
Proof.
  eexists. unfold bind, log, emit. cbn [world trace].
  repeat rewrite <- app_assoc. split; reflexivity.
Qed.

Lemma validate_spec (r : Run W) :
  let v := validate self r in
  exists new,
    trace (snd v) = trace r ++ new
    /\ ((fst v = Return tt
         /\ ran new = map Tools.found (Tools.required self)
         /\ implb (sign self) (truthy (keyid self)) = true)
        \/ (fst v = Exit 1%Z
            /\ ((sign self = true /\ truthy (keyid self) = false
                 /\ ran new = map Tools.found ["git"; "rsync"; "aptly"]
                 /\ In (Log ERROR "--keyid is required with --sign" []) new)
                \/ exists done name rc rest,
                     Tools.required self = done ++ name :: rest /\ rc <> 0%Z
                     /\ ran new = map Tools.found done ++ [(Cmds.probe name, rc)]
                     /\ In (Log ERROR "Missing required command on PATH: %s"
                                [LStr name]) new))).
Proof.
  cbn zeta. destruct (validate self r) as [o rv] eqn:V. cbn [fst snd].
  unfold validate in V. unfold bind at 1 in V.
  destruct (probes_spec ["git"; "rsync"; "aptly"] r) as [n1 [E1 H1]]. cbn zeta in *.
  destruct (for_each ["git"; "rsync"; "aptly"] _ensure_cmd r) as [o1 r1].
  cbn [fst snd] in *.
  destruct H1 as [[-> R1] | [-> [done [name [rc [rest [En [Nz [Er L]]]]]]]]].
  - unfold Tools.required. unfold bind at 1 in V.
    destruct (sign self) eqn:S; cbn [when andb] in *.
    + unfold bind at 1 in V. destruct (truthy (keyid self)) eqn:T; cbn [negb when] in *.
      * unfold ret at 1 in V. rewrite ensure_cmd_eq in V. cbn zeta in V.
        destruct (subprocess_run (Cmds.probe "gpg") (world r1)) as [rc w'].
        destruct (rc =? 0)%Z eqn:E.
        -- apply Z.eqb_eq in E. subst rc. cbn beta in V.
           match type of V with
           | context [{| world := w'; trace := ?t |}] =>
               set (r2 := {| world := w'; trace := t |}) in V
           end.
           destruct (validate_tail "yes" r2) as [logged [El Rl]].
           rewrite El in V. injection V as <- <-. cbn [trace].
           exists (n1 ++ Commands.ran_events (Cmds.probe "gpg") 0 ++ logged). split.
           ++ unfold r2. cbn [trace]. rewrite E1. now rewrite !app_assoc.
           ++ left. rewrite !ran_app, R1, Rl, ran_ran_events. now repeat split.
        -- apply Z.eqb_neq in E. injection V as <- <-. cbn [trace].
           eexists. split; [rewrite E1, <- !app_assoc; reflexivity |].
           right. split; [reflexivity | right].
           exists ["git"; "rsync"; "aptly"], "gpg", rc, [].
           rewrite !ran_app, R1. repeat split; auto.
           apply in_or_app. right. apply in_or_app. right. now left.
      * unfold bind, log, emit, sys_exit in V. cbn [fst snd world trace] in V.
        injection V as <- <-. cbn [trace].
        exists (n1 ++ [Log ERROR "--keyid is required with --sign" []]).
        split; [rewrite E1; now rewrite app_assoc |].
        right. split; [reflexivity | left].
        rewrite ran_app, R1. repeat split; auto. apply in_or_app. right. now left.
    + unfold ret at 1 in V. cbn beta in V.
      destruct (validate_tail "no" r1) as [logged [El Rl]].
      rewrite El in V. injection V as <- <-. cbn [trace].
      exists (n1 ++ logged). split.
      * rewrite E1. now rewrite app_assoc.
      * left. rewrite ran_app, R1, Rl. now repeat split.
  - injection V as <- <-. exists n1. split; [exact E1 |].
    right. split; [reflexivity | right].
    exists done, name, rc, (rest ++ (if sign self && truthy (keyid self)
                                     then ["gpg"] else [])).
    unfold Tools.required. rewrite En, <- app_assoc. now repeat split.
Qed.

Lemma prepare_stops_at_validate amb debs (r : Run W) n :
  fst (validate self r) = Exit n ->
  prepare self amb debs r = (Exit n, snd (validate self r)).
Proof.
  intros H. unfold prepare. unfold bind at 1.
  destruct (validate self r) as [o r1]. cbn [fst snd] in *. now subst o.
Qed.

End Validate.

(** X13.  [publish] first probes git, rsync and aptly, and gpg when it
    signs with a key, each with [bash -lc "command -v <tool>"], in this
    order and up to the first that is missing.  It goes on only when all
    were found and, if it signs, a key id is given.  Otherwise it logs
    the error and leaves with exit status 1, having run nothing but the
    probes: no clone, no aptly command.  Without a key id nothing is
    asked of gpg. *)
Theorem publish_checks_tools_and_key_first :
  forall (W : Type) (os : Host.OS W) (self : Publisher.AptlyPublisher)
         (amb : Publisher.Ambient) (debs : option string) (r : Host.Run W),
    let v := Publisher.validate self r in
    exists new,
      Host.trace (snd v) = Host.trace r ++ new
      /\ ((fst v = Host.Return tt
           /\ Host.ran new = map Tools.found (Tools.required self)
           /\ implb (Publisher.sign self) (Py.truthy (Publisher.keyid self)) = true)
          \/ (fst v = Host.Exit 1%Z
              /\ Publisher.publish self amb debs r = (Host.Exit 1%Z, snd v)
              /\ ((Publisher.sign self = true
                   /\ Py.truthy (Publisher.keyid self) = false
                   /\ Host.ran new = map Tools.found ["git"; "rsync"; "aptly"]
                   /\ In (Host.Log Host.ERROR "--keyid is required with --sign" []) new)
                  \/ exists done name rc rest,
                       Tools.required self = done ++ name :: rest /\ rc <> 0%Z
                       /\ Host.ran new
                          = map Tools.found done ++ [(Cmds.probe name, rc)]
                       /\ In (Host.Log Host.ERROR
                                "Missing required command on PATH: %s"
                                [Host.LStr name]) new))).
Proof.
  intros W os self amb debs r v.
  destruct (validate_spec self r) as [new [E H]]. fold v in E, H.
  exists new. split; [exact E |].
  destruct H as [H | [X H]]; [now left | right].
  split; [exact X | split; [| exact H]].
  unfold Publisher.publish. unfold Host.bind at 1.
  now rewrite (prepare_stops_at_validate self amb debs r 1%Z X).
Qed.

(** ** The blocks before the decision, command by command *)

Section PrepareBlocks.
Import Chars Py Host Publisher.
Context {W : Type} {os : OS W}.
Variable self : AptlyPublisher.

Ltac run_block :=
  unfold aptly_run, _run, bind, log, emit, when, ret, sys_exit, ask, change;
  cbn [world trace].

Ltac tidy := repeat rewrite <- app_assoc; cbn [app]; try reflexivity.

(** The clone, and the orphan branch when the branch is missing. *)
Lemma clone_eq pages (r : Run W) :
  clone self pages r =
    let cb := Cmds.clone_branch self pages in
    let cp := Cmds.clone_plain self pages in
    let co := Cmds.checkout_orphan self pages in
    let rm := Cmds.git_rm pages in
    let (rc, w1) := subprocess_run cb (world r) in
    let t1 := trace r
              ++ [Log INFO "Cloning %s (%s) ..." [LStr (pages_repo self); LStr (branch self)]]
              ++ Commands.ran_events cb rc in
    if (rc =? 0)%Z then (Return tt, {| world := w1; trace := t1 |})
    else
      let (rc2, w2) := subprocess_run cp w1 in
      let t2 := t1 ++ Commands.ran_events cp rc2 in
      if (rc2 =? 0)%Z then
        let (rc3, w3) := subprocess_run co w2 in
        let t3 := t2 ++ Commands.ran_events co rc3 in
        if (rc3 =? 0)%Z then
          let (rc4, w4) := subprocess_run rm w3 in
          (Return tt, {| world := w4; trace := t3 ++ Commands.ran_events rm rc4 |})
        else (Raise (CalledProcessError rc3 (argv co)), {| world := w3; trace := t3 |})
      else (Raise (CalledProcessError rc2 (argv cp)), {| world := w2; trace := t2 |}).
Proof.
  unfold clone. run_block.
  unfold Cmds.clone_branch, Cmds.clone_plain, Cmds.checkout_orphan, Cmds.git_rm,
    Commands.ran_events. cbn [argv cwd].
  destruct (subprocess_run _ (world r)) as [rc w1]. cbn [andb world trace].
  destruct (rc =? 0)%Z; cbn [negb world trace]; [tidy |].
  destruct (subprocess_run _ w1) as [rc2 w2]. cbn [andb world trace].
  destruct (rc2 =? 0)%Z; cbn [negb world trace]; [| tidy].
  destruct (subprocess_run _ w2) as [rc3 w3]. cbn [andb world trace].
  destruct (rc3 =? 0)%Z; cbn [negb world trace]; [| tidy].
  destruct (subprocess_run _ w3) as [rc4 w4]. cbn [andb world trace]. tidy.
Qed.

Section Workspace.
Variables pages cfg home : string.

(** The seed, and the recovery of the database. *)
Lemma seed_eq (r : Run W) :
  seed self pages cfg home r =
    let rs := Cmds.rsync_seed pages home in
    let rec := Cmds.db_recover cfg home in
    let (rc, w1) := subprocess_run rs (mkdir_p (aptly_public home) (world r)) in
    let t1 := trace r ++ Commands.ran_events rs rc in
    if (rc =? 0)%Z then
      if path_exists (inrelease_path self home) w1 then
        let (rc2, w2) := subprocess_run rec w1 in
        (Return tt,
         {| world := w2;
            trace := t1
                     ++ [Log INFO "Recovering aptly database from existing publication..." []]
                     ++ Commands.ran_events rec rc2
                     ++ [if (rc2 =? 0)%Z
                         then Log INFO "Successfully recovered aptly database" []
                         else Log WARNING
                                "Could not recover aptly database (may be first publish)"
                                []] |})
      else (Return tt, {| world := w1; trace := t1 |})
    else (Raise (CalledProcessError rc (argv rs)), {| world := w1; trace := t1 |}).
Proof.
  unfold seed. run_block.
  unfold Cmds.rsync_seed, Cmds.db_recover, Commands.engine, Commands.ran_events.
  cbn [argv cwd].
  destruct (subprocess_run _ (mkdir_p _ (world r))) as [rc w1]. cbn [andb world trace].
  destruct (rc =? 0)%Z; cbn [negb world trace]; [| tidy].
  destruct (path_exists _ w1); cbn [world trace]; [| tidy].
  destruct (subprocess_run _ w1) as [rc2 w2]. cbn [andb world trace].
  destruct (rc2 =? 0)%Z; cbn [world trace]; tidy.
Qed.

(** The staging repository and the snapshot. *)
Lemma stage_eq debs ts (r : Run W) :
  stage self cfg home debs ts r =
    let create := Cmds.repo_create self cfg home in
    let snap := (repo_name self ++ "-" ++ ts)%string in
    let shot := Cmds.snapshot_create self cfg home snap in
    let (rc1, w1) := subprocess_run create (world r) in
    let t1 := trace r ++ [Log INFO "Staging repo: %s" [LStr (repo_name self)]]
                      ++ Commands.ran_events create rc1 in
    if truthy debs then
      if is_dir (Py.str debs) w1 then
        match sorted_glob_debs (Py.str debs) w1 with
        | [] =>
            (Exit 1%Z,
             {| world := w1;
                trace := t1 ++ [Log ERROR "No .deb files found in %s"
                                    [LStr (Py.str debs)]] |})
        | d :: ds =>
            let add := Cmds.repo_add self cfg home (d :: ds) in
            let (rc2, w2) := subprocess_run add w1 in
            let t2 := t1 ++ [Log INFO "Adding %d package(s) ..."
                                 [LInt (Z.of_nat (List.length (d :: ds)))]]
                         ++ Commands.ran_events add rc2 in
            if (rc2 =? 0)%Z then
              let (rc3, w3) := subprocess_run shot w2 in
              (if (rc3 =? 0)%Z then Return snap
               else Raise (CalledProcessError rc3 (argv shot)),
               {| world := w3; trace := t2 ++ Commands.ran_events shot rc3 |})
            else (Raise (CalledProcessError rc2 (argv add)),
                  {| world := w2; trace := t2 |})
        end
      else
        (Exit 1%Z,
         {| world := w1;
            trace := t1 ++ [Log ERROR
                              "--debs path does not exist or is not a directory: %s"
                              [LStr (Py.str debs)]] |})
    else
      let (rc3, w3) := subprocess_run shot w1 in
      (if (rc3 =? 0)%Z then Return snap
       else Raise (CalledProcessError rc3 (argv shot)),
       {| world := w3;
          trace := t1 ++ [Log INFO
                            "No --debs provided: creating an EMPTY snapshot (bootstrap)."
                            []]
                      ++ Commands.ran_events shot rc3 |}).
Proof.
  unfold stage. run_block.
  unfold Cmds.repo_create, Cmds.repo_add, Cmds.snapshot_create, Commands.engine,
    Commands.ran_events. cbn [argv cwd].
  destruct (subprocess_run _ (world r)) as [rc1 w1]. cbn [andb world trace].
  destruct (truthy debs); cbn [world trace].
  - destruct (is_dir _ w1); cbn [negb world trace]; [| tidy].
    destruct (sorted_glob_debs _ w1) as [|d ds]; cbn [world trace]; [tidy |].
    destruct (subprocess_run _ w1) as [rc2 w2]. cbn [andb world trace].
    destruct (rc2 =? 0)%Z; cbn [negb world trace]; [| tidy].
    destruct (subprocess_run _ w2) as [rc3 w3]. cbn [andb world trace].
    destruct (rc3 =? 0)%Z; cbn [negb world trace]; tidy.
  - destruct (subprocess_run _ w1) as [rc3 w3]. cbn [andb world trace].
    destruct (rc3 =? 0)%Z; cbn [negb world trace]; tidy.
Qed.

End Workspace.

End PrepareBlocks.

Ltac new_trace :=
  eexists; split; [cbn [snd Host.trace]; repeat rewrite <- app_assoc; reflexivity |].

(** X14.  The clone of the pages repository: [git clone -b <branch>] is
    tried first.  When it fails, the repository is cloned without the
    branch, the branch is created as an orphan in the clone, and the
    working tree is emptied with [git rm -rf .], whose return code is
    ignored; a failure of the plain clone or of the checkout raises
    [CalledProcessError] and nothing more is run. *)
Theorem clone_makes_an_orphan_branch_when_the_branch_is_missing :
  forall (W : Type) (os : Host.OS W) (self : Publisher.AptlyPublisher)
         (pages : string) (r : Host.Run W),
    let res := Publisher.clone self pages r in
    let cb := Cmds.clone_branch self pages in
    let cp := Cmds.clone_plain self pages in
    let co := Cmds.checkout_orphan self pages in
    let rm := Cmds.git_rm pages in
    exists new,
      Host.trace (snd res) = Host.trace r ++ new
      /\ ((Host.ran new = [(cb, 0%Z)] /\ fst res = Host.Return tt)
          \/ (exists rc rc2,
                 rc <> 0%Z /\ rc2 <> 0%Z
                 /\ Host.ran new = [(cb, rc); (cp, rc2)]
                 /\ fst res = Host.Raise (Host.CalledProcessError rc2 (Host.argv cp)))
          \/ (exists rc rc3,
                 rc <> 0%Z /\ rc3 <> 0%Z
                 /\ Host.ran new = [(cb, rc); (cp, 0%Z); (co, rc3)]
                 /\ fst res = Host.Raise (Host.CalledProcessError rc3 (Host.argv co)))
          \/ (exists rc rc4,
                 rc <> 0%Z
                 /\ Host.ran new = [(cb, rc); (cp, 0%Z); (co, 0%Z); (rm, rc4)]
                 /\ fst res = Host.Return tt)).
Proof.
  intros W os self pages r res cb cp co rm. subst res. rewrite clone_eq. cbn zeta.
  fold cb cp co rm.
  destruct (Host.subprocess_run cb (Host.world r)) as [rc w1].
  destruct (rc =? 0)%Z eqn:E.
  { apply Z.eqb_eq in E. subst rc. new_trace. left. now split. }
  apply Z.eqb_neq in E.
  destruct (Host.subprocess_run cp w1) as [rc2 w2].
  destruct (rc2 =? 0)%Z eqn:E2.
  2: { apply Z.eqb_neq in E2. new_trace. right. left. exists rc, rc2. now repeat split. }
  apply Z.eqb_eq in E2. subst rc2.
  destruct (Host.subprocess_run co w2) as [rc3 w3].
  destruct (rc3 =? 0)%Z eqn:E3.
  2: { apply Z.eqb_neq in E3. new_trace. right. right. left. exists rc, rc3.
       now repeat split. }
  apply Z.eqb_eq in E3. subst rc3.
  destruct (Host.subprocess_run rm w3) as [rc4 w4].
  new_trace. right. right. right. exists rc, rc4. now repeat split.
Qed.

(** X15.  The seed of aptly's public directory: the directory is made,
    the clone is copied into it with rsync, whose failure raises; the
    recovery of aptly's database is attempted exactly when the
    [InRelease] file of the channel and distribution is there after the
    copy, and its failure is a warning: the block returns all the
    same. *)
Theorem seed_recovers_the_database_when_a_publication_is_there :
  forall (W : Type) (os : Host.OS W) (self : Publisher.AptlyPublisher)
         (pages cfg home : string) (r : Host.Run W),
    let res := Publisher.seed self pages cfg home r in
    let rs := Cmds.rsync_seed pages home in
    let rec := Cmds.db_recover cfg home in
    let copied :=
      Host.subprocess_run rs
        (Host.mkdir_p (Publisher.aptly_public home) (Host.world r)) in
    let present := Host.path_exists (Publisher.inrelease_path self home) (snd copied) in
    exists new,
      Host.trace (snd res) = Host.trace r ++ new
      /\ ((fst copied <> 0%Z
           /\ Host.ran new = [(rs, fst copied)]
           /\ fst res = Host.Raise (Host.CalledProcessError (fst copied) (Host.argv rs)))
          \/ (fst copied = 0%Z /\ present = false
              /\ Host.ran new = [(rs, 0%Z)]
              /\ fst res = Host.Return tt)
          \/ (exists rc2,
                 fst copied = 0%Z /\ present = true
                 /\ Host.ran new = [(rs, 0%Z); (rec, rc2)]
                 /\ fst res = Host.Return tt
                 /\ (rc2 <> 0%Z ->
                     In (Host.Log Host.WARNING
                           "Could not recover aptly database (may be first publish)" [])
                        new))).
Proof.
  intros W os self pages cfg home r res rs rec copied present.
  subst res. rewrite seed_eq. cbn zeta. fold rs rec. subst present. subst copied.
  destruct (Host.subprocess_run rs _) as [rc w1]. cbn [fst snd].
  destruct (rc =? 0)%Z eqn:E.
  2: { apply Z.eqb_neq in E. new_trace. left. now repeat split. }
  apply Z.eqb_eq in E. subst rc.
  destruct (Host.path_exists _ w1).
  2: { new_trace. right. left. now repeat split. }
  destruct (Host.subprocess_run rec w1) as [rc2 w2].
  new_trace. right. right. exists rc2.
  split; [reflexivity | split; [reflexivity | split; [| split; [reflexivity |]]]].
  - cbn [Commands.ran_events app Host.ran]. now destruct (rc2 =? 0)%Z.
  - intros N. apply Z.eqb_neq in N. rewrite N.
    do 5 right. now left.
Qed.

(** X16.  The staging repository and the snapshot.  [aptly repo create]
    is run first and its return code is ignored.  Without a directory of
    packages (none, or the empty string) the snapshot is taken of the
    empty repository.  With one, the run leaves with exit status 1,
    without a snapshot, when the path is no directory or holds no
    [.deb] file; else all its [.deb] files, sorted, are added in one
    [aptly repo add], whose failure raises.  The snapshot is named
    [<component>-<distro>-<channel>-<timestamp>] (the name of the
    staging repository, then the timestamp), and the block returns
    this name exactly when [aptly snapshot create] returned 0. *)
Theorem stage_snapshots_the_packages_or_leaves :
  forall (W : Type) (os : Host.OS W) (self : Publisher.AptlyPublisher)
         (cfg home : string) (debs : option string) (ts : string) (r : Host.Run W),
    let res := Publisher.stage self cfg home debs ts r in
    let create := Cmds.repo_create self cfg home in
    let snap := (Publisher.repo_name self ++ "-" ++ ts)%string in
    let shot := Cmds.snapshot_create self cfg home snap in
    let created := Host.subprocess_run create (Host.world r) in
    let dir := Py.str debs in
    let found := Host.sorted_glob_debs dir (snd created) in
    exists new,
      Host.trace (snd res) = Host.trace r ++ new
      /\ ((Py.truthy debs = false
           /\ exists rc3,
                Host.ran new = [(create, fst created); (shot, rc3)]
                /\ fst res = if (rc3 =? 0)%Z then Host.Return snap
                             else Host.Raise (Host.CalledProcessError rc3
                                                (Host.argv shot)))
          \/ (Py.truthy debs = true
              /\ (Host.is_dir dir (snd created) = false \/ found = [])
              /\ Host.ran new = [(create, fst created)]
              /\ fst res = Host.Exit 1%Z)
          \/ (Py.truthy debs = true
              /\ Host.is_dir dir (snd created) = true /\ found <> []
              /\ exists rc2,
                   (rc2 <> 0%Z
                    /\ Host.ran new
                       = [(create, fst created);
                          (Cmds.repo_add self cfg home found, rc2)]
                    /\ fst res
                       = Host.Raise (Host.CalledProcessError rc2
                                       (Host.argv (Cmds.repo_add self cfg home found))))
                   \/ (rc2 = 0%Z
                       /\ exists rc3,
                            Host.ran new
                            = [(create, fst created);
                               (Cmds.repo_add self cfg home found, 0%Z);
                               (shot, rc3)]
                            /\ fst res = if (rc3 =? 0)%Z then Host.Return snap
                                         else Host.Raise
                                                (Host.CalledProcessError rc3
                                                   (Host.argv shot))))).
Proof.
  intros W os self cfg home debs ts r res create snap shot created dir found.
  subst res. rewrite stage_eq. cbn zeta.
  { fold snap. fold create shot. subst found created dir.
    destruct (Host.subprocess_run create (Host.world r)) as [rc1 w1]. cbn [fst snd].
    destruct (Py.truthy debs).
    - destruct (Host.is_dir (Py.str debs) w1).
      + destruct (Host.sorted_glob_debs (Py.str debs) w1) as [|d ds] eqn:G.
        * new_trace. right. left. repeat split; auto.
        * destruct (Host.subprocess_run _ w1) as [rc2 w2].
          destruct (rc2 =? 0)%Z eqn:E2.
          -- apply Z.eqb_eq in E2. subst rc2.
             destruct (Host.subprocess_run _ w2) as [rc3 w3].
             new_trace. right. right. repeat split; [discriminate |].
             exists 0%Z. right. split; [reflexivity |]. exists rc3. now split.
          -- apply Z.eqb_neq in E2. new_trace. right. right.
             repeat split; [discriminate |]. exists rc2. left. now repeat split.
      + new_trace. right. left. repeat split; auto.
    - destruct (Host.subprocess_run _ w1) as [rc3 w3].
      new_trace. left. split; [reflexivity |]. exists rc3. now split. }
Qed.

(** ** The inspector *)

Section Inspect.
Import Chars Py Host Publisher.
Context {W : Type} {os : OS W}.
Variable self : AptlyPublisher.
Variables cfg home : string.

(** What the inspector reads in the [InRelease] file of a host. *)
Lemma inspect_eq (r : Run W) :
  inspect self cfg home r =
    let raw := Cmds.publish_list_raw cfg home in
    let lst := Cmds.publish_list cfg home in
    let show := Cmds.publish_show self cfg home in
    let (rc1, w1) := subprocess_run raw (world r) in
    let t1 := trace r ++ Commands.ran_events raw rc1 in
    let '(t2, w2) :=
      if (rc1 =? 0)%Z
      then let (rc2, w2) := subprocess_run lst w1 in
           (t1 ++ Commands.ran_events lst rc2, w2)
      else (t1, w1) in
    let (rc3, w3) := subprocess_run show w2 in
    let t3 := t2 ++ Commands.ran_events show rc3 in
    if (rc3 =? 0)%Z then
      let t4 := t3 ++ [Log INFO "Publication %s/%s exists"
                           [LStr (channel self); LStr (distro self)]] in
      if path_exists (inrelease_path self home) w3 then
        match parse_components
                (split_lines (read_text (inrelease_path self home) w3)) with
        | Some comps =>
            (Return (true, comps),
             {| world := w3;
                trace := t4 ++ [Log INFO "Existing components: %s"
                                    [LStr (String.concat ", " comps)]] |})
        | None => (Return (true, []), {| world := w3; trace := t4 |})
        end
      else (Return (true, []), {| world := w3; trace := t4 |})
    else (Return (false, []), {| world := w3; trace := t3 |}).
Proof.
  unfold inspect, aptly_run, _run, bind, log, emit, when, ret, ask.
  cbn [world trace].
  unfold Cmds.publish_list_raw, Cmds.publish_list, Cmds.publish_show, Commands.engine,
    Commands.ran_events. cbn [argv cwd].
  destruct (subprocess_run _ (world r)) as [rc1 w1]. cbn [andb world trace].
  destruct (rc1 =? 0)%Z; cbn [world trace].
  - destruct (subprocess_run _ w1) as [rc2 w2]. cbn [andb world trace].
    destruct (subprocess_run _ w2) as [rc3 w3]. cbn [andb world trace].
    destruct (rc3 =? 0)%Z; cbn [world trace];
      [| repeat rewrite <- app_assoc; reflexivity].
    destruct (path_exists _ w3); cbn [world trace];
      [| repeat rewrite <- app_assoc; reflexivity].
    destruct (parse_components _); cbn [world trace];
      repeat rewrite <- app_assoc; reflexivity.
  - destruct (subprocess_run _ w1) as [rc3 w3]. cbn [andb world trace].
    destruct (rc3 =? 0)%Z; cbn [world trace];
      [| repeat rewrite <- app_assoc; reflexivity].
    destruct (path_exists _ w3); cbn [world trace];
      [| repeat rewrite <- app_assoc; reflexivity].
    destruct (parse_components _); cbn [world trace];
      repeat rewrite <- app_assoc; reflexivity.
Qed.

End Inspect.


(** ** What holds of every command of a run *)

Section Addressed.
Import Chars Py Host Traces Publisher.
Context {W : Type} {os : OS W}.
Variable self : AptlyPublisher.
Variables cfg home : string.

Lemma addressed_engine args :
  addressed cfg home
    {| argv := base_cmd cfg ++ args; cwd := None; env := AptlyEnv cfg home |} = true.
Proof.
  unfold addressed, is_aptly, program, base_cmd. cbn [env argv app].
  now rewrite !String.eqb_refl.
Qed.

Ltac addressed_block :=
  repeat (first [ emit_step
                | apply emits_run; first [reflexivity | apply addressed_engine] ]).

Lemma addressed_validate : emits (addressed cfg home) (validate self).
Proof. unfold validate, _ensure_cmd. addressed_block. Qed.

Lemma addressed_clone pages : emits (addressed cfg home) (clone self pages).
Proof. unfold clone. addressed_block. Qed.

Lemma addressed_seed pages : emits (addressed cfg home) (seed self pages cfg home).
Proof. unfold seed, aptly_run. addressed_block. Qed.

Lemma addressed_stage debs ts : emits (addressed cfg home) (stage self cfg home debs ts).
Proof. unfold stage, aptly_run. addressed_block. Qed.

Lemma addressed_inspect : emits (addressed cfg home) (inspect self cfg home).
Proof. unfold inspect, aptly_run. addressed_block. Qed.

Lemma addressed_reconcile ex comps snap :
  emits (addressed cfg home) (reconcile self cfg home ex comps snap).
Proof. unfold reconcile, aptly_run. addressed_block. Qed.

Lemma addressed_sync_and_push pages cts :
  emits (addressed cfg home) (sync_and_push self pages home cts).
Proof.
  unfold sync_and_push.
  repeat (first [ apply emits_nojekyll | emit_step
                | apply emits_run; first [reflexivity | apply addressed_engine] ]).
Qed.

End Addressed.

Section WholeRun.
Import Chars Py Host Traces Publisher.
Local Open Scope run_scope.
Context {W : Type} {os : OS W}.
Variable self : AptlyPublisher.
Variable amb : Ambient.
Variable debs : option string.

(** A run that does not pass the checks ends with them. *)
Lemma publish_stops_at_validate (r : Run W) :
  (forall u, fst (validate self r) <> Return u) ->
  publish self amb debs r
  = (match fst (validate self r) with
     | Return _ => Return tt
     | Exit n => Exit n
     | Raise e => Raise e
     end, snd (validate self r)).
Proof.
  intros N. unfold publish, prepare. unfold bind at 1 2.
  destruct (validate self r) as [[u | n | e] r1]; cbn [fst snd] in *;
    [now destruct (N u) | reflexivity | reflexivity].
Qed.

(** A run that finds no configuration ends there. *)
Lemma publish_stops_at_configure (r : Run W) fmt args w' :
  fst (validate self r) = Return tt ->
  provision (aptly_config self) (aptly_root self) (aptly_dir amb)
            (world (snd (validate self r))) = (NotProvisioned fmt args, w') ->
  publish self amb debs r
  = (Exit 1%Z, {| world := w';
                  trace := trace (snd (validate self r)) ++ [Log ERROR fmt args] |}).
Proof.
  intros V P. unfold publish, prepare. unfold bind at 1 2.
  destruct (validate self r) as [o r1]. cbn [fst snd] in *. subst o.
  unfold bind at 1. unfold configure. now rewrite P.
Qed.

(** The run, once the configuration is there. *)
Lemma publish_after_configure (r : Run W) cfg home w' :
  fst (validate self r) = Return tt ->
  provision (aptly_config self) (aptly_root self) (aptly_dir amb)
            (world (snd (validate self r))) = (Provisioned cfg home, w') ->
  publish self amb debs r
  = (clone self (pages_dir amb) ;;
     log INFO "Aptly cfg : %s" [LStr cfg] ;;
     log INFO "Aptly root: %s" [LStr home] ;;
     seed self (pages_dir amb) cfg home ;;
     snap <- stage self cfg home debs (ts amb) ;;
     state <- inspect self cfg home ;;
     reconcile self cfg home (fst state) (snd state) snap ;;
     sync_and_push self (pages_dir amb) home (commit_ts amb))
      {| world := w'; trace := trace (snd (validate self r)) |}.
Proof.
  intros V P. unfold publish, prepare. unfold bind at 1 2.
  destruct (validate self r) as [o r1]. cbn [fst snd] in *. subst o.
  unfold bind at 1. unfold configure at 1. rewrite P.
  set (r2 := {| world := w'; trace := trace r1 |}).
  unfold bind.
  destruct (clone self (pages_dir amb) r2) as [[[] | n | e] r3]; try reflexivity.
  destruct (log INFO "Aptly cfg : %s" [LStr cfg] r3) as [[[] | n | e] r4];
    try reflexivity.
  destruct (log INFO "Aptly root: %s" [LStr home] r4) as [[[] | n | e] r5];
    try reflexivity.
  destruct (seed self (pages_dir amb) cfg home r5) as [[[] | n | e] r6];
    try reflexivity.
  destruct (stage self cfg home debs (ts amb) r6) as [[snap | n | e] r7];
    try reflexivity.
  unfold ret.
  destruct (inspect self cfg home r7) as [[[ex comps] | n | e] r8]; reflexivity.
Qed.

Lemma addressed_after_configure cfg home :
  emits (addressed cfg home)
    (clone self (pages_dir amb) ;;
     log INFO "Aptly cfg : %s" [LStr cfg] ;;
     log INFO "Aptly root: %s" [LStr home] ;;
     seed self (pages_dir amb) cfg home ;;
     snap <- stage self cfg home debs (ts amb) ;;
     state <- inspect self cfg home ;;
     reconcile self cfg home (fst state) (snd state) snap ;;
     sync_and_push self (pages_dir amb) home (commit_ts amb)).
Proof.
  repeat (first [ apply addressed_clone | apply addressed_seed | apply addressed_stage
                | apply addressed_inspect | apply addressed_reconcile
                | apply addressed_sync_and_push | emit_step ]).
Qed.

(** Every process of a run is addressed to one configuration. *)
Lemma publish_addressed (r : Run W) :
  exists new cfg home,
    trace (snd (publish self amb debs r)) = trace r ++ new
    /\ Forall (fun p => addressed cfg home (fst p) = true) (ran new)
    /\ (forall pages c h snap,
          fst (prepare self amb debs r) = Return (pages, c, h, snap) ->
          c = cfg /\ h = home).
Proof.
  destruct (addressed_validate self "" "" r) as [n0 [E0 F0]].
  destruct (fst (validate self r)) as [[] | n | e] eqn:V.
  - destruct (provision (aptly_config self) (aptly_root self) (aptly_dir amb)
                (world (snd (validate self r)))) as [[cfg home | fmt args] w'] eqn:P.
    + destruct (addressed_validate self cfg home r) as [n1 [E1 F1]].
      rewrite (publish_after_configure r cfg home w' V P).
      destruct (addressed_after_configure cfg home
                  {| world := w'; trace := trace (snd (validate self r)) |})
        as [n2 [E2 F2]].
      exists (n1 ++ n2), cfg, home. split; [| split].
      * rewrite E2. cbn [trace]. rewrite E1. now rewrite app_assoc.
      * rewrite ran_app. apply Forall_app. now split.
      * intros pages c h snap. unfold prepare. unfold bind at 1.
        destruct (validate self r) as [o r1]. cbn [fst snd] in *. subst o.
        unfold bind at 1. unfold configure at 1. rewrite P.
        unfold bind.
        destruct (clone self _ _) as [[[] | ? | ?] ?]; try discriminate.
        destruct (log _ _ _ _) as [[[] | ? | ?] ?]; try discriminate.
        destruct (log _ _ _ _) as [[[] | ? | ?] ?]; try discriminate.
        destruct (seed self _ _ _ _) as [[[] | ? | ?] ?]; try discriminate.
        destruct (stage self _ _ _ _ _) as [[? | ? | ?] ?]; try discriminate.
        unfold ret. cbn [fst]. intros X. inversion X. now split.
    + rewrite (publish_stops_at_configure r fmt args w' V P). cbn [snd trace].
      exists (n0 ++ [Log ERROR fmt args]), "", "". split; [| split].
      * rewrite E0. now rewrite app_assoc.
      * rewrite ran_app. cbn [ran]. now rewrite app_nil_r.
      * intros pages c h snap. unfold prepare. unfold bind at 1.
        destruct (validate self r) as [o r1]. cbn [fst snd] in *. subst o.
        unfold bind at 1. unfold configure at 1. rewrite P. discriminate.
  - rewrite publish_stops_at_validate; [| rewrite V; discriminate]. cbn [snd].
    exists n0, "", "". split; [exact E0 | split; [exact F0 |]].
    intros pages c h snap. unfold prepare. unfold bind at 1.
    destruct (validate self r) as [o r1]. cbn [fst snd] in *. subst o. discriminate.
  - rewrite publish_stops_at_validate; [| rewrite V; discriminate]. cbn [snd].
    exists n0, "", "". split; [exact E0 | split; [exact F0 |]].
    intros pages c h snap. unfold prepare. unfold bind at 1.
    destruct (validate self r) as [o r1]. cbn [fst snd] in *. subst o. discriminate.
Qed.

End WholeRun.

(** X18.  In one run of [publish], every aptly process is given the
    same configuration: its command line starts with
    [aptly -config=<cfg>], and its environment is the one made for the
    run, with [APTLY_CONFIG] on [<cfg>] and [APTLY_ROOT_DIR] and
    [APTLY_ROOT] on the run's root; [<cfg>] and the root are those that
    the run prepared.  No other process (bash, git, rsync) is given
    that environment. *)
Theorem aptly_runs_on_the_configuration_of_the_run :
  forall (W : Type) (os : Host.OS W) (self : Publisher.AptlyPublisher)
         (amb : Publisher.Ambient) (debs : option string) (r : Host.Run W),
    exists new cfg home,
      Host.trace (snd (Publisher.publish self amb debs r)) = Host.trace r ++ new
      /\ Forall (fun p => Traces.addressed cfg home (fst p) = true) (Host.ran new)
      /\ (forall pages c h snap,
            fst (Publisher.prepare self amb debs r) = Host.Return (pages, c, h, snap) ->
            c = cfg /\ h = home).
Proof. intros. apply publish_addressed. Qed.

(** ** One snapshot, and no publication before it *)

Section Harmless.
Import Chars Py Host Traces Publisher.
Local Open Scope run_scope.
Context {W : Type} {os : OS W}.
Variable self : AptlyPublisher.

Ltac harmless_block :=
  repeat (first [ apply emits_nojekyll | emit_step | apply emits_run; reflexivity ]).

Lemma harmless_validate : emits harmless (validate self).
Proof. unfold validate, _ensure_cmd. harmless_block. Qed.

Lemma harmless_clone pages : emits harmless (clone self pages).
Proof. unfold clone. harmless_block. Qed.

Lemma harmless_seed pages cfg home : emits harmless (seed self pages cfg home).
Proof. unfold seed, aptly_run. harmless_block. Qed.


Lemma no_snapshot_engine_publish cfg home b rest :
  Quiet.no_snapshot
    {| argv := base_cmd cfg ++ "publish" :: b :: rest; cwd := None;
       env := AptlyEnv cfg home |} = true.
Proof. reflexivity. Qed.

Ltac no_snapshot_block :=
  repeat (first [ apply emits_nojekyll | emit_step
                | apply emits_run; first [reflexivity | apply no_snapshot_engine_publish] ]).

Lemma no_snapshot_inspect cfg home : emits Quiet.no_snapshot (inspect self cfg home).
Proof. unfold inspect, aptly_run. no_snapshot_block. Qed.

Lemma no_snapshot_reconcile cfg home ex comps snap :
  emits Quiet.no_snapshot (reconcile self cfg home ex comps snap).
Proof. unfold reconcile, aptly_run. no_snapshot_block. Qed.

Lemma no_snapshot_sync_and_push pages home cts :
  emits Quiet.no_snapshot (sync_and_push self pages home cts).
Proof. unfold sync_and_push. no_snapshot_block. Qed.

(** A block that returns did so from the state that the block before
    left. *)
Lemma bind_returns {A B} (m : M W A) (k : A -> M W B) r b r' :
  bind m k r = (Return b, r') ->
  exists a r1, m r = (Return a, r1) /\ k a r1 = (Return b, r').
Proof.
  unfold bind. destruct (m r) as [[a | n | e] r1]; try discriminate.
  intros H. now exists a, r1.
Qed.

Lemma log_returns lvl fmt args (r : Run W) :
  log lvl fmt args r
  = (Return tt, {| world := world r; trace := trace r ++ [Log lvl fmt args] |}).
Proof. reflexivity. Qed.

End Harmless.

Section Order.
Import Chars Py Host Traces Publisher.
Local Open Scope run_scope.
Context {W : Type} {os : OS W}.
Variable self : AptlyPublisher.
Variable amb : Ambient.
Variable debs : option string.

(** The preparation, once the configuration is there. *)
Lemma prepare_after_configure (r : Run W) cfg home w' :
  fst (validate self r) = Return tt ->
  provision (aptly_config self) (aptly_root self) (aptly_dir amb)
            (world (snd (validate self r))) = (Provisioned cfg home, w') ->
  prepare self amb debs r
  = (clone self (pages_dir amb) ;;
     log INFO "Aptly cfg : %s" [LStr cfg] ;;
     log INFO "Aptly root: %s" [LStr home] ;;
     seed self (pages_dir amb) cfg home ;;
     snap <- stage self cfg home debs (ts amb) ;;
     ret (pages_dir amb, cfg, home, snap))
      {| world := w'; trace := trace (snd (validate self r)) |}.
Proof.
  intros V P. unfold prepare. unfold bind at 1.
  destruct (validate self r) as [o r1]. cbn [fst snd] in *. subst o.
  unfold bind at 1. unfold configure at 1. now rewrite P.
Qed.

(** What the staging block runs when it returns the snapshot. *)
Lemma stage_returns cfg home (r r' : Run W) snap :
  stage self cfg home debs (ts amb) r = (Return snap, r') ->
  snap = (repo_name self ++ "-" ++ ts amb)%string
  /\ exists new before,
       trace r' = trace r ++ new
       /\ ran new = before ++ [(Cmds.snapshot_create self cfg home snap, 0%Z)]
       /\ Forall (fun p => harmless (fst p) = true) before.
Proof.
  rewrite stage_eq. cbn zeta.
  destruct (subprocess_run (Cmds.repo_create self cfg home) (world r)) as [rc1 w1].
  destruct (truthy debs).
  - destruct (is_dir (Py.str debs) w1); [| discriminate].
    destruct (sorted_glob_debs (Py.str debs) w1) as [|d ds]; [discriminate |].
    destruct (subprocess_run _ w1) as [rc2 w2].
    destruct (rc2 =? 0)%Z eqn:E2; [| discriminate].
    destruct (subprocess_run _ w2) as [rc3 w3].
    destruct (rc3 =? 0)%Z eqn:E3; [| discriminate].
    apply Z.eqb_eq in E3. subst rc3. intros X. inversion X. subst r'. clear X.
    split; [reflexivity |].
    eexists _, [(Cmds.repo_create self cfg home, rc1);
                (Cmds.repo_add self cfg home (d :: ds), rc2)]. cbn [trace].
    split; [repeat rewrite <- app_assoc; reflexivity |].
    split; [reflexivity |]. repeat constructor.
  - destruct (subprocess_run _ w1) as [rc3 w3].
    destruct (rc3 =? 0)%Z eqn:E3; [| discriminate].
    apply Z.eqb_eq in E3. subst rc3. intros X. inversion X. subst r'. clear X.
    split; [reflexivity |].
    eexists _, [(Cmds.repo_create self cfg home, rc1)]. cbn [trace].
    split; [repeat rewrite <- app_assoc; reflexivity |].
    split; [reflexivity |]. repeat constructor.
Qed.

End Order.

Section OneSnapshot.
Import Chars Py Host Traces Publisher.
Local Open Scope run_scope.
Context {W : Type} {os : OS W}.
Variable self : AptlyPublisher.
Variable amb : Ambient.
Variable debs : option string.

(** What the preparation ran when it returns. *)
Lemma prepare_returns (r r1 : Run W) pages cfg home snap :
  prepare self amb debs r = (Return (pages, cfg, home, snap), r1) ->
  pages = pages_dir amb
  /\ snap = (repo_name self ++ "-" ++ ts amb)%string
  /\ exists new before,
       trace r1 = trace r ++ new
       /\ ran new = before ++ [(Cmds.snapshot_create self cfg home snap, 0%Z)]
       /\ Forall (fun p => harmless (fst p) = true) before.
Proof.
  intros Pr.
  destruct (harmless_validate self r) as [nv [Ev Fv]].
  destruct (fst (validate self r)) as [[] | n | e] eqn:V.
  2: { unfold prepare in Pr. unfold bind at 1 in Pr.
       destruct (validate self r) as [o rv]. cbn [fst] in V. subst o. discriminate. }
  2: { unfold prepare in Pr. unfold bind at 1 in Pr.
       destruct (validate self r) as [o rv]. cbn [fst] in V. subst o. discriminate. }
  destruct (provision (aptly_config self) (aptly_root self) (aptly_dir amb)
              (world (snd (validate self r)))) as [[cfg0 home0 | fmt args] w'] eqn:P.
  2: { unfold prepare in Pr. unfold bind at 1 in Pr.
       destruct (validate self r) as [o rv]. cbn [fst snd] in *. subst o.
       unfold bind at 1 in Pr. unfold configure at 1 in Pr. rewrite P in Pr.
       discriminate. }
  rewrite (prepare_after_configure self amb debs r cfg0 home0 w' V P) in Pr.
  set (r2 := {| world := w'; trace := trace (snd (validate self r)) |}) in Pr.
  apply bind_returns in Pr as [[] [r3 [Hc Pr]]].
  apply bind_returns in Pr as [[] [r4 [Hl1 Pr]]].
  apply bind_returns in Pr as [[] [r5 [Hl2 Pr]]].
  apply bind_returns in Pr as [[] [r6 [Hs Pr]]].
  apply bind_returns in Pr as [snap' [r7 [Hst Pr]]].
  unfold ret in Pr. inversion Pr. subst pages cfg0 home0 snap' r7. clear Pr.
  destruct (harmless_clone self (pages_dir amb) r2) as [nc [Ec Fc]].
  rewrite Hc in Ec. cbn [snd] in Ec.
  rewrite log_returns in Hl1. inversion Hl1 as [E4]. clear Hl1.
  rewrite log_returns in Hl2. inversion Hl2 as [E5]. clear Hl2.
  destruct (harmless_seed self (pages_dir amb) cfg home r5) as [ns [Es Fs]].
  rewrite Hs in Es. cbn [snd] in Es.
  apply stage_returns in Hst as [Esnap [nst [before [Est [Rst Fst]]]]].
  split; [reflexivity | split; [exact Esnap |]].
  exists (nv ++ nc ++ [Log INFO "Aptly cfg : %s" [LStr cfg]]
             ++ [Log INFO "Aptly root: %s" [LStr home]] ++ ns ++ nst),
         (ran nv ++ ran nc ++ ran ns ++ before).
  split; [| split].
  - rewrite Est, Es, <- E5. cbn [trace]. rewrite <- E4. cbn [trace].
    rewrite Ec. unfold r2. cbn [trace]. rewrite Ev.
    repeat rewrite <- app_assoc. reflexivity.
  - rewrite !ran_app, Rst. cbn [ran app]. repeat rewrite <- app_assoc. reflexivity.
  - repeat (apply Forall_app; split); assumption.
Qed.

(** The run after the preparation creates no snapshot. *)
Lemma engine_creates_no_snapshot pages cfg home snap (r1 : Run W) :
  exists new,
    trace (snd ((state <- inspect self cfg home ;;
                 reconcile self cfg home (fst state) (snd state) snap ;;
                 sync_and_push self pages home (commit_ts amb)) r1))
    = trace r1 ++ new
    /\ Forall (fun p => Quiet.no_snapshot (fst p) = true) (ran new).
Proof.
  assert (emits Quiet.no_snapshot
            (state <- inspect self cfg home ;;
             reconcile self cfg home (fst state) (snd state) snap ;;
             sync_and_push self pages home (commit_ts amb))) as H.
  { repeat (first [ apply no_snapshot_inspect | apply no_snapshot_reconcile
                  | apply no_snapshot_sync_and_push | emit_step ]). }
  apply H.
Qed.

Lemma publish_of_prepared (r r1 : Run W) pages cfg home snap :
  prepare self amb debs r = (Return (pages, cfg, home, snap), r1) ->
  publish self amb debs r
  = (state <- inspect self cfg home ;;
     reconcile self cfg home (fst state) (snd state) snap ;;
     sync_and_push self pages home (commit_ts amb)) r1.
Proof.
  intros Pr. unfold publish. unfold bind at 1. rewrite Pr.
  unfold bind. destruct (inspect self cfg home r1) as [[[ex comps] | n | e] r2];
    reflexivity.
Qed.

End OneSnapshot.

(** X19.  A run of [publish] creates at most one snapshot, named
    [<component>-<distro>-<channel>-<timestamp>], and does so before it
    asks aptly to change any publication: where the preparation
    returned, the commands of the run are commands that neither create
    a snapshot nor change a publication, then the one
    [aptly snapshot create] that returned 0, then commands that create
    no snapshot.  Where the preparation did not return (a missing tool
    or key, no configuration, a failed clone, copy, [repo add] or
    [snapshot create], unusable packages), no command of the run changes
    a publication. *)
Theorem publish_snapshots_once_and_first :
  forall (W : Type) (os : Host.OS W) (self : Publisher.AptlyPublisher)
         (amb : Publisher.Ambient) (debs : option string) (r : Host.Run W),
    exists new,
      Host.trace (snd (Publisher.publish self amb debs r)) = Host.trace r ++ new
      /\ match Publisher.prepare self amb debs r with
         | (Host.Return (pages, cfg, home, snap), _) =>
             pages = Publisher.pages_dir amb
             /\ snap = (Publisher.repo_name self ++ "-" ++ Publisher.ts amb)%string
             /\ exists before after,
                  Host.ran new
                  = before ++ (Cmds.snapshot_create self cfg home snap, 0%Z) :: after
                  /\ Forall (fun p => Traces.harmless (fst p) = true) before
                  /\ Forall (fun p => Quiet.no_snapshot (fst p) = true) after
         | (_, _) =>
             Forall (fun c => Reconcile.mutates_publication c = false)
                    (Host.commands new)
         end.
Proof.
  intros W os self amb debs r.
  destruct (Publisher.prepare self amb debs r) as [[[[[pages cfg] home] snap] | n | e] r1]
    eqn:Pr.
  - destruct (prepare_returns self amb debs r r1 pages cfg home snap Pr)
      as [Ep [Es [n1 [before [E1 [R1 F1]]]]]].
    rewrite (publish_of_prepared self amb debs r r1 pages cfg home snap Pr).
    destruct (engine_creates_no_snapshot self amb pages cfg home snap r1)
      as [n2 [E2 F2]].
    exists (n1 ++ n2). split; [rewrite E2, E1; now rewrite app_assoc |].
    split; [exact Ep | split; [exact Es |]].
    exists before, (Host.ran n2). split; [| now split].
    rewrite ran_app, R1, <- app_assoc. reflexivity.
  - rewrite (publish_not_prepared self amb debs r);
      [| rewrite Pr; discriminate].
    destruct (steps_prepare _ quietly_kept self amb debs r) as [new [E F]].
    rewrite Pr in *. cbn [snd] in *. now exists new.
  - rewrite (publish_not_prepared self amb debs r);
      [| rewrite Pr; discriminate].
    destruct (steps_prepare _ quietly_kept self amb debs r) as [new [E F]].
    rewrite Pr in *. cbn [snd] in *. now exists new.
Qed.

(** ** A directory of packages that cannot be used *)

Section Stops.
Import Chars Py Host Traces Publisher.
Local Open Scope run_scope.
Context {W : Type} {os : OS W}.
Variable Q : Command -> bool.

Lemma stops_bind {A B} (m : M W A) (k : A -> M W B) :
  emits Q m -> (forall r a, fst (m r) <> Return a) ->
  emits Q (bind m k) /\ (forall r b, fst (bind m k r) <> Return b).
Proof.
  intros E N. split.
  - intros r. destruct (E r) as [new [Et F]]. specialize (N r). unfold bind.
    destruct (m r) as [[a | n | e] r1]; cbn [fst snd] in *;
      [now destruct (N a) | now exists new | now exists new].
  - intros r b. specialize (N r). unfold bind.
    destruct (m r) as [[a | n | e] r1]; cbn [fst] in *;
      [now destruct (N a) | discriminate | discriminate].
Qed.

Lemma bind_stops {A B} (m : M W A) (k : A -> M W B) :
  emits Q m ->
  (forall a, emits Q (k a) /\ (forall r b, fst (k a r) <> Return b)) ->
  emits Q (bind m k) /\ (forall r b, fst (bind m k r) <> Return b).
Proof.
  intros E H. split.
  - apply emits_bind; [exact E | intros a; apply H].
  - intros r b. unfold bind. destruct (m r) as [[a | n | e] r1]; cbn [fst];
      [apply H | discriminate | discriminate].
Qed.

End Stops.

Section UnusableDebs.
Import Chars Py Host Traces Publisher.
Local Open Scope run_scope.
Context {W : Type} {os : OS W}.
Variable self : AptlyPublisher.
Variable amb : Ambient.
Variable debs : option string.
Hypothesis given : truthy debs = true.
Hypothesis unusable :
  forall w, is_dir (Py.str debs) w = false \/ sorted_glob_debs (Py.str debs) w = [].

Lemma stage_unusable cfg home :
  emits harmless (stage self cfg home debs (ts amb))
  /\ (forall r snap, fst (stage self cfg home debs (ts amb) r) <> Return snap).
Proof.
  split.
  - intros r. rewrite stage_eq. cbn zeta.
    destruct (subprocess_run (Cmds.repo_create self cfg home) (world r)) as [rc1 w1].
    rewrite given.
    destruct (unusable w1) as [-> | G].
    + eexists. cbn [snd trace].
      split; [repeat rewrite <- app_assoc; reflexivity | repeat constructor].
    + destruct (is_dir (Py.str debs) w1); rewrite ?G.
      * eexists. cbn [snd trace].
        split; [repeat rewrite <- app_assoc; reflexivity | repeat constructor].
      * eexists. cbn [snd trace].
        split; [repeat rewrite <- app_assoc; reflexivity | repeat constructor].
  - intros r snap. rewrite stage_eq. cbn zeta.
    destruct (subprocess_run (Cmds.repo_create self cfg home) (world r)) as [rc1 w1].
    rewrite given.
    destruct (unusable w1) as [-> | G]; [discriminate |].
    destruct (is_dir (Py.str debs) w1); rewrite ?G; discriminate.
Qed.

Lemma after_configure_unusable cfg home :
  let run :=
    (clone self (pages_dir amb) ;;
     log INFO "Aptly cfg : %s" [LStr cfg] ;;
     log INFO "Aptly root: %s" [LStr home] ;;
     seed self (pages_dir amb) cfg home ;;
     snap <- stage self cfg home debs (ts amb) ;;
     state <- inspect self cfg home ;;
     reconcile self cfg home (fst state) (snd state) snap ;;
     sync_and_push self (pages_dir amb) home (commit_ts amb)) in
  emits harmless run /\ (forall (r : Run W) u, fst (run r) <> Return u).
Proof.
  cbn zeta.
  apply bind_stops; [apply harmless_clone | intros _].
  apply bind_stops; [apply emits_log | intros _].
  apply bind_stops; [apply emits_log | intros _].
  apply bind_stops; [apply harmless_seed | intros _].
  apply stops_bind; apply stage_unusable.
Qed.

Lemma publish_unusable (r : Run W) :
  (forall u, fst (publish self amb debs r) <> Return u)
  /\ exists new,
       trace (snd (publish self amb debs r)) = trace r ++ new
       /\ Forall (fun p => harmless (fst p) = true) (ran new).
Proof.
  destruct (harmless_validate self r) as [nv [Ev Fv]].
  destruct (fst (validate self r)) as [[] | n | e] eqn:V.
  - destruct (provision (aptly_config self) (aptly_root self) (aptly_dir amb)
                (world (snd (validate self r)))) as [[cfg home | fmt args] w'] eqn:P.
    + rewrite (publish_after_configure self amb debs r cfg home w' V P).
      destruct (after_configure_unusable cfg home) as [E N]. cbn zeta in *.
      split; [apply N |].
      destruct (E {| world := w'; trace := trace (snd (validate self r)) |})
        as [n2 [E2 F2]].
      exists (nv ++ n2). split.
      * rewrite E2. cbn [trace]. rewrite Ev. now rewrite app_assoc.
      * rewrite ran_app. apply Forall_app. now split.
    + rewrite (publish_stops_at_configure self amb debs r fmt args w' V P).
      cbn [fst snd trace]. split; [discriminate |].
      exists (nv ++ [Log ERROR fmt args]). split.
      * rewrite Ev. now rewrite app_assoc.
      * rewrite ran_app. cbn [ran]. now rewrite app_nil_r.
  - rewrite publish_stops_at_validate; [| rewrite V; discriminate].
    rewrite V. cbn [fst snd]. split; [discriminate | now exists nv].
  - rewrite publish_stops_at_validate; [| rewrite V; discriminate].
    rewrite V. cbn [fst snd]. split; [discriminate | now exists nv].
Qed.

End UnusableDebs.



(** ** A run that returns has pushed *)

Section Pushed.
Import Chars Py Host Traces Publisher.
Local Open Scope run_scope.
Context {W : Type} {os : OS W}.
Variable self : AptlyPublisher.
Variable amb : Ambient.
Variable debs : option string.

Lemma sync_and_push_returns pages home cts (r r' : Run W) :
  sync_and_push self pages home cts r = (Return tt, r') ->
  exists new rc3,
    trace r' = trace r ++ new
    /\ ran new = [(Commands.rsync_back pages home, 0%Z);
                  (Commands.git_add pages, 0%Z);
                  (Commands.git_commit self pages cts, rc3);
                  (Commands.git_push self pages, 0%Z)]
    /\ In (Wrote (joinpath pages ".nojekyll") "") new.
Proof.
  rewrite sync_and_push_eq. cbn zeta.
  destruct (subprocess_run (Commands.rsync_back pages home) (world r)) as [rc1 w1].
  destruct (rc1 =? 0)%Z eqn:E1; [| discriminate].
  destruct (subprocess_run (Commands.git_add pages) _) as [rc2 w2].
  destruct (rc2 =? 0)%Z eqn:E2; [| discriminate].
  destruct (subprocess_run (Commands.git_commit self pages cts) w2) as [rc3 w3].
  destruct (subprocess_run (Commands.git_push self pages) w3) as [rc4 w4].
  destruct (rc4 =? 0)%Z eqn:E4; [| discriminate].
  apply Z.eqb_eq in E1, E2, E4. subst rc1 rc2 rc4.
  intros X. inversion X. subst r'. clear X. cbn [trace].
  eexists _, rc3. split; [repeat rewrite <- app_assoc; reflexivity |].
  split; [reflexivity |]. cbn [Commands.ran_events app]. do 2 right. now left.
Qed.

Lemma publish_returned (r : Run W) :
  fst (publish self amb debs r) = Return tt ->
  exists new before home rc3,
    trace (snd (publish self amb debs r)) = trace r ++ new
    /\ ran new
       = before ++ [(Commands.rsync_back (pages_dir amb) home, 0%Z);
                    (Commands.git_add (pages_dir amb), 0%Z);
                    (Commands.git_commit self (pages_dir amb) (commit_ts amb), rc3);
                    (Commands.git_push self (pages_dir amb), 0%Z)]
    /\ In (Wrote (joinpath (pages_dir amb) ".nojekyll") "") new.
Proof.
  rewrite publish_run.
  destruct (prepare self amb debs r) as [[[[[pages cfg] home] snap] | n | e] r1] eqn:Pr;
    try discriminate.
  destruct (prepare_returns self amb debs r r1 pages cfg home snap Pr)
    as [-> [_ [n1 [_ [E1 _]]]]].
  destruct (steps_inspect _ quietly_kept self cfg home r1) as [n2 [E2 _]].
  destruct (inspect self cfg home r1) as [[[ex comps] | n | e] r2]; try discriminate.
  cbn [snd] in E2.
  destruct (reconcile_transitions self cfg home ex comps snap r2) as [n3 [E3 _]].
  destruct (reconcile self cfg home ex comps snap r2) as [[[] | n | e] r3];
    try discriminate.
  cbn [snd] in E3.
  destruct (sync_and_push self (pages_dir amb) home (commit_ts amb) r3)
    as [[[] | n | e] r4] eqn:S; try discriminate.
  intros _. apply sync_and_push_returns in S as [n4 [rc3 [E4 [R4 I4]]]].
  exists (n1 ++ n2 ++ n3 ++ n4), (ran n1 ++ ran n2 ++ ran n3), home, rc3.
  cbn [snd]. split; [| split].
  - rewrite E4, E3, E2, E1. repeat rewrite <- app_assoc. reflexivity.
  - rewrite !ran_app, R4. repeat rewrite <- app_assoc. reflexivity.
  - repeat (apply in_or_app; right). exact I4.
Qed.

End Pushed.

(** X21.  When [publish] returns normally, the last four processes of
    the run were the mirror of aptly's public directory into the clone
    with [rsync -a --delete], [git add -A], the commit, and
    [git push origin <branch>]; the mirror, the add and the push
    returned 0, while the return code of the commit is ignored (there
    may be nothing to commit); and the [.nojekyll] marker was written
    into the clone. *)
Theorem publish_returns_only_after_the_push :
  forall (W : Type) (os : Host.OS W) (self : Publisher.AptlyPublisher)
         (amb : Publisher.Ambient) (debs : option string) (r : Host.Run W),
    fst (Publisher.publish self amb debs r) = Host.Return tt ->
    exists new before home rc3,
      Host.trace (snd (Publisher.publish self amb debs r)) = Host.trace r ++ new
      /\ Host.ran new
         = before
           ++ [(Commands.rsync_back (Publisher.pages_dir amb) home, 0%Z);
               (Commands.git_add (Publisher.pages_dir amb), 0%Z);
               (Commands.git_commit self (Publisher.pages_dir amb)
                  (Publisher.commit_ts amb), rc3);
               (Commands.git_push self (Publisher.pages_dir amb), 0%Z)]
      /\ In (Host.Wrote (Py.joinpath (Publisher.pages_dir amb) ".nojekyll") "") new.
Proof. intros W os self amb debs r H. now apply publish_returned. Qed.

(** X21 at work: the update of the component [main] on the small
    host. *)
Lemma publish_returns_only_after_the_push_witness :
  let res := Publisher.publish (Sim.publisher "main") Sim.amb None
               (Publisher.start (Sim.published_host [])) in
  fst res = Host.Return tt
  /\ exists new before home rc3,
       Host.trace (snd res) = [] ++ new
       /\ Host.ran new
          = before
            ++ [(Commands.rsync_back "/tmp/apt-pages" home, 0%Z);
                (Commands.git_add "/tmp/apt-pages", 0%Z);
                (Commands.git_commit (Sim.publisher "main") "/tmp/apt-pages"
                   "2025-01-01T00:00:00Z", rc3);
                (Commands.git_push (Sim.publisher "main") "/tmp/apt-pages", 0%Z)]
       /\ In (Host.Wrote (Py.joinpath "/tmp/apt-pages" ".nojekyll") "") new.
Proof.
  intros res.
  assert (fst res = Host.Return tt) as R by (vm_compute; reflexivity).
  split; [exact R |].
  exact (publish_returns_only_after_the_push Sim.World Sim.os (Sim.publisher "main")
           Sim.amb None (Publisher.start (Sim.published_host [])) R).
Defined.

(** ** Failures of the engine *)

Section LibraryFailures.
Import Chars Py Host Reconcile Publisher.
Context {W : Type} {os : OS W}.
Variable self : AptlyPublisher.

(** The engine block returns, or has stopped at the one command that
    failed. *)
Lemma reconcile_outcomes cfg home ex comps snap (r : Run W) :
  let res := reconcile self cfg home ex comps snap r in
  exists new,
    trace (snd res) = trace r ++ new
    /\ ((fst res = Return tt
         /\ forall c rc, In (c, rc) (calls new) -> rc <> 0%Z ->
                         is_update (argv c) = true)
        \/ (exists c rc,
               rc <> 0%Z
               /\ (fst res = Exit 1%Z
                   \/ fst res = Raise (CalledProcessError rc (argv c)))
               /\ calls new = [(c, rc)] /\ ran new = [(c, rc)])).
Proof.
  destruct (library_commands_mutate self cfg home snap) as [Ms [Ma [Mu Mn]]].
  cbn zeta. destruct ex.
  - destruct (mem (component self) comps) eqn:E.
    + rewrite (reconcile_switch self cfg home snap comps r E). cbv zeta.
      destruct (subprocess_run _ (world r)) as [rc w'].
      destruct (rc =? 0)%Z eqn:Erc; cbn [fst snd trace]; rewrite <- ?app_assoc;
        (eexists; split; [reflexivity |]).
      * apply Z.eqb_eq in Erc. subst rc. left. split; [reflexivity |].
        rewrite !calls_app, (calls_ran_events _ _ Ms). cbn [calls ran filter app].
        intros c rc [X | []] N. inversion X. subst. now destruct N.
      * apply Z.eqb_neq in Erc. right. eexists _, rc.
        split; [exact Erc | split; [now left |]].
        rewrite !calls_app, (calls_ran_events _ _ Ms). split; reflexivity.
    + rewrite (reconcile_add self cfg home snap comps r E). cbv zeta.
      destruct (subprocess_run _ (world r)) as [rc w1].
      destruct (rc =? 0)%Z eqn:Erc.
      * apply Z.eqb_eq in Erc. subst rc.
        destruct (subprocess_run _ w1) as [rcu w2].
        cbn [fst snd trace]; rewrite <- ?app_assoc.
        eexists; split; [reflexivity |]. left. split; [reflexivity |].
        rewrite !calls_app, (calls_ran_events _ _ Ma), (calls_ran_events _ _ Mu).
        assert (calls [if (rcu =? 0)%Z
                       then Log INFO "Successfully updated publication metadata" []
                       else Log WARNING "Failed to update publication metadata (exit=%s)"
                                [LInt rcu]] = []) as ->
          by (destruct (rcu =? 0)%Z; reflexivity).
        cbn [calls ran filter app].
        intros c rc' [X | [X | []]] N; inversion X; subst;
          [now destruct N | reflexivity].
      * apply Z.eqb_neq in Erc. cbn [fst snd trace]; rewrite <- ?app_assoc.
        eexists; split; [reflexivity |]. right. eexists _, rc.
        split; [exact Erc | split; [now left |]].
        rewrite !calls_app, (calls_ran_events _ _ Ma). split; reflexivity.
  - rewrite (reconcile_bootstrap self cfg home snap comps r). cbv zeta.
    destruct (subprocess_run _ (world r)) as [rc w'].
    destruct (rc =? 0)%Z eqn:Erc; cbn [fst snd trace]; rewrite <- ?app_assoc;
      (eexists; split; [reflexivity |]).
    + apply Z.eqb_eq in Erc. subst rc. left. split; [reflexivity |].
      rewrite !calls_app, (calls_ran_events _ _ Mn). cbn [calls ran filter app].
      intros c rc [X | []] N. inversion X. subst. now destruct N.
    + apply Z.eqb_neq in Erc. right. eexists _, rc.
      split; [exact Erc | split; [now right |]].
      rewrite !calls_app, (calls_ran_events _ _ Mn). split; reflexivity.
Qed.

Lemma publish_failures amb debs (r : Run W) :
  let res := publish self amb debs r in
  exists new,
    trace (snd res) = trace r ++ new
    /\ forall c rc,
         In (c, rc) (calls new) -> rc <> 0%Z -> is_update (argv c) = false ->
         (fst res = Exit 1%Z \/ fst res = Raise (CalledProcessError rc (argv c)))
         /\ exists before, ran new = before ++ [(c, rc)].
Proof.
  cbn zeta. rewrite publish_run.
  destruct (quiet_block_calls _ (steps_prepare _ quietly_kept self amb debs) r)
    as [n1 [E1 C1]].
  destruct (prepare self amb debs r) as [[[[[pages cfg] home] snap] | n | e] r1];
    cbn [snd] in *;
    try (exists n1; split; [exact E1 |]; rewrite C1; intros c rc []).
  destruct (quiet_block_calls _ (steps_inspect _ quietly_kept self cfg home) r1)
    as [n2 [E2 C2]].
  destruct (inspect self cfg home r1) as [[[ex comps] | n | e] r2]; cbn [snd] in *;
    try (exists (n1 ++ n2); split; [rewrite E2, E1; now rewrite app_assoc |];
         rewrite calls_app, C1, C2; intros c rc []).
  destruct (reconcile_outcomes cfg home ex comps snap r2) as [n3 [E3 H3]].
  cbn zeta in *.
  destruct (reconcile self cfg home ex comps snap r2) as [[[] | n | e] r3];
    cbn [fst snd] in *.
  - destruct (quiet_block_calls _
                (steps_sync_and_push _ quietly_kept self pages home (commit_ts amb)) r3)
      as [n4 [E4 C4]].
    exists (n1 ++ n2 ++ n3 ++ n4). split.
    + rewrite E4, E3, E2, E1. now rewrite !app_assoc.
    + rewrite !calls_app, C1, C2, C4, app_nil_r. cbn [app].
      intros c rc I N U. destruct H3 as [[_ H] | [c' [rc' [_ [[X | X] _]]]]];
        try discriminate.
      rewrite (H c rc I N) in U. discriminate.
  - exists (n1 ++ n2 ++ n3). split.
    + rewrite E3, E2, E1. now rewrite !app_assoc.
    + rewrite !calls_app, C1, C2. cbn [app].
      destruct H3 as [[X _] | [c' [rc' [N' [O [C R]]]]]]; [discriminate |].
      rewrite C. intros c rc [X | []] N U. inversion X. subst c' rc'.
      split; [exact O |]. exists (ran n1 ++ ran n2).
      rewrite !ran_app, R. now rewrite app_assoc.
  - exists (n1 ++ n2 ++ n3). split.
    + rewrite E3, E2, E1. now rewrite !app_assoc.
    + rewrite !calls_app, C1, C2. cbn [app].
      destruct H3 as [[X _] | [c' [rc' [N' [O [C R]]]]]]; [discriminate |].
      rewrite C. intros c rc [X | []] N U. inversion X. subst c' rc'.
      split; [exact O |]. exists (ran n1 ++ ran n2).
      rewrite !ran_app, R. now rewrite app_assoc.
Qed.

End LibraryFailures.

(** X22.  In a run of [publish], a command that changes a publication
    and returns a nonzero code ends the run, unless it is the metadata
    update: the run leaves with exit status 1 (a failed switch or add)
    or raises [CalledProcessError] with this code and command line (a
    failed first publication), and the failed command is the last
    process of the run, so that nothing is mirrored back, committed or
    pushed after it. *)
Theorem a_failed_publication_command_ends_the_run :
  forall (W : Type) (os : Host.OS W) (self : Publisher.AptlyPublisher)
         (amb : Publisher.Ambient) (debs : option string) (r : Host.Run W),
    let res := Publisher.publish self amb debs r in
    exists new,
      Host.trace (snd res) = Host.trace r ++ new
      /\ forall c rc,
           In (c, rc) (Reconcile.calls new) -> rc <> 0%Z ->
           Reconcile.is_update (Host.argv c) = false ->
           (fst res = Host.Exit 1%Z
            \/ fst res = Host.Raise (Host.CalledProcessError rc (Host.argv c)))
           /\ exists before, Host.ran new = before ++ [(c, rc)].
Proof. intros. apply publish_failures. Qed.

Section ScriptFailures.
Import Chars Py Host Reconcile Script.
Context {W : Type} {os : OS W}.
Variable args : Args.

Lemma script_add_is_add cfg home snap :
  transition_of (argv (Commands.s_add args cfg home snap)) = Some Add.
Proof. reflexivity. Qed.

(** The engine block of the script returns, or has raised at the
    command that failed; a failed add alone lets it go on. *)
Lemma script_reconcile_outcomes cfg home snap (r : Run W) :
  let res := reconcile args cfg home snap r in
  exists new,
    trace (snd res) = trace r ++ new
    /\ (forall c rc, In (c, rc) (calls new) -> rc <> 0%Z ->
          transition_of (argv c) <> Some Add ->
          fst res = Raise (CalledProcessError rc (argv c))
          /\ exists before, ran new = before ++ [(c, rc)])
    /\ (forall n, fst res <> Exit n).
Proof.
  destruct (script_commands_mutate args cfg home snap) as [Ms [Ma [Mp [Mu Mn]]]].
  cbn zeta.
  destruct (path_exists (target_dists args home) (world r)) eqn:E1.
  - destruct (path_exists (component_root args home) (world r)) eqn:E2.
    + rewrite (script_reconcile_switch args cfg home snap r E1 E2). cbv zeta.
      destruct (subprocess_run _ (world r)) as [rc w'].
      destruct (rc =? 0)%Z eqn:Erc; cbn [fst snd trace]; rewrite <- ?app_assoc;
        (eexists; split; [reflexivity |]); (split; [| discriminate]);
        rewrite !calls_app, (calls_ran_events _ _ Ms); cbn [calls ran filter app];
        intros c rc' [X | []] N T; inversion X; subst.
      * apply Z.eqb_eq in Erc. now destruct N.
      * split; [reflexivity |]. now exists [].
    + rewrite (script_reconcile_add args cfg home snap r E1 E2). cbv zeta.
      destruct (subprocess_run _ (world r)) as [rc w1].
      destruct (rc =? 0)%Z eqn:Erc.
      * apply Z.eqb_eq in Erc. subst rc.
        destruct (subprocess_run _ w1) as [rcu w2].
        cbn [fst snd trace]; rewrite <- ?app_assoc.
        eexists; split; [reflexivity |].
        split; [| destruct (rcu =? 0)%Z; discriminate].
        rewrite !calls_app, (calls_ran_events _ _ Ma), (calls_ran_events _ _ Mu).
        cbn [calls ran filter app].
        intros c rc' [X | [X | []]] N T; inversion X; subst; [now destruct N |].
        apply Z.eqb_neq in N. rewrite N. split; [reflexivity |].
        now exists [(Commands.s_add args cfg home snap, 0%Z)].
      * destruct (subprocess_run _ w1) as [rcp w2].
        destruct (rcp =? 0)%Z eqn:Ercp.
        -- apply Z.eqb_eq in Ercp. subst rcp.
           destruct (subprocess_run _ w2) as [rcu w3].
           cbn [fst snd trace]; rewrite <- ?app_assoc.
           eexists; split; [reflexivity |].
           split; [| destruct (rcu =? 0)%Z; discriminate].
           rewrite !calls_app, (calls_ran_events _ _ Ma), (calls_ran_events _ _ Mp),
             (calls_ran_events _ _ Mu).
           cbn [calls ran filter app].
           intros c rc' [X | [X | [X | []]]] N T; inversion X; subst.
           ++ now destruct T.
           ++ now destruct N.
           ++ apply Z.eqb_neq in N. rewrite N. split; [reflexivity |].
              now exists [(Commands.s_add args cfg home snap, rc);
                          (Commands.s_replace args cfg home snap, 0%Z)].
        -- cbn [fst snd trace]; rewrite <- ?app_assoc.
           eexists; split; [reflexivity |]. split; [| discriminate].
           rewrite !calls_app, (calls_ran_events _ _ Ma), (calls_ran_events _ _ Mp).
           cbn [calls ran filter app].
           intros c rc' [X | [X | []]] N T; inversion X; subst.
           ++ now destruct T.
           ++ split; [reflexivity |].
              now exists [(Commands.s_add args cfg home snap, rc)].
  - rewrite (script_reconcile_first args cfg home snap r E1). cbv zeta.
    destruct (subprocess_run _ (world r)) as [rc w'].
    destruct (rc =? 0)%Z eqn:Erc; cbn [fst snd trace]; rewrite <- ?app_assoc;
      (eexists; split; [reflexivity |]); (split; [| discriminate]);
      rewrite !calls_app, (calls_ran_events _ _ Mn); cbn [calls ran filter app];
      intros c rc' [X | []] N T; inversion X; subst.
    + apply Z.eqb_eq in Erc. now destruct N.
    + split; [reflexivity |]. now exists [].
Qed.

Lemma main_failures amb (r : Run W) :
  let res := main args amb r in
  exists new,
    trace (snd res) = trace r ++ new
    /\ forall c rc,
         In (c, rc) (calls new) -> rc <> 0%Z ->
         transition_of (argv c) <> Some Add ->
         fst res = Raise (CalledProcessError rc (argv c))
         /\ exists before, ran new = before ++ [(c, rc)].
Proof.
  cbn zeta. rewrite main_run.
  destruct (quiet_block_calls _ (script_steps_prepare _ quietly_kept args amb) r)
    as [n1 [E1 C1]].
  destruct (prepare args amb r) as [[[[[pages cfg] home] snap] | n | e] r1];
    cbn [snd] in *;
    try (exists n1; split; [exact E1 |]; rewrite C1; intros c rc []).
  destruct (script_reconcile_outcomes cfg home snap r1) as [n2 [E2 [H2 X2]]].
  cbn zeta in *.
  destruct (reconcile args cfg home snap r1) as [[[] | n | e] r2]; cbn [fst snd] in *.
  - destruct (quiet_block_calls _
                (script_steps_sync_and_push _ quietly_kept args pages home
                   (Publisher.commit_ts amb)) r2) as [n3 [E3 C3]].
    exists (n1 ++ n2 ++ n3). split.
    + rewrite E3, E2, E1. now rewrite !app_assoc.
    + rewrite !calls_app, C1, C3, app_nil_r. cbn [app].
      intros c rc I N T. destruct (H2 c rc I N T) as [X _]. discriminate.
  - now destruct (X2 n).
  - exists (n1 ++ n2). split.
    + rewrite E2, E1. now rewrite !app_assoc.
    + rewrite !calls_app, C1. cbn [app].
      intros c rc I N T. destruct (H2 c rc I N T) as [X [before R]].
      split; [exact X |]. exists (ran n1 ++ before).
      rewrite ran_app, R. now rewrite app_assoc.
Qed.

End ScriptFailures.

(** X23.  In a run of the standalone script, a command that changes a
    publication and returns a nonzero code ends the run, unless it is
    [publish source add] (which is answered by the replacement): the
    metadata update too, unlike in the library.  The run raises
    [CalledProcessError] with this code and command line, and the
    failed command is its last process: nothing is mirrored back,
    committed or pushed after it. *)
Theorem script_stops_at_a_failed_publication_command :
  forall (W : Type) (os : Host.OS W) (args : Script.Args)
         (amb : Publisher.Ambient) (r : Host.Run W),
    let res := Script.main args amb r in
    exists new,
      Host.trace (snd res) = Host.trace r ++ new
      /\ forall c rc,
           In (c, rc) (Reconcile.calls new) -> rc <> 0%Z ->
           Reconcile.transition_of (Host.argv c) <> Some Reconcile.Add ->
           fst res = Host.Raise (Host.CalledProcessError rc (Host.argv c))
           /\ exists before, Host.ran new = before ++ [(c, rc)].
Proof. intros. apply main_failures. Qed.

(** ** The [Components:] field of an [InRelease] file *)

Section Components.
Import Chars Py InRelease.

Lemma is_empty_app (a b : string) :
  is_empty (a ++ b)%string = is_empty a && is_empty b.
Proof. now destruct a. Qed.

(** [split(sep)] over a piece that holds no separator. *)
Lemma split_char_app sep w : forall cur s,
  string_forall (fun c => negb (Ascii.eqb c sep)) w = true ->
  split_char sep cur (w ++ s)%string = split_char sep (cur ++ w)%string s.
Proof.
  induction w as [| c w IH]; intros cur s H; cbn in *.
  - now rewrite string_app_nil_r.
  - apply andb_true_iff in H. destruct H as [Hc Hw].
    apply negb_true_iff in Hc. rewrite Hc, (IH _ _ Hw).
    now rewrite string_app_assoc.
Qed.

Lemma split_lines_text (l : string) (ls : list string) :
  forallb one_line (l :: ls) = true ->
  split_lines (text (l :: ls)) = l :: ls.
Proof.
  unfold split_lines, text. revert l.
  induction ls as [| l2 ls IH]; intros l H; cbn [forallb] in H;
    apply andb_true_iff in H; destruct H as [Hl Hs].
  - cbn [String.concat].
    rewrite <- (string_app_nil_r l), (split_char_app _ _ _ _ Hl). cbn.
    now rewrite string_app_nil_r.
  - change (String.concat newline (l :: l2 :: ls))
      with (l ++ newline ++ String.concat newline (l2 :: ls))%string.
    rewrite (split_char_app _ _ _ _ Hl). cbn [append newline split_char].
    rewrite Ascii.eqb_refl. f_equal. now apply IH.
Qed.

(** [split()] over a piece that holds no whitespace. *)
Lemma split_ws_app w : forall cur s,
  string_forall (fun c => negb (is_space c)) w = true ->
  split_ws cur (w ++ s)%string = split_ws (cur ++ w)%string s.
Proof.
  induction w as [| c w IH]; intros cur s H; cbn [append string_forall] in *.
  - now rewrite string_app_nil_r.
  - apply andb_true_iff in H. destruct H as [Hc Hw].
    apply negb_true_iff in Hc. cbn [split_ws]. rewrite Hc, (IH _ _ Hw).
    now rewrite string_app_assoc.
Qed.

Lemma split_ws_words (cs : list string) :
  forallb is_word cs = true ->
  split_ws EmptyString (String.concat " " cs) = cs.
Proof.
  induction cs as [| w cs IH]; intros H; [reflexivity |].
  cbn [forallb] in H. apply andb_true_iff in H. destruct H as [Hw Hs].
  unfold is_word in Hw. apply andb_true_iff in Hw. destruct Hw as [Ne Hw].
  apply negb_true_iff in Ne.
  destruct cs as [| w2 cs].
  - cbn [String.concat]. rewrite <- (string_app_nil_r w), (split_ws_app _ _ _ Hw).
    cbn [append split_ws]. now rewrite Ne, string_app_nil_r.
  - change (String.concat " " (w :: w2 :: cs))
      with (w ++ " " ++ String.concat " " (w2 :: cs))%string.
    rewrite (split_ws_app _ _ _ Hw). cbn [append split_ws].
    change (is_space " "%char) with true. cbv iota. rewrite Ne.
    f_equal. now apply IH.
Qed.

(** The two [strip()] of the code change nothing of the words. *)
Lemma split_ws_lstrip (s : string) :
  split_ws EmptyString (lstrip_ws s) = split_ws EmptyString s.
Proof.
  induction s as [| c s IH]; [reflexivity |]. cbn [lstrip_ws split_ws].
  destruct (is_space c) eqn:E; cbn [is_empty].
  - exact IH.
  - cbn [split_ws]. now rewrite E.
Qed.

Lemma split_ws_rstrip (s : string) : forall cur,
  split_ws cur (rstrip_ws s) = split_ws cur s.
Proof.
  induction s as [| c s IH]; intros cur; [reflexivity |]. cbn [rstrip_ws].
  destruct (is_space c) eqn:E; cbn [andb].
  - destruct (is_empty (rstrip_ws s)) eqn:R.
    + cbn [split_ws]. rewrite E.
      assert (N : split_ws EmptyString s = []).
      { rewrite <- IH. destruct (rstrip_ws s); [reflexivity | discriminate]. }
      rewrite N. now destruct (is_empty cur).
    + cbn [split_ws]. rewrite E, IH. reflexivity.
  - cbn [split_ws]. rewrite E. apply IH.
Qed.

Lemma split_ws_strip (s : string) :
  split_ws EmptyString (strip_ws s) = split_ws EmptyString s.
Proof. unfold strip_ws. now rewrite split_ws_rstrip, split_ws_lstrip. Qed.

Lemma split_ws_are_words (s : string) : forall cur,
  string_forall (fun c => negb (is_space c)) cur = true ->
  Forall (fun w => is_word w = true) (split_ws cur s).
Proof.
  induction s as [| c s IH]; intros cur H; cbn [split_ws].
  - destruct (is_empty cur) eqn:E; constructor; [| constructor].
    unfold is_word. now rewrite E, H.
  - destruct (is_space c) eqn:C.
    + destruct (is_empty cur) eqn:E.
      * now apply IH.
      * constructor; [unfold is_word; now rewrite E, H | now apply IH].
    + apply IH. rewrite string_forall_app, H. cbn. now rewrite C.
Qed.

Lemma strip_ws_word (w : string) : is_word w = true -> strip_ws w = w.
Proof.
  unfold is_word. intros H. apply andb_true_iff in H. destruct H as [_ H].
  unfold strip_ws.
  assert (L : lstrip_ws w = w).
  { destruct w as [| c w]; [reflexivity |]. cbn in *.
    apply andb_true_iff in H. destruct H as [Hc _].
    apply negb_true_iff in Hc. now rewrite Hc. }
  rewrite L. induction w as [| c w IH]; [reflexivity |].
  cbn in *. apply andb_true_iff in H. destruct H as [Hc Hw].
  apply negb_true_iff in Hc. rewrite Hc. cbn [andb]. f_equal.
  apply IH; [exact Hw |].
  destruct w as [| d w]; [reflexivity |]. cbn in *.
  apply andb_true_iff in Hw. destruct Hw as [Hd _].
  apply negb_true_iff in Hd. now rewrite Hd.
Qed.

Lemma map_strip_words (s : string) :
  map strip_ws (split_ws EmptyString s) = split_ws EmptyString s.
Proof.
  pose proof (split_ws_are_words s EmptyString eq_refl) as F.
  induction F as [| w l Hw _ IH]; [reflexivity |].
  cbn [map]. now rewrite (strip_ws_word _ Hw), IH.
Qed.

(** The first line that starts with [Components:] decides, and the
    components are the words of what follows the colon. *)
Lemma parse_components_first (before : list string) (rest : string)
      (after : list string) :
  forallb (fun l => negb (startswith "Components:" l)) before = true ->
  Publisher.parse_components (before ++ ("Components:" ++ rest)%string :: after)
  = Some (split_ws EmptyString rest).
Proof.
  induction before as [| l before IH]; intros H.
  - cbn [app]. unfold Publisher.parse_components.
    change (startswith "Components:" ("Components:" ++ rest)) with true.
    cbv iota.
    change (after_first ":"%char ("Components:" ++ rest)) with (Some rest).
    cbv iota. now rewrite split_ws_strip, map_strip_words.
  - cbn [forallb] in H. apply andb_true_iff in H. destruct H as [Hl Hs].
    apply negb_true_iff in Hl. cbn [app Publisher.parse_components].
    rewrite Hl. now apply IH.
Qed.

Lemma parse_components_none (lines : list string) :
  forallb (fun l => negb (startswith "Components:" l)) lines = true ->
  Publisher.parse_components lines = None.
Proof.
  induction lines as [| l lines IH]; intros H; [reflexivity |].
  cbn [forallb] in H. apply andb_true_iff in H. destruct H as [Hl Hs].
  apply negb_true_iff in Hl. cbn [Publisher.parse_components].
  rewrite Hl. now apply IH.
Qed.

Lemma word_one_line (w : string) : is_word w = true -> one_line w = true.
Proof.
  unfold is_word, one_line. intros H. apply andb_true_iff in H.
  destruct H as [_ H]. induction w as [| c w IH]; [reflexivity |].
  cbn in *. apply andb_true_iff in H. destruct H as [Hc Hw].
  rewrite (IH Hw), andb_true_r.
  destruct (Ascii.eqb_spec c "010"%char) as [-> |]; [discriminate | reflexivity].
Qed.

Lemma one_line_app (a b : string) :
  one_line (a ++ b)%string = one_line a && one_line b.
Proof. apply string_forall_app. Qed.

Lemma field_one_line (cs : list string) :
  forallb is_word cs = true -> one_line (components_field cs) = true.
Proof.
  unfold components_field. intros H. rewrite one_line_app.
  change (one_line "Components: ") with true. cbn [andb].
  induction cs as [| w cs IH]; [reflexivity |].
  cbn [forallb] in H. apply andb_true_iff in H. destruct H as [Hw Hs].
  destruct cs as [| w2 cs]; [now apply word_one_line |].
  change (String.concat " " (w :: w2 :: cs))
    with (w ++ " " ++ String.concat " " (w2 :: cs))%string.
  rewrite !one_line_app, (word_one_line _ Hw), (IH Hs). reflexivity.
Qed.

Lemma forallb_other_one_line (ls : list string) :
  forallb other_field ls = true -> forallb one_line ls = true.
Proof.
  induction ls as [| l ls IH]; [reflexivity |]. cbn [forallb]. intros H.
  apply andb_true_iff in H. destruct H as [Hl Hs]. unfold other_field in Hl.
  apply andb_true_iff in Hl. destruct Hl as [Hl _]. now rewrite Hl, IH.
Qed.

Lemma forallb_other_not_field (ls : list string) :
  forallb other_field ls = true ->
  forallb (fun l => negb (startswith "Components:" l)) ls = true.
Proof.
  induction ls as [| l ls IH]; [reflexivity |]. cbn [forallb]. intros H.
  apply andb_true_iff in H. destruct H as [Hl Hs]. unfold other_field in Hl.
  apply andb_true_iff in Hl. destruct Hl as [_ Hl]. now rewrite Hl, IH.
Qed.

Lemma split_lines_file (before : list string) (l : string) (after : list string) :
  forallb one_line before = true -> one_line l = true ->
  forallb one_line after = true ->
  split_lines (text (before ++ l :: after)) = before ++ l :: after.
Proof.
  intros Hb Hl Ha.
  assert (F : forallb one_line (before ++ l :: after) = true).
  { rewrite forallb_app. cbn [forallb]. now rewrite Hb, Hl, Ha. }
  destruct (before ++ l :: after) as [| x xs] eqn:E.
  - now destruct before.
  - now apply split_lines_text.
Qed.

End Components.



(** ** The [publish] command of the command line *)

Lemma construct_fails (args : CliPublish.Args) :
  CliPublish.construct args
  = inl (CliPublish.TypeError "auto_bump").
Proof. reflexivity. Qed.

(** X25.  The [publish] command of the command line never reaches the
    publisher: it passes the keyword [auto_bump], which the constructor
    of [AptlyPublisher] does not take.  Whatever the options and the
    host, no process is run and nothing is written or logged; the
    command exits with status 1, or, with [--verbose] (and a key when
    signing is asked), lets the [TypeError] of the call through. *)
Theorem cli_publish_stops_at_the_constructor :
  forall (W : Type) (os : Host.OS W) (args : CliPublish.Args)
         (amb : Publisher.Ambient) (r : Host.Run W),
    let res := CliPublish.cmd_publish args amb r in
    snd res = r
    /\ fst res
       = if CliPublish.verbose args
            && negb (CliPublish.sign args
                     && negb (Py.truthy (CliPublish.keyid args)))
         then CliPublish.Raised (CliPublish.TypeError "auto_bump")
         else CliPublish.Exited 1.
Proof.
  intros W os args amb r. cbn zeta. unfold CliPublish.cmd_publish.
  rewrite construct_fails.
  destruct (CliPublish.sign args && negb (Py.truthy (CliPublish.keyid args)));
    destruct (CliPublish.verbose args); split; reflexivity.
Qed.

(** ** The report of the cleaner *)

Section Report.
Import Cleaner Reporting.

Lemma buckets_of_snoc l p :
  buckets_of (l ++ [p]) = bucket_append (Cleaner.channel p) (entry p) (buckets_of l).
Proof. unfold buckets_of. now rewrite fold_left_app. Qed.

Lemma mem_spec ch l : Py.mem ch l = true <-> In ch l.
Proof.
  unfold Py.mem. rewrite existsb_exists. split.
  - intros [x [I E]]. apply String.eqb_eq in E. now subst.
  - intros I. exists ch. split; [exact I | apply String.eqb_refl].
Qed.

Lemma bucket_append_keys ch e : forall d,
  map fst (bucket_append ch e d)
  = if Py.mem ch (map fst d) then map fst d else map fst d ++ [ch].
Proof.
  unfold Py.mem.
  induction d as [|[k es] rest IH]; cbn [bucket_append map fst existsb app];
    [reflexivity |].
  rewrite String.eqb_sym. destruct (String.eqb ch k); cbn [orb map fst];
    [reflexivity |].
  rewrite IH. now destruct (existsb (String.eqb ch) (map fst rest)).
Qed.

Lemma bucket_append_nodup ch e d :
  NoDup (map fst d) -> NoDup (map fst (bucket_append ch e d)).
Proof.
  intros ND. rewrite bucket_append_keys.
  destruct (Py.mem ch (map fst d)) eqn:M; [exact ND |].
  apply NoDup_app; [exact ND | constructor; [intros [] | constructor] |].
  intros x I [<- | []]. apply mem_spec in I. congruence.
Qed.

(** Where a bucket comes from, one package later. *)
Lemma bucket_append_in ch e k es : forall d,
  NoDup (map fst d) ->
  In (k, es) (bucket_append ch e d) ->
  (k <> ch /\ In (k, es) d)
  \/ (k = ch /\ exists es0, es = es0 ++ [e]
                 /\ (In (ch, es0) d \/ (es0 = [] /\ ~ In ch (map fst d)))).
Proof.
  induction d as [|[k0 es0] rest IH]; intros ND; cbn [bucket_append].
  - intros [E | []]. inversion E; subst. right. split; [reflexivity |].
    exists []. split; [reflexivity | right; split; [reflexivity | intros []]].
  - inversion ND as [|? ? N0 ND']; subst.
    destruct (String.eqb_spec k0 ch) as [-> | N].
    + intros [E | I].
      * inversion E; subst. right. split; [reflexivity |]. exists es0.
        split; [reflexivity | left; now left].
      * left. split; [| now right]. intros ->. apply N0.
        apply in_map_iff. exists (ch, es). now split.
    + intros [E | I].
      * inversion E; subst. left. split; [exact N | now left].
      * destruct (IH ND' I) as [[N' I'] | [-> [g1 [-> [I' | [-> N']]]]]].
        -- left. split; [exact N' | now right].
        -- right. split; [reflexivity |]. exists g1. split; [reflexivity |].
           left. now right.
        -- right. split; [reflexivity |]. exists []. split; [reflexivity |].
           right. split; [reflexivity |]. intros [X | X]; [now apply N | now apply N'].
Qed.

Lemma bucket_append_listed ch e : forall d,
  Permutation (List.concat (map snd (bucket_append ch e d))) (e :: List.concat (map snd d)).
Proof.
  induction d as [|[k es] rest IH]; cbn [bucket_append].
  - reflexivity.
  - destruct (String.eqb k ch); cbn [map snd List.concat].
    + rewrite <- app_assoc. apply Permutation_sym.
      change (e :: es ++ List.concat (map snd rest))
        with ([e] ++ es ++ List.concat (map snd rest)).
      rewrite (app_assoc [e]), (app_assoc es).
      apply Permutation_app_tail, Permutation_app_comm.
    + rewrite IH. apply Permutation_sym, Permutation_middle.
Qed.

Lemma buckets_of_listed l :
  Permutation (List.concat (map snd (buckets_of l))) (map entry l).
Proof.
  induction l as [|p l IH] using rev_ind; [reflexivity |].
  rewrite buckets_of_snoc, bucket_append_listed, map_app. cbn [map].
  rewrite IH. apply Permutation_cons_append.
Qed.

(** The buckets are the classes of the channel, none of them empty. *)
Lemma buckets_of_filters l :
  NoDup (map fst (buckets_of l))
  /\ (forall ch es, In (ch, es) (buckets_of l) ->
        es = map entry (filter (fun p => String.eqb (Cleaner.channel p) ch) l)
        /\ es <> [])
  /\ (forall p, In p l -> In (Cleaner.channel p) (map fst (buckets_of l))).
Proof.
  induction l as [|p l IH] using rev_ind.
  - split; [constructor | split; [intros k g [] | intros x []]].
  - destruct IH as [ND [Hg Hx]]. rewrite buckets_of_snoc.
    split; [now apply bucket_append_nodup | split].
    + intros k g I. rewrite filter_app, map_app. cbn [filter].
      apply bucket_append_in in I as [[N I] | [-> [g0 [-> [I | [-> N]]]]]]; auto.
      * destruct (String.eqb_spec (Cleaner.channel p) k) as [E | _];
          [now destruct N |].
        cbn [map]. rewrite app_nil_r. now apply Hg.
      * rewrite String.eqb_refl. destruct (Hg _ _ I) as [<- _].
        split; [reflexivity |]. intros X. apply app_eq_nil in X as [_ X].
        discriminate.
      * rewrite String.eqb_refl.
        assert (filter (fun x => String.eqb (Cleaner.channel x) (Cleaner.channel p)) l
                = []) as ->.
        { apply filter_none. intros x I.
          destruct (String.eqb_spec (Cleaner.channel x) (Cleaner.channel p)) as [E | _];
            [| reflexivity].
          destruct N. rewrite <- E. now apply Hx. }
        split; [reflexivity | discriminate].
    + intros x I. rewrite bucket_append_keys.
      apply in_app_or in I as [I | [<- | []]].
      * destruct (Py.mem _ _); [| apply in_or_app; left]; now apply Hx.
      * destruct (Py.mem _ _) eqn:M; [now apply mem_spec |].
        apply in_or_app. right. now left.
Qed.

Lemma no_repeat_spec l : no_repeat l = true <-> NoDup l.
Proof.
  induction l as [|p l IH]; cbn [no_repeat].
  - split; [constructor | reflexivity].
  - rewrite andb_true_iff, negb_true_iff, path_mem_false, IH. split.
    + intros [N D]. now constructor.
    + intros D. inversion D; subst. now split.
Qed.

Lemma sum_from (l : list Z) : forall a,
  fold_left Z.add l a = (a + fold_left Z.add l 0)%Z.
Proof.
  induction l as [|x l IH]; intros a; cbn [fold_left]; [lia |].
  rewrite (IH (a + x)%Z), (IH (0 + x)%Z). lia.
Qed.

Lemma sum_cons x l : sum (x :: l) = (x + sum l)%Z.
Proof. unfold sum. cbn [fold_left]. rewrite sum_from. lia. Qed.

Lemma sum_perm l l' : Permutation l l' -> sum l = sum l'.
Proof.
  induction 1 as [| x l l' _ IH | x y l | l l' l'' _ IH1 _ IH2].
  - reflexivity.
  - rewrite !sum_cons. lia.
  - rewrite !sum_cons. lia.
  - congruence.
Qed.

Lemma entry_paths l : map Reporting.path (map entry l) = map Cleaner.path l.
Proof. rewrite map_map. reflexivity. Qed.

Lemma entry_sizes l : map Reporting.size (map entry l) = map Cleaner.size l.
Proof. rewrite map_map. reflexivity. Qed.

Lemma report_spec policy listing pre lim :
  enumerates listing (pre ++ lim) = true ->
  let all := listing (pre ++ lim) in
  let r := generate_report policy listing pre lim in
  NoDup (map fst (by_channel r))
  /\ (forall ch es,
        In (ch, es) (by_channel r) ->
        es <> []
        /\ es = map entry (filter (fun p => String.eqb (Cleaner.channel p) ch) all))
  /\ NoDup (map Reporting.path (listed r))
  /\ (forall f, In f (map Reporting.path (listed r))
                <-> In f (map Cleaner.path (pre ++ lim)))
  /\ total_candidates (summary r) = Z.of_nat (List.length (listed r))
  /\ total_size_bytes (summary r) = sum (map Reporting.size (listed r))
  /\ (total_candidates (summary r)
      <= prerelease_candidates (summary r) + version_limit_candidates (summary r))%Z.
Proof.
  unfold enumerates. rewrite andb_true_iff, no_repeat_spec. intros [L D].
  cbn zeta. unfold generate_report, listed. cbn [summary by_channel total_candidates
    prerelease_candidates version_limit_candidates total_size_bytes].
  fold (buckets_of (listing (pre ++ lim))).
  set (all := listing (pre ++ lim)) in *.
  destruct (buckets_of_filters all) as [ND [Hg _]].
  pose proof (buckets_of_listed all) as P.
  assert (PP : Permutation (map Reporting.path (List.concat (map snd (buckets_of all))))
                           (map Cleaner.path all)).
  { rewrite <- entry_paths. now apply Permutation_map. }
  split; [exact ND |].
  split; [intros ch es I; destruct (Hg ch es I); now split |].
  split; [apply (Permutation_NoDup (Permutation_sym PP)); exact D |].
  split.
  { intros f. rewrite <- (listed_paths listing (pre ++ lim) f L). fold all.
    split; intros I.
    - now apply (Permutation_in f PP).
    - now apply (Permutation_in f (Permutation_sym PP)). }
  split.
  { rewrite (Permutation_length P), length_map. reflexivity. }
  split.
  { rewrite <- entry_sizes. apply sum_perm, Permutation_map, Permutation_sym, P. }
  assert (Le : (List.length (map Cleaner.path all)
                <= List.length (map Cleaner.path (pre ++ lim)))%nat).
  { apply NoDup_incl_length; [exact D |].
    intros f I. now apply (listed_paths listing (pre ++ lim) f L). }
  rewrite !length_map, length_app in Le. lia.
Qed.

End Report.

(** X26.  The report lists every candidate once.  When the set of the
    candidates is enumerated path by path, the channels of the report
    are distinct, the bucket of a channel is not empty and holds the
    candidates of that channel in the order of the enumeration, a path
    occurs in the buckets exactly when it is the path of a candidate of
    one of the two lists, and then once, also when the package is in
    both lists.  [total_candidates] is the number of packages in the
    buckets, [total_size_bytes] the sum of their sizes, and
    [total_candidates] is at most the sum of the two other counts. *)
Theorem report_lists_every_candidate_once :
  forall (policy : Cleaner.RetentionPolicy)
         (listing : list Cleaner.PackageInfo -> list Cleaner.PackageInfo)
         (pre lim : list Cleaner.PackageInfo),
    Reporting.enumerates listing (pre ++ lim) = true ->
    let all := listing (pre ++ lim) in
    let r := Reporting.generate_report policy listing pre lim in
    NoDup (map fst (Reporting.by_channel r))
    /\ (forall ch es,
          In (ch, es) (Reporting.by_channel r) ->
          es <> []
          /\ es = map Reporting.entry
                    (filter (fun p => String.eqb (Cleaner.channel p) ch) all))
    /\ NoDup (map Reporting.path (Reporting.listed r))
    /\ (forall f, In f (map Reporting.path (Reporting.listed r))
                  <-> In f (map Cleaner.path (pre ++ lim)))
    /\ Reporting.total_candidates (Reporting.summary r)
       = Z.of_nat (List.length (Reporting.listed r))
    /\ Reporting.total_size_bytes (Reporting.summary r)
       = Reporting.sum (map Reporting.size (Reporting.listed r))
    /\ (Reporting.total_candidates (Reporting.summary r)
        <= Reporting.prerelease_candidates (Reporting.summary r)
           + Reporting.version_limit_candidates (Reporting.summary r))%Z.
Proof. intros. now apply report_spec. Qed.

Lemma report_lists_every_candidate_once_witness :
  Reporting.enumerates (Files.first_of_each_path [])
    (firstn 2 Pool.five ++ (firstn 1 Pool.five ++ Pool.five_recent)) = true
  /\ let r := Reporting.generate_report Cleaner.default_policy
                (Files.first_of_each_path []) (firstn 2 Pool.five)
                (firstn 1 Pool.five ++ Pool.five_recent) in
     Reporting.total_candidates (Reporting.summary r)
     = Z.of_nat (List.length (Reporting.listed r)).
Proof.
  split; [vm_compute; reflexivity |].
  apply (report_lists_every_candidate_once Cleaner.default_policy
           (Files.first_of_each_path []) (firstn 2 Pool.five)
           (firstn 1 Pool.five ++ Pool.five_recent)).
  vm_compute; reflexivity.
Defined.

(** ** The analysis and the cleanup *)

Section AnalysisAndCleanup.
Import Cleaner Files.
Variable listing : list PackageInfo -> list PackageInfo.
Hypothesis listing_set : forall l, lists_the_set listing l = true.
Variable dpkg : Dpkg.
Variable re_match : string -> string -> bool.
Variable stat : Path -> Z * Z.
Variable from_file : string -> option RetentionPolicy.

(** The two commands scan the same channels. *)
Lemma same_scan repo tree (a : CliAnalyze.Args) :
  scan_packages repo tree (Some (CliAnalyze.channels_of a))
  = scan_packages repo tree (channels_of_arg (CliAnalyze.channels a)).
Proof.
  unfold CliAnalyze.channels_of, channels_of_arg, Py.truthy, Py.str.
  destruct (CliAnalyze.channels a) as [s|]; [| reflexivity].
  destruct s; reflexivity.
Qed.

(** What [--execute] leaves of the files: those that are no candidate. *)
Lemma cleanup_leaves repo pre lim fs f :
  In f (files (snd (cleanup listing repo pre lim false fs)))
  <-> In f (files fs) /\ ~ In f (map path (pre ++ lim)).
Proof.
  destruct (cleanup_account listing repo pre lim fs) as [F [[_ G] [Fl P]]].
  rewrite F. split; intros [I N]; (split; [exact I |]); intros X; apply N.
  - apply (listed_paths listing (pre ++ lim) f (listing_set _)) in X.
    apply (Permutation_in _ (Permutation_sym P)) in X.
    apply in_app_or in X as [X | X]; [exact X |].
    rewrite Forall_forall in Fl. destruct (Fl _ X); [contradiction | assumption].
  - apply (listed_paths listing (pre ++ lim) f (listing_set _)).
    apply (Permutation_in _ P), in_or_app. now left.
Qed.

Lemma analysis_and_cleanup (a : CliAnalyze.Args) (fs : FS) :
  match CliAnalyze.cmd_analyze dpkg re_match stat from_file a fs with
  | CliAnalyze.Exit1 =>
      forall dry,
        CliCleanup.cmd_cleanup listing dpkg re_match stat from_file
          (CliAnalyze.as_cleanup a dry) fs = CliCleanup.Exit1
  | CliAnalyze.Analysed r =>
      CliCleanup.cmd_cleanup listing dpkg re_match stat from_file
        (CliAnalyze.as_cleanup a true) fs = CliCleanup.Done fs
      /\ exists fs',
           CliCleanup.cmd_cleanup listing dpkg re_match stat from_file
             (CliAnalyze.as_cleanup a false) fs = CliCleanup.Done fs'
           /\ forall f,
                In f (files fs')
                <-> In f (files fs)
                    /\ ~ In f (map path (CliAnalyze.cleanup_candidates r
                                         ++ CliAnalyze.version_limit_candidates r))
  end.
Proof.
  unfold CliAnalyze.cmd_analyze, CliCleanup.cmd_cleanup, CliCleanup.policy_of,
    CliCleanup.candidates_of.
  cbn [CliAnalyze.as_cleanup CliCleanup.repo_path CliCleanup.dry_run
       CliCleanup.max_age_days CliCleanup.max_versions CliCleanup.channels
       CliCleanup.include_stable_prereleases CliCleanup.policy].
  destruct (negb (path_mem _ (entries fs))); [reflexivity |].
  change (cmd_cleanup_policy (CliAnalyze.max_age_days a) (CliAnalyze.max_versions a)
            (CliAnalyze.include_stable_prereleases a))
    with (CliAnalyze.cmd_analyze_policy a).
  destruct (if Py.truthy (CliAnalyze.policy a) then _ else _) as [pol|];
    [| reflexivity].
  rewrite same_scan.
  destruct (find_cleanup_candidates pol dpkg re_match _) as [pre lim].
  cbn [negb CliAnalyze.cleanup_candidates CliAnalyze.version_limit_candidates].
  split; [reflexivity |]. eexists. split; [reflexivity |].
  intros f. apply cleanup_leaves.
Qed.

End AnalysisAndCleanup.

(** X27.  The analysis predicts the cleanup.  On the same tree and with
    the same options, the computation of [analyze] (its scan and its
    candidates, before it prints) ends in the handler exactly when
    [cleanup] does; otherwise a dry run of [cleanup] leaves the tree as
    it is, and [cleanup --execute] leaves exactly the files that are not
    among the two lists of candidates of the analysis: also without
    [--channels], where the one command passes the three channels and
    the other none.  ([listing] enumerates the set of the
    candidates.) *)
Theorem analysis_predicts_cleanup :
  forall (listing : list Cleaner.PackageInfo -> list Cleaner.PackageInfo)
         (dpkg : Cleaner.Dpkg) (re_match : string -> string -> bool)
         (stat : Cleaner.Path -> Z * Z)
         (from_file : string -> option Cleaner.RetentionPolicy)
         (a : CliAnalyze.Args) (fs : Files.FS),
    (forall l, Files.lists_the_set listing l = true) ->
    match CliAnalyze.cmd_analyze dpkg re_match stat from_file a fs with
    | CliAnalyze.Exit1 =>
        forall dry,
          CliCleanup.cmd_cleanup listing dpkg re_match stat from_file
            (CliAnalyze.as_cleanup a dry) fs = CliCleanup.Exit1
    | CliAnalyze.Analysed r =>
        CliCleanup.cmd_cleanup listing dpkg re_match stat from_file
          (CliAnalyze.as_cleanup a true) fs = CliCleanup.Done fs
        /\ exists fs',
             CliCleanup.cmd_cleanup listing dpkg re_match stat from_file
               (CliAnalyze.as_cleanup a false) fs = CliCleanup.Done fs'
             /\ forall f,
                  In f (Files.files fs')
                  <-> In f (Files.files fs)
                      /\ ~ In f (map Cleaner.path
                                   (CliAnalyze.cleanup_candidates r
                                    ++ CliAnalyze.version_limit_candidates r))
    end.
Proof. intros. now apply analysis_and_cleanup. Qed.

(** X27 at work: the analysis of the small pool names the two packages
    of pr that [cleanup --execute] takes. *)
Lemma analysis_predicts_cleanup_witness :
  exists r fs',
    CliAnalyze.cmd_analyze Pool.dpkg Pool.no_match PoolRun.stat PoolRun.no_file
      PoolRun.analyze Pool.disk = CliAnalyze.Analysed r
    /\ CliCleanup.cmd_cleanup (Files.first_of_each_path []) Pool.dpkg Pool.no_match
         PoolRun.stat PoolRun.no_file (CliAnalyze.as_cleanup PoolRun.analyze false)
         Pool.disk = CliCleanup.Done fs'
    /\ forall f,
         In f (Files.files fs')
         <-> In f (Files.files Pool.disk)
             /\ ~ In f (map Cleaner.path
                          (CliAnalyze.cleanup_candidates r
                           ++ CliAnalyze.version_limit_candidates r)).
Proof.
  pose proof (analysis_predicts_cleanup (Files.first_of_each_path []) Pool.dpkg
                Pool.no_match PoolRun.stat PoolRun.no_file PoolRun.analyze Pool.disk
                first_of_each_path_lists) as H.
  destruct (CliAnalyze.cmd_analyze Pool.dpkg Pool.no_match PoolRun.stat
              PoolRun.no_file PoolRun.analyze Pool.disk) as [r|] eqn:E;
    [| vm_compute in E; discriminate].
  destruct H as [_ [fs' [D F]]]. exists r, fs'. split; [reflexivity |].
  split; [exact D | exact F].
Defined.
